(** * Event-generation pipeline: extraction, retry loops, image-search breaker
      and hierarchy persistence

    A shallow embedding of the parts of the prediction-market event generator
    that its specification makes claims about:

    - [app/services/ai/question_generator.py]: [generate_question],
      [generate_rules], [generate_followup_question];
    - [app/services/sports/sports_api.py]: [generate_question_from_api],
      [generate_multiple_question];
    - [app/models/event.py]: [EventData], [OptionData], [save_event];
    - [app/services/search/google_search.py]: [google_image_search] and
      [search_image], which the image-search wrapper calls;
    - [main.py]: [safe_google_image_search], [save_multi_option_event],
      [process_null_team_event].

    And of the code around them, the functions they call and the callers
    that use them:

    - [app/services/ai/question_generator.py]: [summary],
      [generate_search_sentence];
    - [app/services/sports/sports_api.py]: [fetch_sports_data],
      [organize_sports_events];
    - [app/services/scrapers/web_scraper.py]: [clean_text],
      [document_loader];
    - [app/services/search/google_search.py]: [search];
    - [app/utils/helper_functions.py]: [get_categories_with_topics];
    - [main.py]: [save_binary_event], [process_regular_event],
      [process_sport_events], and the loop of [main] over the collected
      items with the way it reads the keys of the categories.

    Modelling conventions.
    - A Python [str] is a list of 8-bit code points ([list ascii], read as
      Latin-1); the character classes of [re] and [str] are the ones CPython
      has on that range.
    - A Python [int] is a [Z]; [int()] of a run of decimal digits raises
      [ValueError] when the run has more than 4300 digits, the default
      limit of CPython, which the program leaves as it is.
    - The language model, the search service, the object storage and the
      document store are scripted collaborators: the [n]-th call of each gets
      the [n]-th answer of its script; the search service answers the
      requests of the [n]-th image search one by one.  Calls and sleeps are
      recorded in logs carried by the state, so that how many attempts were
      made, whether an image search went out and which writes happened in
      which order are statements about a run.
    - An exception is a value: a computation returns [Returned v] or
      [Raised e]; [try ... except Exception] is [try_except]. *)

From Stdlib Require Import ZArith String Ascii Bool Lia Arith List.
Import ListNotations.

Set Implicit Arguments.

(* ================================================================== *)
(** * Python strings *)
(* ================================================================== *)

Module Py.

Definition str := list ascii.

(** A string literal of the source. *)
Definition lit (s : string) : str := list_ascii_of_string s.

Definition code (c : ascii) : nat := nat_of_ascii c.

Definition between (lo hi n : nat) : bool := (lo <=? n) && (n <=? hi).

(** [str.isspace] on one character, which is also the class [\s] of [re]. *)
Definition isspace (c : ascii) : bool :=
  let n := code c in
  between 9 13 n || between 28 32 n || (n =? 133) || (n =? 160).

(** The class [\d] of [re]: decimal digits. *)
Definition isdecimal (c : ascii) : bool := between 48 57 (code c).

(** The class [\w] of [re]: [str.isalnum] or the underscore. *)
Definition isword (c : ascii) : bool :=
  let n := code c in
  between 48 57 n || between 65 90 n || (n =? 95) || between 97 122 n
  || (n =? 170) || between 178 179 n || (n =? 181) || between 185 186 n
  || between 188 190 n || between 192 214 n || between 216 246 n
  || between 248 255 n.

(** [str.lower] on one character. *)
Definition lower_char (c : ascii) : ascii :=
  let n := code c in
  if between 65 90 n || between 192 214 n || between 216 222 n
  then ascii_of_nat (n + 32) else c.

Definition lower (s : str) : str := map lower_char s.

Definition eqb_char (a b : ascii) : bool := Ascii.eqb a b.

Fixpoint eqb (a b : str) : bool :=
  match a, b with
  | [], [] => true
  | x :: a', y :: b' => eqb_char x y && eqb a' b'
  | _, _ => false
  end.

(** [x in l] for a list of strings. *)
Definition mem (x : str) (l : list str) : bool := existsb (eqb x) l.

Fixpoint startswith (p s : str) : bool :=
  match p, s with
  | [], _ => true
  | x :: p', y :: s' => eqb_char x y && startswith p' s'
  | _ :: _, [] => false
  end.

(** [s.find(sub)] counted from offset [i]: the lowest index at which [sub]
    occurs, or [-1]. *)
Fixpoint find_from (sub s : str) (i : Z) : Z :=
  if startswith sub s then i
  else match s with
       | [] => (-1)%Z
       | _ :: s' => find_from sub s' (i + 1)%Z
       end.

Definition find (sub s : str) : Z := find_from sub s 0%Z.

(** [sub in s]. *)
Definition contains (sub s : str) : bool := (0 <=? find sub s)%Z.

Definition len (s : str) : Z := Z.of_nat (length s).

(** The bound of a slice, as CPython normalises it: a negative index counts
    from the end, and the result is clamped to [0, len]. *)
Definition clamp (n i : Z) : Z :=
  let j := if (i <? 0)%Z then (i + n)%Z else i in
  Z.max 0 (Z.min n j).

(** [s[a:b]]. *)
Definition slice (s : str) (a b : Z) : str :=
  let n := len s in
  let lo := clamp n a in
  let hi := clamp n b in
  firstn (Z.to_nat (hi - lo)) (skipn (Z.to_nat lo) s).

(** [s[a:]]. *)
Definition slice_from (s : str) (a : Z) : str := slice s a (len s).

Fixpoint lstrip (s : str) : str :=
  match s with
  | c :: s' => if isspace c then lstrip s' else s
  | [] => []
  end.

Definition rstrip (s : str) : str := rev (lstrip (rev s)).

(** [s.strip()]. *)
Definition strip (s : str) : str := rstrip (lstrip s).

Definition digit_value (c : ascii) : Z := Z.of_nat (code c - 48).

(** The number a string of decimal digits (what a [(\d+)] group holds)
    stands for. *)
Definition int_of_digits (s : str) : Z :=
  fold_left (fun acc c => (10 * acc + digit_value c)%Z) s 0%Z.

(** The longest string of digits [int()] converts:
    [sys.int_info.default_max_str_digits]; the program does not change
    it. *)
Definition INT_MAX_STR_DIGITS : Z := 4300.

(** [int(s)] for a string of decimal digits: the number it stands for, or
    [None] when the string is longer than the limit (leading zeros count)
    and [int] raises [ValueError]. *)
Definition int (s : str) : option Z :=
  if (INT_MAX_STR_DIGITS <? Z.of_nat (length s))%Z then None
  else Some (int_of_digits s).

(** [s.endswith(suf)]. *)
Definition endswith (suf s : str) : bool := startswith (rev suf) (rev s).

(** [sum(l)]. *)
Definition sum (l : list Z) : Z := fold_right Z.add 0%Z l.

(** Truth value of a string: non-empty. *)
Definition truthy (s : str) : bool :=
  match s with [] => false | _ => true end.

(** Truth value of an optional string ([None] is false). *)
Definition truthy_opt (o : option str) : bool :=
  match o with Some s => truthy s | None => false end.

End Py.

(* ================================================================== *)
(** * The fragment of [re] the pipeline uses *)
(* ================================================================== *)

Module Re.

Import Py.

(** Members of a bracket class. *)
Inductive citem :=
| ILit (c : ascii)
| ISpace
| IDigit
| IWord.

(** Single-character patterns. *)
Inductive cset :=
| CLit (c : ascii)          (* a literal character *)
| CDot                      (* [.]: anything but a newline *)
| CSpace                    (* [\s] *)
| CDigit                    (* [\d] *)
| CWord                     (* [\w] *)
| COneOf (l : list citem).  (* [[...]] *)

Inductive regex :=
| REps
| RChar (c : cset)
| RSeq (r1 r2 : regex)
| RStar (r : regex)            (* [r*], greedy *)
| RLazyStar (r : regex)        (* [r*?] *)
| RPlus (r : regex)            (* [r+], greedy *)
| ROpt (r : regex)             (* [r?], greedy *)
| RRepeat (n : nat) (r : regex)  (* [r{n}] *)
| RGroup (i : nat) (r : regex)   (* capturing group number [i] *)
| RBoundary.                   (* [\b] *)

(** A literal word of a pattern. *)
Fixpoint RStr (s : str) : regex :=
  match s with
  | [] => REps
  | c :: s' => RSeq (RChar (CLit c)) (RStr s')
  end.

Definition newline : ascii := ascii_of_nat 10.

Definition lit_match (icase : bool) (p c : ascii) : bool :=
  if icase then eqb_char (lower_char p) (lower_char c) else eqb_char p c.

Definition citem_match (icase : bool) (i : citem) (c : ascii) : bool :=
  match i with
  | ILit p => lit_match icase p c
  | ISpace => isspace c
  | IDigit => isdecimal c
  | IWord => isword c
  end.

Definition cset_match (icase : bool) (cs : cset) (c : ascii) : bool :=
  match cs with
  | CLit p => lit_match icase p c
  | CDot => negb (eqb_char c newline)
  | CSpace => isspace c
  | CDigit => isdecimal c
  | CWord => isword c
  | COneOf l => existsb (fun i => citem_match icase i c) l
  end.

(** The matcher's position: the text already behind it (nearest character
    first), the text ahead, and the groups captured so far. *)
Record mstate := MState {
  before : list ascii;
  after : list ascii;
  caps : list (nat * str)
}.

Definition K := mstate -> option mstate.

Definition step (st : mstate) (c : ascii) (rest : list ascii) : mstate :=
  MState (c :: before st) rest (caps st).

Definition set_cap (i : nat) (v : str) (st : mstate) : mstate :=
  MState (before st) (after st) ((i, v) :: caps st).

Definition is_word_opt (o : option ascii) : bool :=
  match o with Some c => isword c | None => false end.

(** [\b]: exactly one of the two neighbours is a word character. *)
Definition at_boundary (st : mstate) : bool :=
  xorb (is_word_opt (hd_error (before st))) (is_word_opt (hd_error (after st))).

(** What a state consumed since [st0]. *)
Definition consumed (st0 st : mstate) : str :=
  firstn (length (after st0) - length (after st)) (after st0).

(** Repetition with backtracking.  One more round of [body] is only taken
    when it consumed something, so [fuel = length (after st)] rounds are all
    the rounds there can be. *)
Fixpoint star_loop (body : K -> K) (greedy : bool) (k : K)
    (fuel : nat) (st : mstate) : option mstate :=
  match fuel with
  | O => k st
  | S n =>
      let more (_ : unit) :=
        body (fun st' =>
                if length (after st') <? length (after st)
                then star_loop body greedy k n st' else None) st in
      if greedy
      then match more tt with Some r => Some r | None => k st end
      else match k st with Some r => Some r | None => more tt end
  end.

Fixpoint repeat_n (body : K -> K) (n : nat) (k : K) : K :=
  match n with
  | O => k
  | S n' => body (repeat_n body n' k)
  end.

(** Backtracking matcher in continuation-passing style: [rmatch ic r k st]
    is the first way, in the order [re] tries them, to match [r] at [st] and
    then succeed with [k]. *)
Fixpoint rmatch (icase : bool) (r : regex) (k : K) (st : mstate)
    {struct r} : option mstate :=
  match r with
  | REps => k st
  | RChar cs =>
      match after st with
      | c :: rest => if cset_match icase cs c then k (step st c rest) else None
      | [] => None
      end
  | RSeq r1 r2 => rmatch icase r1 (rmatch icase r2 k) st
  | RStar r1 => star_loop (rmatch icase r1) true k (length (after st)) st
  | RLazyStar r1 => star_loop (rmatch icase r1) false k (length (after st)) st
  | RPlus r1 =>
      rmatch icase r1
        (fun st' => star_loop (rmatch icase r1) true k (length (after st')) st')
        st
  | ROpt r1 =>
      match rmatch icase r1 k st with
      | Some res => Some res
      | None => k st
      end
  | RRepeat n r1 => repeat_n (rmatch icase r1) n k st
  | RGroup i r1 =>
      rmatch icase r1 (fun st' => k (set_cap i (consumed st st') st')) st
  | RBoundary => if at_boundary st then k st else None
  end.

(** A match object. *)
Record rmatch_obj := MatchObj {
  m_skipped : str;            (* text between the scan start and the match *)
  m_text : str;               (* [group(0)] *)
  m_caps : list (nat * str);
  m_end : mstate              (* position right after the match *)
}.

Definition match_here (icase : bool) (r : regex) (bef aft : list ascii)
  : option mstate :=
  rmatch icase r (fun st => Some st) (MState bef aft []).

(** Leftmost match at or after the current position; [skipped] collects,
    nearest first, the characters passed over. *)
Fixpoint scan (icase : bool) (r : regex) (skipped bef aft : list ascii)
  : option rmatch_obj :=
  match match_here icase r bef aft with
  | Some st' =>
      Some (MatchObj (rev skipped) (consumed (MState bef aft []) st')
                     (caps st') st')
  | None =>
      match aft with
      | [] => None
      | c :: rest => scan icase r (c :: skipped) (c :: bef) rest
      end
  end.

(** [re.search(r, s)]. *)
Definition search (icase : bool) (r : regex) (s : str) : option rmatch_obj :=
  scan icase r [] [] s.

(** [m.group(i)] for a group that took part in the match. *)
Fixpoint lookup_cap (i : nat) (l : list (nat * str)) : str :=
  match l with
  | [] => []
  | (j, v) :: l' => if i =? j then v else lookup_cap i l'
  end.

Definition group (m : rmatch_obj) (i : nat) : str :=
  match i with
  | O => m_text m
  | _ => lookup_cap i (m_caps m)
  end.

(** The successive non-overlapping matches, left to right.  After an empty
    match the scan moves on by one character. *)
Fixpoint matches_from (icase : bool) (r : regex) (fuel : nat)
    (bef aft : list ascii) : list rmatch_obj :=
  match fuel with
  | O => []
  | S n =>
      match scan icase r [] bef aft with
      | None => []
      | Some m =>
          let e := m_end m in
          match m_text m, after e with
          | [], c :: rest =>
              MatchObj (m_skipped m) [] (m_caps m) e
              :: matches_from icase r n (c :: before e) rest
          | [], [] => [m]
          | _ :: _, _ => m :: matches_from icase r n (before e) (after e)
          end
      end
  end.

(** [re.findall(r, s)] for a pattern with two groups: the pairs
    [(group 1, group 2)]. *)
Definition findall2 (icase : bool) (r : regex) (s : str) : list (str * str) :=
  map (fun m => (group m 1, group m 2))
      (matches_from icase r (S (length s)) [] s).

(** [re.sub(r, '', s)]: every match removed. *)
Fixpoint remove_from (icase : bool) (r : regex) (fuel : nat)
    (bef aft : list ascii) : str :=
  match fuel with
  | O => aft
  | S n =>
      match scan icase r [] bef aft with
      | None => aft
      | Some m =>
          let e := m_end m in
          match m_text m, after e with
          | [], c :: rest =>
              m_skipped m ++ c :: remove_from icase r n (c :: before e) rest
          | [], [] => m_skipped m
          | _ :: _, _ =>
              m_skipped m ++ remove_from icase r n (before e) (after e)
          end
      end
  end.

Definition sub_empty (icase : bool) (r : regex) (s : str) : str :=
  remove_from icase r (S (length s)) [] s.

End Re.

(* ================================================================== *)
(** * Results, exceptions and calendar dates *)
(* ================================================================== *)

Module Rt.

Import Py.

(** The exception classes that occur in the modelled code.  All of them are
    subclasses of [Exception]. *)
Inductive exn :=
| ValueError
| TypeError
| AttributeError
| RuntimeError
| ValidationError
| HTTPError (status : option Z)   (* [requests.exceptions.HTTPError], with
                                     the status of its response, if any *)
| ClientError.      (* whatever a collaborator's client raises *)

Inductive result (A : Type) :=
| Returned (a : A)
| Raised (e : exn).

Arguments Returned {A} a.
Arguments Raised {A} e.

Definition is_raised {A} (r : result A) : bool :=
  match r with Raised _ => true | Returned _ => false end.

(** [datetime.date]: year, month, day. *)
Record date := Date { year : Z; month : Z; day : Z }.

Definition is_leap (y : Z) : bool :=
  ((y mod 4 =? 0) && negb (y mod 100 =? 0) || (y mod 400 =? 0))%Z.

Definition days_in_month (y m : Z) : Z :=
  if (m =? 2)%Z then (if is_leap y then 29 else 28)%Z
  else if ((m =? 4) || (m =? 6) || (m =? 9) || (m =? 11))%Z then 30%Z
  else 31%Z.

(** A value [datetime.date] can hold. *)
Definition valid_date (d : date) : bool :=
  ((1 <=? year d) && (year d <=? 9999) && (1 <=? month d) && (month d <=? 12)
   && (1 <=? day d) && (day d <=? days_in_month (year d) (month d)))%Z.

(** [d.replace(year=y, month=m)]: the same day in another month, or
    [ValueError] when that month has no such day. *)
Definition date_replace (d : date) (y m : Z) : result date :=
  let d' := Date y m (day d) in
  if valid_date d' then Returned d' else Raised ValueError.

End Rt.

(* ================================================================== *)
(** * [app/services/search/google_search.py] *)
(* ================================================================== *)

Module GoogleSearch.

Import Py.

(** What [requests.head(link)] does: a status, a [RequestException], or
    another exception. *)
Inductive head_answer :=
| HeadStatus (status_code : Z)
| HeadRequestException
| HeadOtherError.

(** What [requests.get], [raise_for_status] and [json] give together: the
    [link] of each item of the answer ([None]: the item has none), the
    [HTTPError] of an answer whose status is an error (429 when the quota
    is used up), or another exception. *)
Inductive get_result :=
| GetItems (links : list (option str))
| GetHTTPError (status_code : Z)
| GetError.

(** The search service as [search_image] sees it: what the [n]-th [GET]
    gives, and how the [n]-th [HEAD] answers. *)
Record image_api := ImageApi {
  get_answer : nat -> get_result;
  head_answers : nat -> head_answer
}.

(** The requests made so far and the pauses taken. *)
Record net := Net {
  gets : nat;
  heads : list str;        (* the links checked, in order *)
  pauses : list Z
}.

Definition INSTAGRAM : str := lit "instagram".

(** How the loop over the items of one answer ends. *)
Inductive items_outcome :=
| Found (link : str)      (* [return link] *)
| NoneFound               (* the loop ran to its end *)
| Aborted.                (* an exception left the [try] of the attempt *)

(** The loop over the items of one answer. *)
Fixpoint check_items (api : image_api) (items : list (option str)) (s : net)
  : items_outcome * net :=
  match items with
  | [] => (NoneFound, s)
  | item :: rest =>
      match item with
      | None => check_items api rest s
      | Some link =>
          if negb (truthy link) || contains INSTAGRAM (lower link)
          then check_items api rest s
          else
            let s' := Net (gets s) (heads s ++ [link]) (pauses s) in
            match head_answers api (length (heads s)) with
            | HeadStatus status_code =>
                if (status_code =? 200)%Z then (Found link, s')
                else check_items api rest s'
            | HeadRequestException => check_items api rest s'
            | HeadOtherError => (Aborted, s')
            end
      end
  end.

(** [for attempt in range(1, max_retries + 1)], the first of the [n]
    attempts left being [attempt]. *)
Fixpoint search_image_attempts (api : image_api)
    (max_retries retry_delay : Z) (n : nat) (attempt : Z) (s : net)
  : option str * net :=
  match n with
  | O => (None, s)
  | S n' =>
      let s1 := Net (S (gets s)) (heads s) (pauses s) in
      let (outcome, s2) :=
        match get_answer api (gets s) with
        | GetItems items => check_items api items s1
        | GetHTTPError _ => (Aborted, s1)
        | GetError => (Aborted, s1)
        end in
      match outcome with
      | Found link => (Some link, s2)
      | _ =>
          let s3 :=
            if (attempt <? max_retries)%Z
            then Net (gets s2) (heads s2) (pauses s2 ++ [retry_delay])
            else s2 in
          search_image_attempts api max_retries retry_delay n'
            (attempt + 1)%Z s3
      end
  end.

(** [GoogleSearchService.search_image(query, max_retries, retry_delay)];
    the query only goes into the request. *)
Definition search_image (api : image_api) (query : str)
    (max_retries retry_delay : Z) (s : net) : option str * net :=
  search_image_attempts api max_retries retry_delay
    (Z.to_nat (max_retries + 1 - 1)) 1%Z s.

(** The first dictionary of [metatags], and an item of an answer of the
    text search. *)
Record metatag := Metatag {
  og_image : option str;
  article_published_time : option str
}.

Record search_item := SearchItem {
  it_title : option str;
  it_link : option str;
  it_display_link : option str;
  it_snippet : option str;
  it_metatags : option (list metatag)   (* [None]: no [pagemap] or no [metatags] *)
}.

(** A row of the data frame. *)
Record row := Row {
  Title : str;
  Link : str;
  Display_Link : str;
  Snippet : str;
  Image_URL : option str;
  Published_Time : option str
}.

(** The search service as [search] sees it: what the [n]-th [fetch] gives
    ([None]: no answer, or an answer without items), and what the [n]-th
    call of [get_date_time_from_snippet] gives. *)
Record text_api := TextApi {
  fetch_answer : nat -> option (list search_item);
  snippet_date : nat -> option str
}.

(** The requests made so far (their [start]), the snippets whose date was
    asked for, and the pauses taken. *)
Record text_net := TextNet {
  starts : list Z;
  dated : list str;
  waits : list Z
}.

Definition NA : str := lit "N/A".

Definition or_na (o : option str) : str :=
  match o with Some s => s | None => NA end.

(** The row made of an item; [None] when [metatags] is an empty list and
    taking its first element raises. *)
Definition row_of (api : text_api) (item : search_item) (s : text_net)
  : option (row * text_net) :=
  let snippet := or_na (it_snippet item) in
  match match it_metatags item with
        | None => Some (Metatag None None)
        | Some [] => None
        | Some (m :: _) => Some m
        end with
  | None => None
  | Some metatags =>
      let published_time := or_na (article_published_time metatags) in
      let dated_now := negb (truthy published_time) || eqb published_time NA in
      Some (Row (or_na (it_title item)) (or_na (it_link item))
                (or_na (it_display_link item)) snippet (og_image metatags)
                (if dated_now then snippet_date api (length (dated s))
                 else Some published_time),
            if dated_now
            then TextNet (starts s) (dated s ++ [snippet]) (waits s)
            else s)
  end.

(** The loop over the items of one answer; [None] when it raises. *)
Fixpoint take_items (api : text_api) (desired_recent_results : Z)
    (items : list search_item) (results : list row) (s : text_net)
  : option (list row * text_net) :=
  match items with
  | [] => Some (results, s)
  | item :: rest =>
      if (desired_recent_results <=? Z.of_nat (length results))%Z
      then Some (results, s)
      else
        match row_of api item s with
        | None => None
        | Some (r, s') =>
            take_items api desired_recent_results rest (results ++ [r]) s'
        end
  end.

(** [for batch in range(num_batches)], the first of the [n] batches left
    being [batch]; [None] when it raises. *)
Fixpoint search_batches (api : text_api)
    (results_per_request num_batches desired_recent_results delay : Z)
    (n : nat) (batch : Z) (results : list row) (s : text_net)
  : option (list row * text_net) :=
  match n with
  | O => Some (results, s)
  | S n' =>
      if (desired_recent_results <=? Z.of_nat (length results))%Z
      then Some (results, s)
      else
        let start := (batch * results_per_request + 1)%Z in
        let s1 := TextNet (starts s ++ [start]) (dated s) (waits s) in
        match match fetch_answer api (length (starts s)) with
              | Some items =>
                  take_items api desired_recent_results items results s1
              | None => Some (results, s1)
              end with
        | None => None
        | Some (results', s2) =>
            let s3 :=
              if (batch <? num_batches - 1)%Z
                 && (Z.of_nat (length results') <? desired_recent_results)%Z
              then TextNet (starts s2) (dated s2) (waits s2 ++ [delay])
              else s2 in
            search_batches api results_per_request num_batches
              desired_recent_results delay n' (batch + 1)%Z results' s3
        end
  end.

(** [GoogleSearchService.search(category, results_per_request,
    max_results, desired_recent_results, delay)]: the rows of the data
    frame; [None] when it raises, which a division by zero does before the
    first request. *)
Definition search (api : text_api) (category : str)
    (results_per_request max_results desired_recent_results delay : Z)
    (s : text_net) : option (list row * text_net) :=
  if (results_per_request =? 0)%Z then None
  else
    let num_batches := (max_results / results_per_request)%Z in
    search_batches api results_per_request num_batches
      desired_recent_results delay (Z.to_nat num_batches) 0%Z [] s.

End GoogleSearch.

(* ================================================================== *)
(** * Collaborators and the state of a run *)
(* ================================================================== *)

Module World.

Import Py Rt.

(** [bson.ObjectId].  The store hands identities out; [str()] of one and
    [ObjectId()] of that string are inverse, so the model carries the
    identity itself where the code carries its string. *)
Definition ObjectId := N.

(** [datetime.datetime] values are opaque. *)
Definition datetime := Z.

(** What one round trip to the language model does. *)
Inductive llm_answer :=
| PromptError                    (* formatting the prompt raised *)
| CallError                      (* [invoke] raised *)
| Content (c : option str).      (* [response.content] *)

(** What one call of [google_image_search] meets: the search service as
    it answers the requests of this call, or settings without a key or
    without an engine identifier, with which [GoogleSearchService()]
    raises. *)
Inductive img_answer :=
| ImgService (api : GoogleSearch.image_api)
| ImgNotConfigured.

(** What one call of [upload_image_to_s3] does: a stored URL, [None], or an
    exception. *)
Inductive s3_answer :=
| S3Stored (url : option str)
| S3Error.

(** What one call of [get_event_collection] gives. *)
Inductive coll_answer :=
| CollRaises
| CollNone
| CollOk.

(** The answers of the store to one use of a collection: whether the
    collection is obtained, and what [insert_one] ([None]: it raises) and
    [update_one] (the modified count, or [None]: it raises) answer on it. *)
Record db_answer := DbAnswer {
  ans_coll : coll_answer;
  ans_insert : option ObjectId;
  ans_update : option Z
}.

(** An entry of a multi-option probability: a dictionary with the keys
    [option] and [probability]. *)
Record option_entry := OptionEntry {
  opt_name : str;
  opt_prob : Z
}.

(** [OptionData] of [app/models/event.py]. *)
Record OptionData := MkOptionData {
  od_option : str;
  od_probability : Z;
  od_market : option ObjectId
}.

(** [EventData] of [app/models/event.py]; the fields the pipeline never
    sets keep their defaults and are left out. *)
Record EventData := MkEventData {
  is_approved : bool;
  is_child : bool;
  is_sport_page : bool;
  sport_key : option str;
  category : option ObjectId;
  topic : option ObjectId;
  has_options : bool;
  title : str;
  end_date : option datetime;
  event_description : str;
  rules : option str;
  probability_of_yes : option Z;
  probability_of_no : option Z;
  options : option (list OptionData);
  event_image : option str;
  source_link : option str
}.

(** The environment of a run: the scripts of the collaborators and the
    settings read at start-up. *)
Record env := Env {
  today : date;                            (* [datetime.now().date()] *)
  llm_script : nat -> llm_answer;
  img_script : nat -> img_answer;
  s3_script : nat -> s3_answer;
  db_script : nat -> db_answer;
  MAX_IMAGE_SEARCHES_PER_RUN : Z;
  DEFAULT_RETRY_COUNT : Z;
  DEFAULT_RETRY_DELAY : Z;
  parse_date : str -> option datetime;     (* [app.utils.date_utils.parse_date] *)
  coerce_datetime : str -> option datetime (* pydantic's [str] to [datetime] *)
}.

Inductive gen_event :=
| EvAsk                  (* one round trip to the model was started *)
| EvSleep (d : Z).       (* [asyncio.sleep(d)] *)

Inductive db_event :=
| DbConnect (a : coll_answer)
| DbInsert (doc : EventData) (res : option ObjectId)
| DbUpdate (pid : ObjectId) (opts : list OptionData) (res : option Z).

(** Messages of the persister's logger that tell its branches apart. *)
Inductive log_msg :=
| LogFailedToSaveParent          (* Failed to save the multi-option event. *)
| LogErrorSavingMultiOption      (* Error saving multi-option event ... *)
| LogChildCreated (name : str) (id : ObjectId)
| LogFailedToSaveChild (name : str)
| LogErrorProcessingOption (name : str)
| LogParentUpdated (n : nat)
| LogFailedToUpdateParent
| LogErrorUpdatingParent
| LogProcessed (n : Z)
| LogSkipping.

(** The mutable state of a run.  [IMAGE_SEARCH_DISABLED] and
    [IMAGE_SEARCH_COUNT] are the two globals of [main.py]. *)
Record state := State {
  llm_calls : nat;
  gen_log : list gen_event;
  IMAGE_SEARCH_DISABLED : bool;
  IMAGE_SEARCH_COUNT : Z;
  img_calls : nat;
  net_log : list str;            (* queries sent to [google_image_search] *)
  s3_calls : nat;
  db_calls : nat;
  db_log : list db_event;
  app_log : list log_msg
}.

(** The state a process starts in. *)
Definition initial_state : state :=
  State 0 [] false 0 0 [] 0 0 [] [].

(** Stateful computations that may raise. *)
Definition M (A : Type) := state -> result A * state.

Definition ret {A} (a : A) : M A := fun s => (Returned a, s).

Definition raise {A} (e : exn) : M A := fun s => (Raised e, s).

Definition bind {A B} (m : M A) (f : A -> M B) : M B :=
  fun s =>
    match m s with
    | (Returned a, s') => f a s'
    | (Raised e, s') => (Raised e, s')
    end.

(** [try: m  except Exception: h]. *)
Definition try_except {A} (m : M A) (h : exn -> M A) : M A :=
  fun s =>
    match m s with
    | (Returned a, s') => (Returned a, s')
    | (Raised e, s') => h e s'
    end.

Definition lift {A} (r : result A) : M A := fun s => (r, s).

Definition get : M state := fun s => (Returned s, s).

Definition modify (f : state -> state) : M unit := fun s => (Returned tt, f s).

Declare Scope py_scope.
Delimit Scope py_scope with py.
Notation "x <- m ;; k" := (bind m (fun x => k))
  (at level 61, m at next level, right associativity) : py_scope.
Notation "m ;;; k" := (bind m (fun _ => k))
  (at level 61, right associativity) : py_scope.
Open Scope py_scope.

(** [for i in range(n)] whose body either leaves the function with a value
    ([Some v]) or goes on to the next round ([None]). *)
Fixpoint for_range {R} (body : Z -> M (option R)) (n : nat) (i : Z)
  : M (option R) :=
  match n with
  | O => ret None
  | S n' =>
      r <- body i ;;
      match r with
      | Some v => ret (Some v)
      | None => for_range body n' (i + 1)%Z
      end
  end.

(** The number of rounds of [range(n)]. *)
Definition range_len (n : Z) : nat := Z.to_nat n.

Definition set_gen (c : nat) (l : list gen_event) (s : state) : state :=
  State c l (IMAGE_SEARCH_DISABLED s) (IMAGE_SEARCH_COUNT s) (img_calls s)
        (net_log s) (s3_calls s) (db_calls s) (db_log s) (app_log s).

Definition set_img (dis : bool) (cnt : Z) (calls : nat) (l : list str)
    (s : state) : state :=
  State (llm_calls s) (gen_log s) dis cnt calls l
        (s3_calls s) (db_calls s) (db_log s) (app_log s).

Definition set_s3 (c : nat) (s : state) : state :=
  State (llm_calls s) (gen_log s) (IMAGE_SEARCH_DISABLED s)
        (IMAGE_SEARCH_COUNT s) (img_calls s) (net_log s) c
        (db_calls s) (db_log s) (app_log s).

Definition set_db (c : nat) (l : list db_event) (s : state) : state :=
  State (llm_calls s) (gen_log s) (IMAGE_SEARCH_DISABLED s)
        (IMAGE_SEARCH_COUNT s) (img_calls s) (net_log s) (s3_calls s)
        c l (app_log s).

Definition set_app (l : list log_msg) (s : state) : state :=
  State (llm_calls s) (gen_log s) (IMAGE_SEARCH_DISABLED s)
        (IMAGE_SEARCH_COUNT s) (img_calls s) (net_log s) (s3_calls s)
        (db_calls s) (db_log s) l.

(** [asyncio.sleep(d)]. *)
Definition sleep (d : Z) : M unit :=
  modify (fun s => set_gen (llm_calls s) (gen_log s ++ [EvSleep d]) s).

(** A logger call. *)
Definition log (m : log_msg) : M unit :=
  modify (fun s => set_app (app_log s ++ [m]) s).

Section Collaborators.

Variable E : env.

(** One round trip to the model: the next answer of the script. *)
Definition ask_model : M llm_answer :=
  fun s =>
    (Returned (llm_script E (llm_calls s)),
     set_gen (S (llm_calls s)) (gen_log s ++ [EvAsk]) s).

(** [google_image_search(query)]: [GoogleSearchService()], then
    [search_image(query)] with the default retry settings.  The requests
    and the pauses of [search_image] are those of its run from an empty
    record; the state of the run keeps the query. *)
Definition google_image_search (query : str) : M (option str) :=
  fun s =>
    let s' := set_img (IMAGE_SEARCH_DISABLED s) (IMAGE_SEARCH_COUNT s)
                      (S (img_calls s)) (net_log s ++ [query]) s in
    match img_script E (img_calls s) with
    | ImgNotConfigured => (Raised ValueError, s')
    | ImgService api =>
        (Returned
           (fst (GoogleSearch.search_image api query (DEFAULT_RETRY_COUNT E)
                   (DEFAULT_RETRY_DELAY E) (GoogleSearch.Net 0 [] []))),
         s')
    end.

(** [upload_image_to_s3(url, key)]. *)
Definition upload_image_to_s3 (url : str) : M (option str) :=
  fun s =>
    match s3_script E (s3_calls s) with
    | S3Stored u => (Returned u, set_s3 (S (s3_calls s)) s)
    | S3Error => (Raised ClientError, set_s3 (S (s3_calls s)) s)
    end.

(** A collection handle remembers which answer of the store it stands for. *)
Definition collection := nat.

(** [get_event_collection()]: raises, or returns [None] or a collection. *)
Definition get_event_collection : M (option collection) :=
  fun s =>
    let n := db_calls s in
    let a := ans_coll (db_script E n) in
    let s' := set_db (S n) (db_log s ++ [DbConnect a]) s in
    match a with
    | CollRaises => (Raised RuntimeError, s')
    | CollNone => (Returned None, s')
    | CollOk => (Returned (Some n), s')
    end.

(** [collection.insert_one(doc)]: the new identity, or an exception. *)
Definition insert_one (c : collection) (doc : EventData) : M ObjectId :=
  fun s =>
    let r := ans_insert (db_script E c) in
    let s' := set_db (db_calls s) (db_log s ++ [DbInsert doc r]) s in
    match r with
    | Some id => (Returned id, s')
    | None => (Raised ClientError, s')
    end.

(** [collection.update_one] setting the [options] of the document [pid]:
    the modified count, or an exception. *)
Definition update_one (c : collection) (pid : ObjectId)
    (opts : list OptionData) : M Z :=
  fun s =>
    let r := ans_update (db_script E c) in
    let s' := set_db (db_calls s) (db_log s ++ [DbUpdate pid opts r]) s in
    match r with
    | Some n => (Returned n, s')
    | None => (Raised ClientError, s')
    end.

End Collaborators.

End World.

(* ================================================================== *)
(** * [app/services/ai/question_generator.py] *)
(* ================================================================== *)

Module QuestionGenerator.

Import Py Re Rt World.
Open Scope py_scope.

(** The section markers of a model response. *)
Definition GENERATED_QUESTION : str := lit "Generated Question:".
Definition PROBABILITY : str := lit "Probability:".
Definition MARKET_RESOLUTION_DATE : str := lit "Market Resolution Date:".

Definition colon : regex := RChar (CLit ":"%char).
Definition spaces : regex := RStar (RChar CSpace).
Definition digits : regex := RPlus (RChar CDigit).

(** [r'.*\?'] *)
Definition question_re : regex :=
  RSeq (RStar (RChar CDot)) (RChar (CLit "?"%char)).

(** [r'Yes\s*:\s*(\d+)'] *)
Definition yes_re : regex :=
  RSeq (RStr (lit "Yes")) (RSeq spaces (RSeq colon (RSeq spaces (RGroup 1 digits)))).

(** [r'No\s*:\s*(\d+)'] *)
Definition no_re : regex :=
  RSeq (RStr (lit "No")) (RSeq spaces (RSeq colon (RSeq spaces (RGroup 1 digits)))).

(** [[\w']] *)
Definition name_char : regex := RChar (COneOf [IWord; ILit "'"%char]).

(** The option pattern of [generate_question], token by token:
    [( [\w']+ (?: \s [\w']+ )* ) : \s* ( \d+ )]. *)
Definition option_re : regex :=
  RSeq (RGroup 1 (RSeq (RPlus name_char)
                       (RStar (RSeq (RChar CSpace) (RPlus name_char)))))
       (RSeq colon (RSeq spaces (RGroup 2 digits))).

(** The second component of the returned tuple: an [int] or a list of
    option dictionaries. *)
Inductive probability :=
| ProbInt (n : Z)
| ProbOptions (l : list option_entry).

(** [(question, probability_yes | options, probability_no, end_date)]. *)
Definition gq_tuple : Type :=
  option str * option probability * option Z * option str.

Definition none4 : gq_tuple := (None, None, None, None).

(** [generated_question = m.group(0)] when [re.search(pattern, ...)] matches. *)
Definition truncate_question (pattern : regex) (q : str) : str :=
  match search false pattern q with
  | Some m => group m 0
  | None => q
  end.

(** The dictionaries of the list comprehension that builds [option_array]:
    for each match, [option.strip()] and the number of [prob.strip()]. *)
Definition option_array_of (matches : list (str * str)) : list option_entry :=
  map (fun om => OptionEntry (strip (fst om)) (int_of_digits (strip (snd om))))
      matches.

(** The list comprehension itself; [None] when one of its [int(prob.strip())]
    raises. *)
Definition option_array (matches : list (str * str))
  : option (list option_entry) :=
  if forallb (fun om => match int (strip (snd om)) with
                        | Some _ => true | None => false end) matches
  then Some (option_array_of matches)
  else None.

Definition in_percent_range (p : Z) : bool := ((0 <=? p) && (p <=? 100))%Z.

Definition total_prob (l : list option_entry) : Z := sum (map opt_prob l).

(** The probability section of a response of [generate_question], when
    there is a probability marker. *)
Definition probability_section (data : str) : option str :=
  let prob_index := find PROBABILITY data in
  if (prob_index =? -1)%Z then None
  else
    let market_date_index := find MARKET_RESOLUTION_DATE data in
    Some (strip (slice data (prob_index + len PROBABILITY) market_date_index)).

(** The question of a response: between the question marker and the
    probability marker (or the end), stripped. *)
Definition question_section (data : str) : str :=
  let start_index := (find GENERATED_QUESTION data + len GENERATED_QUESTION)%Z in
  let end_index :=
    if contains PROBABILITY data then find PROBABILITY data else len data in
  strip (slice data start_index end_index).

(** What the parsing block of one attempt does with [response.content]:
    [Some t] when it executes [return t], [None] when the attempt goes on
    to the retry: the block falls through, or an [int] raises and the
    [except] clause of the block, which joins the same path, catches it. *)
Definition parse_response (data : str) : option gq_tuple :=
  if contains GENERATED_QUESTION data && contains MARKET_RESOLUTION_DATE data
  then
    let generated_question :=
      truncate_question question_re (question_section data) in
    let end_date :=
      strip (slice data
               (find MARKET_RESOLUTION_DATE data + len MARKET_RESOLUTION_DATE)
               (len data)) in
    match probability_section data with
    | Some section =>
        match search false yes_re section, search false no_re section with
        | Some binary_yes, Some binary_no =>
            match int (group binary_yes 1), int (group binary_no 1) with
            | Some yes_probability, Some no_probability =>
                if ((yes_probability + no_probability =? 100)
                    && in_percent_range yes_probability)%Z
                then Some (Some generated_question,
                           Some (ProbInt yes_probability),
                           Some no_probability, Some end_date)
                else Some none4
            | _, _ => None
            end
        | _, _ =>
            let option_matches := findall2 false option_re section in
            match option_matches with
            | _ :: _ =>
                match option_array option_matches with
                | Some option_array =>
                    if ((total_prob option_array =? 100)%Z
                        && forallb (fun o => in_percent_range (opt_prob o))
                                   option_array)
                    then Some (Some generated_question,
                               Some (ProbOptions option_array),
                               None, Some end_date)
                    else Some none4
                | None => None
                end
            | [] => Some none4
            end
        end
    | None => Some none4
    end
  else None.

(** [data = response.content] and the parsing block; a content that is not
    a string makes the [in] test raise. *)
Definition parse_content (c : option str) : result (option gq_tuple) :=
  match c with
  | Some data => Returned (parse_response data)
  | None => Raised TypeError
  end.

(** [current_date.replace(month=current_date.month + 4) if
    current_date.month <= 8 else current_date.replace(year=current_date.year
    + 1, month=(current_date.month + 4) % 12)] *)
Definition four_months_later (current_date : date) : result date :=
  if (month current_date <=? 8)%Z
  then date_replace current_date (year current_date) (month current_date + 4)
  else date_replace current_date (year current_date + 1)
                    ((month current_date + 4) mod 12).

Section WithEnv.

Variable E : env.

(** One round of the loop of [generate_question]. *)
Definition generate_question_attempt (delay : Z) (attempt : Z)
  : M (option gq_tuple) :=
  ans <- ask_model E ;;
  match ans with
  | PromptError => sleep delay ;;; ret None
  | CallError => sleep delay ;;; ret None
  | Content c =>
      r <- try_except (lift (parse_content c)) (fun _ => ret None) ;;
      match r with
      | Some t => ret (Some t)
      | None => sleep delay ;;; ret None
      end
  end.

(** [QuestionGeneratorService.generate_question].  The three text
    arguments only feed the prompt. *)
Definition generate_question
    (event_description category_name event_type : str)
    (max_retries delay : Z) : M gq_tuple :=
  _ <- lift (four_months_later (today E)) ;;
  r <- for_range (generate_question_attempt delay) (range_len max_retries) 0%Z ;;
  match r with
  | Some t => ret t
  | None => ret none4
  end.

(** [r'\*{2}'] *)
Definition bold_re : regex := RRepeat 2 (RChar (CLit "*"%char)).

(** [rules?] *)
Definition rules_opt_s : regex :=
  RSeq (RStr (lit "rule")) (ROpt (RChar (CLit "s"%char))).

(** [r'\*{2}\s*rules?\s*\*{2}'] *)
Definition bold_rules_re : regex :=
  RSeq bold_re (RSeq spaces (RSeq rules_opt_s (RSeq spaces bold_re))).

(** [r'\b[rR]ules?\b\s*:?\s*'] *)
Definition word_rules_re : regex :=
  RSeq RBoundary
    (RSeq (RChar (COneOf [ILit "r"%char; ILit "R"%char]))
      (RSeq (RStr (lit "ule"))
        (RSeq (ROpt (RChar (CLit "s"%char)))
          (RSeq RBoundary (RSeq spaces (RSeq (ROpt colon) spaces)))))).

(** The post-processing of [generate_rules]: the three [re.sub] calls, the
    first two with [re.IGNORECASE]. *)
Definition clean_rules (content : option str) : str :=
  let text := strip (match content with Some c => c | None => [] end) in
  let text := sub_empty true bold_rules_re text in
  let text := sub_empty true word_rules_re text in
  let text := strip (sub_empty false bold_re text) in
  strip text.

(** The [except] clause of the loops that only sleep between attempts. *)
Definition sleep_unless_last (max_retries delay attempt : Z) : M unit :=
  if (attempt <? max_retries - 1)%Z then sleep delay else ret tt.

(** One round of the loop of [generate_rules]: [Some r] when it executes
    [return r]. *)
Definition generate_rules_attempt (max_retries delay : Z) (attempt : Z)
  : M (option (option str)) :=
  ans <- ask_model E ;;
  match ans with
  | PromptError => sleep_unless_last max_retries delay attempt ;;; ret None
  | CallError => sleep_unless_last max_retries delay attempt ;;; ret None
  | Content c =>
      let cleaned := clean_rules c in
      if truthy cleaned then ret (Some (Some cleaned)) else ret (Some None)
  end.

(** [QuestionGeneratorService.generate_rules].  The question, the
    probability and the end date only feed the prompt and are left out. *)
Definition generate_rules (max_retries delay : Z) : M (option str) :=
  r <- for_range (generate_rules_attempt max_retries delay)
                 (range_len max_retries) 0%Z ;;
  match r with
  | Some v => ret v
  | None => ret None
  end.

(** One round of the loop of [generate_followup_question]. *)
Definition generate_followup_attempt (max_retries delay : Z) (attempt : Z)
  : M (option (option str)) :=
  ans <- ask_model E ;;
  match ans with
  | PromptError => sleep_unless_last max_retries delay attempt ;;; ret None
  | CallError => sleep_unless_last max_retries delay attempt ;;; ret None
  | Content c =>
      if truthy_opt c then
        let followup_question :=
          strip (match c with Some x => x | None => [] end) in
        let followup_question :=
          if endswith (lit "?") followup_question then followup_question
          else followup_question ++ lit "?" in
        ret (Some (Some followup_question))
      else
        (* [raise ValueError], caught by the [except] clause *)
        sleep_unless_last max_retries delay attempt ;;; ret None
  end.

(** [QuestionGeneratorService.generate_followup_question].  The event
    description only feeds the prompt and is left out. *)
Definition generate_followup_question (previous_question option_name : str)
    (max_retries delay : Z) : M (option str) :=
  if negb (truthy previous_question) || negb (truthy option_name)
  then ret None
  else
    r <- for_range (generate_followup_attempt max_retries delay)
                   (range_len max_retries) 0%Z ;;
    match r with
    | Some v => ret v
    | None => ret None
    end.

End WithEnv.

End QuestionGenerator.

(* ================================================================== *)
(** * [app/services/sports/sports_api.py] *)
(* ================================================================== *)

Module SportsApi.

Import Py Re Rt World QuestionGenerator.
Open Scope py_scope.

Definition EVENT_DESCRIPTION : str := lit "Event Description:".

(** [r'.*?\?'] *)
Definition question_lazy_re : regex :=
  RSeq (RLazyStar (RChar CDot)) (RChar (CLit "?"%char)).

(** The bracket class of the option names: [\w], the apostrophe (twice in
    the source), the hyphen and the ampersand. *)
Definition team_char : regex :=
  RChar (COneOf [IWord; ILit "'"%char; ILit "'"%char; ILit "-"%char;
                 ILit "&"%char]).

(** The option pattern of [generate_multiple_question], token by token:
    [( C+ (?: \s C+ )* ) : \s* ( \d+ )] with [C] the class [team_char]. *)
Definition team_option_re : regex :=
  RSeq (RGroup 1 (RSeq (RPlus team_char)
                       (RStar (RSeq (RChar CSpace) (RPlus team_char)))))
       (RSeq colon (RSeq spaces (RGroup 2 digits))).

(** The names [generate_multiple_question] refuses. *)
Definition placeholder_names : list str :=
  [lit "field"; lit "any other team"; lit "others"; lit "other team"].

(** The event description of a response: after its marker, to the end. *)
Definition description_section (data : str) : option str :=
  if contains EVENT_DESCRIPTION data
  then Some (strip (slice_from data
                      (find EVENT_DESCRIPTION data + len EVENT_DESCRIPTION)))
  else None.

(** [(question, yes_probability, no_probability, end_date, event_description)]. *)
Definition api_tuple : Type :=
  option str * option Z * option Z * option str * option str.

Definition none5 : api_tuple := (None, None, None, None, None).

(** The parsing block of one attempt of [generate_question_from_api];
    [None] when the attempt goes on to the retry, as in [parse_response]. *)
Definition parse_api_response (end_date : str) (data : str)
  : option api_tuple :=
  if contains GENERATED_QUESTION data then
    let generated_question :=
      truncate_question question_re (question_section data) in
    let event_description := description_section data in
    let prob_index := find PROBABILITY data in
    let fall_back :=
      if truthy generated_question && truthy_opt event_description
      then Some (Some generated_question, None, None, Some end_date,
                 event_description)
      else Some none5 in
    if negb (prob_index =? -1)%Z then
      let market_date_index :=
        if contains MARKET_RESOLUTION_DATE data
        then find MARKET_RESOLUTION_DATE data else len data in
      let section :=
        strip (slice data (prob_index + len PROBABILITY) market_date_index) in
      match search false yes_re section, search false no_re section with
      | Some binary_yes, Some binary_no =>
          match int (group binary_yes 1), int (group binary_no 1) with
          | Some yes_probability, Some no_probability =>
              if ((yes_probability + no_probability =? 100)
                  && in_percent_range yes_probability)%Z
              then Some (Some generated_question, Some yes_probability,
                         Some no_probability, Some end_date,
                         event_description)
              else fall_back
          | _, _ => None
          end
      | _, _ => Some none5
      end
    else fall_back
  else None.

(** [(question, options_array, None, event_description)]. *)
Definition multi_tuple : Type :=
  option str * option (list option_entry) * option Z * option str.

Definition multi_none : multi_tuple := (None, None, None, None).

(** The probability section of a response of [generate_multiple_question]. *)
Definition team_probability_section (data : str) : str :=
  let prob_index := find PROBABILITY data in
  let event_desc_index := find EVENT_DESCRIPTION data in
  if (0 <? event_desc_index)%Z
  then strip (slice data (prob_index + len PROBABILITY) event_desc_index)
  else strip (slice_from data (prob_index + len PROBABILITY)).

(** [all(opt['option'].lower() not in [...] for opt in option_array)] *)
Definition no_field_option (option_array : list option_entry) : bool :=
  forallb (fun o => negb (mem (lower (opt_name o)) placeholder_names))
          option_array.

(** The validation of an option array in [generate_multiple_question]. *)
Definition valid_team_options (option_array : list option_entry) : bool :=
  (total_prob option_array =? 100)%Z
  && forallb (fun o => in_percent_range (opt_prob o)) option_array
  && no_field_option option_array.

(** The parsing block of one attempt of [generate_multiple_question];
    [None] when the attempt goes on to the retry, as in [parse_response]. *)
Definition parse_multiple_response (data : str) : option multi_tuple :=
  if contains GENERATED_QUESTION data then
    let generated_question :=
      truncate_question question_lazy_re (question_section data) in
    let event_description := description_section data in
    match option_array
            (findall2 false team_option_re (team_probability_section data))
    with
    | Some (o :: l) =>
        let option_array := o :: l in
        if valid_team_options option_array
        then Some (Some generated_question, Some option_array, None,
                   event_description)
        else None
    | Some [] => None
    | None => None
    end
  else None.

(** [event_info] of the binary generator: only the end date is read back. *)
Record api_event_info := ApiEventInfo {
  info_event : str;
  info_end_date : str
}.

Section WithEnv.

Variable E : env.

(** One round of the loop of [generate_question_from_api]. *)
Definition generate_question_from_api_attempt (end_date : str) (delay : Z)
    (attempt : Z) : M (option api_tuple) :=
  ans <- ask_model E ;;
  match ans with
  | PromptError => sleep delay ;;; ret None
  | CallError => sleep delay ;;; ret None
  | Content c =>
      r <- try_except
             (lift (match c with
                    | Some data => Returned (parse_api_response end_date data)
                    | None => Raised TypeError
                    end))
             (fun _ => ret None) ;;
      match r with
      | Some t => ret (Some t)
      | None => sleep delay ;;; ret None
      end
  end.

(** [SportsApiService.generate_question_from_api].  Of [event_info] only
    the end date comes back in the result; the display form of the date
    computed before the loop only feeds the prompt, and computing it cannot
    raise (its [try] catches everything). *)
Definition generate_question_from_api (event_info : api_event_info)
    (max_retries delay : Z) : M api_tuple :=
  let end_date := info_end_date event_info in
  r <- for_range (generate_question_from_api_attempt end_date delay)
                 (range_len max_retries) 0%Z ;;
  match r with
  | Some t => ret t
  | None => ret none5
  end.

(** One round of the loop of [generate_multiple_question]: the whole body
    is one [try], followed by the sleep between attempts. *)
Definition generate_multiple_question_attempt (max_retries delay : Z)
    (attempt : Z) : M (option multi_tuple) :=
  ans <- ask_model E ;;
  r <- try_except
         (match ans with
          | PromptError => raise ClientError
          | CallError => raise ClientError
          | Content (Some data) => ret (parse_multiple_response data)
          | Content None => raise TypeError
          end)
         (fun _ => ret None) ;;
  match r with
  | Some t => ret (Some t)
  | None => sleep_unless_last max_retries delay attempt ;;; ret None
  end.

(** [SportsApiService.generate_multiple_question].  [event_info] only
    feeds the prompt and is left out. *)
Definition generate_multiple_question (max_retries delay : Z)
  : M multi_tuple :=
  r <- for_range (generate_multiple_question_attempt max_retries delay)
                 (range_len max_retries) 0%Z ;;
  match r with
  | Some t => ret t
  | None => ret multi_none
  end.

End WithEnv.

End SportsApi.

(* ================================================================== *)
(** * [app/models/event.py] *)
(* ================================================================== *)

Module Event.

Import Py Rt World.
Open Scope py_scope.

(** What the caller passes as [end_date]: [None], a [datetime], or a string
    that pydantic has to turn into one. *)
Inductive end_date_arg :=
| EndNone
| EndDatetime (d : datetime)
| EndStr (s : str).

Section WithEnv.

Variable E : env.

(** The constructor [EventData(...)] with the keyword arguments the pipeline
    gives it.  [title] and [event_description] are required strings: [None]
    is refused with a validation error, and so is an [end_date] string that
    is no date. *)
Definition EventData_init (is_child is_sport_page : bool)
    (sport_key : option str) (category topic : option ObjectId)
    (has_options : bool) (title : option str) (end_date : end_date_arg)
    (event_description : option str) (rules : option str)
    (probability_of_yes probability_of_no : option Z)
    (event_image source_link : option str) : result EventData :=
  match title, event_description with
  | Some t, Some d =>
      let build (ed : option datetime) :=
        Returned (MkEventData false is_child is_sport_page sport_key category
                    topic has_options t ed d rules probability_of_yes
                    probability_of_no None event_image source_link) in
      match end_date with
      | EndNone => build None
      | EndDatetime dt => build (Some dt)
      | EndStr s =>
          match coerce_datetime E s with
          | Some dt => build (Some dt)
          | None => Raised ValidationError
          end
      end
  | _, _ => Raised ValidationError
  end.

(** The values of the dictionary [save_event] returns. *)
Inductive value :=
| VStr (s : str)
| VIdStr (id : ObjectId).     (* [str(result.inserted_id)] *)

(** A [dict], in insertion order. *)
Definition dict := list (str * value).

(** Truth value of a dictionary: non-empty. *)
Definition dict_truthy (d : dict) : bool :=
  match d with [] => false | _ => true end.

Fixpoint dict_get (k : str) (d : dict) : option value :=
  match d with
  | [] => None
  | (k', v) :: d' => if Py.eqb k k' then Some v else dict_get k d'
  end.

Definition success_response (id : ObjectId) : dict :=
  [(lit "status", VStr (lit "success")); (lit "inserted_id", VIdStr id)].

(** [save_event(event_data)]. *)
Definition save_event (event_data : EventData) : M dict :=
  try_except
    (collection <- get_event_collection E ;;
     match collection with
     | None => raise RuntimeError
     | Some c =>
         inserted_id <- insert_one E c event_data ;;
         ret (success_response inserted_id)
     end)
    (fun _ => raise RuntimeError).

End WithEnv.

End Event.

(* ================================================================== *)
(** * [main.py] *)
(* ================================================================== *)

Module Main.

Import Py Rt World QuestionGenerator SportsApi Event.
Open Scope py_scope.

(** An item of the scraped-content path: [event] and its [row]. *)
Record regular_event := RegularEvent {
  category_id : option ObjectId;
  topic_id : option ObjectId;
  link : str
}.

(** An item of the sports path without teams. *)
Record null_team_event := NullTeamEvent {
  key : str;
  ev_topic : str;
  ev_title : str;
  ev_description : str;
  formatted_date : option str
}.

Section WithEnv.

Variable E : env.

(** [status == n], where [status] is [None] when the error has no response. *)
Definition status_is (n : Z) (status : option Z) : bool :=
  match status with
  | Some k => (k =? n)%Z
  | None => false
  end.

(** [safe_google_image_search(query)]. *)
Definition safe_google_image_search (query : str) : M (option str) :=
  s <- get ;;
  if IMAGE_SEARCH_DISABLED s then ret None
  else if (MAX_IMAGE_SEARCHES_PER_RUN E <=? IMAGE_SEARCH_COUNT s)%Z then ret None
  else
    try_except
      (modify (fun s => set_img (IMAGE_SEARCH_DISABLED s)
                                (IMAGE_SEARCH_COUNT s + 1) (img_calls s)
                                (net_log s) s) ;;;
       google_image_search E query)
      (fun e =>
         match e with
         | HTTPError status =>
             if status_is 429 status then
               modify (fun s => set_img true (IMAGE_SEARCH_COUNT s)
                                        (img_calls s) (net_log s) s) ;;;
               ret None
             else ret None
         | _ => ret None
         end).

(** The image of an event: search, then upload when an URL was found; a
    failed upload leaves the image unset. *)
Definition fetch_image (query : str) : M (option str) :=
  image_url <- safe_google_image_search query ;;
  if truthy_opt image_url then
    try_except
      (upload_image_to_s3 E (match image_url with Some u => u | None => [] end))
      (fun _ => ret None)
  else ret None.

(** [generate_rules] and [generate_followup_question] as the persister calls
    them, with the default retry settings. *)
Definition default_rules : M (option str) :=
  generate_rules E (DEFAULT_RETRY_COUNT E) (DEFAULT_RETRY_DELAY E).

Definition default_followup (question option_name : str) : M (option str) :=
  generate_followup_question E question option_name
    (DEFAULT_RETRY_COUNT E) (DEFAULT_RETRY_DELAY E).

(** [save_response["inserted_id"]] turned back into an [ObjectId]. *)
Definition inserted_id_of (save_response : dict) : M ObjectId :=
  match dict_get (lit "inserted_id") save_response with
  | Some (VIdStr id) => ret id
  | Some (VStr _) => raise ValueError
  | None => raise ValueError
  end.

(** The body of the loop over the options, which is the same in
    [save_multi_option_event] and [process_null_team_event] up to the fields
    of the child record ([build_child], given the follow-up title, the rules
    and the image).  [Some od] when the option gets its entry in
    [updated_options]. *)
Definition process_option (question : str)
    (build_child : option_entry -> option str -> option str -> option str ->
                   result EventData)
    (opt : option_entry) : M (option OptionData) :=
  try_except
    (let option_name := opt_name opt in
     let option_prob := opt_prob opt in
     binary_title <- default_followup question option_name ;;
     binary_event_image_url <- fetch_image option_name ;;
     rules <- default_rules ;;
     binary_event_data <-
       lift (build_child opt binary_title rules binary_event_image_url) ;;
     binary_save_response <- save_event E binary_event_data ;;
     if dict_truthy binary_save_response then
       binary_event_id <- inserted_id_of binary_save_response ;;
       log (LogChildCreated option_name binary_event_id) ;;;
       ret (Some (MkOptionData option_name option_prob (Some binary_event_id)))
     else
       log (LogFailedToSaveChild option_name) ;;; ret None)
    (fun _ => log (LogErrorProcessingOption (opt_name opt)) ;;; ret None).

(** [for option in options: ...], threading [updated_options] and
    [options_processed]. *)
Fixpoint save_children (question : str)
    (build_child : option_entry -> option str -> option str -> option str ->
                   result EventData)
    (options : list option_entry)
    (updated_options : list OptionData) (options_processed : Z)
  : M (list OptionData * Z) :=
  match options with
  | [] => ret (updated_options, options_processed)
  | opt :: rest =>
      r <- process_option question build_child opt ;;
      match r with
      | Some option_data =>
          save_children question build_child rest
            (updated_options ++ [option_data]) (options_processed + 1)%Z
      | None =>
          save_children question build_child rest
            updated_options options_processed
      end
  end.

(** The update of the parent with the option references: [Some false] when
    the block executes [return False]. *)
Definition patch_parent (parent_event_id : ObjectId)
    (updated_options : list OptionData) : M (option bool) :=
  match updated_options with
  | [] => ret None
  | _ :: _ =>
      try_except
        (db_collection <- get_event_collection E ;;
         match db_collection with
         | None => raise AttributeError
         | Some c =>
             modified_count <- update_one E c parent_event_id updated_options ;;
             if (0 <? modified_count)%Z
             then log (LogParentUpdated (length updated_options)) ;;; ret None
             else log LogFailedToUpdateParent ;;; ret (Some false)
         end)
        (fun _ => log LogErrorUpdatingParent ;;; ret (Some false))
  end.

(** What follows a saved parent in both persisters. *)
Definition children_and_patch (question : str)
    (build_child : option_entry -> option str -> option str -> option str ->
                   result EventData)
    (parent_event_id : ObjectId) (options : list option_entry) : M bool :=
  r <- save_children question build_child options [] 0%Z ;;
  let '(updated_options, options_processed) := r in
  p <- patch_parent parent_event_id updated_options ;;
  match p with
  | Some b => ret b
  | None => log (LogProcessed options_processed) ;;; ret true
  end.

(** The child record of the scraped-content path. *)
Definition regular_child (event : regular_event) (end_date description : str)
    (opt : option_entry) (binary_title rules image : option str)
  : result EventData :=
  let prob_yes := opt_prob opt in
  let prob_no := (100 - prob_yes)%Z in
  EventData_init E true false None (category_id event) (topic_id event) false
    binary_title
    (match parse_date E end_date with
     | Some d => EndDatetime d | None => EndNone end)
    (Some description) rules (Some prob_yes) (Some prob_no) image
    (Some (link event)).

(** [save_multi_option_event(event, question, options, end_date,
    description, row)]. *)
Definition save_multi_option_event (event : regular_event) (question : str)
    (options : list option_entry) (end_date description : str) : M bool :=
  try_except
    (rules <- default_rules ;;
     parent_event_image_url <- fetch_image question ;;
     event_data <-
       lift (EventData_init E false false None (category_id event)
               (topic_id event) true (Some question)
               (match parse_date E end_date with
                | Some d => EndDatetime d | None => EndNone end)
               (Some description) rules None None parent_event_image_url
               (Some (link event))) ;;
     save_response <- save_event E event_data ;;
     if negb (dict_truthy save_response) then
       log LogFailedToSaveParent ;;; ret false
     else
       parent_event_id <- inserted_id_of save_response ;;
       children_and_patch question
         (regular_child event end_date description) parent_event_id options)
    (fun _ => log LogErrorSavingMultiOption ;;; ret false).

(** The child record of the sports path. *)
Definition null_team_child (event : null_team_event)
    (category_id : option ObjectId) (event_description : option str)
    (opt : option_entry) (binary_title rules image : option str)
  : result EventData :=
  let prob_yes := opt_prob opt in
  let prob_no := (100 - prob_yes)%Z in
  EventData_init E true true (Some (key event)) category_id None false
    binary_title
    (match formatted_date event with
     | Some d => EndStr d | None => EndNone end)
    event_description rules (Some prob_yes) (Some prob_no) image None.

(** [process_null_team_event(event, category_id)].  Nothing here is inside
    a [try] but the loop body and the patch. *)
Definition process_null_team_event (event : null_team_event)
    (category_id : option ObjectId) : M bool :=
  r <- generate_multiple_question E (DEFAULT_RETRY_COUNT E)
                                  (DEFAULT_RETRY_DELAY E) ;;
  let '(generated_question, prob1, prob2, event_description) := r in
  if negb (truthy_opt generated_question
           && truthy_opt (formatted_date event))
  then log LogSkipping ;;; ret false
  else
    let question := match generated_question with Some q => q | None => [] end in
    rules <- default_rules ;;
    parent_event_image_url <- fetch_image question ;;
    event_data <-
      lift (EventData_init E false true (Some (key event)) category_id None
              true generated_question
              (match formatted_date event with
               | Some d => EndStr d | None => EndNone end)
              event_description rules None None parent_event_image_url None) ;;
    save_response <- save_event E event_data ;;
    if negb (dict_truthy save_response) then
      log LogFailedToSaveParent ;;; ret false
    else
      parent_event_id <- inserted_id_of save_response ;;
      match prob1 with
      | Some options =>
          children_and_patch question
            (null_team_child event category_id event_description)
            parent_event_id options
      | None => raise TypeError
      end.

End WithEnv.

End Main.

(* ================================================================== *)
(** * Vocabulary of the statements *)
(* ================================================================== *)

Module Spec.

Import Py Re Rt World QuestionGenerator SportsApi Event Main.

(** ** Text *)

Definition qmark : ascii := "?"%char.

(** The text before the first newline. *)
Fixpoint first_line (s : str) : str :=
  match s with
  | [] => []
  | c :: s' => if eqb_char c newline then [] else c :: first_line s'
  end.

(** The prefix that ends at the first [c], when there is one. *)
Fixpoint to_first (c : ascii) (s : str) : option str :=
  match s with
  | [] => None
  | x :: s' =>
      if eqb_char x c then Some [x] else option_map (cons x) (to_first c s')
  end.

(** The prefix that ends at the last [c], when there is one. *)
Fixpoint to_last (c : ascii) (s : str) : option str :=
  match s with
  | [] => None
  | x :: s' =>
      match to_last c s' with
      | Some p => Some (x :: p)
      | None => if eqb_char x c then Some [x] else None
      end
  end.

(** The number a probability section gives after its first [Yes] label,
    and after its first [No] label. *)
Definition yes_percent (section : str) : option Z :=
  option_map (fun m => int_of_digits (group m 1)) (search false yes_re section).

Definition no_percent (section : str) : option Z :=
  option_map (fun m => int_of_digits (group m 1)) (search false no_re section).

(** The digits that stand for those two numbers. *)
Definition yes_numeral (section : str) : option str :=
  option_map (fun m => group m 1) (search false yes_re section).

Definition no_numeral (section : str) : option str :=
  option_map (fun m => group m 1) (search false no_re section).

(** A numeral that [int()] converts: one of at most 4300 digits. *)
Definition convertible (numeral : option str) : Prop :=
  match numeral with
  | Some digits => (Z.of_nat (length digits) <= INT_MAX_STR_DIGITS)%Z
  | None => True
  end.

(** Every numeral the parsing block of [generate_question] may convert in
    a probability section is convertible. *)
Definition numerals_convertible (section : str) : Prop :=
  convertible (yes_numeral section)
  /\ convertible (no_numeral section)
  /\ Forall (fun om => convertible (Some (strip (snd om))))
        (findall2 false option_re section).

(** An option name that is, whatever its case, one of the placeholders. *)
Definition is_placeholder (name : str) : bool :=
  mem (lower name) placeholder_names.

(** ** Model answers *)

(** An answer that gives the generators nothing to parse: a failed round
    trip, or a content without the question marker. *)
Definition unparseable (a : llm_answer) : Prop :=
  match a with
  | PromptError => True
  | CallError => True
  | Content None => True
  | Content (Some data) => contains GENERATED_QUESTION data = false
  end.

(** The model gives nothing to parse in any of the next [n] round trips. *)
Definition always_unparseable (E : env) (s : state) (n : nat) : Prop :=
  forall i, i < n -> unparseable (llm_script E (llm_calls s + i)).

(** The number of round trips in a log. *)
Fixpoint asks (l : list gen_event) : nat :=
  match l with
  | [] => 0
  | EvAsk :: l' => S (asks l')
  | EvSleep _ :: l' => asks l'
  end.

(** ** Properties of computations *)

(** [m] leaves every state in relation [R] with the state it started in. *)
Definition preserves (R : state -> state -> Prop) {A} (m : M A) : Prop :=
  forall s, R s (snd (m s)).

(** [m] never raises. *)
Definition returns {A} (m : M A) : Prop :=
  forall s, exists a, fst (m s) = Returned a.

(** The store is not touched and the persister's logger is not called. *)
Definition quiet (s s' : state) : Prop :=
  db_calls s' = db_calls s /\ db_log s' = db_log s /\ app_log s' = app_log s.

(** The breaker has tripped: the flag is set or the budget is used up. *)
Definition tripped (E : env) (s : state) : Prop :=
  IMAGE_SEARCH_DISABLED s = true
  \/ (MAX_IMAGE_SEARCHES_PER_RUN E <= IMAGE_SEARCH_COUNT s)%Z.

(** Between two states the flag was not cleared, the budget was not given
    back, and, if the breaker had tripped, no image search went out. *)
Definition breaker_kept (E : env) (s s' : state) : Prop :=
  (IMAGE_SEARCH_DISABLED s = true -> IMAGE_SEARCH_DISABLED s' = true)
  /\ ((MAX_IMAGE_SEARCHES_PER_RUN E <= IMAGE_SEARCH_COUNT s)%Z ->
      (MAX_IMAGE_SEARCHES_PER_RUN E <= IMAGE_SEARCH_COUNT s')%Z)
  /\ (tripped E s -> net_log s' = net_log s /\ img_calls s' = img_calls s).

(** The state after a search that went out with [query]: counted, and
    passed to [google_image_search]. *)
Definition searched (query : str) (s : state) : state :=
  set_img (IMAGE_SEARCH_DISABLED s) (IMAGE_SEARCH_COUNT s + 1)
          (S (img_calls s)) (net_log s ++ [query]) s.

(** What the [n]-th call of [google_image_search] gives the wrapper for
    [query]: the result of [search_image], or nothing when the service
    cannot be built. *)
Definition image_found (E : env) (query : str) (n : nat) : option str :=
  match img_script E n with
  | ImgService api =>
      fst (GoogleSearch.search_image api query (DEFAULT_RETRY_COUNT E)
             (DEFAULT_RETRY_DELAY E) (GoogleSearch.Net 0 [] []))
  | ImgNotConfigured => None
  end.

(** Image searches one after the other. *)
Fixpoint image_searches (E : env) (queries : list str)
  : M (list (option str)) :=
  match queries with
  | [] => ret []
  | q :: rest =>
      bind (safe_google_image_search E q) (fun r =>
      bind (image_searches E rest) (fun rs => ret (r :: rs)))
  end.

(** ** Persistence *)

(** The record is the binary child of the option. *)
Definition child_record_of (opt : option_entry) (doc : EventData) : Prop :=
  probability_of_yes doc = Some (opt_prob opt)
  /\ probability_of_no doc = Some (100 - opt_prob opt)%Z
  /\ is_child doc = true
  /\ has_options doc = false
  /\ options doc = None.

(** The record is a multi-option parent titled [question]. *)
Definition parent_record_of (question : str) (doc : EventData) : Prop :=
  title doc = question
  /\ is_child doc = false
  /\ has_options doc = true
  /\ options doc = None.

(** What the store sees of one option, and the entry the option gets in
    the final patch. *)
Inductive child_events (opt : option_entry)
  : list db_event -> option OptionData -> Prop :=
| child_not_built :
    child_events opt [] None
| child_no_collection a :
    a <> CollOk ->
    child_events opt [DbConnect a] None
| child_insert_failed doc :
    child_record_of opt doc ->
    child_events opt [DbConnect CollOk; DbInsert doc None] None
| child_inserted doc id :
    child_record_of opt doc ->
    child_events opt [DbConnect CollOk; DbInsert doc (Some id)]
      (Some (MkOptionData (opt_name opt) (opt_prob opt) (Some id))).

(** What the store sees of the options, one after the other, and the
    entries collected for the patch. *)
Inductive children_events
  : list option_entry -> list db_event -> list OptionData -> Prop :=
| children_nil :
    children_events [] [] []
| children_cons opt rest evs evs' r rs :
    child_events opt evs r ->
    children_events rest evs' rs ->
    children_events (opt :: rest) (evs ++ evs')
      (match r with Some od => od :: rs | None => rs end).

(** What the store sees of the final patch. *)
Inductive patch_events (pid : ObjectId)
  : list OptionData -> list db_event -> Prop :=
| patch_nothing :
    patch_events pid [] []
| patch_no_collection od ods a :
    a <> CollOk ->
    patch_events pid (od :: ods) [DbConnect a]
| patch_sent od ods res :
    patch_events pid (od :: ods)
      [DbConnect CollOk; DbUpdate pid (od :: ods) res].

(** What the store sees of a whole multi-option item. *)
Inductive item_events (question : str) (options : list option_entry)
  : list db_event -> Prop :=
| item_nothing :
    item_events question options []
| item_no_collection a :
    a <> CollOk ->
    item_events question options [DbConnect a]
| item_parent_failed doc :
    parent_record_of question doc ->
    item_events question options [DbConnect CollOk; DbInsert doc None]
| item_parent_saved doc pid cevs updated pevs :
    parent_record_of question doc ->
    children_events options cevs updated ->
    patch_events pid updated pevs ->
    item_events question options
      (DbConnect CollOk :: DbInsert doc (Some pid) :: cevs ++ pevs).

(** ** States of a run *)

(** The state after the model was asked, and after a sleep. *)
Definition asked (s : state) : state :=
  set_gen (S (llm_calls s)) (gen_log s ++ [EvAsk]) s.

Definition slept (d : Z) (s : state) : state :=
  set_gen (llm_calls s) (gen_log s ++ [EvSleep d]) s.

(** The state after [n] fruitless rounds of [generate_question]. *)
Fixpoint gq_exhausted (delay : Z) (n : nat) (s : state) : state :=
  match n with
  | O => s
  | S n' => gq_exhausted delay n' (slept delay (asked s))
  end.

(** The state after [n] fruitless rounds of [generate_multiple_question],
    the first of them being round [i]. *)
Fixpoint mq_exhausted (max_retries delay : Z) (n : nat) (i : Z) (s : state)
  : state :=
  match n with
  | O => s
  | S n' =>
      mq_exhausted max_retries delay n' (i + 1)%Z
        (if (i <? max_retries - 1)%Z then slept delay (asked s) else asked s)
  end.

(** The state after a use of the store that added [evs] to its log. *)
Definition stored (evs : list db_event) (s : state) : state :=
  set_db (S (db_calls s)) (db_log s ++ evs) s.

(** The two messages of the branches taken on a falsy [save_event] result. *)
Definition falsy_branch_msg (m : log_msg) : bool :=
  match m with
  | LogFailedToSaveParent => true
  | LogFailedToSaveChild _ => true
  | _ => false
  end.

(** Between two states the logger got none of those two messages. *)
Definition no_falsy_logged (s s' : state) : Prop :=
  exists l, app_log s' = app_log s ++ l
            /\ forallb (fun m => negb (falsy_branch_msg m)) l = true.

(** A builder of child records makes binary children of their option. *)
Definition builds_children
    (build_child : option_entry -> option str -> option str -> option str ->
                   result EventData) : Prop :=
  forall opt t r i doc,
    build_child opt t r i = Returned doc -> child_record_of opt doc.

(** ** A run in which every child can be built *)

(** A builder that builds a child whenever it is given a title. *)
Definition builds_titled
    (build_child : option_entry -> option str -> option str -> option str ->
                   result EventData) : Prop :=
  forall opt t r i, exists doc, build_child opt (Some t) r i = Returned doc.

(** The model answers every round trip with a non-empty content. *)
Definition talkative (E : env) : Prop :=
  forall n, exists c, llm_script E n = Content (Some c) /\ truthy c = true.

(** The store hands out its collection every time. *)
Definition reachable (E : env) : Prop :=
  forall n, ans_coll (db_script E n) = CollOk.

(** What the store sees of a child that is built and sent: the connection
    and the insert of its record, with the answer of the store. *)
Definition kid_events (k : EventData * option ObjectId) : list db_event :=
  [DbConnect CollOk; DbInsert (fst k) (snd k)].

(** The entries of the options whose child the store saved. *)
Fixpoint entries (options : list option_entry)
    (kids : list (EventData * option ObjectId)) : list OptionData :=
  match options, kids with
  | o :: os, (_, Some id) :: ks =>
      MkOptionData (opt_name o) (opt_prob o) (Some id) :: entries os ks
  | _ :: os, (_, None) :: ks => entries os ks
  | _, _ => []
  end.

(** The patch of a reachable store: none without entries, else the
    connection and the update. *)
Definition patch_of (pid : ObjectId) (opts : list OptionData) (res : option Z)
  : list db_event :=
  match opts with
  | [] => []
  | _ :: _ => [DbConnect CollOk; DbUpdate pid opts res]
  end.

(** The children and the patch that follow a saved parent. *)
Definition fan_out (pid : ObjectId) (options : list option_entry)
    (kids : list (EventData * option ObjectId)) (res : option Z)
  : list db_event :=
  flat_map kid_events kids ++ patch_of pid (entries options kids) res.

(** ** The question patterns, piece by piece *)

(** The continuation of both patterns after the repetition: a question
    mark, then success. *)
Definition then_qmark : K :=
  rmatch false (RChar (CLit qmark)) (fun st => Some st).

(** The body of the repetition: one character that is no newline. *)
Definition dot : K -> K := rmatch false (RChar CDot).

Definition no_newline (l : str) : Prop :=
  Forall (fun c => eqb_char c newline = false) l.

(** The text ahead stops being matched by the dot at [tail]. *)
Definition line_end (tail : str) : Prop :=
  tail = [] \/ exists t, tail = newline :: t.

(** ** Concrete runs *)

(** A model that answers every round trip with the same text. *)
Definition constant_model (text : string) : nat -> llm_answer :=
  fun _ => Content (Some (lit text)).

(** A model that answers as listed, and fails after. *)
Definition scripted_model (l : list llm_answer) : nat -> llm_answer :=
  fun n => nth n l CallError.

(** A store whose [n]-th collection answers as listed, and fails after. *)
Definition scripted_store (l : list db_answer) : nat -> db_answer :=
  fun n => nth n l (DbAnswer CollRaises None None).

(** A search service that has no image for any query. *)
Definition no_image_api : GoogleSearch.image_api :=
  GoogleSearch.ImageApi (fun _ => GoogleSearch.GetItems [])
    (fun _ => GoogleSearch.HeadStatus 200).

(** An environment with the default settings (three attempts, delay two,
    two hundred image searches), no image found and dates that parse. *)
Definition env_of (d : date) (model : nat -> llm_answer)
    (store : nat -> db_answer) : env :=
  Env d model (fun _ => ImgService no_image_api) (fun _ => S3Stored None)
      store 200 3 2 (fun _ => Some 0%Z) (fun _ => Some 0%Z).

Definition mid_june : date := Date 2025 6 15.

(** A model that never writes the question marker. *)
Definition mute_model : nat -> llm_answer :=
  constant_model "I cannot help with that.".

(** A model whose every call fails. *)
Definition failing_model : nat -> llm_answer := fun _ => CallError.

(** A model that writes a follow-up question, whatever it is asked. *)
Definition followup_model : nat -> llm_answer :=
  constant_model "Will Alpha win the cup?".

Definition no_store : nat -> db_answer := scripted_store [].

(** A store that saves every record as number 7. *)
Definition saving_store : nat -> db_answer :=
  fun _ => DbAnswer CollOk (Some 7%N) (Some 1%Z).

(** A store that saves the parent as number 7 and refuses the child. *)
Definition child_refusing_store : nat -> db_answer :=
  scripted_store [DbAnswer CollOk (Some 7%N) (Some 1%Z);
                  DbAnswer CollOk None (Some 1%Z)].

(** A store that saves the parent as number 100, the first child as 101,
    refuses the second child, saves the third as 103 and applies the
    patch. *)
Definition second_child_refusing_store : nat -> db_answer :=
  scripted_store [DbAnswer CollOk (Some 100%N) None;
                  DbAnswer CollOk (Some 101%N) None;
                  DbAnswer CollOk None None;
                  DbAnswer CollOk (Some 103%N) None;
                  DbAnswer CollOk None (Some 1%Z)].

Definition valid_pair_response : str :=
  lit "Generated Question: Will X happen? Probability: Yes: 60%, No: 40% Market Resolution Date: 2025-12-01".

(** A response whose Yes numeral is 60 written with 4301 digits. *)
Definition long_numeral : str := repeat "0"%char 4299 ++ lit "60".

Definition long_numeral_section : str :=
  lit "Yes: " ++ long_numeral ++ lit "%, No: 40%".

Definition long_numeral_response : str :=
  lit "Generated Question: Will X happen? Probability: "
  ++ long_numeral_section ++ lit " Market Resolution Date: 2025-12-01".

Definition long_numeral_model : nat -> llm_answer :=
  fun _ => Content (Some long_numeral_response).

Definition invalid_pair_response : str :=
  lit "Generated Question: Will X happen? Probability: Yes: 60%, No: 30% Market Resolution Date: 2025-12-01".

Definition placeholder_response : str :=
  lit "Generated Question: Who wins the cup? Probability: Alpha: 80, Others: 20 Market Resolution Date: 2025-12-01".

Definition placeholder_sports_response : str :=
  lit "Generated Question: Who wins the cup? Probability: Alpha: 80, Others: 20 Event Description: The cup.".

Definition teams_response : str :=
  lit "Generated Question: Who wins the cup? Probability: Alpha: 80, Beta: 20 Event Description: The cup.".

Definition two_questions_response : str :=
  lit "Generated Question: Will A win? Or will B win? Probability: Yes: 60%, No: 40% Market Resolution Date: 2025-12-01".

Definition two_lines_response : str :=
  lit "Generated Question: Cup final." ++ [newline]
  ++ lit "Will A win? Probability: A: 60, B: 40 Event Description: The cup.".

Definition invalid_then_valid_model : nat -> llm_answer :=
  scripted_model [Content (Some invalid_pair_response);
                  Content (Some valid_pair_response);
                  Content (Some valid_pair_response)].

Definition bold_rules_then_text_model : nat -> llm_answer :=
  scripted_model
    [Content (Some (lit "**Rules**"));
     Content (Some (lit "The market resolves to Yes if X happens."));
     Content (Some (lit "The market resolves to Yes if X happens."))].

(** A model that gives nothing to parse, then a valid answer. *)
Definition mute_then_valid_model : nat -> llm_answer :=
  scripted_model [Content (Some (lit "I cannot help with that."));
                  Content (Some valid_pair_response);
                  Content (Some valid_pair_response)].

Definition mute_then_teams_model : nat -> llm_answer :=
  scripted_model [Content (Some (lit "I cannot help with that."));
                  Content (Some teams_response);
                  Content (Some teams_response)].

(** A search service that answers every request with the quota error
    (HTTP 429), and one that has an image for every query. *)
Definition quota_api : GoogleSearch.image_api :=
  GoogleSearch.ImageApi (fun _ => GoogleSearch.GetHTTPError 429)
    (fun _ => GoogleSearch.HeadStatus 200).

Definition found_api : GoogleSearch.image_api :=
  GoogleSearch.ImageApi
    (fun _ => GoogleSearch.GetItems [Some (lit "https://example.org/i.png")])
    (fun _ => GoogleSearch.HeadStatus 200).

(** An image search that hits the quota during its first call and would
    find an image in every later one. *)
Definition quota_then_found (n : nat) : img_answer :=
  match n with
  | O => ImgService quota_api
  | _ => ImgService found_api
  end.

Definition quota_env : env :=
  Env mid_june followup_model quota_then_found (fun _ => S3Stored None)
      saving_store 200 3 2 (fun _ => Some 0%Z) (fun _ => Some 0%Z).

Definition cup_event : regular_event :=
  RegularEvent (Some 1%N) (Some 2%N) (lit "https://example.org/a").

Definition alpha_option : option_entry := OptionEntry (lit "Alpha") 30.

Definition alpha_child : EventData :=
  MkEventData false true false None (Some 1%N) (Some 2%N) false
    (lit "Will Alpha win?") (Some 0%Z) (lit "About the cup.") None
    (Some 30%Z) (Some 70%Z) None None (Some (lit "https://example.org/a")).

Definition single_option : list option_entry := [OptionEntry (lit "Alpha") 100].

Definition three_options : list option_entry :=
  [OptionEntry (lit "Alpha") 50; OptionEntry (lit "Beta") 30;
   OptionEntry (lit "Gamma") 20].

(** [save_multi_option_event] on the cup item and the given options. *)
Definition cup_run (options : list option_entry) (model : nat -> llm_answer)
    (store : nat -> db_answer) : result bool * state :=
  save_multi_option_event (env_of mid_june model store) cup_event
    (lit "Who wins the cup?") options (lit "2025-12-01")
    (lit "About the cup.") initial_state.

Definition single_option_run (model : nat -> llm_answer)
    (store : nat -> db_answer) : result bool * state :=
  cup_run single_option model store.

End Spec.

(* ================================================================== *)
(** * More of Python's [str] *)
(* ================================================================== *)

Module PyText.

Import Py.

Definition space : ascii := ascii_of_nat 32.

(** The double quote. *)
Definition dquote : ascii := ascii_of_nat 34.

Definition underscore : ascii := ascii_of_nat 95.

(** [sep.join(l)]. *)
Fixpoint join (sep : str) (l : list str) : str :=
  match l with
  | [] => []
  | x :: l' =>
      match l' with
      | [] => x
      | _ :: _ => x ++ sep ++ join sep l'
      end
  end.

(** [s.split()] read from the left; [cur] is the word being read, its
    last character first. *)
Fixpoint split_from (cur : str) (s : str) : list str :=
  match s with
  | [] => match cur with [] => [] | _ :: _ => [rev cur] end
  | c :: s' =>
      if isspace c then
        match cur with
        | [] => split_from [] s'
        | _ :: _ => rev cur :: split_from [] s'
        end
      else split_from (c :: cur) s'
  end.

(** [s.split()]: the words between runs of whitespace. *)
Definition split (s : str) : list str := split_from [] s.

(** [len(s.split())]. *)
Definition word_count (s : str) : Z := Z.of_nat (length (split s)).

Fixpoint split_on_from (sep : ascii) (cur : str) (s : str) : list str :=
  match s with
  | [] => [rev cur]
  | c :: s' =>
      if eqb_char c sep then rev cur :: split_on_from sep [] s'
      else split_on_from sep (c :: cur) s'
  end.

(** [s.split(sep)] for a separator of one character: the pieces between
    the separators, empty ones included. *)
Definition split_on (sep : ascii) (s : str) : list str :=
  split_on_from sep [] s.

(** The text before the last [sep] and the text after it. *)
Fixpoint split_last (sep : ascii) (s : str) : option (str * str) :=
  match s with
  | [] => None
  | c :: s' =>
      match split_last sep s' with
      | Some (a, b) => Some (c :: a, b)
      | None => if eqb_char c sep then Some ([], s') else None
      end
  end.

(** [s.rsplit(sep, 1)] for a separator of one character. *)
Definition rsplit1 (sep : ascii) (s : str) : list str :=
  match split_last sep s with
  | Some (a, b) => [a; b]
  | None => [s]
  end.

(** [s.replace(old, '')] read from the left; [skip] characters of an
    occurrence of [old] are still to be dropped. *)
Fixpoint remove_from (old : str) (skip : nat) (s : str) : str :=
  match s with
  | [] => []
  | c :: s' =>
      match skip with
      | S k => remove_from old k s'
      | O =>
          if startswith old s then remove_from old (length old - 1) s'
          else c :: remove_from old 0 s'
      end
  end.

(** [s.replace(old, '')]: the occurrences of [old], left to right and
    without overlap, taken out. *)
Definition replace_with_empty (old s : str) : str :=
  match old with
  | [] => s
  | _ :: _ => remove_from old 0 s
  end.

(** The line boundaries of [str.splitlines]. *)
Definition is_linebreak (c : ascii) : bool :=
  let n := code c in
  between 10 13 n || between 28 30 n || (n =? 133).

(** [s.splitlines()] read from the left; a carriage return followed by a
    line feed is one boundary. *)
Fixpoint splitlines_from (cur : str) (s : str) : list str :=
  match s with
  | [] => match cur with [] => [] | _ :: _ => [rev cur] end
  | c :: s' =>
      if is_linebreak c then
        rev cur ::
        match s' with
        | d :: s'' =>
            if (code c =? 13) && (code d =? 10) then splitlines_from [] s''
            else splitlines_from [] s'
        | [] => splitlines_from [] s'
        end
      else splitlines_from (c :: cur) s'
  end.

Definition splitlines (s : str) : list str := splitlines_from [] s.

(** Membership in [string.punctuation]. *)
Definition is_punctuation (c : ascii) : bool :=
  let n := code c in
  between 33 47 n || between 58 64 n || between 91 96 n || between 123 126 n.

(** [s.translate(str.maketrans('', '', string.punctuation))]. *)
Definition remove_punctuation (s : str) : str :=
  filter (fun c => negb (is_punctuation c)) s.

End PyText.

(* ================================================================== *)
(** * Dictionaries *)
(* ================================================================== *)

Module PyDict.

Import Py.

(** A [dict] with string keys, in insertion order. *)
Definition sdict (V : Type) := list (str * V).

(** [d.get(k)]. *)
Fixpoint lookup {V} (k : str) (d : sdict V) : option V :=
  match d with
  | [] => None
  | (k', v) :: d' => if eqb k k' then Some v else lookup k d'
  end.

(** [k in d]. *)
Definition has_key {V} (k : str) (d : sdict V) : bool :=
  match lookup k d with Some _ => true | None => false end.

(** [d[k] = v]: the value of an existing key is replaced where it stands,
    a new key goes to the end. *)
Fixpoint set {V} (k : str) (v : V) (d : sdict V) : sdict V :=
  match d with
  | [] => [(k, v)]
  | (k', v') :: d' =>
      if eqb k k' then (k', v) :: d' else (k', v') :: set k v d'
  end.

Definition keys {V} (d : sdict V) : list str := map fst d.

Definition values {V} (d : sdict V) : list V := map snd d.

End PyDict.

(* ================================================================== *)
(** * The rest of [app/services/ai/question_generator.py] *)
(* ================================================================== *)

Module QuestionGenerator2.

Import Py Rt World PyText.
Open Scope py_scope.

Definition SUMMARY : str := lit "Summary:".

Section WithEnv.

Variable E : env.

(** [openai_model.invoke(prompt.format(...))] outside any [try]: a prompt
    that cannot be formatted and a failed call are raised to the caller. *)
Definition invoke_model : M (option str) :=
  ans <- ask_model E ;;
  match ans with
  | PromptError => raise ClientError
  | CallError => raise ClientError
  | Content c => ret c
  end.

(** [response.content.strip()]; a content that is no string has no
    [strip]. *)
Definition content_strip (c : option str) : M str :=
  match c with
  | Some text => ret (strip text)
  | None => raise AttributeError
  end.

(** [QuestionGeneratorService.summary].  The description (cut to 8000
    characters) and the question only feed the prompt. *)
Definition summary (event_description : str) (generated_question : option str)
  : M str :=
  c <- invoke_model ;;
  summary_text <- content_strip c ;;
  let summary_text :=
    if contains SUMMARY summary_text
    then strip (replace_with_empty SUMMARY summary_text)
    else summary_text in
  if truthy summary_text then ret summary_text else content_strip c.

(** [QuestionGeneratorService.generate_search_sentence]. *)
Definition generate_search_sentence (category topic : str) : M str :=
  c <- invoke_model ;;
  search_query <- content_strip c ;;
  let search_query := strip (replace_with_empty [dquote] search_query) in
  if negb (contains (lower category) (lower search_query)) then
    let pieces := split_on space search_query in
    ret (topic ++ [space] ++ category ++ [space]
         ++ (if (1 <? Z.of_nat (length pieces))%Z then last pieces []
             else lit "news"))
  else ret search_query.

End WithEnv.

End QuestionGenerator2.

(* ================================================================== *)
(** * [app/services/scrapers/web_scraper.py] *)
(* ================================================================== *)

Module WebScraper.

Import Py Re PyText.

(** What the page loader yields next: a document, or an exception. *)
Inductive load_step :=
| Doc (page_content : str)
| LoadError.

(** The web as the scraper sees it: the English stop words of NLTK, and
    what [WebBaseLoader(url).alazy_load()] yields for a URL (a loader that
    cannot be built yields [LoadError] at once). *)
Record web := Web {
  stop_words : str -> bool;
  pages : str -> list load_step
}.

(** The two alternatives of the pattern of Reddit links, [reddit\.com] and
    [redd\.it]; the pattern is only used as a truth value, which is that of
    either alternative occurring. *)
Definition reddit_com_re : regex := RStr (lit "reddit.com").
Definition redd_it_re : regex := RStr (lit "redd.it").

Definition is_reddit (url : str) : bool :=
  match search true reddit_com_re url, search true redd_it_re url with
  | None, None => false
  | _, _ => true
  end.

Section WithWeb.

Variable W : web.

(** [clean_text(text)]. *)
Definition clean_text (text : str) : str :=
  let cleaned_text := lower (remove_punctuation text) in
  let cleaned_text := join [space] (split cleaned_text) in
  let cleaned_words :=
    filter (fun word => negb (stop_words W word)) (split cleaned_text) in
  join [space] cleaned_words.

(** The end of [document_loader]: the text, unless it has fewer than 50
    words. *)
Definition final_text_of (text_parts : list str) : option str :=
  let final_text := join [space] text_parts in
  if (word_count final_text <? 50)%Z then None else Some final_text.

(** The loop over the sentences of one document: [inl r] when it executes
    [return r], [inr] with the parts and the count when it ends. *)
Fixpoint load_sentences (word_limit : Z) (sentences : list str)
    (text_parts : list str) (count : Z)
  : option str + (list str * Z) :=
  match sentences with
  | [] => inr (text_parts, count)
  | sentence :: rest =>
      if truthy (strip sentence) then
        let cleaned_sentence := clean_text (strip sentence) in
        let sentence_words := word_count cleaned_sentence in
        if (count + sentence_words <=? word_limit)%Z
        then load_sentences word_limit rest
               (text_parts ++ [cleaned_sentence]) (count + sentence_words)%Z
        else inl (final_text_of text_parts)
      else load_sentences word_limit rest text_parts count
  end.

(** The loop over the documents; an exception of the loader ends it with
    [None]. *)
Fixpoint load_documents (word_limit : Z) (steps : list load_step)
    (text_parts : list str) (count : Z) : option str :=
  match steps with
  | [] => final_text_of text_parts
  | LoadError :: _ => None
  | Doc page_content :: rest =>
      match load_sentences word_limit (splitlines page_content)
              text_parts count with
      | inl r => r
      | inr (text_parts', count') =>
          load_documents word_limit rest text_parts' count'
      end
  end.

(** [document_loader(url, word_limit)]. *)
Definition document_loader (url : str) (word_limit : Z) : option str :=
  if is_reddit url then None
  else load_documents word_limit (pages W url) [] 0%Z.

End WithWeb.

End WebScraper.

(* ================================================================== *)
(** * [app/utils/helper_functions.py] and the keys [main] reads back *)
(* ================================================================== *)

Module HelperFunctions.

Import Py Rt PyText PyDict.

(** A document of the collection [categories]: [str(_id)], and [name] when
    the document has one. *)
Record category_doc := CategoryDoc {
  cd_id : str;
  cd_name : option str
}.

(** A document of the collection [topics]: [str(_id)], [name] when the
    document has one, and [str(topic.get("category"))]. *)
Record topic_doc := TopicDoc {
  td_id : str;
  td_name : option str;
  td_category : str
}.

(** [f"{name}_{id}"]. *)
Definition name_id (name id : str) : str := name ++ [underscore] ++ id.

(** The first loop: [categories[category_id] = category_name]; [None]
    when a category has no name ([KeyError]). *)
Fixpoint read_categories (cursor : list category_doc) (categories : sdict str)
  : option (sdict str) :=
  match cursor with
  | [] => Some categories
  | category :: rest =>
      match cd_name category with
      | None => None
      | Some name =>
          read_categories rest
            (set (cd_id category) (name_id name (cd_id category)) categories)
      end
  end.

(** [{name: [] for name in categories.values()}]. *)
Definition empty_topics_map (categories : sdict str) : sdict (list str) :=
  fold_left (fun m name => set name [] m) (values categories) [].

(** [topic.get('name', 'Unknown')]. *)
Definition topic_label (topic : topic_doc) : str :=
  match td_name topic with Some n => n | None => lit "Unknown" end.

(** [f"{topic.get('name', 'Unknown')}_{topic_id}"]. *)
Definition topic_key (topic : topic_doc) : str :=
  name_id (topic_label topic) (td_id topic).

(** The second loop: a topic is appended to the list of its category, when
    that category is known; [None] when the list to append to is missing
    ([KeyError]). *)
Fixpoint read_topics (cursor : list topic_doc) (categories : sdict str)
    (category_topics_map : sdict (list str)) : option (sdict (list str)) :=
  match cursor with
  | [] => Some category_topics_map
  | topic :: rest =>
      match lookup (td_category topic) categories with
      | Some category_name =>
          match lookup category_name category_topics_map with
          | Some topics =>
              read_topics rest categories
                (set category_name (topics ++ [topic_key topic])
                     category_topics_map)
          | None => None
          end
      | None => read_topics rest categories category_topics_map
      end
  end.

(** [get_categories_with_topics()], given what the two cursors yield
    ([None]: the collection or the cursor raises); any exception gives the
    empty dictionary. *)
Definition get_categories_with_topics
    (categories_cursor : option (list category_doc))
    (topics_cursor : option (list topic_doc)) : sdict (list str) :=
  match categories_cursor, topics_cursor with
  | Some cs, Some ts =>
      match read_categories cs [] with
      | Some categories =>
          match read_topics ts categories (empty_topics_map categories) with
          | Some category_topics_map => category_topics_map
          | None => []
          end
      | None => []
      end
  | _, _ => []
  end.

(** [name, id_str = key.rsplit("_", 1)], as [main] reads a category or a
    topic back before it gives [id_str] to [ObjectId]; [None] when the
    unpacking raises, which it does without an underscore. *)
Definition read_key (key : str) : option (str * str) :=
  match rsplit1 underscore key with
  | [name; id_str] => Some (name, id_str)
  | _ => None
  end.

End HelperFunctions.

(* ================================================================== *)
(** * Fixtures: the rest of [app/services/sports/sports_api.py] *)
(* ================================================================== *)

Module SportsData.

Import Py Rt PyText PyDict Main.

(** A sport of the odds service, as [GET /sports] lists it. *)
Record sport := Sport {
  sp_key : str;
  sp_group : str;
  sp_title : str;
  sp_description : str;
  sp_active : bool
}.

(** A fixture, as [GET /sports/<key>/events] lists it; a team is [None]
    when the key is missing or null. *)
Record fixture := Fixture {
  fx_id : str;
  fx_home_team : option str;
  fx_away_team : option str;
  fx_commence_time : str
}.

(** The entry of a sport in [results['details']]: its fixtures, or the
    dictionary with the key [error]. *)
Inductive sport_details :=
| DetailsEvents (events : list fixture)
| DetailsError.

(** [results]: the keys [categories] and [details]. *)
Record sports_results := SportsResults {
  categories : list sport;
  details : sdict sport_details
}.

(** The odds service: the answer to [GET /sports], and the answer to the
    [n]-th request for the fixtures of a sport; [None] is a
    [RequestException]. *)
Record odds_api := OddsApi {
  sports_answer : option (list sport);
  events_answer : nat -> option (list fixture)
}.

(** The loop of [fetch_sports_data] over the sports; [n] requests for
    fixtures were made so far. *)
Fixpoint fetch_details (api : odds_api) (sports : list sport) (n : nat)
    (details : sdict sport_details) : sdict sport_details :=
  match sports with
  | [] => details
  | category :: rest =>
      if negb (sp_active category) then fetch_details api rest n details
      else
        fetch_details api rest (S n)
          (set (sp_key category)
               (match events_answer api n with
                | Some events => DetailsEvents events
                | None => DetailsError
                end)
               details)
  end.

(** [fetch_sports_data()]; [None] when it raises, which it does when the
    list of sports cannot be fetched. *)
Definition fetch_sports_data (api : odds_api) : option sports_results :=
  match sports_answer api with
  | None => None
  | Some sports => Some (SportsResults sports (fetch_details api sports 0 []))
  end.

(** An entry of [organized_events]. *)
Record organized_event := OrganizedEvent {
  oe_key : str;
  oe_topic : str;
  oe_title : str;
  oe_description : str;
  oe_event_id : str;
  oe_event_description : str;
  oe_home_team : str;
  oe_away_team : str;
  oe_end_date : str;
  oe_formatted_date : str
}.

(** An entry of [null_team_events]: what [process_null_team_event] reads
    of it, and the rest. *)
Record null_team_entry := NullTeamEntry {
  ne_event : null_team_event;
  ne_event_id : str;
  ne_home_team : option str;
  ne_away_team : option str;
  ne_end_date : str
}.

Section WithClock.

(** [datetime.fromisoformat(t.replace('Z', '+00:00')).strftime('%Y-%m-%d
    %H:%M:%S')]; [None] when [t] is no ISO date and the call raises. *)
Variable formatted : str -> option str.

(** The entry made of one fixture: for the first list when both teams are
    there, for the second otherwise; [None] when the date raises. *)
Definition organize_event (category : sport) (event : fixture)
  : option (organized_event + null_team_entry) :=
  match formatted (fx_commence_time event) with
  | None => None
  | Some formatted_date =>
      match fx_home_team event, fx_away_team event with
      | Some home_team, Some away_team =>
          Some (inl (OrganizedEvent (sp_key category) (sp_group category)
                       (sp_title category) (sp_description category)
                       (fx_id event)
                       (home_team ++ lit " vs " ++ away_team)
                       home_team away_team (fx_commence_time event)
                       formatted_date))
      | _, _ =>
          Some (inr (NullTeamEntry
                       (NullTeamEvent (sp_key category) (sp_group category)
                          (sp_title category) (sp_description category)
                          (Some formatted_date))
                       (fx_id event) (fx_home_team event)
                       (fx_away_team event) (fx_commence_time event)))
      end
  end.

(** The loop over the fixtures of a sport. *)
Fixpoint organize_events (category : sport) (events : list fixture)
    (organized_events : list organized_event)
    (null_team_events : list null_team_entry)
  : option (list organized_event * list null_team_entry) :=
  match events with
  | [] => Some (organized_events, null_team_events)
  | event :: rest =>
      match organize_event category event with
      | None => None
      | Some (inl organized) =>
          organize_events category rest (organized_events ++ [organized])
            null_team_events
      | Some (inr null_team) =>
          organize_events category rest organized_events
            (null_team_events ++ [null_team])
      end
  end.

(** The loop over the sports. *)
Fixpoint organize_categories (sports : list sport)
    (details : sdict sport_details)
    (organized_events : list organized_event)
    (null_team_events : list null_team_entry)
  : option (list organized_event * list null_team_entry) :=
  match sports with
  | [] => Some (organized_events, null_team_events)
  | category :: rest =>
      match lookup (sp_key category) details with
      | Some (DetailsEvents events) =>
          match organize_events category events organized_events
                  null_team_events with
          | Some (organized_events', null_team_events') =>
              organize_categories rest details organized_events'
                null_team_events'
          | None => None
          end
      | Some DetailsError =>
          organize_categories rest details organized_events null_team_events
      | None =>
          organize_categories rest details organized_events null_team_events
      end
  end.

(** [organize_sports_events(results)]; [None] when it raises. *)
Definition organize_sports_events (results : sports_results)
  : option (list organized_event * list null_team_entry) :=
  organize_categories (categories results) (details results) [] [].

End WithClock.

End SportsData.

(* ================================================================== *)
(** * The rest of [main.py] *)
(* ================================================================== *)

Module Pipeline.

Import Py Rt World QuestionGenerator SportsApi Event Main.
Import PyText QuestionGenerator2 WebScraper SportsData.
Open Scope py_scope.

(** An entry of [all_events]: the names of the category and of the topic,
    and the identities and the row. *)
Record collected_event := CollectedEvent {
  category_name : str;
  topic_name : str;
  ids_and_row : regular_event
}.

(** The first probability as the field [probability_of_yes] holds it. *)
Definition yes_field (prob1 : option probability) : option Z :=
  match prob1 with
  | Some (ProbInt n) => Some n
  | _ => None
  end.

Section WithEnv.

Variable E : env.

(** The record of a Yes/No event of the scraped-content path.  The first
    probability is an [Optional[int]] field: a list is refused. *)
Definition binary_record (event : regular_event) (question : str)
    (prob1 : option probability) (prob2 : Z) (end_date description : str)
    (rules event_image_url : option str) : result EventData :=
  match prob1 with
  | Some (ProbOptions _) => Raised ValidationError
  | _ =>
      EventData_init E false false None (category_id event) (topic_id event)
        false (Some question)
        (match parse_date E end_date with
         | Some d => EndDatetime d | None => EndNone end)
        (Some description) rules (yes_field prob1) (Some prob2)
        event_image_url (Some (link event))
  end.

(** [save_binary_event(event, question, prob1, prob2, end_date,
    description, row)]. *)
Definition save_binary_event (event : regular_event) (question : str)
    (prob1 : option probability) (prob2 : Z) (end_date description : str)
  : M bool :=
  try_except
    (rules <- default_rules E ;;
     event_image_url <- fetch_image E question ;;
     event_data <-
       lift (binary_record event question prob1 prob2 end_date description
               rules event_image_url) ;;
     save_response <- save_event E event_data ;;
     if dict_truthy save_response then ret true else ret false)
    (fun _ => ret false).

Variable W : web.

(** [process_regular_event(event)].  The tuple [generate_question] returns
    is never falsy, so the test on it never skips.  A multi-option result
    whose options are no list makes [len(options)] raise before
    [save_multi_option_event] is entered. *)
Definition process_regular_event (event : collected_event) : M bool :=
  try_except
    (match document_loader W (link (ids_and_row event)) 1000 with
     | None => ret false
     | Some event_description =>
         result <- generate_question E event_description (category_name event)
                     (topic_name event) (DEFAULT_RETRY_COUNT E)
                     (DEFAULT_RETRY_DELAY E) ;;
         let '(generated_question, prob1, prob2, end_date) := result in
         event_description <- summary E event_description generated_question ;;
         match generated_question, end_date with
         | Some question, Some end_date =>
             if truthy question && truthy end_date then
               match prob2 with
               | Some prob2 =>
                   save_binary_event (ids_and_row event) question prob1 prob2
                     end_date event_description
               | None =>
                   match prob1 with
                   | Some (ProbOptions options) =>
                       save_multi_option_event E (ids_and_row event) question
                         options end_date event_description
                   | _ => raise TypeError
                   end
               end
             else ret false
         | _, _ => ret false
         end
     end)
    (fun _ => ret false).

(** The second phase of [main]: every collected event in turn, each in its
    own [try], with a pause after each that did not raise; the two counts
    come back. *)
Fixpoint process_collected_events (events : list collected_event)
    (successful_events failed_events : Z) : M (Z * Z) :=
  match events with
  | [] => ret (successful_events, failed_events)
  | event :: rest =>
      counted <-
        try_except
          (success <- process_regular_event event ;;
           sleep 2 ;;;
           ret (if success then (successful_events + 1, failed_events)%Z
                else (successful_events, failed_events + 1)%Z))
          (fun _ => ret (successful_events, failed_events + 1)%Z) ;;
      process_collected_events rest (fst counted) (snd counted)
  end.

(** The body of the first loop of [process_sport_events], for a fixture
    with both teams: whether the fixture is counted as processed. *)
Definition process_team_event (event : organized_event)
    (category_id : option ObjectId) : M bool :=
  try_except
    (r <- generate_question_from_api E
            (ApiEventInfo (oe_event_description event)
                          (oe_formatted_date event))
            (DEFAULT_RETRY_COUNT E) (DEFAULT_RETRY_DELAY E) ;;
     let '(generated_question, prob1, prob2, end_date, event_description) := r in
     match generated_question, end_date with
     | Some question, Some end_date =>
         if truthy question && truthy end_date then
           match prob2 with
           | Some prob2 =>
               rules <- default_rules E ;;
               event_image_url <- fetch_image E question ;;
               event_data <-
                 lift (EventData_init E false true (Some (oe_key event))
                         category_id None false (Some question)
                         (EndStr end_date) event_description rules prob1
                         (Some prob2) event_image_url None) ;;
               save_response <- save_event E event_data ;;
               if dict_truthy save_response then ret true else ret false
           | None => ret false
           end
         else ret false
     | _, _ => ret false
     end)
    (fun _ => ret false).

(** The first loop of [process_sport_events]. *)
Fixpoint process_team_events (events : list organized_event)
    (category_id : option ObjectId) (team_events_processed : Z) : M Z :=
  match events with
  | [] => ret team_events_processed
  | event :: rest =>
      saved <- process_team_event event category_id ;;
      process_team_events rest category_id
        (if saved then team_events_processed + 1 else team_events_processed)%Z
  end.

(** The second loop of [process_sport_events]: each fixture without teams
    in its own [try]. *)
Fixpoint process_null_team_events (events : list null_team_entry)
    (category_id : option ObjectId) (null_events_processed : Z) : M Z :=
  match events with
  | [] => ret null_events_processed
  | event :: rest =>
      success <-
        try_except (process_null_team_event E (ne_event event) category_id)
                   (fun _ => ret false) ;;
      process_null_team_events rest category_id
        (if success then null_events_processed + 1
         else null_events_processed)%Z
  end.

(** [process_sport_events(category_name, category_id)], given the odds
    service and the clock; the name is only logged, and the [except] clause
    logs and raises again.  The two counts, which the code only logs, come
    back. *)
Definition process_sport_events (api : odds_api)
    (formatted : str -> option str) (category_name : str)
    (category_id : option ObjectId) : M (Z * Z) :=
  match fetch_sports_data api with
  | None => raise ClientError
  | Some results =>
      match organize_sports_events formatted results with
      | None => raise ValueError
      | Some (organized_events, null_team_events) =>
          team_events_processed <-
            process_team_events organized_events category_id 0 ;;
          null_events_processed <-
            process_null_team_events null_team_events category_id 0 ;;
          ret (team_events_processed, null_events_processed)
      end
  end.

End WithEnv.

End Pipeline.

(* ================================================================== *)
(** * Vocabulary of the statements about the whole pipeline *)
(* ================================================================== *)

Module Props.

Import Py Rt World QuestionGenerator SportsApi Event Main Spec.
Import PyText PyDict WebScraper HelperFunctions SportsData Pipeline.

(** ** Retry loops *)

(** The number of sleeps in a log. *)
Fixpoint sleeps (l : list gen_event) : nat :=
  match l with
  | [] => 0
  | EvAsk :: l' => sleeps l'
  | EvSleep _ :: l' => S (sleeps l')
  end.

(** Between two states at most [n] round trips to the model were started
    and at most [n] sleeps were made, each of [delay]; the count of round
    trips of the state moved with the log. *)
Definition within_budget (n : nat) (delay : Z) (s s' : state) : Prop :=
  exists evs,
    gen_log s' = gen_log s ++ evs
    /\ llm_calls s' = llm_calls s + asks evs
    /\ asks evs <= n
    /\ sleeps evs <= n
    /\ Forall (fun e => e = EvAsk \/ e = EvSleep delay) evs.

(** ** Results of the generators *)

Definition percent (p : Z) : Prop := (0 <= p <= 100)%Z.

(** Options a generator may return: at least one, each probability a
    percentage, the probabilities summing to 100. *)
Definition valid_options (l : list option_entry) : Prop :=
  l <> [] /\ total_prob l = 100%Z /\ Forall (fun o => percent (opt_prob o)) l.

(** What [generate_question] may return. *)
Definition valid_question_result (t : gq_tuple) : Prop :=
  t = none4
  \/ (exists q yes no e,
         t = (Some q, Some (ProbInt yes), Some no, Some e)
         /\ (yes + no = 100)%Z /\ percent yes /\ percent no)
  \/ (exists q l e,
         t = (Some q, Some (ProbOptions l), None, Some e) /\ valid_options l).

(** What [generate_question_from_api] may return for an event that ends on
    [end_date]. *)
Definition valid_api_result (end_date : str) (t : api_tuple) : Prop :=
  t = none5
  \/ (exists q yes no d,
         t = (Some q, Some yes, Some no, Some end_date, d)
         /\ (yes + no = 100)%Z /\ percent yes /\ percent no)
  \/ (exists q d,
         t = (Some q, None, None, Some end_date, Some d)
         /\ truthy q = true /\ truthy d = true).

(** What [generate_multiple_question] may return. *)
Definition valid_multiple_result (t : multi_tuple) : Prop :=
  t = multi_none
  \/ (exists q l d,
         t = (Some q, Some l, None, d)
         /\ valid_options l
         /\ Forall (fun o => is_placeholder (opt_name o) = false) l).

(** ** Records *)

(** A record with consistent probabilities: a record with options is no
    child; any other record has a Yes and a No percentage that sum to
    100. *)
Definition sound_record (doc : EventData) : Prop :=
  options doc = None
  /\ if has_options doc
     then is_child doc = false
     else exists yes no,
            probability_of_yes doc = Some yes
            /\ probability_of_no doc = Some no
            /\ (yes + no = 100)%Z /\ percent yes /\ percent no.

(** The record is the Yes/No record of [question] with the two
    probabilities. *)
Definition binary_record_of (question : str) (yes : option Z) (no : Z)
    (doc : EventData) : Prop :=
  title doc = question
  /\ is_child doc = false
  /\ has_options doc = false
  /\ options doc = None
  /\ probability_of_yes doc = yes
  /\ probability_of_no doc = Some no.

(** What the store sees of a Yes/No event, and whether the event counts as
    saved: nothing when the record could not be built, a connection that
    gives no collection, a refused insert, or the insert of the record. *)
Inductive binary_events (question : str) (yes : option Z) (no : Z)
  : list db_event -> bool -> Prop :=
| binary_not_built :
    binary_events question yes no [] false
| binary_no_collection a :
    a <> CollOk ->
    binary_events question yes no [DbConnect a] false
| binary_insert_failed doc :
    binary_record_of question yes no doc ->
    binary_events question yes no [DbConnect CollOk; DbInsert doc None] false
| binary_inserted doc id :
    binary_record_of question yes no doc ->
    binary_events question yes no [DbConnect CollOk; DbInsert doc (Some id)]
      true.

(** An entry of a patch that points to a child and carries a percentage. *)
Definition sound_entry (od : OptionData) : Prop :=
  percent (od_probability od) /\ od_market od <> None.

(** A write that keeps the store consistent. *)
Definition sound_write (ev : db_event) : Prop :=
  match ev with
  | DbConnect _ => True
  | DbInsert doc _ => sound_record doc
  | DbUpdate _ opts _ => opts <> [] /\ Forall sound_entry opts
  end.

(** What the store may see of one fixture with teams: nothing, or the
    writes of a Yes/No event whose probabilities are percentages that sum
    to 100. *)
Definition binary_item_writes (evs : list db_event) (b : bool) : Prop :=
  (evs = [] /\ b = false)
  \/ (exists question yes no,
         binary_events question (Some yes) no evs b
         /\ (yes + no = 100)%Z /\ percent yes /\ percent no).

(** What the store may see of one scraped item: nothing, the writes of a
    Yes/No event whose probabilities are percentages that sum to 100, or
    the writes of a multi-option item with valid options. *)
Definition regular_item_writes (evs : list db_event) (b : bool) : Prop :=
  binary_item_writes evs b
  \/ (exists question options,
         item_events question options evs /\ valid_options options).

(** What a loop over fixtures comes to: a count that grew by at most the
    number of fixtures, and sound writes. *)
Definition loop_outcome (events : nat) (processed : Z) (s : state)
    (r : result Z * state) : Prop :=
  exists n evs,
    fst r = Returned n
    /\ (processed <= n <= processed + Z.of_nat events)%Z
    /\ db_log (snd r) = db_log s ++ evs
    /\ Forall sound_write evs.

(** The number of inserts and of updates in a log of the store. *)
Fixpoint inserts (l : list db_event) : nat :=
  match l with
  | [] => 0
  | DbInsert _ _ :: l' => S (inserts l')
  | _ :: l' => inserts l'
  end.

Fixpoint updates (l : list db_event) : nat :=
  match l with
  | [] => 0
  | DbUpdate _ _ _ :: l' => S (updates l')
  | _ :: l' => updates l'
  end.

(** ** The budget of image searches *)

(** Between two states the count of image searches moved with the calls of
    the network, never went down, and never went past the cap unless it
    was there before. *)
Definition budget_kept (E : env) (s s' : state) : Prop :=
  (IMAGE_SEARCH_COUNT s <= IMAGE_SEARCH_COUNT s')%Z
  /\ (Z.of_nat (img_calls s') - Z.of_nat (img_calls s)
      = IMAGE_SEARCH_COUNT s' - IMAGE_SEARCH_COUNT s)%Z
  /\ (Z.of_nat (length (net_log s')) - Z.of_nat (length (net_log s))
      = IMAGE_SEARCH_COUNT s' - IMAGE_SEARCH_COUNT s)%Z
  /\ (IMAGE_SEARCH_COUNT s'
      <= Z.max (IMAGE_SEARCH_COUNT s) (MAX_IMAGE_SEARCHES_PER_RUN E))%Z.

(** ** The page loader *)

(** The invariant of the two loops of [document_loader]: the count is the
    number of words of the parts joined, and once a part was taken the
    count is within the limit. *)
Definition loader_invariant (word_limit : Z) (text_parts : list str)
    (count : Z) : Prop :=
  count = word_count (join [space] text_parts)
  /\ (text_parts = [] \/ (count <= word_limit)%Z).

(** ** Words *)

(** A word as [str.split] gives it: not empty, no whitespace inside. *)
Definition wordlike (w : str) : Prop :=
  w <> [] /\ Forall (fun c => isspace c = false) w.

(** A character [clean_text] may leave: no punctuation, and lower case. *)
Definition clean_char (c : ascii) : Prop :=
  is_punctuation c = false /\ lower_char c = c.

(** ** Fixtures *)

(** Both teams of the fixture are known. *)
Definition has_teams (f : SportsData.fixture) : bool :=
  match SportsData.fx_home_team f, SportsData.fx_away_team f with
  | Some _, Some _ => true
  | _, _ => false
  end.

(** The fixtures [organize_sports_events] goes through, each with the
    sport it is listed under: those of the sports whose entry in the
    details is a list of fixtures, sport by sport. *)
Definition available_fixtures (results : SportsData.sports_results)
  : list (SportsData.sport * SportsData.fixture) :=
  flat_map
    (fun category =>
       match lookup (SportsData.sp_key category)
               (SportsData.details results) with
       | Some (SportsData.DetailsEvents events) => map (pair category) events
       | _ => []
       end)
    (SportsData.categories results).

(** The sport key and the identity of a fixture. *)
Definition fixture_ref (cf : SportsData.sport * SportsData.fixture)
  : str * str :=
  (SportsData.sp_key (fst cf), SportsData.fx_id (snd cf)).

(** What is known of the two lists while they grow. *)
Definition organized_so_far (formatted : str -> option str)
    (fixtures : list (sport * fixture))
    (organized : list organized_event) (nulls : list null_team_entry)
  : Prop :=
  map (fun o => (oe_key o, oe_event_id o)) organized
  = map fixture_ref (filter (fun cf => has_teams (snd cf)) fixtures)
  /\ map (fun n => (key (ne_event n), ne_event_id n)) nulls
     = map fixture_ref (filter (fun cf => negb (has_teams (snd cf))) fixtures)
  /\ Forall (fun o => oe_event_description o
                      = oe_home_team o ++ lit " vs " ++ oe_away_team o)
       organized
  /\ Forall (fun n => ne_home_team n = None \/ ne_away_team n = None) nulls
  /\ Forall (fun cf => formatted (fx_commence_time (snd cf)) <> None) fixtures.

(** What the loops of [organize_sports_events] come to on the fixtures
    they go through: the two lists, or the fixture whose date raised. *)
Definition organized_outcome (formatted : str -> option str)
    (fixtures : list (sport * fixture))
    (r : option (list organized_event * list null_team_entry)) : Prop :=
  match r with
  | Some (organized, nulls) =>
      organized_so_far formatted fixtures organized nulls
  | None =>
      exists cf, In cf fixtures /\ formatted (fx_commence_time (snd cf)) = None
  end.

(** ** Image search *)

(** A link [search_image] may return: not empty, without the word
    instagram, and the last link checked, whose check answered 200. *)
Definition checked_link (api : GoogleSearch.image_api) (link : str)
    (s : GoogleSearch.net) : Prop :=
  truthy link = true
  /\ contains GoogleSearch.INSTAGRAM (lower link) = false
  /\ exists before,
       GoogleSearch.heads s = before ++ [link]
       /\ GoogleSearch.head_answers api (length before)
          = GoogleSearch.HeadStatus 200.

(** ** Bold markers *)

Definition star : ascii := ascii_of_nat 42.

(** The text without its pairs of stars, taken from the left. *)
Fixpoint unbold (s : str) : str :=
  match s with
  | [] => []
  | c :: s' =>
      match s' with
      | [] => [c]
      | d :: s'' =>
          if eqb_char star c && eqb_char star d then unbold s''
          else c :: unbold s'
      end
  end.

(** Two stars in a row somewhere in the text. *)
Fixpoint adjacent_stars (s : str) : bool :=
  match s with
  | [] => false
  | c :: s' =>
      (eqb_char star c
       && match s' with d :: _ => eqb_char star d | [] => false end)
      || adjacent_stars s'
  end.

(** ** Keys *)

(** The entries of the map of topics: the key is the name of a category,
    and every topic listed under it belongs to the category the key was
    made for. *)
Definition topics_entry (categories : sdict str)
    (topics : list HelperFunctions.topic_doc)
    (key : str) (ts : list str) : Prop :=
  (exists id, In (id, key) categories)
  /\ Forall (fun tk => exists t,
               In t topics /\ tk = HelperFunctions.topic_key t
               /\ In (HelperFunctions.td_category t, key) categories) ts.

(** ** Concrete runs *)

(** A category whose name holds an underscore, and a topic of it. *)
Definition politics_category : HelperFunctions.category_doc :=
  HelperFunctions.CategoryDoc (lit "0123456789abcdef01234567")
    (Some (lit "US_Politics")).

Definition iran_topic : HelperFunctions.topic_doc :=
  HelperFunctions.TopicDoc (lit "89abcdef0123456789abcdef")
    (Some (lit "Iran")) (lit "0123456789abcdef01234567").


(** A web in which no page can be loaded. *)
Definition unreachable_web : WebScraper.web :=
  WebScraper.Web (fun _ => false) (fun _ => [WebScraper.LoadError]).

(** A web of one page of sixty words on one line, where [the] is the only
    stop word. *)
Definition long_page : str :=
  PyText.join [PyText.space]
    (repeat (lit "the") 5 ++ repeat (lit "Vote,") 60).

Definition one_page_web : WebScraper.web :=
  WebScraper.Web (fun word => eqb word (lit "the"))
    (fun _ => [WebScraper.Doc long_page]).

(** A collected item whose link is a Reddit thread. *)
Definition reddit_item : Pipeline.collected_event :=
  Pipeline.CollectedEvent (lit "Politics") (lit "Elections")
    (RegularEvent (Some 1%N) (Some 2%N)
       (lit "https://www.Reddit.com/r/politics/comments/1"))
.

(** ** Text *)

Definition no_underscore (s : str) : Prop :=
  Forall (fun c => eqb_char c underscore = false) s.

(** ** The fan-out of a run, step by step *)

(** What the store sees of one insert of [doc], by the answer it gives to
    it: the connection, and the insert when the collection is handed
    out. *)
Definition insert_events (a : db_answer) (doc : EventData) : list db_event :=
  match ans_coll a with
  | CollOk => [DbConnect CollOk; DbInsert doc (ans_insert a)]
  | CollNone => [DbConnect CollNone]
  | CollRaises => [DbConnect CollRaises]
  end.

(** The identity that insert gives, when it succeeds. *)
Definition inserted_id (a : db_answer) : option ObjectId :=
  match ans_coll a with
  | CollOk => ans_insert a
  | _ => None
  end.

(** What the store sees of the final patch of the parent [pid] with the
    entries [updated], by the answer it gives to it: nothing without an
    entry; else the connection, and the update when the collection is
    handed out. *)
Definition patch_log (a : db_answer) (pid : ObjectId)
    (updated : list OptionData) : list db_event :=
  match updated with
  | [] => []
  | _ :: _ =>
      match ans_coll a with
      | CollOk => [DbConnect CollOk; DbUpdate pid updated (ans_update a)]
      | CollNone => [DbConnect CollNone]
      | CollRaises => [DbConnect CollRaises]
      end
  end.

(** A builder of child records that needs a title and nothing else:
    without one it raises, with one it builds the binary child of the
    option under that title. *)
Definition builds_by_title
    (build_child : option_entry -> option str -> option str -> option str ->
                   result EventData) : Prop :=
  (forall opt r i, is_raised (build_child opt None r i) = true)
  /\ (forall opt t r i,
         exists doc, build_child opt (Some t) r i = Returned doc
                     /\ child_record_of opt doc /\ title doc = t).

(** What the store sees of one option that is processed from the state
    [s], and the entry the option gets in the patch, by the follow-up
    question generated for it: without one, nothing and no entry; with
    one, the insert of a child record under that title, answered by the
    next answer of the store, and an entry exactly when the insert
    succeeded. *)
Inductive option_outcome (E : env) (opt : option_entry) (s : state)
  : option str -> list db_event -> option OptionData -> Prop :=
| option_untitled :
    option_outcome E opt s None [] None
| option_titled t doc :
    child_record_of opt doc ->
    title doc = t ->
    option_outcome E opt s (Some t)
      (insert_events (db_script E (db_calls s)) doc)
      (match inserted_id (db_script E (db_calls s)) with
       | Some id => Some (MkOptionData (opt_name opt) (opt_prob opt) (Some id))
       | None => None
       end).

(** The loop over the options from the state [s]: every option in turn,
    each from the state the one before it left, whatever its outcome was;
    what the store sees, the entries collected for the patch, and the
    state after the last option. *)
Inductive children_run (E : env) (question : str)
    (build_child : option_entry -> option str -> option str -> option str ->
                   result EventData)
  : list option_entry -> state -> list db_event -> list OptionData ->
    state -> Prop :=
| children_run_nil s :
    children_run E question build_child [] s [] [] s
| children_run_cons opt rest s title s0 evs r s1 evs' rs s2 :
    default_followup E question (opt_name opt) s = (Returned title, s0) ->
    option_outcome E opt s title evs r ->
    process_option E question build_child opt s = (Returned r, s1) ->
    children_run E question build_child rest s1 evs' rs s2 ->
    children_run E question build_child (opt :: rest) s (evs ++ evs')
      (match r with Some od => od :: rs | None => rs end) s2.

(** What the store sees after a saved parent [pid]: the children, then the
    patch with the entries collected, answered by the next answer of the
    store. *)
Definition fan_out_run (E : env) (question : str)
    (build_child : option_entry -> option str -> option str -> option str ->
                   result EventData)
    (pid : ObjectId) (options : list option_entry) (s : state)
    (evs : list db_event) : Prop :=
  exists cevs updated s',
    children_run E question build_child options s cevs updated s'
    /\ evs = cevs ++ patch_log (db_script E (db_calls s')) pid updated.

(** What the store sees of a whole item whose parent record [parent] is
    sent from the state [s]: the insert of the parent and, only when it
    succeeded, the fan-out. *)
Definition item_run (E : env) (question : str)
    (build_child : option_entry -> option str -> option str -> option str ->
                   result EventData)
    (options : list option_entry) (parent : EventData) (s : state)
    (evs : list db_event) : Prop :=
  match inserted_id (db_script E (db_calls s)) with
  | None => evs = insert_events (db_script E (db_calls s)) parent
  | Some pid =>
      exists fevs,
        fan_out_run E question build_child pid options
          (stored (insert_events (db_script E (db_calls s)) parent) s) fevs
        /\ evs = insert_events (db_script E (db_calls s)) parent ++ fevs
  end.

(** The identities the store gave to the inserts it accepted, in order. *)
Fixpoint saved_ids (l : list db_event) : list ObjectId :=
  match l with
  | [] => []
  | DbInsert _ (Some id) :: l' => id :: saved_ids l'
  | _ :: l' => saved_ids l'
  end.

End Props.

(* ================================================================== *)
(** * Extraction of a binary probability *)
(* ================================================================== *)

Import Py Re Rt World QuestionGenerator SportsApi Event Main Spec.

Unset Implicit Arguments.

Lemma digit_value_nonneg (c : ascii) : (0 <= digit_value c)%Z.
Proof. unfold digit_value. lia. Qed.

Lemma fold_digits_nonneg (s : str) (acc : Z) :
  (0 <= acc)%Z ->
  (0 <= fold_left (fun a c => (10 * a + digit_value c)%Z) s acc)%Z.
Proof.
  revert acc. induction s as [|c s IH]; intros acc Hacc; cbn [fold_left].
  - exact Hacc.
  - apply IH. pose proof (digit_value_nonneg c). lia.
Qed.

(** [int()] of a run of digits is never negative. *)
Lemma int_of_digits_nonneg (s : str) : (0 <= int_of_digits s)%Z.
Proof. unfold int_of_digits. apply fold_digits_nonneg. lia. Qed.

Lemma yes_percent_nonneg (section : str) (n : Z) :
  yes_percent section = Some n -> (0 <= n)%Z.
Proof.
  unfold yes_percent. destruct (search false yes_re section); simpl; intros H.
  - injection H as <-. apply int_of_digits_nonneg.
  - discriminate.
Qed.

Lemma no_percent_nonneg (section : str) (n : Z) :
  no_percent section = Some n -> (0 <= n)%Z.
Proof.
  unfold no_percent. destruct (search false no_re section); simpl; intros H.
  - injection H as <-. apply int_of_digits_nonneg.
  - discriminate.
Qed.

(** [int] by the length of the numeral. *)
Lemma int_convertible (digits : str) :
  (Z.of_nat (length digits) <= INT_MAX_STR_DIGITS)%Z ->
  int digits = Some (int_of_digits digits).
Proof.
  intros H. unfold int.
  destruct (INT_MAX_STR_DIGITS <? Z.of_nat (length digits))%Z eqn:Hl;
    [apply Z.ltb_lt in Hl; lia | reflexivity].
Qed.

Lemma int_too_long (digits : str) :
  (INT_MAX_STR_DIGITS < Z.of_nat (length digits))%Z -> int digits = None.
Proof.
  intros H. unfold int. apply Z.ltb_lt in H. rewrite H. reflexivity.
Qed.

Lemma int_value (digits : str) (n : Z) :
  int digits = Some n -> n = int_of_digits digits.
Proof.
  unfold int.
  destruct (INT_MAX_STR_DIGITS <? Z.of_nat (length digits))%Z;
    [discriminate | congruence].
Qed.

(** What the parsing block of [generate_question] does once both labels
    are found in the probability section. *)
Lemma parse_response_binary (data section yes_digits no_digits : str) :
  contains GENERATED_QUESTION data = true ->
  contains MARKET_RESOLUTION_DATE data = true ->
  probability_section data = Some section ->
  yes_numeral section = Some yes_digits ->
  no_numeral section = Some no_digits ->
  parse_response data =
    match int yes_digits, int no_digits with
    | Some n, Some m =>
        if ((n + m =? 100) && in_percent_range n)%Z
        then Some (Some (truncate_question question_re (question_section data)),
                   Some (ProbInt n), Some m,
                   Some (strip (slice data
                                  (find MARKET_RESOLUTION_DATE data
                                   + len MARKET_RESOLUTION_DATE) (len data))))
        else Some none4
    | _, _ => None
    end.
Proof.
  intros Hq Hd Hsec Hy Hn. unfold parse_response.
  rewrite Hq, Hd, Hsec. simpl andb. cbv iota.
  unfold yes_numeral in Hy. unfold no_numeral in Hn.
  destruct (search false yes_re section) as [my|]; [|discriminate].
  destruct (search false no_re section) as [mn|]; [|discriminate].
  cbn [option_map] in Hy, Hn. injection Hy as <-. injection Hn as <-.
  reflexivity.
Qed.

Lemma percent_numeral (section : str) (n m : Z) :
  yes_percent section = Some n ->
  no_percent section = Some m ->
  exists yes_digits no_digits,
    yes_numeral section = Some yes_digits
    /\ no_numeral section = Some no_digits
    /\ n = int_of_digits yes_digits
    /\ m = int_of_digits no_digits.
Proof.
  unfold yes_percent, no_percent, yes_numeral, no_numeral.
  destruct (search false yes_re section) as [my|]; [|discriminate].
  destruct (search false no_re section) as [mn|]; [|discriminate].
  cbn [option_map]. intros Hy Hn. injection Hy as <-. injection Hn as <-.
  eexists. eexists. repeat split.
Qed.

(** C1 (amended).  For a response with the question marker and the
    resolution-date marker whose probability section holds a pair Yes: N,
    No: M: when both numerals have at most 4300 digits, the extraction of
    [generate_question] returns a tuple carrying exactly the pair (N, M) if
    and only if N + M = 100 with both in [0, 100], and when N + M is not 100
    it returns the tuple without any probability (all four fields unset);
    when one of the numerals is longer, [int] raises, the extraction returns
    nothing and the attempt goes on to the retry. *)
Theorem C1_binary_pair_extraction (data section : str) (n m : Z) :
  contains GENERATED_QUESTION data = true ->
  contains MARKET_RESOLUTION_DATE data = true ->
  probability_section data = Some section ->
  yes_percent section = Some n ->
  no_percent section = Some m ->
  (convertible (yes_numeral section) /\ convertible (no_numeral section) ->
   ((exists q d, parse_response data
                 = Some (Some q, Some (ProbInt n), Some m, Some d))
    <-> ((n + m = 100)%Z /\ (0 <= n <= 100)%Z /\ (0 <= m <= 100)%Z))
   /\ ((n + m <> 100)%Z -> parse_response data = Some none4))
  /\ (~ (convertible (yes_numeral section)
         /\ convertible (no_numeral section)) ->
      parse_response data = None).
Proof.
  intros Hq Hd Hsec Hy Hn.
  pose proof (yes_percent_nonneg _ _ Hy) as Hn0.
  pose proof (no_percent_nonneg _ _ Hn) as Hm0.
  destruct (percent_numeral section n m Hy Hn)
    as (yd & nd & Hyd & Hnd & Hn' & Hm').
  rewrite (parse_response_binary data section yd nd Hq Hd Hsec Hyd Hnd).
  rewrite Hyd, Hnd. cbn [convertible]. split.
  - intros (Hly & Hln).
    rewrite (int_convertible yd Hly), (int_convertible nd Hln).
    rewrite <- Hn', <- Hm'. unfold in_percent_range.
    destruct (n + m =? 100)%Z eqn:Hsum.
    + apply Z.eqb_eq in Hsum.
      assert (Hr : ((0 <=? n) && (n <=? 100))%Z = true).
      { apply andb_true_intro. split; [apply Z.leb_le | apply Z.leb_le]; lia. }
      rewrite Hr. simpl. split.
      * split.
        -- intros _. lia.
        -- intros _. eexists. eexists. reflexivity.
      * intros Hne. contradiction.
    + apply Z.eqb_neq in Hsum. simpl. split.
      * split.
        -- intros (q & d & Heq). discriminate.
        -- intros (Hs & _). contradiction.
      * intros _. reflexivity.
  - intros Hnot.
    destruct (Z.le_gt_cases (Z.of_nat (length yd)) INT_MAX_STR_DIGITS)
      as [Hly|Hly].
    + destruct (Z.le_gt_cases (Z.of_nat (length nd)) INT_MAX_STR_DIGITS)
        as [Hln|Hln].
      * exfalso. apply Hnot. split; assumption.
      * rewrite (int_too_long nd Hln). destruct (int yd); reflexivity.
    + rewrite (int_too_long yd Hly). reflexivity.
Qed.

Lemma C1_binary_pair_extraction_witness :
  (convertible (yes_numeral (lit "Yes: 60%, No: 40%"))
   /\ convertible (no_numeral (lit "Yes: 60%, No: 40%")) ->
   ((exists q d, parse_response valid_pair_response
                 = Some (Some q, Some (ProbInt 60), Some 40%Z, Some d))
    <-> ((60 + 40 = 100)%Z /\ (0 <= 60 <= 100)%Z /\ (0 <= 40 <= 100)%Z))
   /\ ((60 + 40 <> 100)%Z -> parse_response valid_pair_response = Some none4))
  /\ (~ (convertible (yes_numeral (lit "Yes: 60%, No: 40%"))
         /\ convertible (no_numeral (lit "Yes: 60%, No: 40%"))) ->
      parse_response valid_pair_response = None).
Proof.
  apply (C1_binary_pair_extraction valid_pair_response (lit "Yes: 60%, No: 40%") 60 40);
    vm_compute; reflexivity.
Defined.

(** C1, as stated, fails.  In a response whose pair is Yes: 60, No: 40,
    the 60 written with 4301 digits, the pair sums to 100 with both numbers
    in range, yet the extraction does not return it: [int] raises on the
    numeral, the attempt returns nothing, and [generate_question] asks
    again until its attempts are used up. *)
Lemma C1_long_numeral_is_not_extracted :
  contains GENERATED_QUESTION long_numeral_response = true
  /\ contains MARKET_RESOLUTION_DATE long_numeral_response = true
  /\ probability_section long_numeral_response = Some long_numeral_section
  /\ yes_percent long_numeral_section = Some 60%Z
  /\ no_percent long_numeral_section = Some 40%Z
  /\ option_map (@length ascii) (yes_numeral long_numeral_section)
     = Some 4301
  /\ parse_response long_numeral_response = None
  /\ exists s,
       generate_question (env_of mid_june long_numeral_model no_store)
         [] [] [] 3 2 initial_state = (Returned none4, s)
       /\ gen_log s = [EvAsk; EvSleep 2; EvAsk; EvSleep 2; EvAsk; EvSleep 2].
Proof.
  split; [vm_compute; reflexivity|].
  split; [vm_compute; reflexivity|].
  split; [vm_compute; reflexivity|].
  split; [vm_compute; reflexivity|].
  split; [vm_compute; reflexivity|].
  split; [vm_compute; reflexivity|].
  split; [vm_compute; reflexivity|].
  eexists. split; [vm_compute; reflexivity|]. reflexivity.
Qed.

(* ================================================================== *)
(** * Running computations *)
(* ================================================================== *)

Lemma run_bind {A B} (m : M A) (f : A -> M B) (s : state) :
  bind m f s =
    match m s with
    | (Returned a, s') => f a s'
    | (Raised e, s') => (Raised e, s')
    end.
Proof. reflexivity. Qed.

Lemma run_ask_model (E : env) (s : state) :
  ask_model E s = (Returned (llm_script E (llm_calls s)), asked s).
Proof. reflexivity. Qed.

Lemma run_sleep (d : Z) (s : state) : sleep d s = (Returned tt, slept d s).
Proof. reflexivity. Qed.

(** A content without the question marker falls through every parser. *)
Lemma parse_response_unmarked (data : str) :
  contains GENERATED_QUESTION data = false -> parse_response data = None.
Proof. intros H. unfold parse_response. rewrite H. reflexivity. Qed.

Lemma parse_multiple_response_unmarked (data : str) :
  contains GENERATED_QUESTION data = false ->
  parse_multiple_response data = None.
Proof. intros H. unfold parse_multiple_response. rewrite H. reflexivity. Qed.

(** A content with both markers always ends the call of
    [generate_question]: the parsing block executes one of its [return]
    statements. *)
Lemma option_array_convertible (matches : list (str * str)) :
  Forall (fun om => convertible (Some (strip (snd om)))) matches ->
  option_array matches = Some (option_array_of matches).
Proof.
  intros H. unfold option_array.
  replace (forallb _ matches) with true; [reflexivity|].
  symmetry. apply forallb_forall. intros om Hin.
  rewrite Forall_forall in H. specialize (H om Hin). cbn in H.
  rewrite (int_convertible _ H). reflexivity.
Qed.

Lemma parse_response_marked (data : str) :
  contains GENERATED_QUESTION data = true ->
  contains MARKET_RESOLUTION_DATE data = true ->
  (forall section,
      probability_section data = Some section ->
      numerals_convertible section) ->
  exists t, parse_response data = Some t.
Proof.
  intros Hq Hd Hc. unfold parse_response. rewrite Hq, Hd. cbn [andb].
  destruct (probability_section data) as [section|]; [|eauto].
  destruct (Hc section eq_refl) as (Hy & Hn & Ho).
  unfold yes_numeral in Hy. unfold no_numeral in Hn.
  destruct (search false yes_re section) as [my|],
           (search false no_re section) as [mn|];
    cbn [option_map convertible] in Hy, Hn;
    try rewrite (int_convertible _ Hy); try rewrite (int_convertible _ Hn);
    try rewrite (option_array_convertible _ Ho);
    repeat match goal with
           | |- context [if ?b then _ else _] => destruct b
           | |- context [match ?l with [] => _ | _ :: _ => _ end] => destruct l
           end; eauto.
Qed.

(** ** One round of each loop on an answer that cannot be parsed *)

Lemma generate_question_attempt_unparseable (E : env) (delay i : Z) (s : state) :
  unparseable (llm_script E (llm_calls s)) ->
  generate_question_attempt E delay i s = (Returned None, slept delay (asked s)).
Proof.
  intros H. unfold generate_question_attempt.
  rewrite run_bind, run_ask_model.
  destruct (llm_script E (llm_calls s)) as [| |[data|]]; try reflexivity.
  cbn in H. unfold parse_content, lift, try_except, bind.
  rewrite (parse_response_unmarked _ H). reflexivity.
Qed.

Lemma generate_multiple_question_attempt_unparseable
    (E : env) (max_retries delay i : Z) (s : state) :
  unparseable (llm_script E (llm_calls s)) ->
  generate_multiple_question_attempt E max_retries delay i s =
    (Returned None,
     if (i <? max_retries - 1)%Z then slept delay (asked s) else asked s).
Proof.
  intros H. unfold generate_multiple_question_attempt.
  rewrite run_bind, run_ask_model.
  assert (Hsl : forall s0,
            (bind (sleep_unless_last max_retries delay i)
                  (fun _ => ret (@None multi_tuple))) s0 =
            (Returned None,
             if (i <? max_retries - 1)%Z then slept delay s0 else s0)).
  { intros s0. unfold sleep_unless_last, bind.
    destruct (i <? max_retries - 1)%Z; reflexivity. }
  destruct (llm_script E (llm_calls s)) as [| |[data|]];
    try (unfold try_except, raise, bind at 1; cbn; apply Hsl).
  cbn in H. unfold try_except, ret, bind at 1.
  rewrite (parse_multiple_response_unmarked _ H). apply Hsl.
Qed.

(* ================================================================== *)
(** * Retry loops on a model that never gives anything to parse *)
(* ================================================================== *)

Lemma always_unparseable_head (E : env) (s : state) (n : nat) :
  always_unparseable E s (S n) -> unparseable (llm_script E (llm_calls s)).
Proof.
  intros H. specialize (H 0 (Nat.lt_0_succ n)).
  rewrite Nat.add_0_r in H. exact H.
Qed.

Lemma always_unparseable_tail (E : env) (s s' : state) (n : nat) :
  llm_calls s' = S (llm_calls s) ->
  always_unparseable E s (S n) -> always_unparseable E s' n.
Proof.
  intros Hc H i Hi. rewrite Hc.
  replace (S (llm_calls s) + i) with (llm_calls s + S i) by lia.
  apply H. lia.
Qed.

Lemma generate_question_loop_exhausts (E : env) (delay : Z) (n : nat) :
  forall (i : Z) (s : state),
    always_unparseable E s n ->
    for_range (generate_question_attempt E delay) n i s
    = (Returned None, gq_exhausted delay n s).
Proof.
  induction n as [|n IH]; intros i s H.
  - reflexivity.
  - cbn [for_range gq_exhausted]. rewrite run_bind.
    rewrite (generate_question_attempt_unparseable E delay i s
               (always_unparseable_head E s n H)).
    apply IH. apply (always_unparseable_tail E s _ n); [reflexivity | exact H].
Qed.

Lemma generate_multiple_question_loop_exhausts
    (E : env) (max_retries delay : Z) (n : nat) :
  forall (i : Z) (s : state),
    always_unparseable E s n ->
    for_range (generate_multiple_question_attempt E max_retries delay) n i s
    = (Returned None, mq_exhausted max_retries delay n i s).
Proof.
  induction n as [|n IH]; intros i s H.
  - reflexivity.
  - cbn [for_range mq_exhausted]. rewrite run_bind.
    rewrite (generate_multiple_question_attempt_unparseable E max_retries delay
               i s (always_unparseable_head E s n H)).
    apply IH. apply (always_unparseable_tail E s _ n); [|exact H].
    destruct (i <? max_retries - 1)%Z; reflexivity.
Qed.

Lemma asks_app (l l' : list gen_event) : asks (l ++ l') = asks l + asks l'.
Proof.
  induction l as [|[|d] l IH]; cbn [asks app]; rewrite ?IH; reflexivity.
Qed.

Lemma gq_exhausted_log (delay : Z) (n : nat) :
  forall s,
    llm_calls (gq_exhausted delay n s) = llm_calls s + n
    /\ exists evs, gen_log (gq_exhausted delay n s) = gen_log s ++ evs
                   /\ asks evs = n.
Proof.
  induction n as [|n IH]; intros s; cbn [gq_exhausted].
  - split; [lia|]. exists []. split; [symmetry; apply app_nil_r | reflexivity].
  - destruct (IH (slept delay (asked s))) as (Hc & evs & Hl & Ha).
    split.
    + rewrite Hc. cbn. lia.
    + exists (EvAsk :: EvSleep delay :: evs). split.
      * rewrite Hl. cbn. rewrite <- !app_assoc. reflexivity.
      * cbn [asks]. rewrite Ha. reflexivity.
Qed.

Lemma mq_exhausted_log (max_retries delay : Z) (n : nat) :
  forall i s,
    llm_calls (mq_exhausted max_retries delay n i s) = llm_calls s + n
    /\ exists evs,
         gen_log (mq_exhausted max_retries delay n i s) = gen_log s ++ evs
         /\ asks evs = n.
Proof.
  induction n as [|n IH]; intros i s; cbn [mq_exhausted].
  - split; [lia|]. exists []. split; [symmetry; apply app_nil_r | reflexivity].
  - destruct (i <? max_retries - 1)%Z.
    + destruct (IH (i + 1)%Z (slept delay (asked s))) as (Hc & evs & Hl & Ha).
      split.
      * rewrite Hc. cbn. lia.
      * exists (EvAsk :: EvSleep delay :: evs). split.
        -- rewrite Hl. cbn. rewrite <- !app_assoc. reflexivity.
        -- cbn [asks]. rewrite Ha. reflexivity.
    + destruct (IH (i + 1)%Z (asked s)) as (Hc & evs & Hl & Ha).
      split.
      * rewrite Hc. cbn. lia.
      * exists (EvAsk :: evs). split.
        -- rewrite Hl. cbn. rewrite <- !app_assoc. reflexivity.
        -- cbn [asks]. rewrite Ha. reflexivity.
Qed.

(** Once its prelude has computed the date four months ahead,
    [generate_question] makes exactly [max_retries] round trips on such a
    model and returns the tuple of four [None]. *)
Lemma generate_question_exhausts (E : env) (ed cn et : str)
    (max_retries delay : Z) (s : state) (d4 : date) :
  four_months_later (today E) = Returned d4 ->
  (0 <= max_retries)%Z ->
  always_unparseable E s (range_len max_retries) ->
  exists s',
    generate_question E ed cn et max_retries delay s = (Returned none4, s')
    /\ Z.of_nat (llm_calls s') = (Z.of_nat (llm_calls s) + max_retries)%Z
    /\ exists evs, gen_log s' = gen_log s ++ evs
                   /\ Z.of_nat (asks evs) = max_retries.
Proof.
  intros Hd Hm H. exists (gq_exhausted delay (range_len max_retries) s).
  split.
  - unfold generate_question. rewrite Hd. unfold lift at 1. rewrite run_bind.
    rewrite run_bind. rewrite (generate_question_loop_exhausts E delay _ 0%Z s H).
    reflexivity.
  - destruct (gq_exhausted_log delay (range_len max_retries) s)
      as (Hc & evs & Hl & Ha).
    unfold range_len in *. split; [lia|]. exists evs. split; [exact Hl | lia].
Qed.

(** [generate_multiple_question] makes exactly [max_retries] round trips on
    such a model, returns the tuple of four [None] and does not raise. *)
Lemma generate_multiple_question_exhausts (E : env)
    (max_retries delay : Z) (s : state) :
  (0 <= max_retries)%Z ->
  always_unparseable E s (range_len max_retries) ->
  exists s',
    generate_multiple_question E max_retries delay s = (Returned multi_none, s')
    /\ Z.of_nat (llm_calls s') = (Z.of_nat (llm_calls s) + max_retries)%Z
    /\ exists evs, gen_log s' = gen_log s ++ evs
                   /\ Z.of_nat (asks evs) = max_retries.
Proof.
  intros Hm H.
  exists (mq_exhausted max_retries delay (range_len max_retries) 0 s).
  split.
  - unfold generate_multiple_question. rewrite run_bind.
    rewrite (generate_multiple_question_loop_exhausts E max_retries delay _ 0%Z s H).
    reflexivity.
  - destruct (mq_exhausted_log max_retries delay (range_len max_retries) 0 s)
      as (Hc & evs & Hl & Ha).
    unfold range_len in *. split; [lia|]. exists evs. split; [exact Hl | lia].
Qed.

(** When the date four months ahead does not exist, [generate_question]
    raises before its first attempt, whatever the model would answer. *)
Lemma generate_question_raises_before_first_attempt (E : env)
    (ed cn et : str) (max_retries delay : Z) (s : state) (e : exn) :
  four_months_later (today E) = Raised e ->
  generate_question E ed cn et max_retries delay s = (Raised e, s).
Proof.
  intros H. unfold generate_question. rewrite H. reflexivity.
Qed.

(** C4.  On 31 October 2025 the prelude of [generate_question] asks for
    31 February 2026: the call raises [ValueError] before the first attempt,
    although every attempt would have been unparseable; no round trip is
    made and nothing is returned. *)
Theorem C4_generate_question_raises_on_month_end :
  four_months_later (Date 2025 10 31) = Raised ValueError
  /\ always_unparseable (env_of (Date 2025 10 31) mute_model no_store)
       initial_state 3
  /\ generate_question (env_of (Date 2025 10 31) mute_model no_store)
       [] [] [] 3 2 initial_state
     = (Raised ValueError, initial_state).
Proof.
  split; [reflexivity|]. split; [|reflexivity].
  intros i _. vm_compute. reflexivity.
Qed.

(* ================================================================== *)
(** * The first answer that carries the markers *)
(* ================================================================== *)

Lemma range_len_pos (n : Z) :
  (0 < n)%Z -> exists k, range_len n = S k.
Proof.
  intros H. unfold range_len. exists (Z.to_nat (n - 1)).
  rewrite <- Z2Nat.inj_succ by lia. f_equal. lia.
Qed.

(** When the first answer has both markers and numerals that [int]
    converts, [generate_question] returns on that attempt, whatever the
    parsing block found: one round trip, no sleep, no further attempt. *)
Lemma generate_question_returns_on_marked_response (E : env) (ed cn et : str)
    (max_retries delay : Z) (s : state) (d4 : date) (data : str) :
  four_months_later (today E) = Returned d4 ->
  (0 < max_retries)%Z ->
  llm_script E (llm_calls s) = Content (Some data) ->
  contains GENERATED_QUESTION data = true ->
  contains MARKET_RESOLUTION_DATE data = true ->
  (forall section,
      probability_section data = Some section ->
      numerals_convertible section) ->
  exists t, parse_response data = Some t
            /\ generate_question E ed cn et max_retries delay s
               = (Returned t, asked s).
Proof.
  intros Hd Hm Hans Hq Hr Hc.
  destruct (parse_response_marked data Hq Hr Hc) as (t & Ht).
  exists t. split; [exact Ht|].
  destruct (range_len_pos max_retries Hm) as (k & Hk).
  unfold generate_question. rewrite Hd, Hk. unfold lift at 1.
  rewrite run_bind. rewrite run_bind. cbn [for_range]. rewrite run_bind.
  unfold generate_question_attempt. rewrite run_bind, run_ask_model, Hans.
  unfold parse_content, lift, try_except, bind, ret. rewrite Ht. reflexivity.
Qed.

(** When the first answer is a content, [generate_rules] returns on that
    attempt: the cleaned text, or [None] when nothing is left of it. *)
Lemma generate_rules_returns_on_first_content (E : env)
    (max_retries delay : Z) (s : state) (c : option str) :
  (0 < max_retries)%Z ->
  llm_script E (llm_calls s) = Content c ->
  generate_rules E max_retries delay s
  = (Returned (if truthy (clean_rules c) then Some (clean_rules c) else None),
     asked s).
Proof.
  intros Hm Hans.
  destruct (range_len_pos max_retries Hm) as (k & Hk).
  unfold generate_rules. rewrite Hk. rewrite run_bind. cbn [for_range].
  rewrite run_bind. unfold generate_rules_attempt.
  rewrite run_bind, run_ask_model, Hans.
  destruct (truthy (clean_rules c)); reflexivity.
Qed.

(** [generate_multiple_question] never returns options among which one is
    a placeholder: such an attempt fails its validation. *)
Lemma parse_multiple_response_rejects_placeholder (data : str) :
  (exists o,
      In o (option_array_of
              (findall2 false team_option_re (team_probability_section data)))
      /\ is_placeholder (opt_name o) = true) ->
  parse_multiple_response data = None.
Proof.
  intros (o & Hin & Hp). unfold parse_multiple_response.
  destruct (contains GENERATED_QUESTION data); [|reflexivity].
  unfold option_array. destruct (forallb _ _); [|reflexivity].
  remember (option_array_of _) as arr eqn:Harr. clear Harr.
  assert (Hv : valid_team_options arr = false).
  { unfold valid_team_options. apply andb_false_intro2.
    unfold no_field_option.
    destruct (forallb (fun o0 => negb (mem (lower (opt_name o0)) placeholder_names)) arr) eqn:Hf;
      [|reflexivity].
    rewrite forallb_forall in Hf. specialize (Hf o Hin).
    unfold is_placeholder in Hp. rewrite Hp in Hf. discriminate. }
  destruct arr; [reflexivity|]. rewrite Hv. reflexivity.
Qed.

(** C3.  In [generate_question] (scraped content) an option named Others,
    one of the placeholders, passes: the options [Alpha: 80, Others: 20] sum
    to 100 and are returned as they are, while the same options are refused
    by [generate_multiple_question] (sports). *)
Theorem C3_generate_question_accepts_placeholder :
  is_placeholder (lit "Others") = true
  /\ parse_response placeholder_response
     = Some (Some (lit "Who wins the cup?"),
             Some (ProbOptions [OptionEntry (lit "Alpha") 80;
                                OptionEntry (lit "Others") 20]),
             None, Some (lit "2025-12-01"))
  /\ parse_multiple_response placeholder_sports_response = None.
Proof. vm_compute. repeat split. Qed.

(** C5.  With three attempts allowed, a first answer whose pair Yes: 60,
    No: 30 fails the validation ends the call of [generate_question] at
    once: it returns the tuple of four [None] after one round trip, without
    sleeping and without asking again, although the second answer would
    have been valid. *)
Theorem C5_generate_question_returns_on_invalid_pair :
  yes_percent (lit "Yes: 60%, No: 30%") = Some 60%Z
  /\ no_percent (lit "Yes: 60%, No: 30%") = Some 30%Z
  /\ parse_response valid_pair_response
     = Some (Some (lit "Will X happen?"), Some (ProbInt 60), Some 40%Z,
             Some (lit "2025-12-01"))
  /\ exists s,
       generate_question (env_of mid_june invalid_then_valid_model no_store) [] [] [] 3 2
         initial_state = (Returned none4, s)
       /\ gen_log s = [EvAsk]
       /\ llm_calls s = 1.
Proof.
  split; [vm_compute; reflexivity|].
  split; [vm_compute; reflexivity|].
  split; [vm_compute; reflexivity|].
  eexists. split; [vm_compute; reflexivity|]. split; reflexivity.
Qed.

(** C6.  With three attempts allowed, a first answer of which the cleaning
    leaves nothing ends the call of [generate_rules] at once with [None]:
    one round trip, no retry, although the second answer would have given
    a text.  And the cleaning can leave the word behind: from [ru**les] it
    makes [rules], which is returned. *)
Theorem C6_generate_rules_returns_on_empty_text :
  clean_rules (Some (lit "**Rules**")) = []
  /\ (exists s,
        generate_rules (env_of mid_june bold_rules_then_text_model no_store) 3 2 initial_state
        = (Returned None, s)
        /\ gen_log s = [EvAsk]
        /\ llm_calls s = 1)
  /\ clean_rules (Some (lit "ru**les")) = lit "rules"
  /\ fst (generate_rules (env_of mid_june (constant_model "ru**les") no_store)
            3 2 initial_state)
     = Returned (Some (lit "rules")).
Proof.
  split; [vm_compute; reflexivity|].
  split.
  - eexists. split; [vm_compute; reflexivity|]. split; reflexivity.
  - split; vm_compute; reflexivity.
Qed.

(* ================================================================== *)
(** * Computations that never raise *)
(* ================================================================== *)

Lemma returns_ret {A} (a : A) : returns (ret a).
Proof. intros s. exists a. reflexivity. Qed.

Lemma returns_bind {A B} (m : M A) (f : A -> M B) :
  returns m -> (forall a, returns (f a)) -> returns (bind m f).
Proof.
  intros Hm Hf s. destruct (Hm s) as (a & Ha). unfold bind.
  destruct (m s) as [r s']. cbn [fst] in Ha. subst r. apply Hf.
Qed.

Lemma returns_try_except {A} (m : M A) (h : exn -> M A) :
  (forall e, returns (h e)) -> returns (try_except m h).
Proof.
  intros Hh s. unfold try_except. destruct (m s) as [[a|e] s'].
  - exists a. reflexivity.
  - apply Hh.
Qed.

Lemma returns_for_range {A} (body : Z -> M (option A)) :
  (forall i, returns (body i)) -> forall n i, returns (for_range body n i).
Proof.
  intros Hb. induction n as [|n IH]; intros i; cbn [for_range].
  - apply returns_ret.
  - apply returns_bind; [apply Hb|].
    intros [v|]; [apply returns_ret | apply IH].
Qed.

Lemma returns_ask_model (E : env) : returns (ask_model E).
Proof. intros s. eexists. reflexivity. Qed.

Lemma returns_sleep (d : Z) : returns (sleep d).
Proof. intros s. eexists. reflexivity. Qed.

Lemma returns_log (m : log_msg) : returns (log m).
Proof. intros s. eexists. reflexivity. Qed.

Lemma returns_sleep_unless_last (max_retries delay attempt : Z) :
  returns (sleep_unless_last max_retries delay attempt).
Proof.
  unfold sleep_unless_last. destruct (attempt <? max_retries - 1)%Z.
  - apply returns_sleep.
  - apply returns_ret.
Qed.

(** [generate_rules] never raises. *)
Lemma returns_generate_rules (E : env) (max_retries delay : Z) :
  returns (generate_rules E max_retries delay).
Proof.
  unfold generate_rules. apply returns_bind.
  - apply returns_for_range. intros i. unfold generate_rules_attempt.
    apply returns_bind; [apply returns_ask_model|].
    intros [| |c].
    + apply returns_bind; [apply returns_sleep_unless_last|].
      intros _. apply returns_ret.
    + apply returns_bind; [apply returns_sleep_unless_last|].
      intros _. apply returns_ret.
    + destruct (truthy (clean_rules c)); apply returns_ret.
  - intros [v|]; apply returns_ret.
Qed.

(** [generate_followup_question] never raises. *)
Lemma returns_generate_followup_question (E : env) (q o : str)
    (max_retries delay : Z) :
  returns (generate_followup_question E q o max_retries delay).
Proof.
  unfold generate_followup_question.
  destruct (negb (truthy q) || negb (truthy o)); [apply returns_ret|].
  apply returns_bind.
  - apply returns_for_range. intros i. unfold generate_followup_attempt.
    apply returns_bind; [apply returns_ask_model|].
    intros [| |c].
    + apply returns_bind; [apply returns_sleep_unless_last|].
      intros _. apply returns_ret.
    + apply returns_bind; [apply returns_sleep_unless_last|].
      intros _. apply returns_ret.
    + destruct (truthy_opt c); [apply returns_ret|].
      apply returns_bind; [apply returns_sleep_unless_last|].
      intros _. apply returns_ret.
  - intros [v|]; apply returns_ret.
Qed.

(** [generate_multiple_question] never raises. *)
Lemma returns_generate_multiple_question (E : env) (max_retries delay : Z) :
  returns (generate_multiple_question E max_retries delay).
Proof.
  unfold generate_multiple_question. apply returns_bind.
  - apply returns_for_range. intros i.
    unfold generate_multiple_question_attempt.
    apply returns_bind; [apply returns_ask_model|]. intros ans.
    apply returns_bind.
    + apply returns_try_except. intros e. apply returns_ret.
    + intros [t|]; [apply returns_ret|].
      apply returns_bind; [apply returns_sleep_unless_last|].
      intros _. apply returns_ret.
  - intros [t|]; apply returns_ret.
Qed.

(** [google_image_search] returns what [search_image] gives, or raises
    [ValueError]; it never raises an [HTTPError], whatever the service
    answers. *)
Lemma google_image_search_run (E : env) (q : str) (s : state) :
  google_image_search E q s
  = (match img_script E (img_calls s) with
     | ImgService _ => Returned (image_found E q (img_calls s))
     | ImgNotConfigured => Raised ValueError
     end,
     set_img (IMAGE_SEARCH_DISABLED s) (IMAGE_SEARCH_COUNT s)
             (S (img_calls s)) (net_log s ++ [q]) s).
Proof.
  unfold google_image_search, image_found.
  destruct (img_script E (img_calls s)); reflexivity.
Qed.

(** Once the breaker has tripped, a search returns [None] and changes
    nothing: the network is not called, the flag stays, the count stays. *)
Lemma safe_google_image_search_tripped (E : env) (q : str) (s : state) :
  tripped E s -> safe_google_image_search E q s = (Returned None, s).
Proof.
  intros [Hd|Hc]; unfold safe_google_image_search, bind, get.
  - rewrite Hd. reflexivity.
  - destruct (IMAGE_SEARCH_DISABLED s); [reflexivity|].
    apply Z.leb_le in Hc. rewrite Hc. reflexivity.
Qed.

(** With the breaker not tripped, a search is counted and goes out, and
    the wrapper returns what it gave; the flag stays unset, whatever the
    service answered. *)
Lemma safe_google_image_search_open (E : env) (q : str) (s : state) :
  IMAGE_SEARCH_DISABLED s = false ->
  (IMAGE_SEARCH_COUNT s < MAX_IMAGE_SEARCHES_PER_RUN E)%Z ->
  safe_google_image_search E q s
  = (Returned (image_found E q (img_calls s)), searched q s).
Proof.
  intros Hd Hc. unfold safe_google_image_search, bind, get.
  rewrite Hd. apply Z.leb_gt in Hc. rewrite Hc.
  unfold try_except, bind, modify. rewrite google_image_search_run.
  unfold searched, image_found, set_img. cbn.
  destruct (img_script E (img_calls s)); rewrite Hd; reflexivity.
Qed.

(** One of the two happens. *)
Lemma safe_google_image_search_cases (E : env) (q : str) (s : state) :
  safe_google_image_search E q s = (Returned None, s)
  \/ (IMAGE_SEARCH_DISABLED s = false
      /\ (IMAGE_SEARCH_COUNT s < MAX_IMAGE_SEARCHES_PER_RUN E)%Z
      /\ safe_google_image_search E q s
         = (Returned (image_found E q (img_calls s)), searched q s)).
Proof.
  destruct (IMAGE_SEARCH_DISABLED s) eqn:Hd.
  - left. apply safe_google_image_search_tripped. left. exact Hd.
  - destruct (Z.le_gt_cases (MAX_IMAGE_SEARCHES_PER_RUN E)
                (IMAGE_SEARCH_COUNT s)) as [Hc|Hc].
    + left. apply safe_google_image_search_tripped. right. exact Hc.
    + right. split; [reflexivity|]. split; [exact Hc|].
      apply safe_google_image_search_open; assumption.
Qed.

(** [safe_google_image_search] never raises. *)
Lemma returns_safe_google_image_search (E : env) (q : str) :
  returns (safe_google_image_search E q).
Proof.
  intros s.
  destruct (safe_google_image_search_cases E q s) as [H|(_ & _ & H)];
    rewrite H; eexists; reflexivity.
Qed.

Lemma returns_fetch_image (E : env) (query : str) :
  returns (fetch_image E query).
Proof.
  unfold fetch_image. apply returns_bind;
    [apply returns_safe_google_image_search|].
  intros image_url. destruct (truthy_opt image_url).
  - apply returns_try_except. intros e. apply returns_ret.
  - apply returns_ret.
Qed.

(* ================================================================== *)
(** * Relations that computations preserve *)
(* ================================================================== *)

Section Preservation.

Variable R : state -> state -> Prop.
Hypothesis R_refl : forall s, R s s.
Hypothesis R_trans : forall a b c, R a b -> R b c -> R a c.

Lemma preserves_ret {A} (a : A) : preserves R (ret a).
Proof. intros s. apply R_refl. Qed.

Lemma preserves_raise {A} (e : exn) : preserves R (@raise A e).
Proof. intros s. apply R_refl. Qed.

Lemma preserves_lift {A} (r : result A) : preserves R (lift r).
Proof. intros s. apply R_refl. Qed.

Lemma preserves_bind {A B} (m : M A) (f : A -> M B) :
  preserves R m -> (forall a, preserves R (f a)) -> preserves R (bind m f).
Proof.
  intros Hm Hf s. specialize (Hm s). unfold bind.
  destruct (m s) as [[a|e] s']; cbn [snd] in *.
  - apply (R_trans _ s'); [exact Hm | apply Hf].
  - exact Hm.
Qed.

Lemma preserves_try_except {A} (m : M A) (h : exn -> M A) :
  preserves R m -> (forall e, preserves R (h e)) ->
  preserves R (try_except m h).
Proof.
  intros Hm Hh s. specialize (Hm s). unfold try_except.
  destruct (m s) as [[a|e] s']; cbn [snd] in *.
  - exact Hm.
  - apply (R_trans _ s'); [exact Hm | apply Hh].
Qed.

Lemma preserves_for_range {A} (body : Z -> M (option A)) :
  (forall i, preserves R (body i)) ->
  forall n i, preserves R (for_range body n i).
Proof.
  intros Hb. induction n as [|n IH]; intros i; cbn [for_range].
  - apply preserves_ret.
  - apply preserves_bind; [apply Hb|].
    intros [v|]; [apply preserves_ret | apply IH].
Qed.

(** ** Steps that touch one part of the state *)

Hypothesis R_gen : forall s c l, R s (set_gen c l s).

Lemma preserves_ask_model (E : env) : preserves R (ask_model E).
Proof. intros s. apply R_gen. Qed.

Lemma preserves_sleep (d : Z) : preserves R (sleep d).
Proof. intros s. apply R_gen. Qed.

Lemma preserves_sleep_unless_last (max_retries delay attempt : Z) :
  preserves R (sleep_unless_last max_retries delay attempt).
Proof.
  unfold sleep_unless_last. destruct (attempt <? max_retries - 1)%Z.
  - apply preserves_sleep.
  - apply preserves_ret.
Qed.

Lemma preserves_generate_rules (E : env) (max_retries delay : Z) :
  preserves R (generate_rules E max_retries delay).
Proof.
  unfold generate_rules. apply preserves_bind.
  - apply preserves_for_range. intros i. unfold generate_rules_attempt.
    apply preserves_bind; [apply preserves_ask_model|].
    intros [| |c].
    + apply preserves_bind; [apply preserves_sleep_unless_last|].
      intros _. apply preserves_ret.
    + apply preserves_bind; [apply preserves_sleep_unless_last|].
      intros _. apply preserves_ret.
    + destruct (truthy (clean_rules c)); apply preserves_ret.
  - intros [v|]; apply preserves_ret.
Qed.

Lemma preserves_generate_followup_question (E : env) (q o : str)
    (max_retries delay : Z) :
  preserves R (generate_followup_question E q o max_retries delay).
Proof.
  unfold generate_followup_question.
  destruct (negb (truthy q) || negb (truthy o)); [apply preserves_ret|].
  apply preserves_bind.
  - apply preserves_for_range. intros i. unfold generate_followup_attempt.
    apply preserves_bind; [apply preserves_ask_model|].
    intros [| |c].
    + apply preserves_bind; [apply preserves_sleep_unless_last|].
      intros _. apply preserves_ret.
    + apply preserves_bind; [apply preserves_sleep_unless_last|].
      intros _. apply preserves_ret.
    + destruct (truthy_opt c); [apply preserves_ret|].
      apply preserves_bind; [apply preserves_sleep_unless_last|].
      intros _. apply preserves_ret.
  - intros [v|]; apply preserves_ret.
Qed.

Lemma preserves_generate_multiple_question (E : env) (max_retries delay : Z) :
  preserves R (generate_multiple_question E max_retries delay).
Proof.
  unfold generate_multiple_question. apply preserves_bind.
  - apply preserves_for_range. intros i.
    unfold generate_multiple_question_attempt.
    apply preserves_bind; [apply preserves_ask_model|]. intros ans.
    apply preserves_bind.
    + apply preserves_try_except.
      * destruct ans as [| |[data|]];
          first [apply preserves_raise | apply preserves_ret].
      * intros e. apply preserves_ret.
    + intros [t|]; [apply preserves_ret|].
      apply preserves_bind; [apply preserves_sleep_unless_last|].
      intros _. apply preserves_ret.
  - intros [t|]; apply preserves_ret.
Qed.

Hypothesis R_s3 : forall s c, R s (set_s3 c s).

Lemma preserves_upload_image_to_s3 (E : env) (url : str) :
  preserves R (upload_image_to_s3 E url).
Proof.
  intros s. unfold upload_image_to_s3.
  destruct (s3_script E (s3_calls s)); apply R_s3.
Qed.

Variable E : env.
Hypothesis R_search : forall q, preserves R (safe_google_image_search E q).

Lemma preserves_fetch_image (query : str) :
  preserves R (fetch_image E query).
Proof.
  unfold fetch_image. apply preserves_bind; [apply R_search|].
  intros image_url. destruct (truthy_opt image_url).
  - apply preserves_try_except; [apply preserves_upload_image_to_s3|].
    intros e. apply preserves_ret.
  - apply preserves_ret.
Qed.

(** ** The persisters *)

Hypothesis R_db : forall s c l, R s (set_db c l s).
Hypothesis R_app : forall s l, R s (set_app l s).

Lemma preserves_log (m : log_msg) : preserves R (log m).
Proof. intros s. apply R_app. Qed.

Lemma preserves_get_event_collection :
  preserves R (get_event_collection E).
Proof.
  intros s. unfold get_event_collection.
  destruct (ans_coll (db_script E (db_calls s))); apply R_db.
Qed.

Lemma preserves_insert_one (c : collection) (doc : EventData) :
  preserves R (insert_one E c doc).
Proof.
  intros s. unfold insert_one.
  destruct (ans_insert (db_script E c)); apply R_db.
Qed.

Lemma preserves_update_one (c : collection) (pid : ObjectId)
    (opts : list OptionData) :
  preserves R (update_one E c pid opts).
Proof.
  intros s. unfold update_one.
  destruct (ans_update (db_script E c)); apply R_db.
Qed.

Lemma preserves_save_event (doc : EventData) :
  preserves R (save_event E doc).
Proof.
  unfold save_event. apply preserves_try_except.
  - apply preserves_bind; [apply preserves_get_event_collection|].
    intros [c|]; [|apply preserves_raise].
    apply preserves_bind; [apply preserves_insert_one|].
    intros id. apply preserves_ret.
  - intros e. apply preserves_raise.
Qed.

Lemma preserves_inserted_id_of (d : dict) : preserves R (inserted_id_of d).
Proof.
  unfold inserted_id_of.
  destruct (dict_get (lit "inserted_id") d) as [[v|id]|];
    first [apply preserves_raise | apply preserves_ret].
Qed.

Lemma preserves_process_option (question : str)
    (build_child : option_entry -> option str -> option str -> option str ->
                   result EventData)
    (opt : option_entry) :
  preserves R (process_option E question build_child opt).
Proof.
  unfold process_option, default_followup, default_rules.
  apply preserves_try_except.
  - apply preserves_bind; [apply preserves_generate_followup_question|].
    intros binary_title.
    apply preserves_bind; [apply preserves_fetch_image|]. intros image.
    apply preserves_bind; [apply preserves_generate_rules|]. intros rules.
    apply preserves_bind; [apply preserves_lift|]. intros doc.
    apply preserves_bind; [apply preserves_save_event|]. intros resp.
    destruct (dict_truthy resp).
    + apply preserves_bind; [apply preserves_inserted_id_of|]. intros id.
      apply preserves_bind; [apply preserves_log|]. intros _.
      apply preserves_ret.
    + apply preserves_bind; [apply preserves_log|]. intros _.
      apply preserves_ret.
  - intros e. apply preserves_bind; [apply preserves_log|]. intros _.
    apply preserves_ret.
Qed.

Lemma preserves_save_children (question : str)
    (build_child : option_entry -> option str -> option str -> option str ->
                   result EventData)
    (options : list option_entry) :
  forall updated processed,
    preserves R (save_children E question build_child options updated processed).
Proof.
  induction options as [|opt rest IH]; intros updated processed;
    cbn [save_children].
  - apply preserves_ret.
  - apply preserves_bind; [apply preserves_process_option|].
    intros [od|]; apply IH.
Qed.

Lemma preserves_patch_parent (pid : ObjectId)
    (updated : list OptionData) :
  preserves R (patch_parent E pid updated).
Proof.
  unfold patch_parent. destruct updated as [|od ods]; [apply preserves_ret|].
  apply preserves_try_except.
  - apply preserves_bind; [apply preserves_get_event_collection|].
    intros [c|]; [|apply preserves_raise].
    apply preserves_bind; [apply preserves_update_one|]. intros n.
    destruct (0 <? n)%Z;
      (apply preserves_bind; [apply preserves_log|]; intros _;
       apply preserves_ret).
  - intros e. apply preserves_bind; [apply preserves_log|]. intros _.
    apply preserves_ret.
Qed.

Lemma preserves_children_and_patch (question : str)
    (build_child : option_entry -> option str -> option str -> option str ->
                   result EventData)
    (pid : ObjectId) (options : list option_entry) :
  preserves R (children_and_patch E question build_child pid options).
Proof.
  unfold children_and_patch.
  apply preserves_bind; [apply preserves_save_children|].
  intros [updated processed].
  apply preserves_bind; [apply preserves_patch_parent|].
  intros [b|]; [apply preserves_ret|].
  apply preserves_bind; [apply preserves_log|]. intros _. apply preserves_ret.
Qed.

Lemma preserves_save_multi_option_event (event : regular_event)
    (question : str) (options : list option_entry) (end_date description : str) :
  preserves R
    (save_multi_option_event E event question options end_date description).
Proof.
  unfold save_multi_option_event, default_rules.
  apply preserves_try_except.
  - apply preserves_bind; [apply preserves_generate_rules|]. intros rules.
    apply preserves_bind; [apply preserves_fetch_image|]. intros image.
    apply preserves_bind; [apply preserves_lift|]. intros doc.
    apply preserves_bind; [apply preserves_save_event|]. intros resp.
    destruct (negb (dict_truthy resp)).
    + apply preserves_bind; [apply preserves_log|]. intros _.
      apply preserves_ret.
    + apply preserves_bind; [apply preserves_inserted_id_of|]. intros pid.
      apply preserves_children_and_patch.
  - intros e. apply preserves_bind; [apply preserves_log|]. intros _.
    apply preserves_ret.
Qed.

Lemma preserves_process_null_team_event (event : null_team_event)
    (category_id : option ObjectId) :
  preserves R (process_null_team_event E event category_id).
Proof.
  unfold process_null_team_event, default_rules.
  apply preserves_bind; [apply preserves_generate_multiple_question|].
  intros [[[generated_question prob1] prob2] event_description].
  destruct (negb (truthy_opt generated_question
                  && truthy_opt (formatted_date event))).
  - apply preserves_bind; [apply preserves_log|]. intros _.
    apply preserves_ret.
  - apply preserves_bind; [apply preserves_generate_rules|]. intros rules.
    apply preserves_bind; [apply preserves_fetch_image|]. intros image.
    apply preserves_bind; [apply preserves_lift|]. intros doc.
    apply preserves_bind; [apply preserves_save_event|]. intros resp.
    destruct (negb (dict_truthy resp)).
    + apply preserves_bind; [apply preserves_log|]. intros _.
      apply preserves_ret.
    + apply preserves_bind; [apply preserves_inserted_id_of|]. intros pid.
      destruct prob1 as [options|]; [|apply preserves_raise].
      apply preserves_children_and_patch.
Qed.

End Preservation.

(* ================================================================== *)
(** * The image-search breaker *)
(* ================================================================== *)

Lemma quiet_refl (s : state) : quiet s s.
Proof. repeat split. Qed.

Lemma quiet_trans (a b c : state) : quiet a b -> quiet b c -> quiet a c.
Proof.
  intros (H1 & H2 & H3) (H4 & H5 & H6). repeat split; congruence.
Qed.

Lemma quiet_gen (s : state) (c : nat) (l : list gen_event) :
  quiet s (set_gen c l s).
Proof. repeat split. Qed.

Lemma quiet_s3 (s : state) (c : nat) : quiet s (set_s3 c s).
Proof. repeat split. Qed.

Lemma quiet_safe_google_image_search (E : env) (q : str) :
  preserves quiet (safe_google_image_search E q).
Proof.
  intros s.
  destruct (safe_google_image_search_cases E q s) as [H|(_ & _ & H)];
    rewrite H; [apply quiet_refl|].
  unfold quiet; cbn; repeat split; reflexivity.
Qed.

Lemma image_searches_tripped (E : env) (qs : list str) (s : state) :
  tripped E s ->
  image_searches E qs s = (Returned (map (fun _ => None) qs), s).
Proof.
  intros H. induction qs as [|q qs IH]; cbn [image_searches map].
  - reflexivity.
  - rewrite run_bind, (safe_google_image_search_tripped E q s H).
    rewrite run_bind, IH. reflexivity.
Qed.

Lemma breaker_kept_refl (E : env) (s : state) : breaker_kept E s s.
Proof. repeat split; auto. Qed.

Lemma breaker_kept_trans (E : env) (a b c : state) :
  breaker_kept E a b -> breaker_kept E b c -> breaker_kept E a c.
Proof.
  intros (H1 & H2 & H3) (H4 & H5 & H6). split; [auto|]. split; [auto|].
  intros Ht. destruct (H3 Ht) as (Hn & Hi).
  assert (Htb : tripped E b).
  { destruct Ht as [Hd|Hc]; [left; auto | right; auto]. }
  destruct (H6 Htb) as (Hn' & Hi'). split; congruence.
Qed.

Lemma breaker_kept_gen (E : env) (s : state) (c : nat) (l : list gen_event) :
  breaker_kept E s (set_gen c l s).
Proof. repeat split; auto. Qed.

Lemma breaker_kept_s3 (E : env) (s : state) (c : nat) :
  breaker_kept E s (set_s3 c s).
Proof. repeat split; auto. Qed.

Lemma breaker_kept_db (E : env) (s : state) (c : nat) (l : list db_event) :
  breaker_kept E s (set_db c l s).
Proof. repeat split; auto. Qed.

Lemma breaker_kept_app (E : env) (s : state) (l : list log_msg) :
  breaker_kept E s (set_app l s).
Proof. repeat split; auto. Qed.

Lemma breaker_kept_safe_google_image_search (E : env) (q : str) :
  preserves (breaker_kept E) (safe_google_image_search E q).
Proof.
  intros s.
  destruct (IMAGE_SEARCH_DISABLED s) eqn:Hd.
  - rewrite (safe_google_image_search_tripped E q s (or_introl Hd)).
    apply breaker_kept_refl.
  - destruct (MAX_IMAGE_SEARCHES_PER_RUN E <=? IMAGE_SEARCH_COUNT s)%Z eqn:Hc.
    + apply Z.leb_le in Hc.
      rewrite (safe_google_image_search_tripped E q s (or_intror Hc)).
      apply breaker_kept_refl.
    + apply Z.leb_gt in Hc.
      rewrite (safe_google_image_search_open E q s Hd Hc). cbn [snd].
      split; [congruence|]. split; [cbn; lia|].
      intros [Ht|Ht]; [congruence | lia].
Qed.

(** The wrapper leaves the flag as it found it, whatever the service
    answered. *)
Lemma safe_google_image_search_keeps_flag (E : env) (q : str) (s : state) :
  IMAGE_SEARCH_DISABLED (snd (safe_google_image_search E q s))
  = IMAGE_SEARCH_DISABLED s.
Proof.
  destruct (safe_google_image_search_cases E q s) as [H|(_ & _ & H)];
    rewrite H; reflexivity.
Qed.

(** C8.  The quota error never reaches the wrapper: [search_image] catches
    the [HTTPError] of every attempt, so no call of
    [safe_google_image_search] ever sets the disabled flag, whatever the
    service answers.  With a service that answers every request of the
    first search with HTTP 429, that search makes its three requests and
    returns [None]; the flag is still unset, and the second search goes out
    and comes back with an image. *)
Theorem C8_quota_error_does_not_trip_breaker :
  (forall E q s,
      IMAGE_SEARCH_DISABLED (snd (safe_google_image_search E q s))
      = IMAGE_SEARCH_DISABLED s)
  /\ (forall E q s status,
         fst (google_image_search E q s) = Raised (HTTPError status) -> False)
  /\ GoogleSearch.search_image quota_api (lit "first") 3 2
       (GoogleSearch.Net 0 [] [])
     = (None, GoogleSearch.Net 3 [] [2%Z; 2%Z])
  /\ exists s1 s2,
       safe_google_image_search quota_env (lit "first") initial_state
       = (Returned None, s1)
       /\ IMAGE_SEARCH_DISABLED s1 = false
       /\ IMAGE_SEARCH_COUNT s1 = 1%Z
       /\ safe_google_image_search quota_env (lit "second") s1
          = (Returned (Some (lit "https://example.org/i.png")), s2)
       /\ net_log s2 = [lit "first"; lit "second"]
       /\ IMAGE_SEARCH_DISABLED s2 = false.
Proof.
  split; [exact safe_google_image_search_keeps_flag|].
  split.
  { intros E q s status. rewrite google_image_search_run. cbn [fst].
    destruct (img_script E (img_calls s)); discriminate. }
  split; [vm_compute; reflexivity|].
  do 2 eexists. split; [vm_compute; reflexivity|].
  split; [reflexivity|]. split; [reflexivity|].
  split; [vm_compute; reflexivity|]. split; reflexivity.
Qed.

(* ================================================================== *)
(** * [save_event] *)
(* ================================================================== *)

(** What [save_event] does, by the answer of the store. *)
Lemma save_event_run (E : env) (doc : EventData) (s : state) :
  save_event E doc s =
    match ans_coll (db_script E (db_calls s)) with
    | CollRaises => (Raised RuntimeError, stored [DbConnect CollRaises] s)
    | CollNone => (Raised RuntimeError, stored [DbConnect CollNone] s)
    | CollOk =>
        match ans_insert (db_script E (db_calls s)) with
        | Some id =>
            (Returned (success_response id),
             stored [DbConnect CollOk; DbInsert doc (Some id)] s)
        | None =>
            (Raised RuntimeError,
             stored [DbConnect CollOk; DbInsert doc None] s)
        end
    end.
Proof.
  unfold save_event, try_except, bind, get_event_collection, insert_one,
    raise, ret, stored.
  destruct (ans_coll (db_script E (db_calls s))); cbn; try reflexivity.
  destruct (ans_insert (db_script E (db_calls s))); cbn;
    rewrite <- app_assoc; reflexivity.
Qed.

Lemma no_falsy_logged_refl (s : state) : no_falsy_logged s s.
Proof. exists []. split; [symmetry; apply app_nil_r | reflexivity]. Qed.

Lemma no_falsy_logged_trans (a b c : state) :
  no_falsy_logged a b -> no_falsy_logged b c -> no_falsy_logged a c.
Proof.
  intros (l & Hl & Hf) (l' & Hl' & Hf'). exists (l ++ l'). split.
  - rewrite Hl', Hl, app_assoc. reflexivity.
  - rewrite forallb_app, Hf, Hf'. reflexivity.
Qed.

Lemma no_falsy_logged_same (s s' : state) :
  app_log s' = app_log s -> no_falsy_logged s s'.
Proof. intros H. exists []. rewrite H, app_nil_r. split; reflexivity. Qed.

(** A computation that never raises and is quiet runs to a value in a state
    with the same store log and the same messages. *)
Lemma run_quiet {A} (m : M A) (s : state) :
  returns m -> preserves quiet m ->
  exists a s', m s = (Returned a, s') /\ quiet s s'.
Proof.
  intros Hr Hq. destruct (Hr s) as (a & Ha). specialize (Hq s).
  destruct (m s) as [r s']. cbn [fst snd] in *. subst r.
  exists a, s'. split; [reflexivity | exact Hq].
Qed.

Lemma quiet_default_rules (E : env) (s : state) :
  exists r s', default_rules E s = (Returned r, s') /\ quiet s s'.
Proof.
  apply run_quiet.
  - apply returns_generate_rules.
  - apply preserves_generate_rules;
      [apply quiet_refl | apply quiet_trans | apply quiet_gen].
Qed.

Lemma quiet_default_followup (E : env) (q o : str) (s : state) :
  exists r s', default_followup E q o s = (Returned r, s') /\ quiet s s'.
Proof.
  apply run_quiet.
  - apply returns_generate_followup_question.
  - apply preserves_generate_followup_question;
      [apply quiet_refl | apply quiet_trans | apply quiet_gen].
Qed.

Lemma quiet_fetch_image (E : env) (q : str) (s : state) :
  exists r s', fetch_image E q s = (Returned r, s') /\ quiet s s'.
Proof.
  apply run_quiet.
  - apply returns_fetch_image.
  - apply preserves_fetch_image;
      [apply quiet_refl | apply quiet_trans | apply quiet_s3
      | apply quiet_safe_google_image_search].
Qed.

Lemma quiet_generate_multiple_question (E : env) (n d : Z) (s : state) :
  exists r s', generate_multiple_question E n d s = (Returned r, s')
               /\ quiet s s'.
Proof.
  apply run_quiet.
  - apply returns_generate_multiple_question.
  - apply preserves_generate_multiple_question;
      [apply quiet_refl | apply quiet_trans | apply quiet_gen].
Qed.

(* ================================================================== *)
(** * The hierarchy persister, step by step *)
(* ================================================================== *)

Lemma stored_db_log (evs : list db_event) (s : state) :
  db_log (stored evs s) = db_log s ++ evs.
Proof. reflexivity. Qed.

Lemma stored_app_log (evs : list db_event) (s : state) :
  app_log (stored evs s) = app_log s.
Proof. reflexivity. Qed.

Lemma run_log (m : log_msg) (s : state) :
  log m s = (Returned tt, set_app (app_log s ++ [m]) s).
Proof. reflexivity. Qed.

Lemma inserted_id_of_success (id : ObjectId) (s : state) :
  inserted_id_of (success_response id) s = (Returned id, s).
Proof. reflexivity. Qed.

(** One option: the loop body never raises; the store sees nothing, a
    failed connection, a failed insert or a successful insert of the
    option's child, and only in the last case does the option get its
    entry. *)
Lemma process_option_run (E : env) (question : str)
    (build_child : option_entry -> option str -> option str -> option str ->
                   result EventData)
    (opt : option_entry) (s : state) :
  builds_children build_child ->
  exists r s' evs,
    process_option E question build_child opt s = (Returned r, s')
    /\ db_log s' = db_log s ++ evs
    /\ child_events opt evs r
    /\ no_falsy_logged s s'.
Proof.
  intros Hb.
  destruct (quiet_default_followup E question (opt_name opt) s)
    as (t & s1 & H1 & (_ & Hd1 & Ha1)).
  destruct (quiet_fetch_image E (opt_name opt) s1)
    as (img & s2 & H2 & (_ & Hd2 & Ha2)).
  destruct (quiet_default_rules E s2) as (rl & s3 & H3 & (_ & Hd3 & Ha3)).
  assert (Hd : db_log s3 = db_log s) by congruence.
  assert (Ha : app_log s3 = app_log s) by congruence.
  unfold process_option, try_except.
  rewrite run_bind, H1. cbv beta iota.
  rewrite run_bind, H2. cbv beta iota.
  rewrite run_bind, H3. cbv beta iota.
  rewrite run_bind. unfold lift at 1.
  destruct (build_child opt t rl img) as [doc|e] eqn:Hdoc.
  - cbv beta iota. rewrite run_bind, save_event_run.
    destruct (ans_coll (db_script E (db_calls s3))) eqn:Hc.
    + exists None. eexists. exists [DbConnect CollRaises].
      rewrite run_bind, run_log. cbv beta iota. split; [reflexivity|].
      split; [cbn; congruence|]. split; [constructor; discriminate|].
      exists [LogErrorProcessingOption (opt_name opt)]. cbn.
      rewrite Ha. split; reflexivity.
    + exists None. eexists. exists [DbConnect CollNone].
      rewrite run_bind, run_log. cbv beta iota. split; [reflexivity|].
      split; [cbn; congruence|]. split; [constructor; discriminate|].
      exists [LogErrorProcessingOption (opt_name opt)]. cbn.
      rewrite Ha. split; reflexivity.
    + destruct (ans_insert (db_script E (db_calls s3))) as [id|] eqn:Hi.
      * cbv beta iota. cbn [dict_truthy success_response].
        rewrite run_bind, inserted_id_of_success. cbv beta iota.
        rewrite run_bind, run_log. cbv beta iota.
        eexists. eexists. exists [DbConnect CollOk; DbInsert doc (Some id)].
        split; [reflexivity|].
        split; [cbn; congruence|].
        split; [constructor; apply (Hb _ _ _ _ _ Hdoc)|].
        exists [LogChildCreated (opt_name opt) id]. cbn.
        rewrite Ha. split; reflexivity.
      * exists None. eexists. exists [DbConnect CollOk; DbInsert doc None].
        rewrite run_bind, run_log. cbv beta iota. split; [reflexivity|].
        split; [cbn; congruence|].
        split; [constructor; apply (Hb _ _ _ _ _ Hdoc)|].
        exists [LogErrorProcessingOption (opt_name opt)]. cbn.
        rewrite Ha. split; reflexivity.
  - exists None. eexists. exists [].
    rewrite run_bind, run_log. cbv beta iota. split; [reflexivity|].
    split; [cbn; rewrite app_nil_r; congruence|].
    split; [constructor|].
    exists [LogErrorProcessingOption (opt_name opt)]. cbn.
    rewrite Ha. split; reflexivity.
Qed.

Lemma get_event_collection_run (E : env) (s : state) :
  get_event_collection E s =
    match ans_coll (db_script E (db_calls s)) with
    | CollRaises => (Raised RuntimeError, stored [DbConnect CollRaises] s)
    | CollNone => (Returned None, stored [DbConnect CollNone] s)
    | CollOk => (Returned (Some (db_calls s)), stored [DbConnect CollOk] s)
    end.
Proof.
  unfold get_event_collection, stored.
  destruct (ans_coll (db_script E (db_calls s))); reflexivity.
Qed.

(** The loop over the options: every option is processed, whatever
    happened to the ones before it. *)
Lemma save_children_run (E : env) (question : str)
    (build_child : option_entry -> option str -> option str -> option str ->
                   result EventData)
    (options : list option_entry) :
  builds_children build_child ->
  forall updated processed s,
  exists new processed' s' evs,
    save_children E question build_child options updated processed s
    = (Returned (updated ++ new, processed'), s')
    /\ db_log s' = db_log s ++ evs
    /\ children_events options evs new
    /\ no_falsy_logged s s'.
Proof.
  intros Hb. induction options as [|opt rest IH]; intros updated processed s;
    cbn [save_children].
  - exists [], processed, s, []. rewrite !app_nil_r.
    split; [reflexivity|]. split; [reflexivity|].
    split; [constructor | apply no_falsy_logged_refl].
  - destruct (process_option_run E question build_child opt s Hb)
      as (r & s1 & evs1 & Hrun & Hlog & Hev & Hnf).
    rewrite run_bind, Hrun. destruct r as [od|].
    + destruct (IH (updated ++ [od]) (processed + 1)%Z s1)
        as (new & p' & s' & evs & Hrun' & Hlog' & Hev' & Hnf').
      exists (od :: new), p', s', (evs1 ++ evs). rewrite Hrun'.
      split; [rewrite <- app_assoc; reflexivity|].
      split; [rewrite Hlog', Hlog, app_assoc; reflexivity|].
      split; [exact (children_cons Hev Hev')|].
      apply (no_falsy_logged_trans _ _ _ Hnf Hnf').
    + destruct (IH updated processed s1)
        as (new & p' & s' & evs & Hrun' & Hlog' & Hev' & Hnf').
      exists new, p', s', (evs1 ++ evs). rewrite Hrun'.
      split; [reflexivity|].
      split; [rewrite Hlog', Hlog, app_assoc; reflexivity|].
      split; [exact (children_cons Hev Hev')|].
      apply (no_falsy_logged_trans _ _ _ Hnf Hnf').
Qed.

(** The final patch: none without an entry, else at most one update. *)
Lemma patch_parent_run (E : env) (pid : ObjectId) (updated : list OptionData)
    (s : state) :
  exists r s' evs,
    patch_parent E pid updated s = (Returned r, s')
    /\ db_log s' = db_log s ++ evs
    /\ patch_events pid updated evs
    /\ no_falsy_logged s s'.
Proof.
  unfold patch_parent. destruct updated as [|od ods].
  - exists None, s, []. rewrite app_nil_r. split; [reflexivity|].
    split; [reflexivity|]. split; [constructor | apply no_falsy_logged_refl].
  - unfold try_except. rewrite run_bind, get_event_collection_run.
    destruct (ans_coll (db_script E (db_calls s))) eqn:Hc.
    + rewrite run_bind, run_log. cbv beta iota.
      eexists. eexists. exists [DbConnect CollRaises].
      split; [reflexivity|]. split; [reflexivity|].
      split; [constructor; discriminate|].
      exists [LogErrorUpdatingParent]. split; reflexivity.
    + cbv beta iota. unfold raise at 1. rewrite run_bind, run_log.
      cbv beta iota.
      eexists. eexists. exists [DbConnect CollNone].
      split; [reflexivity|]. split; [reflexivity|].
      split; [constructor; discriminate|].
      exists [LogErrorUpdatingParent]. split; reflexivity.
    + cbv beta iota. rewrite run_bind. unfold update_one at 1.
      destruct (ans_update (db_script E (db_calls s))) as [n|] eqn:Hu.
      * destruct (0 <? n)%Z; rewrite run_bind, run_log; cbv beta iota.
        -- eexists. eexists.
           exists [DbConnect CollOk; DbUpdate pid (od :: ods) (Some n)].
           split; [reflexivity|].
           split; [cbn; rewrite <- app_assoc; reflexivity|].
           split; [constructor|].
           exists [LogParentUpdated (length (od :: ods))]. split; reflexivity.
        -- eexists. eexists.
           exists [DbConnect CollOk; DbUpdate pid (od :: ods) (Some n)].
           split; [reflexivity|].
           split; [cbn; rewrite <- app_assoc; reflexivity|].
           split; [constructor|].
           exists [LogFailedToUpdateParent]. split; reflexivity.
      * rewrite run_bind, run_log. cbv beta iota.
        eexists. eexists.
        exists [DbConnect CollOk; DbUpdate pid (od :: ods) None].
        split; [reflexivity|].
        split; [cbn; rewrite <- app_assoc; reflexivity|].
        split; [constructor|].
        exists [LogErrorUpdatingParent]. split; reflexivity.
Qed.

(** After a saved parent: the children in order, then the patch. *)
Lemma children_and_patch_run (E : env) (question : str)
    (build_child : option_entry -> option str -> option str -> option str ->
                   result EventData)
    (pid : ObjectId) (options : list option_entry) (s : state) :
  builds_children build_child ->
  exists b s' cevs updated pevs,
    children_and_patch E question build_child pid options s = (Returned b, s')
    /\ db_log s' = db_log s ++ cevs ++ pevs
    /\ children_events options cevs updated
    /\ patch_events pid updated pevs
    /\ no_falsy_logged s s'.
Proof.
  intros Hb. unfold children_and_patch.
  destruct (save_children_run E question build_child options Hb [] 0%Z s)
    as (new & p' & s1 & cevs & Hrun & Hlog & Hev & Hnf).
  cbn [app] in Hrun. rewrite run_bind, Hrun. cbv beta iota.
  destruct (patch_parent_run E pid new s1)
    as (r & s2 & pevs & Hrun' & Hlog' & Hev' & Hnf').
  rewrite run_bind, Hrun'. destruct r as [b|].
  - exists b, s2, cevs, new, pevs. split; [reflexivity|].
    split; [rewrite Hlog', Hlog, app_assoc; reflexivity|].
    split; [exact Hev|]. split; [exact Hev'|].
    apply (no_falsy_logged_trans _ _ _ Hnf Hnf').
  - rewrite run_bind, run_log. cbv beta iota.
    eexists. eexists. exists cevs, new, pevs. split; [reflexivity|].
    split; [cbn; rewrite Hlog', Hlog, app_assoc; reflexivity|].
    split; [exact Hev|]. split; [exact Hev'|].
    apply (no_falsy_logged_trans _ s2 _);
      [apply (no_falsy_logged_trans _ _ _ Hnf Hnf')|].
    exists [LogProcessed p']. split; reflexivity.
Qed.

(* ================================================================== *)
(** * Child records *)
(* ================================================================== *)

Lemma EventData_init_child (E : env) (sport : bool) (sk : option str)
    (cat top : option ObjectId) (t : option str) (ed : end_date_arg)
    (desc rl : option str) (p : Z) (img link : option str) (doc : EventData) :
  EventData_init E true sport sk cat top false t ed desc rl
    (Some p) (Some (100 - p)%Z) img link = Returned doc ->
  probability_of_yes doc = Some p
  /\ probability_of_no doc = Some (100 - p)%Z
  /\ is_child doc = true
  /\ has_options doc = false
  /\ options doc = None.
Proof.
  unfold EventData_init. destruct t as [t|]; [|discriminate].
  destruct desc as [d|]; [|discriminate].
  destruct ed as [|dt|str]; try destruct (coerce_datetime E str);
    intros H; try discriminate; injection H as <-; repeat split.
Qed.

Lemma regular_child_builds (E : env) (event : regular_event)
    (end_date description : str) :
  builds_children (regular_child E event end_date description).
Proof.
  intros opt t r i doc H. unfold regular_child in H.
  apply EventData_init_child in H. exact H.
Qed.

Lemma null_team_child_builds (E : env) (event : null_team_event)
    (category_id : option ObjectId) (event_description : option str) :
  builds_children (null_team_child E event category_id event_description).
Proof.
  intros opt t r i doc H. unfold null_team_child in H.
  apply EventData_init_child in H. exact H.
Qed.

(** C9.  Every child record built for an option, in the scraped-content
    path and in the sports path, has [probability_of_yes] equal to the
    option's probability and [probability_of_no] equal to 100 minus it, so
    the two sum to 100, and has [is_child = True], [has_options = False] and
    [options = None]. *)
Theorem C9_child_record_invariant (E : env) (opt : option_entry)
    (doc : EventData) :
  (exists event end_date description binary_title rules image,
      regular_child E event end_date description opt binary_title rules image
      = Returned doc)
  \/ (exists event category_id event_description binary_title rules image,
         null_team_child E event category_id event_description opt
           binary_title rules image = Returned doc) ->
  probability_of_no doc = Some (100 - opt_prob opt)%Z
  /\ (exists yes no,
         probability_of_yes doc = Some yes
         /\ probability_of_no doc = Some no
         /\ (yes + no = 100)%Z)
  /\ is_child doc = true
  /\ has_options doc = false
  /\ options doc = None.
Proof.
  intros H.
  assert (Hc : child_record_of opt doc).
  { destruct H as [(ev & ed & de & t & r & i & H)|(ev & c & de & t & r & i & H)].
    - apply (regular_child_builds E ev ed de opt t r i doc H).
    - apply (null_team_child_builds E ev c de opt t r i doc H). }
  destruct Hc as (Hy & Hn & Hch & Hho & Hop).
  split; [exact Hn|]. split.
  - exists (opt_prob opt), (100 - opt_prob opt)%Z.
    split; [exact Hy|]. split; [exact Hn | lia].
  - repeat split; assumption.
Qed.

Lemma C9_child_record_invariant_witness :
  probability_of_no alpha_child = Some (100 - opt_prob alpha_option)%Z
  /\ (exists yes no,
         probability_of_yes alpha_child = Some yes
         /\ probability_of_no alpha_child = Some no
         /\ (yes + no = 100)%Z)
  /\ is_child alpha_child = true
  /\ has_options alpha_child = false
  /\ options alpha_child = None.
Proof.
  apply (C9_child_record_invariant (env_of mid_june mute_model no_store)).
  left. exists cup_event, (lit "2025-12-01"), (lit "About the cup."),
    (Some (lit "Will Alpha win?")), None, None.
  reflexivity.
Defined.

(* ================================================================== *)
(** * The two persisters *)
(* ================================================================== *)

Lemma parent_init_regular (E : env) (event : regular_event)
    (question end_date description : str) (rl img : option str) :
  exists doc,
    EventData_init E false false None (category_id event) (topic_id event)
      true (Some question)
      (match parse_date E end_date with
       | Some d => EndDatetime d | None => EndNone end)
      (Some description) rl None None img (Some (link event)) = Returned doc
    /\ parent_record_of question doc.
Proof.
  unfold EventData_init.
  destruct (parse_date E end_date); eexists; split; try reflexivity;
    repeat split.
Qed.

Lemma parent_init_null_team (E : env) (sk : option str)
    (cat : option ObjectId) (gq : option str) (ed : end_date_arg)
    (desc rl img : option str) (doc : EventData) :
  EventData_init E false true sk cat None true gq ed desc rl None None img None
  = Returned doc ->
  parent_record_of (match gq with Some q => q | None => [] end) doc.
Proof.
  unfold EventData_init. destruct gq as [q|]; [|discriminate].
  destruct desc as [d|]; [|discriminate].
  destruct ed as [|dt|str]; try destruct (coerce_datetime E str);
    intros H; try discriminate; injection H as <-; repeat split.
Qed.

(** [save_multi_option_event] never raises, and what the store sees of it
    is an item: the parent first, then the children, then the patch. *)
Lemma save_multi_option_event_run (E : env) (event : regular_event)
    (question : str) (options : list option_entry)
    (end_date description : str) (s : state) :
  exists b s' evs,
    save_multi_option_event E event question options end_date description s
    = (Returned b, s')
    /\ db_log s' = db_log s ++ evs
    /\ item_events question options evs
    /\ no_falsy_logged s s'.
Proof.
  destruct (quiet_default_rules E s) as (rl & s1 & H1 & (_ & Hd1 & Ha1)).
  destruct (quiet_fetch_image E question s1)
    as (img & s2 & H2 & (_ & Hd2 & Ha2)).
  destruct (parent_init_regular E event question end_date description rl img)
    as (doc & Hdoc & Hparent).
  assert (Hd : db_log s2 = db_log s) by congruence.
  assert (Ha : app_log s2 = app_log s) by congruence.
  unfold save_multi_option_event, try_except.
  rewrite run_bind, H1. cbv beta iota.
  rewrite run_bind, H2. cbv beta iota.
  rewrite run_bind, Hdoc. unfold lift at 1. cbv beta iota.
  rewrite run_bind, save_event_run.
  destruct (ans_coll (db_script E (db_calls s2))) eqn:Hc.
  - rewrite run_bind, run_log. cbv beta iota.
    eexists. eexists. exists [DbConnect CollRaises].
    split; [reflexivity|]. split; [cbn; congruence|].
    split; [constructor; discriminate|].
    exists [LogErrorSavingMultiOption]. cbn. rewrite Ha. split; reflexivity.
  - rewrite run_bind, run_log. cbv beta iota.
    eexists. eexists. exists [DbConnect CollNone].
    split; [reflexivity|]. split; [cbn; congruence|].
    split; [constructor; discriminate|].
    exists [LogErrorSavingMultiOption]. cbn. rewrite Ha. split; reflexivity.
  - destruct (ans_insert (db_script E (db_calls s2))) as [pid|] eqn:Hi.
    + cbv beta iota. cbn [dict_truthy success_response negb].
      rewrite run_bind, inserted_id_of_success. cbv beta iota.
      set (s3 := stored [DbConnect CollOk; DbInsert doc (Some pid)] s2).
      destruct (children_and_patch_run E question
                  (regular_child E event end_date description) pid options s3
                  (regular_child_builds E event end_date description))
        as (b & s' & cevs & updated & pevs & Hrun & Hlog & Hcev & Hpev & Hnf).
      rewrite Hrun. exists b, s'.
      exists (DbConnect CollOk :: DbInsert doc (Some pid) :: cevs ++ pevs).
      split; [reflexivity|].
      split; [rewrite Hlog; unfold s3; rewrite stored_db_log, Hd,
                <- app_assoc; reflexivity|].
      split; [exact (item_parent_saved Hparent Hcev Hpev)|].
      apply (no_falsy_logged_trans _ s3 _); [|exact Hnf].
      apply no_falsy_logged_same. unfold s3. rewrite stored_app_log.
      exact Ha.
    + rewrite run_bind, run_log. cbv beta iota.
      eexists. eexists. exists [DbConnect CollOk; DbInsert doc None].
      split; [reflexivity|]. split; [cbn; congruence|].
      split; [exact (item_parent_failed options Hparent)|].
      exists [LogErrorSavingMultiOption]. cbn. rewrite Ha. split; reflexivity.
Qed.

(** What the store sees of [process_null_team_event] is an item too, for
    the question and the options the model gave; the call may raise. *)
Lemma process_null_team_event_run (E : env) (event : null_team_event)
    (category_id : option ObjectId) (s : state) :
  exists gq prob1 prob2 desc s0 r s' evs,
    generate_multiple_question E (DEFAULT_RETRY_COUNT E)
      (DEFAULT_RETRY_DELAY E) s = (Returned (gq, prob1, prob2, desc), s0)
    /\ process_null_team_event E event category_id s = (r, s')
    /\ db_log s' = db_log s ++ evs
    /\ item_events (match gq with Some q => q | None => [] end)
         (match prob1 with Some o => o | None => [] end) evs
    /\ no_falsy_logged s s'.
Proof.
  destruct (quiet_generate_multiple_question E (DEFAULT_RETRY_COUNT E)
              (DEFAULT_RETRY_DELAY E) s)
    as ([[[gq prob1] prob2] desc] & s0 & H0 & (_ & Hd0 & Ha0)).
  exists gq, prob1, prob2, desc, s0.
  unfold process_null_team_event. rewrite run_bind, H0. cbv beta iota.
  destruct (negb (truthy_opt gq && truthy_opt (formatted_date event))).
  { rewrite run_bind, run_log. cbv beta iota.
    eexists. eexists. exists []. split; [reflexivity|].
    split; [reflexivity|].
    split; [cbn; rewrite app_nil_r; congruence|].
    split; [constructor|].
    exists [LogSkipping]. cbn. rewrite Ha0. split; reflexivity. }
  destruct (quiet_default_rules E s0) as (rl & s1 & H1 & (_ & Hd1 & Ha1)).
  destruct (quiet_fetch_image E (match gq with Some q => q | None => [] end) s1)
    as (img & s2 & H2 & (_ & Hd2 & Ha2)).
  assert (Hd : db_log s2 = db_log s) by congruence.
  assert (Ha : app_log s2 = app_log s) by congruence.
  rewrite run_bind, H1. cbv beta iota.
  rewrite run_bind, H2. cbv beta iota.
  rewrite run_bind. unfold lift at 1.
  destruct (EventData_init E false true (Some (key event)) category_id None
              true gq
              (match formatted_date event with
               | Some d => EndStr d | None => EndNone end)
              desc rl None None img None) as [doc|e] eqn:Hdoc.
  2:{ eexists. eexists. exists []. split; [reflexivity|].
      split; [reflexivity|]. split; [rewrite app_nil_r; exact Hd|].
      split; [constructor|]. apply no_falsy_logged_same. exact Ha. }
  pose proof (parent_init_null_team E _ _ _ _ _ _ _ doc Hdoc) as Hparent.
  cbv beta iota. rewrite run_bind, save_event_run.
  destruct (ans_coll (db_script E (db_calls s2))) eqn:Hc.
  - eexists. eexists. exists [DbConnect CollRaises].
    split; [reflexivity|]. split; [reflexivity|].
    split; [cbn; congruence|]. split; [constructor; discriminate|].
    apply no_falsy_logged_same. exact Ha.
  - eexists. eexists. exists [DbConnect CollNone].
    split; [reflexivity|]. split; [reflexivity|].
    split; [cbn; congruence|]. split; [constructor; discriminate|].
    apply no_falsy_logged_same. exact Ha.
  - destruct (ans_insert (db_script E (db_calls s2))) as [pid|] eqn:Hi.
    + cbv beta iota. cbn [dict_truthy success_response negb].
      rewrite run_bind, inserted_id_of_success. cbv beta iota.
      set (s3 := stored [DbConnect CollOk; DbInsert doc (Some pid)] s2).
      assert (Hd3 : db_log s3 = db_log s ++ [DbConnect CollOk; DbInsert doc (Some pid)]).
      { unfold s3. rewrite stored_db_log, Hd. reflexivity. }
      assert (Ha3 : no_falsy_logged s s3).
      { apply no_falsy_logged_same. unfold s3. rewrite stored_app_log.
        exact Ha. }
      destruct prob1 as [options|].
      * destruct (children_and_patch_run E
                    (match gq with Some q => q | None => [] end)
                    (null_team_child E event category_id desc) pid options s3
                    (null_team_child_builds E event category_id desc))
          as (b & s' & cevs & updated & pevs & Hrun & Hlog & Hcev & Hpev & Hnf).
        rewrite Hrun. exists (Returned b), s'.
        exists (DbConnect CollOk :: DbInsert doc (Some pid) :: cevs ++ pevs).
        split; [reflexivity|]. split; [reflexivity|].
        split; [rewrite Hlog, Hd3, <- app_assoc; reflexivity|].
        split; [exact (item_parent_saved Hparent Hcev Hpev)|].
        apply (no_falsy_logged_trans _ s3 _); assumption.
      * eexists. eexists.
        exists (DbConnect CollOk :: DbInsert doc (Some pid) :: [] ++ []).
        split; [reflexivity|]. split; [reflexivity|].
        split; [exact Hd3|].
        split; [exact (item_parent_saved Hparent children_nil
                         (patch_nothing pid))|].
        exact Ha3.
    + eexists. eexists. exists [DbConnect CollOk; DbInsert doc None].
      split; [reflexivity|]. split; [reflexivity|].
      split; [cbn; congruence|].
      split; [exact (item_parent_failed _ Hparent)|].
      apply no_falsy_logged_same. exact Ha.
Qed.

(** C10.  [save_event] returns the dictionary of a successful insert,
    which is truthy, with the status and the identity the store gave, or
    raises [RuntimeError], which it does exactly when the collection is not
    obtained or the insert fails; it returns nothing else.  So in neither
    persister is the branch for a falsy result ever taken: none of its two
    messages is ever logged, and a failed write reaches the callers as an
    exception. *)
Theorem C10_save_event_never_falsy (E : env) :
  (forall doc s,
      match fst (save_event E doc s) with
      | Returned d =>
          dict_truthy d = true
          /\ exists id,
               d = success_response id
               /\ dict_get (lit "status") d = Some (VStr (lit "success"))
               /\ dict_get (lit "inserted_id") d = Some (VIdStr id)
               /\ ans_coll (db_script E (db_calls s)) = CollOk
               /\ ans_insert (db_script E (db_calls s)) = Some id
      | Raised e =>
          e = RuntimeError
          /\ (ans_coll (db_script E (db_calls s)) <> CollOk
              \/ ans_insert (db_script E (db_calls s)) = None)
      end)
  /\ (forall event question options end_date description s,
         no_falsy_logged s
           (snd (save_multi_option_event E event question options end_date
                   description s)))
  /\ (forall event category_id s,
         no_falsy_logged s
           (snd (process_null_team_event E event category_id s))).
Proof.
  split.
  { intros doc s. rewrite save_event_run.
    destruct (ans_coll (db_script E (db_calls s))) eqn:Hc; cbn [fst].
    - split; [reflexivity|]. left. discriminate.
    - split; [reflexivity|]. left. discriminate.
    - destruct (ans_insert (db_script E (db_calls s))) as [id|] eqn:Hi;
        cbn [fst].
      + split; [reflexivity|]. exists id. repeat split.
      + split; [reflexivity|]. right. reflexivity. }
  split.
  - intros event question options end_date description s.
    destruct (save_multi_option_event_run E event question options end_date
                description s) as (b & s' & evs & H1 & _ & _ & H4).
    rewrite H1. exact H4.
  - intros event category_id s.
    destruct (process_null_team_event_run E event category_id s)
      as (gq & p1 & p2 & d & s0 & r & s' & evs & _ & H1 & _ & _ & H4).
    rewrite H1. exact H4.
Qed.

(* ================================================================== *)
(** * The two question patterns *)
(* ================================================================== *)

Lemma first_line_split (q : str) :
  exists tail,
    q = first_line q ++ tail /\ no_newline (first_line q) /\ line_end tail.
Proof.
  induction q as [|c q IH]; cbn [first_line].
  - exists []. split; [reflexivity|]. split; [constructor | left; reflexivity].
  - destruct (eqb_char c newline) eqn:Hc.
    + exists (c :: q). split; [reflexivity|]. split; [constructor|].
      right. exists q. apply Ascii.eqb_eq in Hc. rewrite Hc. reflexivity.
    + destruct IH as (tail & Hq & Hn & Ht). exists tail.
      split; [cbn; rewrite <- Hq; reflexivity|].
      split; [constructor; assumption | exact Ht].
Qed.

Lemma then_qmark_at_line_end (bef tail : str) (cps : list (nat * str)) :
  line_end tail -> then_qmark (MState bef tail cps) = None.
Proof.
  intros [->|(t & ->)]; reflexivity.
Qed.

Lemma dot_at_line_end (k : K) (bef tail : str) (cps : list (nat * str)) :
  line_end tail -> dot k (MState bef tail cps) = None.
Proof.
  intros [->|(t & ->)]; reflexivity.
Qed.

Lemma dot_step (k : K) (bef rest : str) (cps : list (nat * str)) (c : ascii) :
  eqb_char c newline = false ->
  dot k (MState bef (c :: rest) cps) = k (MState (c :: bef) rest cps).
Proof.
  intros Hc. unfold dot. cbn [rmatch after cset_match]. rewrite Hc. reflexivity.
Qed.

Lemma then_qmark_step (bef rest : str) (cps : list (nat * str)) (c : ascii) :
  then_qmark (MState bef (c :: rest) cps)
  = if eqb_char c qmark then Some (MState (c :: bef) rest cps) else None.
Proof.
  unfold then_qmark. cbn [rmatch after cset_match lit_match].
  unfold eqb_char. rewrite (Ascii.eqb_sym qmark c). reflexivity.
Qed.

Lemma star_loop_line_end (greedy : bool) (fuel : nat) (bef tail : str)
    (cps : list (nat * str)) :
  line_end tail ->
  star_loop dot greedy then_qmark fuel (MState bef tail cps) = None.
Proof.
  intros Ht. destruct fuel as [|n]; cbn [star_loop].
  - apply then_qmark_at_line_end. exact Ht.
  - rewrite (dot_at_line_end _ bef tail cps Ht).
    rewrite (then_qmark_at_line_end bef tail cps Ht).
    destruct greedy; reflexivity.
Qed.

Lemma star_loop_step (greedy : bool) (n : nat) (bef rest : str)
    (cps : list (nat * str)) (c : ascii) :
  eqb_char c newline = false ->
  star_loop dot greedy then_qmark (S n) (MState bef (c :: rest) cps)
  = if greedy
    then match star_loop dot greedy then_qmark n (MState (c :: bef) rest cps) with
         | Some r => Some r
         | None => then_qmark (MState bef (c :: rest) cps)
         end
    else match then_qmark (MState bef (c :: rest) cps) with
         | Some r => Some r
         | None => star_loop dot greedy then_qmark n (MState (c :: bef) rest cps)
         end.
Proof.
  intros Hc. cbn [star_loop]. rewrite (dot_step _ bef rest cps c Hc).
  cbn [after length].
  assert (Hlt : (length rest <? S (length rest)) = true)
    by (apply Nat.ltb_lt; lia).
  rewrite Hlt. reflexivity.
Qed.

(** The greedy repetition of the dot, followed by a question mark, ends
    right after the last question mark of the line. *)
Lemma greedy_dot_then_qmark (l : str) :
  forall (tail bef : str) (cps : list (nat * str)) (fuel : nat),
    no_newline l -> line_end tail -> length (l ++ tail) <= fuel ->
    star_loop dot true then_qmark fuel (MState bef (l ++ tail) cps)
    = match to_last qmark l with
      | Some p => Some (MState (rev p ++ bef) (skipn (length p) l ++ tail) cps)
      | None => None
      end.
Proof.
  induction l as [|x l IH]; intros tail bef cps fuel Hn Ht Hf.
  - cbn [app to_last]. apply star_loop_line_end. exact Ht.
  - inversion Hn as [|? ? Hx Hl]; subst.
    destruct fuel as [|n]; [cbn in Hf; lia|].
    cbn [app]. rewrite (star_loop_step true n bef (l ++ tail) cps x Hx).
    rewrite (IH tail (x :: bef) cps n Hl Ht) by (cbn in Hf; lia).
    cbn [to_last]. destruct (to_last qmark l) as [p|].
    + cbn [rev length skipn]. rewrite <- app_assoc. reflexivity.
    + rewrite then_qmark_step. destruct (eqb_char x qmark); reflexivity.
Qed.

(** The lazy repetition of the dot, followed by a question mark, ends
    right after the first question mark of the line. *)
Lemma lazy_dot_then_qmark (l : str) :
  forall (tail bef : str) (cps : list (nat * str)) (fuel : nat),
    no_newline l -> line_end tail -> length (l ++ tail) <= fuel ->
    star_loop dot false then_qmark fuel (MState bef (l ++ tail) cps)
    = match to_first qmark l with
      | Some p => Some (MState (rev p ++ bef) (skipn (length p) l ++ tail) cps)
      | None => None
      end.
Proof.
  induction l as [|x l IH]; intros tail bef cps fuel Hn Ht Hf.
  - cbn [app to_first]. apply star_loop_line_end. exact Ht.
  - inversion Hn as [|? ? Hx Hl]; subst.
    destruct fuel as [|n]; [cbn in Hf; lia|].
    cbn [app]. rewrite (star_loop_step false n bef (l ++ tail) cps x Hx).
    rewrite then_qmark_step. cbn [to_first].
    destruct (eqb_char x qmark); [reflexivity|].
    rewrite (IH tail (x :: bef) cps n Hl Ht) by (cbn in Hf; lia).
    destruct (to_first qmark l) as [p|]; cbn [option_map]; [|reflexivity].
    cbn [rev length skipn]. rewrite <- app_assoc. reflexivity.
Qed.

Lemma to_first_prefix (c : ascii) (l p : str) :
  to_first c l = Some p -> exists r, l = p ++ r.
Proof.
  revert p. induction l as [|x l IH]; intros p; cbn [to_first].
  - discriminate.
  - destruct (eqb_char x c).
    + intros H. injection H as <-. exists l. reflexivity.
    + destruct (to_first c l) as [p'|]; cbn [option_map]; [|discriminate].
      intros H. injection H as <-. destruct (IH p' eq_refl) as (r & ->).
      exists r. reflexivity.
Qed.

Lemma to_last_prefix (c : ascii) (l p : str) :
  to_last c l = Some p -> exists r, l = p ++ r.
Proof.
  revert p. induction l as [|x l IH]; intros p; cbn [to_last].
  - discriminate.
  - destruct (to_last c l) as [p'|].
    + intros H. injection H as <-. destruct (IH p' eq_refl) as (r & ->).
      exists r. reflexivity.
    + destruct (eqb_char x c); [|discriminate].
      intros H. injection H as <-. exists l. reflexivity.
Qed.

Lemma to_first_some (c : ascii) (l : str) :
  In c l -> exists p, to_first c l = Some p.
Proof.
  induction l as [|x l IH]; intros H; [contradiction|]. cbn [to_first].
  destruct (eqb_char x c) eqn:Hx; [eexists; reflexivity|].
  destruct H as [->|H].
  - unfold eqb_char in Hx. rewrite Ascii.eqb_refl in Hx. discriminate.
  - destruct (IH H) as (p & ->). eexists. reflexivity.
Qed.

Lemma to_last_some (c : ascii) (l : str) :
  In c l -> exists p, to_last c l = Some p.
Proof.
  induction l as [|x l IH]; intros H; [contradiction|]. cbn [to_last].
  destruct (to_last c l) as [p|] eqn:Hl; [eexists; reflexivity|].
  destruct H as [->|H].
  - unfold eqb_char. rewrite Ascii.eqb_refl. eexists. reflexivity.
  - destruct (IH H) as (p & Hp). discriminate.
Qed.

(** What a match that starts the text and stops before [rest] consumed. *)
Lemma consumed_prefix (p rest : str) (bef : str) (cps : list (nat * str)) :
  consumed (MState [] (p ++ rest) []) (MState bef rest cps) = p.
Proof.
  unfold consumed. cbn [after]. rewrite length_app.
  replace (length p + length rest - length rest) with (length p) by lia.
  rewrite firstn_app, Nat.sub_diag, firstn_all. cbn. apply app_nil_r.
Qed.

Lemma skipn_prefix (p r : str) : skipn (length p) (p ++ r) = r.
Proof.
  rewrite skipn_app, skipn_all, Nat.sub_diag. reflexivity.
Qed.

Lemma scan_here (icase : bool) (r : regex) (skipped bef aft : str)
    (st' : mstate) :
  match_here icase r bef aft = Some st' ->
  scan icase r skipped bef aft
  = Some (MatchObj (rev skipped) (consumed (MState bef aft []) st')
                   (caps st') st').
Proof.
  intros H. destruct aft; cbn [scan]; rewrite H; reflexivity.
Qed.

Lemma match_here_greedy (l tail p r : str) :
  no_newline l -> line_end tail ->
  to_last qmark l = Some p -> l = p ++ r ->
  match_here false question_re [] (l ++ tail)
  = Some (MState (rev p ++ []) (r ++ tail) []).
Proof.
  intros Hn Ht Hp Hr.
  change (star_loop dot true then_qmark (length (l ++ tail))
            (MState [] (l ++ tail) [])
          = Some (MState (rev p ++ []) (r ++ tail) [])).
  rewrite (greedy_dot_then_qmark l tail [] [] (length (l ++ tail)) Hn Ht)
    by lia.
  rewrite Hp. subst l. rewrite skipn_prefix. reflexivity.
Qed.

Lemma match_here_lazy (l tail p r : str) :
  no_newline l -> line_end tail ->
  to_first qmark l = Some p -> l = p ++ r ->
  match_here false question_lazy_re [] (l ++ tail)
  = Some (MState (rev p ++ []) (r ++ tail) []).
Proof.
  intros Hn Ht Hp Hr.
  change (star_loop dot false then_qmark (length (l ++ tail))
            (MState [] (l ++ tail) [])
          = Some (MState (rev p ++ []) (r ++ tail) [])).
  rewrite (lazy_dot_then_qmark l tail [] [] (length (l ++ tail)) Hn Ht)
    by lia.
  rewrite Hp. subst l. rewrite skipn_prefix. reflexivity.
Qed.

(** [re.search] with the greedy pattern on a text whose first line has a
    question mark: the first line up to its last question mark. *)
Lemma truncate_question_greedy (q p : str) :
  to_last qmark (first_line q) = Some p ->
  truncate_question question_re q = p.
Proof.
  intros Hp. destruct (first_line_split q) as (tail & Hq & Hn & Ht).
  destruct (to_last_prefix _ _ _ Hp) as (r & Hr).
  pose proof (match_here_greedy _ tail p r Hn Ht Hp Hr) as Hm.
  rewrite <- Hq in Hm.
  unfold truncate_question, search. rewrite (scan_here _ _ _ _ _ _ Hm).
  cbn [group m_text]. rewrite Hq, Hr, <- app_assoc. apply consumed_prefix.
Qed.

(** [re.search] with the lazy pattern on such a text: the first line up to
    its first question mark. *)
Lemma truncate_question_lazy (q p : str) :
  to_first qmark (first_line q) = Some p ->
  truncate_question question_lazy_re q = p.
Proof.
  intros Hp. destruct (first_line_split q) as (tail & Hq & Hn & Ht).
  destruct (to_first_prefix _ _ _ Hp) as (r & Hr).
  pose proof (match_here_lazy _ tail p r Hn Ht Hp Hr) as Hm.
  rewrite <- Hq in Hm.
  unfold truncate_question, search. rewrite (scan_here _ _ _ _ _ _ Hm).
  cbn [group m_text]. rewrite Hq, Hr, <- app_assoc. apply consumed_prefix.
Qed.

(** On a line with a question mark, the first one of the line is the first
    one of the text. *)
Lemma to_first_first_line (s : str) :
  In qmark (first_line s) -> to_first qmark (first_line s) = to_first qmark s.
Proof.
  induction s as [|c s IH]; cbn [first_line]; [contradiction|].
  destruct (eqb_char c newline) eqn:Hc; [contradiction|].
  intros H. cbn [to_first]. destruct (eqb_char c qmark) eqn:Hq; [reflexivity|].
  destruct H as [->|H].
  - unfold eqb_char in Hq. rewrite Ascii.eqb_refl in Hq. discriminate.
  - rewrite (IH H). reflexivity.
Qed.

(** ** The question the three parsers return *)

Ltac parse_cases :=
  repeat match goal with
         | |- context [if ?b then _ else _] => destruct b
         | |- context [match ?x with Some _ => _ | None => _ end] => destruct x
         | |- context [match ?l with [] => _ | _ :: _ => _ end] => destruct l
         end.

Lemma parse_response_question (data : str) (q : str)
    (p : option probability) (n : option Z) (d : option str) :
  parse_response data = Some (Some q, p, n, d) ->
  q = truncate_question question_re (question_section data).
Proof.
  unfold parse_response, none4.
  set (gq := truncate_question question_re (question_section data)).
  parse_cases; intros H; try discriminate; injection H; intros; subst;
    reflexivity.
Qed.

Lemma parse_api_response_question (end_date data : str) (q : str)
    (y n : option Z) (d e : option str) :
  parse_api_response end_date data = Some (Some q, y, n, d, e) ->
  q = truncate_question question_re (question_section data).
Proof.
  unfold parse_api_response, none5.
  set (gq := truncate_question question_re (question_section data)).
  parse_cases; intros H; try discriminate; injection H; intros; subst;
    reflexivity.
Qed.

Lemma parse_multiple_response_question (data : str) (q : str)
    (o : option (list option_entry)) (n : option Z) (e : option str) :
  parse_multiple_response data = Some (Some q, o, n, e) ->
  q = truncate_question question_lazy_re (question_section data).
Proof.
  unfold parse_multiple_response.
  set (gq := truncate_question question_lazy_re (question_section data)).
  parse_cases; intros H; try discriminate; injection H; intros; subst;
    reflexivity.
Qed.

(** C7 (amended).  When the first line of the extracted question substring
    contains a question mark, the question [generate_multiple_question]
    returns is the prefix of the substring that ends at its first question
    mark, and the question [generate_question] and
    [generate_question_from_api] return is the prefix that ends at the last
    question mark of that first line. *)
Theorem C7_question_truncation (data : str) :
  In qmark (first_line (question_section data)) ->
  (exists p,
      to_first qmark (question_section data) = Some p
      /\ truncate_question question_lazy_re (question_section data) = p
      /\ forall q o n e,
           parse_multiple_response data = Some (Some q, o, n, e) -> q = p)
  /\ (exists p,
         to_last qmark (first_line (question_section data)) = Some p
         /\ truncate_question question_re (question_section data) = p
         /\ (forall q pr n d,
                parse_response data = Some (Some q, pr, n, d) -> q = p)
         /\ (forall end_date q y n d e,
                parse_api_response end_date data = Some (Some q, y, n, d, e) ->
                q = p)).
Proof.
  intros Hin. split.
  - destruct (to_first_some _ _ Hin) as (p & Hp). exists p.
    pose proof (truncate_question_lazy _ _ Hp) as Ht.
    split; [rewrite <- (to_first_first_line _ Hin); exact Hp|].
    split; [exact Ht|].
    intros q o n e H. rewrite <- Ht.
    apply (parse_multiple_response_question data q o n e H).
  - destruct (to_last_some _ _ Hin) as (p & Hp). exists p.
    pose proof (truncate_question_greedy _ _ Hp) as Ht.
    split; [exact Hp|]. split; [exact Ht|]. split.
    + intros q pr n d H. rewrite <- Ht.
      apply (parse_response_question data q pr n d H).
    + intros end_date q y n d e H. rewrite <- Ht.
      apply (parse_api_response_question end_date data q y n d e H).
Qed.

Lemma C7_question_truncation_witness :
  (exists p,
      to_first qmark (question_section two_questions_response) = Some p
      /\ truncate_question question_lazy_re (question_section two_questions_response) = p
      /\ forall q o n e,
           parse_multiple_response two_questions_response = Some (Some q, o, n, e) ->
           q = p)
  /\ (exists p,
         to_last qmark (first_line (question_section two_questions_response)) = Some p
         /\ truncate_question question_re (question_section two_questions_response) = p
         /\ (forall q pr n d,
                parse_response two_questions_response = Some (Some q, pr, n, d) -> q = p)
         /\ (forall end_date q y n d e,
                parse_api_response end_date two_questions_response
                = Some (Some q, y, n, d, e) -> q = p)).
Proof.
  apply (C7_question_truncation two_questions_response).
  vm_compute. repeat (first [left; reflexivity | right]).
Defined.

(** C7, as stated, fails.  In [generate_question] the question of a
    response whose substring is [Will A win? Or will B win?] is returned
    whole, not cut at its first question mark; and in
    [generate_multiple_question] a substring whose question mark comes on
    the second line loses its first line, so that what is returned is not
    a prefix of the substring. *)
Lemma C7_question_not_cut_at_first_mark :
  question_section two_questions_response = lit "Will A win? Or will B win?"
  /\ to_first qmark (question_section two_questions_response) = Some (lit "Will A win?")
  /\ parse_response two_questions_response
     = Some (Some (lit "Will A win? Or will B win?"), Some (ProbInt 60),
             Some 40%Z, Some (lit "2025-12-01"))
  /\ question_section two_lines_response
     = lit "Cup final." ++ [newline] ++ lit "Will A win?"
  /\ to_first qmark (question_section two_lines_response)
     = Some (lit "Cup final." ++ [newline] ++ lit "Will A win?")
  /\ parse_multiple_response two_lines_response
     = Some (Some (lit "Will A win?"),
             Some [OptionEntry (lit "A") 60; OptionEntry (lit "B") 40],
             None, Some (lit "The cup.")).
Proof. vm_compute. repeat split. Qed.

(* ================================================================== *)
(** * The persister when every child can be built *)
(* ================================================================== *)

(** With a talkative model the follow-up question is the first answer. *)
Lemma default_followup_answers (E : env) (q o : str) (s : state) :
  talkative E -> (0 < DEFAULT_RETRY_COUNT E)%Z ->
  truthy q = true -> truthy o = true ->
  exists t, default_followup E q o s = (Returned (Some t), asked s).
Proof.
  intros Ht Hn Hq Ho. destruct (Ht (llm_calls s)) as (c & Hc & Hcn).
  destruct (range_len_pos _ Hn) as (k & Hk).
  unfold default_followup, generate_followup_question.
  rewrite Hq, Ho. cbn [negb orb]. rewrite Hk, run_bind. cbn [for_range].
  rewrite run_bind. unfold generate_followup_attempt.
  rewrite run_bind, run_ask_model, Hc. cbn [truthy_opt]. rewrite Hcn.
  eexists. reflexivity.
Qed.

Lemma regular_child_builds_titled (E : env) (event : regular_event)
    (end_date description : str) :
  builds_titled (regular_child E event end_date description).
Proof.
  intros opt t r i. unfold regular_child, EventData_init.
  destruct (parse_date E end_date); eexists; reflexivity.
Qed.

(** One option of such a run: exactly one insert, of its child. *)
Lemma process_option_built (E : env) (question : str)
    (build_child : option_entry -> option str -> option str -> option str ->
                   result EventData)
    (opt : option_entry) (s : state) :
  talkative E -> reachable E -> (0 < DEFAULT_RETRY_COUNT E)%Z ->
  truthy question = true -> truthy (opt_name opt) = true ->
  builds_children build_child -> builds_titled build_child ->
  exists s' k,
    process_option E question build_child opt s
    = (Returned (match snd k with
                 | Some id => Some (MkOptionData (opt_name opt) (opt_prob opt)
                                      (Some id))
                 | None => None
                 end), s')
    /\ db_log s' = db_log s ++ kid_events k
    /\ child_record_of opt (fst k).
Proof.
  intros Ht Hr Hn Hq Ho Hb Hbt.
  destruct (default_followup_answers E question (opt_name opt) s Ht Hn Hq Ho)
    as (t & H1).
  destruct (quiet_fetch_image E (opt_name opt) (asked s))
    as (img & s2 & H2 & (_ & Hd2 & _)).
  destruct (quiet_default_rules E s2) as (rl & s3 & H3 & (_ & Hd3 & _)).
  assert (Hd : db_log s3 = db_log s) by (rewrite Hd3, Hd2; reflexivity).
  destruct (Hbt opt t rl img) as (doc & Hdoc).
  unfold process_option, try_except.
  rewrite run_bind, H1. cbv beta iota.
  rewrite run_bind, H2. cbv beta iota.
  rewrite run_bind, H3. cbv beta iota.
  rewrite run_bind, Hdoc. unfold lift at 1. cbv beta iota.
  rewrite run_bind, save_event_run, (Hr (db_calls s3)).
  destruct (ans_insert (db_script E (db_calls s3))) as [id|].
  - cbv beta iota. cbn [dict_truthy success_response].
    rewrite run_bind, inserted_id_of_success. cbv beta iota.
    rewrite run_bind, run_log. cbv beta iota.
    eexists. exists (doc, Some id). split; [reflexivity|].
    split; [cbn; rewrite Hd; reflexivity|].
    apply (Hb _ _ _ _ _ Hdoc).
  - rewrite run_bind, run_log. cbv beta iota.
    eexists. exists (doc, None). split; [reflexivity|].
    split; [cbn; rewrite Hd; reflexivity|].
    apply (Hb _ _ _ _ _ Hdoc).
Qed.

(** The loop of such a run: one insert per option, in order. *)
Lemma save_children_built (E : env) (question : str)
    (build_child : option_entry -> option str -> option str -> option str ->
                   result EventData)
    (options : list option_entry) :
  talkative E -> reachable E -> (0 < DEFAULT_RETRY_COUNT E)%Z ->
  truthy question = true ->
  Forall (fun o => truthy (opt_name o) = true) options ->
  builds_children build_child -> builds_titled build_child ->
  forall updated processed s,
  exists processed' s' kids,
    save_children E question build_child options updated processed s
    = (Returned (updated ++ entries options kids, processed'), s')
    /\ db_log s' = db_log s ++ flat_map kid_events kids
    /\ Forall2 (fun o k => child_record_of o (fst k)) options kids.
Proof.
  intros Ht Hr Hn Hq Hos Hb Hbt.
  induction options as [|opt rest IH]; intros updated processed s;
    cbn [save_children].
  - exists processed, s, []. cbn. rewrite !app_nil_r.
    split; [reflexivity|]. split; [reflexivity | constructor].
  - inversion Hos as [|? ? Ho Hrest]; subst.
    destruct (process_option_built E question build_child opt s
                Ht Hr Hn Hq Ho Hb Hbt) as (s1 & [doc res] & Hrun & Hlog & Hrec).
    rewrite run_bind, Hrun. cbn [snd fst] in *. destruct res as [id|].
    + destruct (IH Hrest (updated ++ [MkOptionData (opt_name opt)
                                         (opt_prob opt) (Some id)])
                  (processed + 1)%Z s1)
        as (p' & s' & kids & Hrun' & Hlog' & Hall).
      exists p', s', ((doc, Some id) :: kids). rewrite Hrun'.
      split; [cbn [entries]; rewrite <- app_assoc; reflexivity|].
      split; [rewrite Hlog', Hlog; cbn [flat_map];
              rewrite <- app_assoc; reflexivity|].
      constructor; assumption.
    + destruct (IH Hrest updated processed s1)
        as (p' & s' & kids & Hrun' & Hlog' & Hall).
      exists p', s', ((doc, None) :: kids). rewrite Hrun'.
      split; [reflexivity|].
      split; [rewrite Hlog', Hlog; cbn [flat_map];
              rewrite <- app_assoc; reflexivity|].
      constructor; assumption.
Qed.

(** The patch on a reachable store. *)
Lemma patch_parent_reachable (E : env) (pid : ObjectId)
    (updated : list OptionData) (s : state) :
  reachable E ->
  exists r s' res,
    patch_parent E pid updated s = (Returned r, s')
    /\ db_log s' = db_log s ++ patch_of pid updated res.
Proof.
  intros Hr. unfold patch_parent, patch_of. destruct updated as [|od ods].
  - exists None, s, None. rewrite app_nil_r. split; reflexivity.
  - unfold try_except.
    rewrite run_bind, get_event_collection_run, (Hr (db_calls s)).
    cbv beta iota. rewrite run_bind. unfold update_one at 1.
    destruct (ans_update (db_script E (db_calls s))) as [n|].
    + destruct (0 <? n)%Z; rewrite run_bind, run_log; cbv beta iota;
        eexists; eexists; exists (Some n);
        (split; [reflexivity | cbn; rewrite <- app_assoc; reflexivity]).
    + rewrite run_bind, run_log. cbv beta iota.
      eexists. eexists. exists None.
      split; [reflexivity | cbn; rewrite <- app_assoc; reflexivity].
Qed.

(** A whole item of such a run: the parent insert, and after a saved
    parent exactly one child insert per option, then the patch with the
    options the store saved, if any. *)
Lemma save_multi_option_event_built (E : env) (event : regular_event)
    (question : str) (options : list option_entry)
    (end_date description : str) (s : state) :
  talkative E -> reachable E -> (0 < DEFAULT_RETRY_COUNT E)%Z ->
  truthy question = true ->
  Forall (fun o => truthy (opt_name o) = true) options ->
  exists parent,
    parent_record_of question parent
    /\ match ans_insert (db_script E (db_calls s)) with
       | None =>
           db_log (snd (save_multi_option_event E event question options
                          end_date description s))
           = db_log s ++ [DbConnect CollOk; DbInsert parent None]
       | Some pid =>
           exists kids res,
             db_log (snd (save_multi_option_event E event question options
                            end_date description s))
             = db_log s
               ++ DbConnect CollOk :: DbInsert parent (Some pid)
                  :: fan_out pid options kids res
             /\ Forall2 (fun o k => child_record_of o (fst k)) options kids
       end.
Proof.
  intros Ht Hr Hn Hq Hos.
  destruct (quiet_default_rules E s) as (rl & s1 & H1 & (Hc1 & Hd1 & _)).
  destruct (quiet_fetch_image E question s1)
    as (img & s2 & H2 & (Hc2 & Hd2 & _)).
  destruct (parent_init_regular E event question end_date description rl img)
    as (doc & Hdoc & Hparent).
  assert (Hd : db_log s2 = db_log s) by congruence.
  assert (Hc : db_calls s2 = db_calls s) by congruence.
  exists doc. split; [exact Hparent|].
  assert (Hstart :
            save_multi_option_event E event question options end_date
              description s
            = try_except
                (bind (save_event E doc) (fun save_response =>
                   if negb (dict_truthy save_response)
                   then bind (log LogFailedToSaveParent) (fun _ => ret false)
                   else bind (inserted_id_of save_response)
                          (fun parent_event_id =>
                             children_and_patch E question
                               (regular_child E event end_date description)
                               parent_event_id options)))
                (fun _ => bind (log LogErrorSavingMultiOption)
                            (fun _ => ret false)) s2).
  { unfold save_multi_option_event, try_except.
    rewrite run_bind, H1. cbv beta iota.
    rewrite run_bind, H2. cbv beta iota.
    rewrite run_bind, Hdoc. unfold lift at 1. reflexivity. }
  rewrite Hstart. unfold try_except.
  rewrite run_bind, save_event_run, (Hr (db_calls s2)), Hc.
  destruct (ans_insert (db_script E (db_calls s))) as [pid|].
  - cbv beta iota. cbn [dict_truthy success_response negb].
    rewrite run_bind, inserted_id_of_success. cbv beta iota.
    set (s3 := stored [DbConnect CollOk; DbInsert doc (Some pid)] s2).
    unfold children_and_patch.
    destruct (save_children_built E question
                (regular_child E event end_date description) options
                Ht Hr Hn Hq Hos
                (regular_child_builds E event end_date description)
                (regular_child_builds_titled E event end_date description)
                [] 0%Z s3) as (p' & s4 & kids & Hrun & Hlog & Hall).
    cbn [app] in Hrun.
    destruct (patch_parent_reachable E pid (entries options kids) s4 Hr)
      as (r & s5 & res & Hrun' & Hlog').
    exists kids, res. split; [|exact Hall].
    rewrite run_bind, Hrun. cbv beta iota. rewrite run_bind, Hrun'.
    assert (Hfinal : db_log s5
                     = db_log s ++ DbConnect CollOk :: DbInsert doc (Some pid)
                                   :: fan_out pid options kids res).
    { rewrite Hlog', Hlog. unfold s3. rewrite stored_db_log, Hd.
      unfold fan_out. rewrite <- !app_assoc. reflexivity. }
    destruct r as [b|]; [exact Hfinal|].
    rewrite run_bind, run_log. cbv beta iota. exact Hfinal.
  - cbv beta iota. rewrite run_bind, run_log. cbv beta iota. cbn.
    rewrite Hd. reflexivity.
Qed.

(** C2, as stated, fails.  With one option whose child insert fails after
    a successful parent insert, the run ends without any patch of the
    parent; and when the follow-up question of the option cannot be
    generated, no child insert is attempted at all, on a store that would
    have saved it. *)
Lemma C2_no_patch_without_successful_child :
  (exists parent child,
      db_log (snd (single_option_run followup_model child_refusing_store))
      = [DbConnect CollOk; DbInsert parent (Some 7%N);
         DbConnect CollOk; DbInsert child None]
      /\ is_child parent = false
      /\ is_child child = true
      /\ fst (single_option_run followup_model child_refusing_store) = Returned true)
  /\ (exists parent,
         db_log (snd (single_option_run failing_model saving_store))
         = [DbConnect CollOk; DbInsert parent (Some 7%N)]
         /\ is_child parent = false
         /\ fst (single_option_run failing_model saving_store) = Returned true).
Proof.
  split.
  - eexists. eexists. split; [vm_compute; reflexivity|]. repeat split.
  - eexists. split; [vm_compute; reflexivity|]. repeat split.
Qed.

(* ================================================================== *)
(** * Worked runs *)
(* ================================================================== *)

(** Three options with probabilities 50, 30 and 20, the insert of the
    second child refused: one parent insert, three child inserts, one patch
    with the first and the third option, and one logged option error. *)
Example fan_out_with_refused_second_child :
  exists parent c1 c2 c3,
    db_log (snd (cup_run three_options followup_model
                   second_child_refusing_store))
    = [DbConnect CollOk; DbInsert parent (Some 100%N);
       DbConnect CollOk; DbInsert c1 (Some 101%N);
       DbConnect CollOk; DbInsert c2 None;
       DbConnect CollOk; DbInsert c3 (Some 103%N);
       DbConnect CollOk;
       DbUpdate 100%N
         [MkOptionData (lit "Alpha") 50 (Some 101%N);
          MkOptionData (lit "Gamma") 20 (Some 103%N)] (Some 1%Z)]
    /\ app_log (snd (cup_run three_options followup_model
                       second_child_refusing_store))
       = [LogChildCreated (lit "Alpha") 101%N;
          LogErrorProcessingOption (lit "Beta");
          LogChildCreated (lit "Gamma") 103%N;
          LogParentUpdated 2; LogProcessed 2]
    /\ fst (cup_run three_options followup_model second_child_refusing_store)
       = Returned true.
Proof.
  do 4 eexists. split; [vm_compute; reflexivity|]. split; reflexivity.
Qed.

(** An answer without the marker, then a valid one: two round trips and
    one sleep, in both generators. *)
Example retry_stops_at_first_valid_answer :
  (exists s,
      generate_question (env_of mid_june mute_then_valid_model no_store)
        [] [] [] 3 2 initial_state
      = (Returned (Some (lit "Will X happen?"), Some (ProbInt 60), Some 40%Z,
                   Some (lit "2025-12-01")), s)
      /\ gen_log s = [EvAsk; EvSleep 2; EvAsk])
  /\ (exists s,
         generate_multiple_question
           (env_of mid_june mute_then_teams_model no_store) 3 2 initial_state
         = (Returned (Some (lit "Who wins the cup?"),
                      Some [OptionEntry (lit "Alpha") 80;
                            OptionEntry (lit "Beta") 20],
                      None, Some (lit "The cup.")), s)
         /\ gen_log s = [EvAsk; EvSleep 2; EvAsk]).
Proof.
  split; eexists; (split; [vm_compute; reflexivity | reflexivity]).
Qed.

Lemma generate_multiple_question_exhausts_witness :
  exists s',
    generate_multiple_question (env_of mid_june mute_model no_store) 3 2
      initial_state = (Returned multi_none, s')
    /\ Z.of_nat (llm_calls s') = (Z.of_nat (llm_calls initial_state) + 3)%Z
    /\ exists evs, gen_log s' = gen_log initial_state ++ evs
                   /\ Z.of_nat (asks evs) = 3%Z.
Proof.
  apply (generate_multiple_question_exhausts
           (env_of mid_june mute_model no_store) 3 2 initial_state).
  - lia.
  - intros i _. vm_compute. reflexivity.
Defined.

Lemma generate_question_exhausts_witness :
  exists s',
    generate_question (env_of mid_june mute_model no_store) [] [] [] 3 2
      initial_state = (Returned none4, s')
    /\ Z.of_nat (llm_calls s') = (Z.of_nat (llm_calls initial_state) + 3)%Z
    /\ exists evs, gen_log s' = gen_log initial_state ++ evs
                   /\ Z.of_nat (asks evs) = 3%Z.
Proof.
  apply (generate_question_exhausts
           (env_of mid_june mute_model no_store) [] [] [] 3 2 initial_state
           (Date 2025 10 15)).
  - reflexivity.
  - lia.
  - intros i _. vm_compute. reflexivity.
Defined.

Lemma parse_multiple_response_rejects_placeholder_witness :
  parse_multiple_response placeholder_sports_response = None.
Proof.
  apply (parse_multiple_response_rejects_placeholder
           placeholder_sports_response).
  exists (OptionEntry (lit "Others") 20). split.
  - vm_compute. right. left. reflexivity.
  - vm_compute. reflexivity.
Defined.

Lemma generate_question_returns_on_marked_response_witness :
  exists t,
    parse_response invalid_pair_response = Some t
    /\ generate_question (env_of mid_june invalid_then_valid_model no_store)
         [] [] [] 3 2 initial_state
       = (Returned t, asked initial_state).
Proof.
  apply (generate_question_returns_on_marked_response
           (env_of mid_june invalid_then_valid_model no_store) [] [] [] 3 2
           initial_state (Date 2025 10 15) invalid_pair_response).
  - reflexivity.
  - lia.
  - reflexivity.
  - vm_compute. reflexivity.
  - vm_compute. reflexivity.
  - intros section Hs. vm_compute in Hs. injection Hs as <-.
    split; [vm_compute; discriminate|]. split; [vm_compute; discriminate|].
    apply Forall_forall. intros om Hin. vm_compute in Hin.
    destruct Hin as [<-|[<-|[]]]; vm_compute; discriminate.
Defined.

Lemma generate_rules_returns_on_first_content_witness :
  generate_rules (env_of mid_june bold_rules_then_text_model no_store) 3 2
    initial_state
  = (Returned (if truthy (clean_rules (Some (lit "**Rules**")))
               then Some (clean_rules (Some (lit "**Rules**"))) else None),
     asked initial_state).
Proof.
  apply (generate_rules_returns_on_first_content
           (env_of mid_june bold_rules_then_text_model no_store) 3 2
           initial_state (Some (lit "**Rules**"))).
  - lia.
  - reflexivity.
Defined.

(** A talkative model and a store that saves everything: the parent, one
    child per option, and the patch. *)
Example every_child_built :
  exists parent kids res,
    db_log (snd (cup_run three_options followup_model saving_store))
    = DbConnect CollOk :: DbInsert parent (Some 7%N)
      :: fan_out 7%N three_options kids res
    /\ length kids = 3.
Proof.
  destruct (save_multi_option_event_built
              (env_of mid_june followup_model saving_store) cup_event
              (lit "Who wins the cup?") three_options (lit "2025-12-01")
              (lit "About the cup.") initial_state)
    as (parent & _ & kids & res & Hlog & Hall).
  - intros n. eexists. split; reflexivity.
  - intros n. reflexivity.
  - reflexivity.
  - reflexivity.
  - repeat constructor.
  - exists parent, kids, res. split; [exact Hlog|].
    symmetry. apply (Forall2_length Hall).
Qed.

(* ================================================================== *)
(** * What the generators return *)
(* ================================================================== *)

Import PyText PyDict QuestionGenerator2 WebScraper HelperFunctions SportsData.
Import Pipeline Props.

Lemma in_percent_range_percent (p : Z) :
  in_percent_range p = true -> percent p.
Proof.
  unfold in_percent_range, percent. intros H.
  apply andb_prop in H. destruct H as [H1 H2].
  apply Z.leb_le in H1. apply Z.leb_le in H2. lia.
Qed.

Lemma forallb_percent (l : list option_entry) :
  forallb (fun o => in_percent_range (opt_prob o)) l = true ->
  Forall (fun o => percent (opt_prob o)) l.
Proof.
  intros H. apply Forall_forall. intros o Ho.
  rewrite forallb_forall in H. apply in_percent_range_percent, H, Ho.
Qed.

(** A pair that passed the test of the two binary parsers. *)
Lemma binary_pair_valid (yes no : Z) :
  (0 <= no)%Z ->
  ((yes + no =? 100) && in_percent_range yes)%Z = true ->
  (yes + no = 100)%Z /\ percent yes /\ percent no.
Proof.
  intros Hn H. apply andb_prop in H. destruct H as [Hs Hy].
  apply Z.eqb_eq in Hs. apply in_percent_range_percent in Hy.
  unfold percent in *. lia.
Qed.

(** Whatever the parsing block of [generate_question] returns is valid. *)
Lemma parse_response_valid (data : str) (t : gq_tuple) :
  parse_response data = Some t -> valid_question_result t.
Proof.
  unfold parse_response.
  destruct (contains GENERATED_QUESTION data && contains MARKET_RESOLUTION_DATE data);
    [|discriminate].
  destruct (probability_section data) as [section|];
    [|intros H; injection H as <-; left; reflexivity].
  assert (Hopts :
    match findall2 false option_re section with
    | [] => Some none4
    | _ :: _ =>
        match option_array (findall2 false option_re section) with
        | Some option_array =>
            if ((total_prob option_array =? 100)%Z
                && forallb (fun o => in_percent_range (opt_prob o))
                     option_array)
            then Some (Some (truncate_question question_re (question_section data)),
                       Some (ProbOptions option_array),
                       None,
                       Some (strip (slice data
                                      (find MARKET_RESOLUTION_DATE data
                                       + len MARKET_RESOLUTION_DATE) (len data))))
            else Some none4
        | None => None
        end
    end = Some t -> valid_question_result t).
  { destruct (findall2 false option_re section) as [|m ms] eqn:Hm;
      [intros H; injection H as <-; left; reflexivity|].
    unfold option_array. destruct (forallb _ (m :: ms)); [|discriminate].
    destruct ((total_prob (option_array_of (m :: ms)) =? 100)%Z
              && forallb (fun o => in_percent_range (opt_prob o))
                   (option_array_of (m :: ms))) eqn:Hv;
      [|intros H; injection H as <-; left; reflexivity].
    intros H. injection H as <-. right. right.
    apply andb_prop in Hv. destruct Hv as [Hs Hf].
    eexists. eexists. eexists. split; [reflexivity|].
    split; [discriminate|]. split; [apply Z.eqb_eq, Hs|].
    apply forallb_percent, Hf. }
  destruct (search false yes_re section) as [binary_yes|]; [|exact Hopts].
  destruct (search false no_re section) as [binary_no|]; [|exact Hopts].
  destruct (int (group binary_yes 1)) as [yes|] eqn:Hy; [|discriminate].
  destruct (int (group binary_no 1)) as [no|] eqn:Hn; [|discriminate].
  destruct ((yes + no =? 100)%Z && in_percent_range yes) eqn:Hv;
    [|intros H; injection H as <-; left; reflexivity].
  intros H. injection H as <-. right. left.
  do 4 eexists. split; [reflexivity|].
  apply binary_pair_valid;
    [rewrite (int_value _ _ Hn); apply int_of_digits_nonneg | exact Hv].
Qed.

(** A value a loop returns was returned by one of its rounds. *)
Lemma for_range_returned {A} (body : Z -> M (option A)) (P : A -> Prop) :
  (forall i s v s', body i s = (Returned (Some v), s') -> P v) ->
  forall n i s v s',
    for_range body n i s = (Returned (Some v), s') -> P v.
Proof.
  intros Hb. induction n as [|n IH]; intros i s v s'; cbn [for_range].
  - unfold ret. discriminate.
  - rewrite run_bind. destruct (body i s) as [[[w|]|e] s1] eqn:Hbody.
    + unfold ret. intros H. injection H as <- <-.
      apply (Hb i s w s1 Hbody).
    + apply IH.
    + discriminate.
Qed.

Lemma generate_question_attempt_valid (E : env) (delay i : Z) (s : state)
    (t : gq_tuple) (s' : state) :
  generate_question_attempt E delay i s = (Returned (Some t), s') ->
  valid_question_result t.
Proof.
  unfold generate_question_attempt. rewrite run_bind, run_ask_model.
  destruct (llm_script E (llm_calls s)) as [| |[data|]];
    try (cbn; discriminate).
  unfold parse_content, lift, try_except, bind, ret.
  destruct (parse_response data) as [t0|] eqn:Hp.
  - intros H. injection H as <- <-. apply (parse_response_valid data t0 Hp).
  - cbn. discriminate.
Qed.

Lemma generate_question_returned_valid (E : env) (ed cn et : str)
    (max_retries delay : Z) (s : state) (t : gq_tuple) (s' : state) :
  generate_question E ed cn et max_retries delay s = (Returned t, s') ->
  valid_question_result t.
Proof.
  unfold generate_question.
  destruct (four_months_later (today E)) as [d4|e]; [|discriminate].
  unfold lift at 1. rewrite run_bind. cbv beta iota. rewrite run_bind.
  destruct (for_range (generate_question_attempt E delay)
              (range_len max_retries) 0%Z s) as [[[t0|]|e] s1] eqn:Hloop;
    unfold ret; intros H; [| |discriminate]; injection H as <- <-.
  - apply (for_range_returned (generate_question_attempt E delay)
             valid_question_result
             (generate_question_attempt_valid E delay) _ _ _ _ _ Hloop).
  - left. reflexivity.
Qed.

(** Extraction validity of [generate_question]: what it returns is the
    tuple of four [None], or a question with a Yes/No pair of percentages
    that sum to 100, or a question with at least one option, the options'
    probabilities being percentages that sum to 100. *)
Theorem generate_question_result_valid (E : env) (ed cn et : str)
    (max_retries delay : Z) (s : state) :
  match fst (generate_question E ed cn et max_retries delay s) with
  | Returned t => valid_question_result t
  | Raised _ => True
  end.
Proof.
  destruct (generate_question E ed cn et max_retries delay s)
    as [[t|e] s'] eqn:Hrun; cbn [fst]; [|exact I].
  apply (generate_question_returned_valid E ed cn et max_retries delay s t s'
           Hrun).
Qed.

(** Whatever the parsing block of [generate_question_from_api] returns is
    valid, and carries the end date it was given. *)
Lemma parse_api_response_valid (end_date data : str) (t : api_tuple) :
  parse_api_response end_date data = Some t -> valid_api_result end_date t.
Proof.
  unfold parse_api_response.
  destruct (contains GENERATED_QUESTION data); [|discriminate].
  set (q := truncate_question question_re (question_section data)).
  set (d := description_section data).
  assert (Hfall :
    (if truthy q && truthy_opt d
     then Some (Some q, None, None, Some end_date, d)
     else Some none5) = Some t -> valid_api_result end_date t).
  { destruct (truthy q && truthy_opt d) eqn:Hqd;
      [|intros H; injection H as <-; left; reflexivity].
    apply andb_prop in Hqd. destruct Hqd as [Hq Hd].
    destruct d as [dd|]; [|discriminate].
    intros H. injection H as <-. right. right.
    exists q, dd. repeat split; assumption. }
  destruct (negb (find PROBABILITY data =? -1)%Z); [|exact Hfall].
  match goal with
  | |- context [search false yes_re ?sec] => set (section := sec)
  end.
  destruct (search false yes_re section) as [binary_yes|];
    [|intros H; injection H as <-; left; reflexivity].
  destruct (search false no_re section) as [binary_no|];
    [|intros H; injection H as <-; left; reflexivity].
  destruct (int (group binary_yes 1)) as [yes|] eqn:Hy; [|discriminate].
  destruct (int (group binary_no 1)) as [no|] eqn:Hn; [|discriminate].
  destruct ((yes + no =? 100)%Z && in_percent_range yes) eqn:Hv;
    [|exact Hfall].
  intros H. injection H as <-. right. left.
  do 4 eexists. split; [reflexivity|].
  apply binary_pair_valid;
    [rewrite (int_value _ _ Hn); apply int_of_digits_nonneg | exact Hv].
Qed.

Lemma generate_question_from_api_attempt_valid (E : env) (end_date : str)
    (delay i : Z) (s : state) (t : api_tuple) (s' : state) :
  generate_question_from_api_attempt E end_date delay i s
  = (Returned (Some t), s') ->
  valid_api_result end_date t.
Proof.
  unfold generate_question_from_api_attempt. rewrite run_bind, run_ask_model.
  destruct (llm_script E (llm_calls s)) as [| |[data|]];
    try (cbn; discriminate).
  unfold lift, try_except, bind, ret.
  destruct (parse_api_response end_date data) as [t0|] eqn:Hp.
  - intros H. injection H as <- <-.
    apply (parse_api_response_valid end_date data t0 Hp).
  - cbn. discriminate.
Qed.

Lemma returns_generate_question_from_api (E : env) (info : api_event_info)
    (max_retries delay : Z) :
  returns (generate_question_from_api E info max_retries delay).
Proof.
  unfold generate_question_from_api. apply returns_bind.
  - apply returns_for_range. intros i.
    unfold generate_question_from_api_attempt.
    apply returns_bind; [apply returns_ask_model|].
    intros [| |c].
    + apply returns_bind; [apply returns_sleep|]. intros _. apply returns_ret.
    + apply returns_bind; [apply returns_sleep|]. intros _. apply returns_ret.
    + apply returns_bind.
      * apply returns_try_except. intros e. apply returns_ret.
      * intros [t|]; [apply returns_ret|].
        apply returns_bind; [apply returns_sleep|]. intros _.
        apply returns_ret.
  - intros [t|]; apply returns_ret.
Qed.

Lemma generate_question_from_api_returned_valid (E : env)
    (info : api_event_info) (max_retries delay : Z) (s : state)
    (t : api_tuple) (s' : state) :
  generate_question_from_api E info max_retries delay s = (Returned t, s') ->
  valid_api_result (info_end_date info) t.
Proof.
  unfold generate_question_from_api. rewrite run_bind.
  destruct (for_range
              (generate_question_from_api_attempt E (info_end_date info) delay)
              (range_len max_retries) 0%Z s) as [[[t0|]|e] s1] eqn:Hloop;
    unfold ret; intros H; [| |discriminate]; injection H as <- <-.
  - apply (for_range_returned
             (generate_question_from_api_attempt E (info_end_date info) delay)
             (valid_api_result (info_end_date info))
             (generate_question_from_api_attempt_valid E (info_end_date info)
                delay) _ _ _ _ _ Hloop).
  - left. reflexivity.
Qed.

(** Extraction validity of [generate_question_from_api]: it never raises,
    and what it returns is the tuple of five [None], or a question with a
    Yes/No pair of percentages that sum to 100, or a question and a
    description, both non-empty, without probabilities; whenever there is a
    question, the end date is the one of the event, unchanged. *)
Theorem generate_question_from_api_result_valid (E : env)
    (info : api_event_info) (max_retries delay : Z) (s : state) :
  exists t s',
    generate_question_from_api E info max_retries delay s = (Returned t, s')
    /\ valid_api_result (info_end_date info) t.
Proof.
  destruct (returns_generate_question_from_api E info max_retries delay s)
    as (t & Ht).
  destruct (generate_question_from_api E info max_retries delay s)
    as [r s'] eqn:Hrun.
  cbn [fst] in Ht. subst r. exists t, s'. split; [reflexivity|].
  apply (generate_question_from_api_returned_valid E info max_retries delay
           s t s' Hrun).
Qed.

Lemma no_field_option_spec (l : list option_entry) :
  no_field_option l = true ->
  Forall (fun o => is_placeholder (opt_name o) = false) l.
Proof.
  unfold no_field_option, is_placeholder. intros H.
  apply Forall_forall. intros o Ho. rewrite forallb_forall in H.
  specialize (H o Ho). apply negb_true_iff in H. exact H.
Qed.

(** Whatever the parsing block of [generate_multiple_question] returns is
    valid. *)
Lemma parse_multiple_response_valid (data : str) (t : multi_tuple) :
  parse_multiple_response data = Some t -> valid_multiple_result t.
Proof.
  unfold parse_multiple_response.
  destruct (contains GENERATED_QUESTION data); [|discriminate].
  destruct (option_array _) as [[|o os]|]; try discriminate.
  destruct (valid_team_options (o :: os)) eqn:Hv; [|discriminate].
  intros H. injection H as <-. right.
  unfold valid_team_options in Hv.
  apply andb_prop in Hv. destruct Hv as [Hv Hp].
  apply andb_prop in Hv. destruct Hv as [Hs Hr].
  do 3 eexists. split; [reflexivity|]. split.
  - split; [discriminate|]. split; [apply Z.eqb_eq, Hs|].
    apply forallb_percent, Hr.
  - apply no_field_option_spec, Hp.
Qed.

Lemma generate_multiple_question_attempt_valid (E : env)
    (max_retries delay i : Z) (s : state) (t : multi_tuple) (s' : state) :
  generate_multiple_question_attempt E max_retries delay i s
  = (Returned (Some t), s') ->
  valid_multiple_result t.
Proof.
  unfold generate_multiple_question_attempt.
  rewrite run_bind, run_ask_model. rewrite run_bind.
  assert (Hsl : forall s0 r s1,
            bind (sleep_unless_last max_retries delay i)
                 (fun _ => ret (@None multi_tuple)) s0 = (Returned r, s1) ->
            r = None).
  { intros s0 r s1. unfold sleep_unless_last, bind.
    destruct (i <? max_retries - 1)%Z; cbn; intros H; injection H as <- _;
      reflexivity. }
  destruct (llm_script E (llm_calls s)) as [| |[data|]];
    unfold try_except, raise, ret; cbv beta iota;
    try (intros H; apply Hsl in H; discriminate).
  destruct (parse_multiple_response data) as [t0|] eqn:Hp.
  - intros H. injection H as <- <-.
    apply (parse_multiple_response_valid data t0 Hp).
  - intros H. apply Hsl in H. discriminate.
Qed.

Lemma generate_multiple_question_returned_valid (E : env)
    (max_retries delay : Z) (s : state) (t : multi_tuple) (s' : state) :
  generate_multiple_question E max_retries delay s = (Returned t, s') ->
  valid_multiple_result t.
Proof.
  unfold generate_multiple_question. rewrite run_bind.
  destruct (for_range (generate_multiple_question_attempt E max_retries delay)
              (range_len max_retries) 0%Z s) as [[[t0|]|e] s1] eqn:Hloop;
    unfold ret; intros H; [| |discriminate]; injection H as <- <-.
  - apply (for_range_returned
             (generate_multiple_question_attempt E max_retries delay)
             valid_multiple_result
             (generate_multiple_question_attempt_valid E max_retries delay)
             _ _ _ _ _ Hloop).
  - left. reflexivity.
Qed.

(** Extraction validity of [generate_multiple_question]: it never raises,
    and what it returns is the tuple of four [None], or a question with at
    least one option, the options' probabilities being percentages that sum
    to 100 and no option being a placeholder. *)
Theorem generate_multiple_question_result_valid (E : env)
    (max_retries delay : Z) (s : state) :
  exists t s',
    generate_multiple_question E max_retries delay s = (Returned t, s')
    /\ valid_multiple_result t.
Proof.
  destruct (returns_generate_multiple_question E max_retries delay s)
    as (t & Ht).
  destruct (generate_multiple_question E max_retries delay s)
    as [r s'] eqn:Hrun.
  cbn [fst] in Ht. subst r. exists t, s'. split; [reflexivity|].
  apply (generate_multiple_question_returned_valid E max_retries delay s t s'
           Hrun).
Qed.

(* ================================================================== *)
(** * The budget of a retry loop *)
(* ================================================================== *)

Lemma sleeps_app (l l' : list gen_event) :
  sleeps (l ++ l') = sleeps l + sleeps l'.
Proof.
  induction l as [|[|d] l IH]; cbn [sleeps app]; rewrite ?IH; reflexivity.
Qed.

Lemma within_budget_refl (delay : Z) (s : state) : within_budget 0 delay s s.
Proof.
  exists []. rewrite app_nil_r. cbn. repeat split; try lia. constructor.
Qed.

Lemma within_budget_trans (n m : nat) (delay : Z) (a b c : state) :
  within_budget n delay a b -> within_budget m delay b c ->
  within_budget (n + m) delay a c.
Proof.
  intros (l & Hl & Hc & Ha & Hs & Hf) (l' & Hl' & Hc' & Ha' & Hs' & Hf').
  exists (l ++ l'). rewrite asks_app, sleeps_app.
  split; [rewrite Hl', Hl, app_assoc; reflexivity|].
  split; [lia|]. split; [lia|]. split; [lia|].
  apply Forall_app. split; assumption.
Qed.

Lemma within_budget_weaken (n m : nat) (delay : Z) (a b : state) :
  n <= m -> within_budget n delay a b -> within_budget m delay a b.
Proof.
  intros Hle (l & Hl & Hc & Ha & Hs & Hf). exists l.
  repeat split; try assumption; lia.
Qed.

Lemma within_budget_asked (delay : Z) (s : state) :
  within_budget 1 delay s (asked s).
Proof.
  exists [EvAsk]. cbn. repeat split; try lia.
  constructor; [left; reflexivity | constructor].
Qed.

Lemma within_budget_asked_slept (delay : Z) (s : state) :
  within_budget 1 delay s (slept delay (asked s)).
Proof.
  exists [EvAsk; EvSleep delay]. cbn. rewrite <- app_assoc.
  repeat split; try lia.
  constructor; [left; reflexivity|].
  constructor; [right; reflexivity | constructor].
Qed.

(** A loop of [n] rounds that each stay within one round trip and one
    sleep stays within [n] of each. *)
Lemma within_budget_for_range {A} (body : Z -> M (option A)) (delay : Z) :
  (forall i s, within_budget 1 delay s (snd (body i s))) ->
  forall n i s, within_budget n delay s (snd (for_range body n i s)).
Proof.
  intros Hb. induction n as [|n IH]; intros i s; cbn [for_range].
  - apply within_budget_refl.
  - rewrite run_bind. specialize (Hb i s).
    destruct (body i s) as [[[v|]|e] s1]; cbn [snd] in *.
    + apply (within_budget_weaken 1); [lia | exact Hb].
    + change (S n) with (1 + n).
      apply (within_budget_trans 1 n delay s s1); [exact Hb | apply IH].
    + apply (within_budget_weaken 1); [lia | exact Hb].
Qed.

Lemma sleep_unless_last_then_none {A} (max_retries delay i : Z) (s : state) :
  bind (sleep_unless_last max_retries delay i) (fun _ => ret (@None A)) s
  = (Returned None, if (i <? max_retries - 1)%Z then slept delay s else s).
Proof.
  unfold sleep_unless_last, bind.
  destruct (i <? max_retries - 1)%Z; reflexivity.
Qed.

Lemma within_budget_asked_maybe_slept (delay : Z) (b : bool) (s : state) :
  within_budget 1 delay s (if b then slept delay (asked s) else asked s).
Proof.
  destruct b; [apply within_budget_asked_slept | apply within_budget_asked].
Qed.

Lemma budget_generate_question_attempt (E : env) (delay i : Z) (s : state) :
  within_budget 1 delay s (snd (generate_question_attempt E delay i s)).
Proof.
  unfold generate_question_attempt. rewrite run_bind, run_ask_model.
  destruct (llm_script E (llm_calls s)) as [| |c];
    try apply within_budget_asked_slept.
  unfold parse_content, lift, try_except, bind, ret.
  destruct c as [data|]; [destruct (parse_response data)|];
    first [apply within_budget_asked_slept | apply within_budget_asked].
Qed.

Lemma budget_generate_question_from_api_attempt (E : env) (end_date : str)
    (delay i : Z) (s : state) :
  within_budget 1 delay s
    (snd (generate_question_from_api_attempt E end_date delay i s)).
Proof.
  unfold generate_question_from_api_attempt. rewrite run_bind, run_ask_model.
  destruct (llm_script E (llm_calls s)) as [| |c];
    try apply within_budget_asked_slept.
  unfold lift, try_except, bind, ret.
  destruct c as [data|]; [destruct (parse_api_response end_date data)|];
    first [apply within_budget_asked_slept | apply within_budget_asked].
Qed.

Lemma budget_generate_multiple_question_attempt (E : env)
    (max_retries delay i : Z) (s : state) :
  within_budget 1 delay s
    (snd (generate_multiple_question_attempt E max_retries delay i s)).
Proof.
  unfold generate_multiple_question_attempt.
  rewrite run_bind, run_ask_model. rewrite run_bind.
  destruct (llm_script E (llm_calls s)) as [| |[data|]];
    unfold try_except, raise; cbv beta iota;
    change (ret (@None multi_tuple) (asked s))
      with (Returned (@None multi_tuple), asked s);
    cbv beta iota;
    try (rewrite sleep_unless_last_then_none;
         apply within_budget_asked_maybe_slept).
  unfold ret at 1. cbv beta iota.
  destruct (parse_multiple_response data) as [t|].
  - apply within_budget_asked.
  - rewrite sleep_unless_last_then_none.
    apply within_budget_asked_maybe_slept.
Qed.

Lemma budget_generate_rules_attempt (E : env) (max_retries delay i : Z)
    (s : state) :
  within_budget 1 delay s
    (snd (generate_rules_attempt E max_retries delay i s)).
Proof.
  unfold generate_rules_attempt. rewrite run_bind, run_ask_model.
  destruct (llm_script E (llm_calls s)) as [| |c];
    try (rewrite sleep_unless_last_then_none;
         apply within_budget_asked_maybe_slept).
  destruct (truthy (clean_rules c)); apply within_budget_asked.
Qed.

Lemma budget_generate_followup_attempt (E : env) (max_retries delay i : Z)
    (s : state) :
  within_budget 1 delay s
    (snd (generate_followup_attempt E max_retries delay i s)).
Proof.
  unfold generate_followup_attempt. rewrite run_bind, run_ask_model.
  destruct (llm_script E (llm_calls s)) as [| |c];
    try (rewrite sleep_unless_last_then_none;
         apply within_budget_asked_maybe_slept).
  destruct (truthy_opt c); [apply within_budget_asked|].
  rewrite sleep_unless_last_then_none. apply within_budget_asked_maybe_slept.
Qed.

Lemma generate_question_loop (E : env) (ed cn et : str)
    (max_retries delay : Z) (s : state) :
  snd (generate_question E ed cn et max_retries delay s) = s
  \/ snd (generate_question E ed cn et max_retries delay s)
     = snd (for_range (generate_question_attempt E delay)
              (range_len max_retries) 0%Z s).
Proof.
  unfold generate_question.
  destruct (four_months_later (today E)) as [d4|e]; [right | left; reflexivity].
  unfold lift at 1. rewrite run_bind. cbv beta iota.
  unfold bind, ret.
  destruct (for_range _ _ _ s) as [[[t|]|e] s']; reflexivity.
Qed.

(** Retry termination.  Whatever the model answers, a call of one of the
    five generators starts at most [max_retries] round trips to the model
    and sleeps at most [max_retries] times, each time for [delay]: the log
    of the run grows by no other event, and the count of round trips moves
    with it. *)
Theorem generators_stay_within_retry_budget (E : env)
    (max_retries delay : Z) (s : state) :
  (forall ed cn et,
      within_budget (range_len max_retries) delay s
        (snd (generate_question E ed cn et max_retries delay s)))
  /\ within_budget (range_len max_retries) delay s
       (snd (generate_rules E max_retries delay s))
  /\ (forall q o,
         within_budget (range_len max_retries) delay s
           (snd (generate_followup_question E q o max_retries delay s)))
  /\ (forall info,
         within_budget (range_len max_retries) delay s
           (snd (generate_question_from_api E info max_retries delay s)))
  /\ within_budget (range_len max_retries) delay s
       (snd (generate_multiple_question E max_retries delay s)).
Proof.
  split; [|split; [|split; [|split]]].
  - intros ed cn et.
    destruct (generate_question_loop E ed cn et max_retries delay s) as [H|H];
      rewrite H.
    + apply (within_budget_weaken 0); [lia | apply within_budget_refl].
    + apply within_budget_for_range.
      apply budget_generate_question_attempt.
  - unfold generate_rules.
    unfold bind, ret.
    pose proof (within_budget_for_range
                  (generate_rules_attempt E max_retries delay) delay
                  (budget_generate_rules_attempt E max_retries delay)
                  (range_len max_retries) 0%Z s) as H.
    destruct (for_range _ _ _ s) as [[[v|]|e] s']; exact H.
  - intros q o. unfold generate_followup_question.
    destruct (negb (truthy q) || negb (truthy o)).
    + apply (within_budget_weaken 0); [lia | apply within_budget_refl].
    + unfold bind, ret.
      pose proof (within_budget_for_range
                    (generate_followup_attempt E max_retries delay) delay
                    (budget_generate_followup_attempt E max_retries delay)
                    (range_len max_retries) 0%Z s) as H.
      destruct (for_range _ _ _ s) as [[[v|]|e] s']; exact H.
  - intros info. unfold generate_question_from_api, bind, ret.
    pose proof (within_budget_for_range
                  (generate_question_from_api_attempt E (info_end_date info)
                     delay) delay
                  (budget_generate_question_from_api_attempt E
                     (info_end_date info) delay)
                  (range_len max_retries) 0%Z s) as H.
    destruct (for_range _ _ _ s) as [[[v|]|e] s']; exact H.
  - unfold generate_multiple_question, bind, ret.
    pose proof (within_budget_for_range
                  (generate_multiple_question_attempt E max_retries delay)
                  delay
                  (budget_generate_multiple_question_attempt E max_retries
                     delay)
                  (range_len max_retries) 0%Z s) as H.
    destruct (for_range _ _ _ s) as [[[v|]|e] s']; exact H.
Qed.

(* ================================================================== *)
(** * Exhausted and interrupted retry loops *)
(* ================================================================== *)

Lemma parse_api_response_unmarked (end_date data : str) :
  contains GENERATED_QUESTION data = false ->
  parse_api_response end_date data = None.
Proof. intros H. unfold parse_api_response. rewrite H. reflexivity. Qed.

Lemma generate_question_from_api_attempt_unparseable (E : env)
    (end_date : str) (delay i : Z) (s : state) :
  unparseable (llm_script E (llm_calls s)) ->
  generate_question_from_api_attempt E end_date delay i s
  = (Returned None, slept delay (asked s)).
Proof.
  intros H. unfold generate_question_from_api_attempt.
  rewrite run_bind, run_ask_model.
  destruct (llm_script E (llm_calls s)) as [| |[data|]]; try reflexivity.
  cbn in H. unfold lift, try_except, bind.
  rewrite (parse_api_response_unmarked end_date _ H). reflexivity.
Qed.

Lemma generate_question_from_api_loop_exhausts (E : env) (end_date : str)
    (delay : Z) (n : nat) :
  forall (i : Z) (s : state),
    always_unparseable E s n ->
    for_range (generate_question_from_api_attempt E end_date delay) n i s
    = (Returned None, gq_exhausted delay n s).
Proof.
  induction n as [|n IH]; intros i s H.
  - reflexivity.
  - cbn [for_range gq_exhausted]. rewrite run_bind.
    rewrite (generate_question_from_api_attempt_unparseable E end_date delay
               i s (always_unparseable_head E s n H)).
    apply IH. apply (always_unparseable_tail E s _ n); [reflexivity | exact H].
Qed.

(** On a model that never gives anything to parse (failed round trips,
    contents without the question marker), [generate_question_from_api]
    makes exactly [max_retries] round trips, returns the tuple of five
    [None] and does not raise, whatever the date. *)
Theorem generate_question_from_api_exhausts (E : env)
    (info : api_event_info) (max_retries delay : Z) (s : state) :
  (0 <= max_retries)%Z ->
  always_unparseable E s (range_len max_retries) ->
  exists s',
    generate_question_from_api E info max_retries delay s
    = (Returned none5, s')
    /\ Z.of_nat (llm_calls s') = (Z.of_nat (llm_calls s) + max_retries)%Z
    /\ exists evs, gen_log s' = gen_log s ++ evs
                   /\ Z.of_nat (asks evs) = max_retries.
Proof.
  intros Hm H. exists (gq_exhausted delay (range_len max_retries) s).
  split.
  - unfold generate_question_from_api. rewrite run_bind.
    rewrite (generate_question_from_api_loop_exhausts E (info_end_date info)
               delay _ 0%Z s H).
    reflexivity.
  - destruct (gq_exhausted_log delay (range_len max_retries) s)
      as (Hc & evs & Hl & Ha).
    unfold range_len in *. split; [lia|]. exists evs. split; [exact Hl | lia].
Qed.

Lemma generate_question_from_api_exhausts_witness :
  exists s',
    generate_question_from_api (env_of (Date 2025 10 31) failing_model no_store)
      (ApiEventInfo (lit "Alpha vs Beta") (lit "2025-12-01 18:00:00")) 3 2
      initial_state
    = (Returned none5, s')
    /\ Z.of_nat (llm_calls s') = (Z.of_nat (llm_calls initial_state) + 3)%Z
    /\ exists evs, gen_log s' = gen_log initial_state ++ evs
                   /\ Z.of_nat (asks evs) = 3%Z.
Proof.
  apply (generate_question_from_api_exhausts
           (env_of (Date 2025 10 31) failing_model no_store)
           (ApiEventInfo (lit "Alpha vs Beta") (lit "2025-12-01 18:00:00"))
           3 2 initial_state).
  - lia.
  - intros i _. exact I.
Defined.

(** ** The first answer that validates *)

Lemma generate_multiple_question_attempt_parsed (E : env)
    (max_retries delay i : Z) (s : state) (data : str) (t : multi_tuple) :
  llm_script E (llm_calls s) = Content (Some data) ->
  parse_multiple_response data = Some t ->
  generate_multiple_question_attempt E max_retries delay i s
  = (Returned (Some t), asked s).
Proof.
  intros Hans Hp. unfold generate_multiple_question_attempt.
  rewrite run_bind, run_ask_model, Hans. rewrite run_bind.
  unfold try_except, ret. rewrite Hp. reflexivity.
Qed.

(** [k] fruitless rounds, none of them the last one, then a round whose
    answer validates. *)
Lemma generate_multiple_question_loop_stops (E : env)
    (max_retries delay : Z) (data : str) (t : multi_tuple) (k : nat) :
  forall (n : nat) (i : Z) (s : state),
    k < n ->
    (i + Z.of_nat k <= max_retries - 1)%Z ->
    always_unparseable E s k ->
    llm_script E (llm_calls s + k) = Content (Some data) ->
    parse_multiple_response data = Some t ->
    exists s' evs,
      for_range (generate_multiple_question_attempt E max_retries delay) n i s
      = (Returned (Some t), s')
      /\ llm_calls s' = llm_calls s + S k
      /\ gen_log s' = gen_log s ++ evs
      /\ asks evs = S k
      /\ sleeps evs = k.
Proof.
  induction k as [|k IH]; intros n i s Hk Hi Hun Hans Hp.
  - destruct n as [|n]; [lia|]. cbn [for_range]. rewrite run_bind.
    rewrite Nat.add_0_r in Hans.
    rewrite (generate_multiple_question_attempt_parsed E max_retries delay i s
               data t Hans Hp).
    exists (asked s), [EvAsk]. cbn. repeat split; lia.
  - destruct n as [|n]; [lia|]. cbn [for_range]. rewrite run_bind.
    rewrite (generate_multiple_question_attempt_unparseable E max_retries
               delay i s (always_unparseable_head E s k Hun)).
    assert (Hlt : (i <? max_retries - 1)%Z = true) by (apply Z.ltb_lt; lia).
    rewrite Hlt.
    destruct (IH n (i + 1)%Z (slept delay (asked s))) as (s' & evs & H1 & H2 & H3 & H4 & H5).
    + lia.
    + lia.
    + apply (always_unparseable_tail E s _ k); [reflexivity | exact Hun].
    + cbn [slept asked set_gen llm_calls].
      replace (S (llm_calls s) + k) with (llm_calls s + S k) by lia.
      exact Hans.
    + exact Hp.
    + exists s', (EvAsk :: EvSleep delay :: evs). rewrite H1.
      split; [reflexivity|].
      split; [rewrite H2; cbn; lia|].
      split; [rewrite H3; cbn; rewrite <- !app_assoc; reflexivity|].
      cbn [asks sleeps]. split; lia.
Qed.

(** Retry short-circuit.  When the first [k] answers give nothing to parse
    and the next one, still within [max_retries], passes the extraction and
    the validation, [generate_multiple_question] returns what that answer
    gave after exactly [k + 1] round trips and [k] sleeps: no attempt is
    made after the first valid one. *)
Theorem generate_multiple_question_stops_at_first_valid (E : env)
    (max_retries delay : Z) (s : state) (k : nat) (data : str)
    (t : multi_tuple) :
  (Z.of_nat k < max_retries)%Z ->
  always_unparseable E s k ->
  llm_script E (llm_calls s + k) = Content (Some data) ->
  parse_multiple_response data = Some t ->
  exists s' evs,
    generate_multiple_question E max_retries delay s = (Returned t, s')
    /\ llm_calls s' = llm_calls s + S k
    /\ gen_log s' = gen_log s ++ evs
    /\ asks evs = S k
    /\ sleeps evs = k.
Proof.
  intros Hk Hun Hans Hp.
  destruct (generate_multiple_question_loop_stops E max_retries delay data t k
              (range_len max_retries) 0%Z s)
    as (s' & evs & H1 & H2); try assumption.
  - unfold range_len. lia.
  - lia.
  - exists s', evs. split; [|exact H2].
    unfold generate_multiple_question. rewrite run_bind, H1. reflexivity.
Qed.

Lemma generate_multiple_question_stops_at_first_valid_witness :
  exists s' evs,
    generate_multiple_question (env_of mid_june mute_then_teams_model no_store)
      3 2 initial_state
    = (Returned (Some (lit "Who wins the cup?"),
                 Some [OptionEntry (lit "Alpha") 80;
                       OptionEntry (lit "Beta") 20],
                 None, Some (lit "The cup.")), s')
    /\ llm_calls s' = llm_calls initial_state + 2
    /\ gen_log s' = gen_log initial_state ++ evs
    /\ asks evs = 2
    /\ sleeps evs = 1.
Proof.
  apply (generate_multiple_question_stops_at_first_valid
           (env_of mid_june mute_then_teams_model no_store) 3 2 initial_state
           1 teams_response).
  - lia.
  - intros i Hi. assert (i = 0) by lia. subst i. vm_compute. reflexivity.
  - reflexivity.
  - vm_compute. reflexivity.
Defined.

(* ================================================================== *)
(** * Follow-up questions and rules *)
(* ================================================================== *)

Lemma endswith_appended (suf s : str) : endswith suf (s ++ suf) = true.
Proof.
  unfold endswith. rewrite rev_app_distr.
  induction (rev suf) as [|c l IH]; cbn [startswith app].
  - reflexivity.
  - unfold eqb_char. rewrite Ascii.eqb_refl. exact IH.
Qed.

Lemma endswith_truthy (s : str) : endswith (lit "?") s = true -> truthy s = true.
Proof. destruct s; [discriminate | reflexivity]. Qed.

Lemma generate_followup_attempt_returned (E : env) (max_retries delay i : Z)
    (s : state) (v : option str) (s' : state) :
  generate_followup_attempt E max_retries delay i s = (Returned (Some v), s') ->
  exists t, v = Some t /\ endswith (lit "?") t = true.
Proof.
  unfold generate_followup_attempt. rewrite run_bind, run_ask_model.
  destruct (llm_script E (llm_calls s)) as [| |c];
    try (rewrite sleep_unless_last_then_none; discriminate).
  destruct (truthy_opt c);
    [|rewrite sleep_unless_last_then_none; discriminate].
  unfold ret. intros H. injection H as <- _.
  eexists. split; [reflexivity|].
  change ["?"%char] with (lit "?").
  destruct (endswith (lit "?") (strip match c with Some x => x | None => [] end)) eqn:He.
  - exact He.
  - apply endswith_appended.
Qed.

(** [generate_followup_question] never raises.  What it returns is [None]
    or a title that ends with a question mark (so is not empty).  Without
    a parent question or without an option name it returns [None] at once:
    the model is not asked and the state is left as it is. *)
Theorem generate_followup_question_result (E : env) (q o : str)
    (max_retries delay : Z) (s : state) :
  exists r s',
    generate_followup_question E q o max_retries delay s = (Returned r, s')
    /\ match r with
       | Some t => endswith (lit "?") t = true /\ truthy t = true
       | None => True
       end
    /\ (truthy q && truthy o = false -> r = None /\ s' = s).
Proof.
  destruct (returns_generate_followup_question E q o max_retries delay s)
    as (r & Hr).
  destruct (generate_followup_question E q o max_retries delay s)
    as [r0 s'] eqn:Hrun.
  cbn [fst] in Hr. subst r0. exists r, s'. split; [reflexivity|].
  unfold generate_followup_question in Hrun.
  destruct (truthy q) eqn:Hq; destruct (truthy o) eqn:Ho;
    cbn [negb orb andb] in *;
    try (unfold ret in Hrun; injection Hrun as <- <-;
         split; [exact I | intros _; split; reflexivity]).
  split; [|discriminate].
  rewrite run_bind in Hrun.
  destruct (for_range (generate_followup_attempt E max_retries delay)
              (range_len max_retries) 0%Z s) as [[[v|]|e] s1] eqn:Hloop;
    unfold ret in Hrun; [| |discriminate]; injection Hrun as <- <-;
    [|exact I].
  destruct (for_range_returned (generate_followup_attempt E max_retries delay)
              (fun v => exists t, v = Some t /\ endswith (lit "?") t = true)
              (generate_followup_attempt_returned E max_retries delay)
              _ _ _ _ _ Hloop) as (t & -> & Ht).
  split; [exact Ht | apply endswith_truthy, Ht].
Qed.

(** ** [str.strip] applied twice *)

Lemma lstrip_idempotent (s : str) : lstrip (lstrip s) = lstrip s.
Proof.
  induction s as [|c s IH]; cbn [lstrip]; [reflexivity|].
  destruct (isspace c) eqn:Hc; [exact IH|].
  cbn [lstrip]. rewrite Hc. reflexivity.
Qed.

Lemma lstrip_snoc (l : str) (c : ascii) :
  isspace c = false -> lstrip (l ++ [c]) = lstrip l ++ [c].
Proof.
  intros Hc. induction l as [|x l IH]; cbn [lstrip app].
  - rewrite Hc. reflexivity.
  - destruct (isspace x); [exact IH | reflexivity].
Qed.

Lemma lstrip_head (s : str) :
  match lstrip s with
  | [] => True
  | c :: _ => isspace c = false
  end.
Proof.
  induction s as [|c s IH]; cbn [lstrip]; [exact I|].
  destruct (isspace c) eqn:Hc; [exact IH | exact Hc].
Qed.

Lemma rstrip_idempotent (s : str) : rstrip (rstrip s) = rstrip s.
Proof.
  unfold rstrip. rewrite rev_involutive, lstrip_idempotent. reflexivity.
Qed.

Lemma lstrip_rstrip_lstrip (s : str) :
  lstrip (rstrip (lstrip s)) = rstrip (lstrip s).
Proof.
  pose proof (lstrip_head s) as Hh.
  destruct (lstrip s) as [|c y]; [reflexivity|].
  unfold rstrip. cbn [rev]. rewrite (lstrip_snoc _ c Hh).
  rewrite rev_app_distr. cbn [rev app lstrip]. rewrite Hh. reflexivity.
Qed.

Lemma strip_idempotent (s : str) : strip (strip s) = strip s.
Proof.
  unfold strip. rewrite lstrip_rstrip_lstrip. apply rstrip_idempotent.
Qed.

(* ================================================================== *)
(** * Relations that the rest of the pipeline preserves *)
(* ================================================================== *)

Section PipelinePreservation.

Variable R : state -> state -> Prop.
Hypothesis R_refl : forall s, R s s.
Hypothesis R_trans : forall a b c, R a b -> R b c -> R a c.
Hypothesis R_gen : forall s c l, R s (set_gen c l s).
Hypothesis R_s3 : forall s c, R s (set_s3 c s).
Variable E : env.
Hypothesis R_search : forall q, preserves R (safe_google_image_search E q).
Hypothesis R_db : forall s c l, R s (set_db c l s).
Hypothesis R_app : forall s l, R s (set_app l s).

Lemma preserves_generate_question (ed cn et : str) (max_retries delay : Z) :
  preserves R (generate_question E ed cn et max_retries delay).
Proof.
  unfold generate_question.
  apply (preserves_bind R R_trans); [apply (preserves_lift R R_refl)|].
  intros _. apply (preserves_bind R R_trans).
  - apply (preserves_for_range R R_refl R_trans). intros i.
    unfold generate_question_attempt.
    apply (preserves_bind R R_trans);
      [apply (preserves_ask_model R R_gen)|].
    intros [| |c].
    + apply (preserves_bind R R_trans);
        [apply (preserves_sleep R R_gen)|].
      intros _. apply (preserves_ret R R_refl).
    + apply (preserves_bind R R_trans);
        [apply (preserves_sleep R R_gen)|].
      intros _. apply (preserves_ret R R_refl).
    + apply (preserves_bind R R_trans).
      * apply (preserves_try_except R R_trans);
          [apply (preserves_lift R R_refl)|].
        intros e. apply (preserves_ret R R_refl).
      * intros [t|]; [apply (preserves_ret R R_refl)|].
        apply (preserves_bind R R_trans);
          [apply (preserves_sleep R R_gen)|].
        intros _. apply (preserves_ret R R_refl).
  - intros [t|]; apply (preserves_ret R R_refl).
Qed.

Lemma preserves_generate_question_from_api (info : api_event_info)
    (max_retries delay : Z) :
  preserves R (generate_question_from_api E info max_retries delay).
Proof.
  unfold generate_question_from_api.
  apply (preserves_bind R R_trans).
  - apply (preserves_for_range R R_refl R_trans). intros i.
    unfold generate_question_from_api_attempt.
    apply (preserves_bind R R_trans);
      [apply (preserves_ask_model R R_gen)|].
    intros [| |c].
    + apply (preserves_bind R R_trans);
        [apply (preserves_sleep R R_gen)|].
      intros _. apply (preserves_ret R R_refl).
    + apply (preserves_bind R R_trans);
        [apply (preserves_sleep R R_gen)|].
      intros _. apply (preserves_ret R R_refl).
    + apply (preserves_bind R R_trans).
      * apply (preserves_try_except R R_trans);
          [apply (preserves_lift R R_refl)|].
        intros e. apply (preserves_ret R R_refl).
      * intros [t|]; [apply (preserves_ret R R_refl)|].
        apply (preserves_bind R R_trans);
          [apply (preserves_sleep R R_gen)|].
        intros _. apply (preserves_ret R R_refl).
  - intros [t|]; apply (preserves_ret R R_refl).
Qed.

Lemma preserves_invoke_model : preserves R (invoke_model E).
Proof.
  unfold invoke_model.
  apply (preserves_bind R R_trans);
    [apply (preserves_ask_model R R_gen)|].
  intros [| |c];
    first [apply (preserves_raise R R_refl) | apply (preserves_ret R R_refl)].
Qed.

Lemma preserves_content_strip (c : option str) :
  preserves R (content_strip c).
Proof.
  destruct c;
    first [apply (preserves_raise R R_refl) | apply (preserves_ret R R_refl)].
Qed.

Lemma preserves_summary (d : str) (q : option str) :
  preserves R (summary E d q).
Proof.
  unfold summary.
  apply (preserves_bind R R_trans); [apply preserves_invoke_model|].
  intros c.
  apply (preserves_bind R R_trans); [apply preserves_content_strip|].
  intros t.
  match goal with
  | |- context [if ?b then ret _ else _] => destruct b
  end; [apply (preserves_ret R R_refl) | apply preserves_content_strip].
Qed.

Lemma preserves_generate_search_sentence (category topic : str) :
  preserves R (generate_search_sentence E category topic).
Proof.
  unfold generate_search_sentence.
  apply (preserves_bind R R_trans); [apply preserves_invoke_model|].
  intros c.
  apply (preserves_bind R R_trans); [apply preserves_content_strip|].
  intros t.
  match goal with
  | |- context [if ?b then ret _ else _] => destruct b
  end; apply (preserves_ret R R_refl).
Qed.

Lemma preserves_save_binary_event (event : regular_event) (question : str)
    (prob1 : option probability) (prob2 : Z) (end_date description : str) :
  preserves R
    (save_binary_event E event question prob1 prob2 end_date description).
Proof.
  unfold save_binary_event, default_rules.
  apply (preserves_try_except R R_trans).
  - apply (preserves_bind R R_trans);
      [apply (preserves_generate_rules R R_refl R_trans R_gen)|].
    intros rules.
    apply (preserves_bind R R_trans);
      [apply (preserves_fetch_image R R_refl R_trans R_s3 E R_search)|].
    intros image.
    apply (preserves_bind R R_trans); [apply (preserves_lift R R_refl)|].
    intros doc.
    apply (preserves_bind R R_trans);
      [apply (preserves_save_event R R_refl R_trans E R_db)|].
    intros resp. destruct (dict_truthy resp); apply (preserves_ret R R_refl).
  - intros e. apply (preserves_ret R R_refl).
Qed.

Lemma preserves_process_regular_event (W : web) (event : collected_event) :
  preserves R (process_regular_event E W event).
Proof.
  unfold process_regular_event.
  apply (preserves_try_except R R_trans);
    [|intros e; apply (preserves_ret R R_refl)].
  destruct (document_loader W (link (ids_and_row event)) 1000)
    as [event_description|]; [|apply (preserves_ret R R_refl)].
  apply (preserves_bind R R_trans); [apply preserves_generate_question|].
  intros [[[generated_question prob1] prob2] end_date].
  apply (preserves_bind R R_trans); [apply preserves_summary|].
  intros description.
  destruct generated_question as [question|]; [|apply (preserves_ret R R_refl)].
  destruct end_date as [end_date|]; [|apply (preserves_ret R R_refl)].
  destruct (truthy question && truthy end_date);
    [|apply (preserves_ret R R_refl)].
  destruct prob2 as [prob2|]; [apply preserves_save_binary_event|].
  destruct prob1 as [[n|options]|];
    first [ apply (preserves_raise R R_refl)
          | apply (preserves_save_multi_option_event R R_refl R_trans R_gen
                     R_s3 E R_search R_db R_app) ].
Qed.

Lemma preserves_process_collected_events (W : web)
    (events : list collected_event) :
  forall successful failed,
    preserves R (process_collected_events E W events successful failed).
Proof.
  induction events as [|event rest IH]; intros successful failed;
    cbn [process_collected_events].
  - apply (preserves_ret R R_refl).
  - apply (preserves_bind R R_trans); [|intros counted; apply IH].
    apply (preserves_try_except R R_trans);
      [|intros e; apply (preserves_ret R R_refl)].
    apply (preserves_bind R R_trans);
      [apply preserves_process_regular_event|].
    intros success.
    apply (preserves_bind R R_trans);
      [apply (preserves_sleep R R_gen)|].
    intros _. apply (preserves_ret R R_refl).
Qed.

Lemma preserves_process_team_event (event : organized_event)
    (category_id : option ObjectId) :
  preserves R (process_team_event E event category_id).
Proof.
  unfold process_team_event, default_rules.
  apply (preserves_try_except R R_trans);
    [|intros e; apply (preserves_ret R R_refl)].
  apply (preserves_bind R R_trans);
    [apply preserves_generate_question_from_api|].
  intros [[[[generated_question prob1] prob2] end_date] event_description].
  destruct generated_question as [question|]; [|apply (preserves_ret R R_refl)].
  destruct end_date as [end_date|]; [|apply (preserves_ret R R_refl)].
  destruct (truthy question && truthy end_date);
    [|apply (preserves_ret R R_refl)].
  destruct prob2 as [prob2|]; [|apply (preserves_ret R R_refl)].
  apply (preserves_bind R R_trans);
    [apply (preserves_generate_rules R R_refl R_trans R_gen)|].
  intros rules.
  apply (preserves_bind R R_trans);
    [apply (preserves_fetch_image R R_refl R_trans R_s3 E R_search)|].
  intros image.
  apply (preserves_bind R R_trans); [apply (preserves_lift R R_refl)|].
  intros doc.
  apply (preserves_bind R R_trans);
    [apply (preserves_save_event R R_refl R_trans E R_db)|].
  intros resp. destruct (dict_truthy resp); apply (preserves_ret R R_refl).
Qed.

Lemma preserves_process_team_events (events : list organized_event)
    (category_id : option ObjectId) :
  forall processed,
    preserves R (process_team_events E events category_id processed).
Proof.
  induction events as [|event rest IH]; intros processed;
    cbn [process_team_events].
  - apply (preserves_ret R R_refl).
  - apply (preserves_bind R R_trans);
      [apply preserves_process_team_event | intros saved; apply IH].
Qed.

Lemma preserves_process_null_team_events (events : list null_team_entry)
    (category_id : option ObjectId) :
  forall processed,
    preserves R (process_null_team_events E events category_id processed).
Proof.
  induction events as [|event rest IH]; intros processed;
    cbn [process_null_team_events].
  - apply (preserves_ret R R_refl).
  - apply (preserves_bind R R_trans); [|intros success; apply IH].
    apply (preserves_try_except R R_trans);
      [|intros e; apply (preserves_ret R R_refl)].
    apply (preserves_process_null_team_event R R_refl R_trans R_gen R_s3 E
             R_search R_db R_app).
Qed.

Lemma preserves_process_sport_events (api : odds_api)
    (formatted : str -> option str) (category_name : str)
    (category_id : option ObjectId) :
  preserves R (process_sport_events E api formatted category_name category_id).
Proof.
  unfold process_sport_events.
  destruct (fetch_sports_data api) as [results|];
    [|apply (preserves_raise R R_refl)].
  destruct (organize_sports_events formatted results)
    as [[organized_events null_team_events]|];
    [|apply (preserves_raise R R_refl)].
  apply (preserves_bind R R_trans);
    [apply preserves_process_team_events|].
  intros n.
  apply (preserves_bind R R_trans);
    [apply preserves_process_null_team_events|].
  intros m. apply (preserves_ret R R_refl).
Qed.

End PipelinePreservation.

(* ================================================================== *)
(** * The cap on image searches *)
(* ================================================================== *)

Lemma budget_kept_refl (E : env) (s : state) : budget_kept E s s.
Proof. unfold budget_kept. lia. Qed.

Lemma budget_kept_trans (E : env) (a b c : state) :
  budget_kept E a b -> budget_kept E b c -> budget_kept E a c.
Proof. unfold budget_kept. lia. Qed.

Lemma budget_kept_gen (E : env) (s : state) (c : nat) (l : list gen_event) :
  budget_kept E s (set_gen c l s).
Proof. unfold budget_kept. cbn. lia. Qed.

Lemma budget_kept_s3 (E : env) (s : state) (c : nat) :
  budget_kept E s (set_s3 c s).
Proof. unfold budget_kept. cbn. lia. Qed.

Lemma budget_kept_db (E : env) (s : state) (c : nat) (l : list db_event) :
  budget_kept E s (set_db c l s).
Proof. unfold budget_kept. cbn. lia. Qed.

Lemma budget_kept_app (E : env) (s : state) (l : list log_msg) :
  budget_kept E s (set_app l s).
Proof. unfold budget_kept. cbn. lia. Qed.

Lemma budget_kept_safe_google_image_search (E : env) (q : str) :
  preserves (budget_kept E) (safe_google_image_search E q).
Proof.
  intros s.
  destruct (safe_google_image_search_cases E q s) as [H|(_ & Hc & H)];
    rewrite H; [apply budget_kept_refl|].
  unfold budget_kept, searched; cbn -[Z.of_nat Z.sub Z.add Z.max];
    rewrite length_app; cbn [length]; lia.
Qed.

Lemma budget_kept_image_searches (E : env) (qs : list str) :
  preserves (budget_kept E) (image_searches E qs).
Proof.
  induction qs as [|q qs IH]; cbn [image_searches].
  - apply (preserves_ret _ (budget_kept_refl E)).
  - apply (preserves_bind _ (budget_kept_trans E));
      [apply budget_kept_safe_google_image_search|].
    intros r. apply (preserves_bind _ (budget_kept_trans E)); [exact IH|].
    intros rs. apply (preserves_ret _ (budget_kept_refl E)).
Qed.

(** What [budget_kept] says about the network: no more searches reach it
    than the cap left room for. *)
Lemma budget_kept_bound (E : env) (s s' : state) :
  budget_kept E s s' ->
  (Z.of_nat (img_calls s') - Z.of_nat (img_calls s)
   <= Z.max 0 (MAX_IMAGE_SEARCHES_PER_RUN E - IMAGE_SEARCH_COUNT s))%Z.
Proof. unfold budget_kept. lia. Qed.

(** The per-run cap on image searches.  Across any sequence of image
    searches, the processing of a scraped item, the whole loop over the
    collected items, the processing of a fixture without teams and the
    whole sports phase, the counter of image searches moves exactly with
    the searches that reach the network, never goes down, and never goes
    past [MAX_IMAGE_SEARCHES_PER_RUN] unless it started there: at most as
    many searches reach the network as the cap left room for. *)
Theorem image_searches_stay_within_cap (E : env) (s : state) :
  (forall qs, budget_kept E s (snd (image_searches E qs s)))
  /\ (forall W event,
         budget_kept E s (snd (process_regular_event E W event s)))
  /\ (forall W events successful failed,
         budget_kept E s
           (snd (process_collected_events E W events successful failed s)))
  /\ (forall event category_id,
         budget_kept E s (snd (process_null_team_event E event category_id s)))
  /\ (forall api formatted category_name category_id,
         budget_kept E s
           (snd (process_sport_events E api formatted category_name
                   category_id s)))
  /\ (forall s',
         budget_kept E s s' ->
         (Z.of_nat (img_calls s') - Z.of_nat (img_calls s)
          <= Z.max 0 (MAX_IMAGE_SEARCHES_PER_RUN E - IMAGE_SEARCH_COUNT s))%Z
         /\ length (net_log s') - length (net_log s)
            = img_calls s' - img_calls s).
Proof.
  split; [intros qs; apply budget_kept_image_searches|].
  split.
  { intros W event.
    apply (preserves_process_regular_event (budget_kept E)
             (budget_kept_refl E) (budget_kept_trans E) (budget_kept_gen E)
             (budget_kept_s3 E) E (budget_kept_safe_google_image_search E)
             (budget_kept_db E) (budget_kept_app E)). }
  split.
  { intros W events successful failed.
    apply (preserves_process_collected_events (budget_kept E)
             (budget_kept_refl E) (budget_kept_trans E) (budget_kept_gen E)
             (budget_kept_s3 E) E (budget_kept_safe_google_image_search E)
             (budget_kept_db E) (budget_kept_app E)). }
  split.
  { intros event category_id.
    apply (preserves_process_null_team_event (budget_kept E)
             (budget_kept_refl E) (budget_kept_trans E) (budget_kept_gen E)
             (budget_kept_s3 E) E (budget_kept_safe_google_image_search E)
             (budget_kept_db E) (budget_kept_app E)). }
  split.
  { intros api formatted category_name category_id.
    apply (preserves_process_sport_events (budget_kept E)
             (budget_kept_refl E) (budget_kept_trans E) (budget_kept_gen E)
             (budget_kept_s3 E) E (budget_kept_safe_google_image_search E)
             (budget_kept_db E) (budget_kept_app E)). }
  intros s' H. split; [apply budget_kept_bound, H|].
  unfold budget_kept in H. lia.
Qed.

(** The open breaker.  From a state in which the disabled flag is set, or
    in which the count has reached [MAX_IMAGE_SEARCHES_PER_RUN], every
    search returns [None] and leaves the whole state as it is, so
    [google_image_search] is not called, whatever the number of searches
    that follow.  And nothing in the pipeline (the two persisters of
    multi-option items, the processing of a scraped item, the loop over the
    collected items, the sports phase) ever clears the flag, lowers the
    count, or lets a search go out once the breaker is open. *)
Theorem open_breaker_stops_every_search (E : env) :
  (forall s q,
      IMAGE_SEARCH_DISABLED s = true
      \/ (MAX_IMAGE_SEARCHES_PER_RUN E <= IMAGE_SEARCH_COUNT s)%Z ->
      safe_google_image_search E q s = (Returned None, s))
  /\ (forall s qs,
         IMAGE_SEARCH_DISABLED s = true
         \/ (MAX_IMAGE_SEARCHES_PER_RUN E <= IMAGE_SEARCH_COUNT s)%Z ->
         image_searches E qs s = (Returned (map (fun _ => None) qs), s))
  /\ (forall event question options end_date description,
         preserves (breaker_kept E)
           (save_multi_option_event E event question options end_date
              description))
  /\ (forall event category_id,
         preserves (breaker_kept E)
           (process_null_team_event E event category_id))
  /\ (forall W event,
         preserves (breaker_kept E) (process_regular_event E W event))
  /\ (forall W events successful failed,
         preserves (breaker_kept E)
           (process_collected_events E W events successful failed))
  /\ (forall api formatted category_name category_id,
         preserves (breaker_kept E)
           (process_sport_events E api formatted category_name category_id)).
Proof.
  split.
  { intros s q Ht. apply safe_google_image_search_tripped. exact Ht. }
  split.
  { intros s qs Ht. apply image_searches_tripped. exact Ht. }
  split.
  { intros.
    apply (preserves_save_multi_option_event (breaker_kept E)
             (breaker_kept_refl E) (breaker_kept_trans E) (breaker_kept_gen E)
             (breaker_kept_s3 E) E (breaker_kept_safe_google_image_search E)
             (breaker_kept_db E) (breaker_kept_app E)). }
  split.
  { intros.
    apply (preserves_process_null_team_event (breaker_kept E)
             (breaker_kept_refl E) (breaker_kept_trans E) (breaker_kept_gen E)
             (breaker_kept_s3 E) E (breaker_kept_safe_google_image_search E)
             (breaker_kept_db E) (breaker_kept_app E)). }
  split.
  { intros W event.
    apply (preserves_process_regular_event (breaker_kept E)
             (breaker_kept_refl E) (breaker_kept_trans E) (breaker_kept_gen E)
             (breaker_kept_s3 E) E (breaker_kept_safe_google_image_search E)
             (breaker_kept_db E) (breaker_kept_app E)). }
  split.
  { intros W events successful failed.
    apply (preserves_process_collected_events (breaker_kept E)
             (breaker_kept_refl E) (breaker_kept_trans E) (breaker_kept_gen E)
             (breaker_kept_s3 E) E (breaker_kept_safe_google_image_search E)
             (breaker_kept_db E) (breaker_kept_app E)). }
  intros api formatted category_name category_id.
  apply (preserves_process_sport_events (breaker_kept E)
           (breaker_kept_refl E) (breaker_kept_trans E) (breaker_kept_gen E)
           (breaker_kept_s3 E) E (breaker_kept_safe_google_image_search E)
           (breaker_kept_db E) (breaker_kept_app E)).
Qed.

(* ================================================================== *)
(** * Yes/No events *)
(* ================================================================== *)

(** A computation that is quiet leaves the log of the store and the
    messages as they were, whether it returns or raises. *)
Lemma run_keeps_store {A} (m : M A) (s : state) (r : result A) (s' : state) :
  preserves quiet m -> m s = (r, s') ->
  db_log s' = db_log s /\ app_log s' = app_log s /\ db_calls s' = db_calls s.
Proof.
  intros Hq Hrun. specialize (Hq s). rewrite Hrun in Hq.
  destruct Hq as (H1 & H2 & H3). repeat split; assumption.
Qed.

Lemma quiet_generate_question (E : env) (ed cn et : str)
    (max_retries delay : Z) :
  preserves quiet (generate_question E ed cn et max_retries delay).
Proof.
  apply preserves_generate_question;
    [apply quiet_refl | apply quiet_trans | apply quiet_gen].
Qed.

Lemma quiet_generate_question_from_api (E : env) (info : api_event_info)
    (max_retries delay : Z) :
  preserves quiet (generate_question_from_api E info max_retries delay).
Proof.
  apply preserves_generate_question_from_api;
    [apply quiet_refl | apply quiet_trans | apply quiet_gen].
Qed.

Lemma quiet_summary (E : env) (d : str) (q : option str) :
  preserves quiet (summary E d q).
Proof.
  apply preserves_summary;
    [apply quiet_refl | apply quiet_trans | apply quiet_gen].
Qed.

Lemma binary_record_built (E : env) (event : regular_event) (question : str)
    (prob1 : option probability) (prob2 : Z) (end_date description : str)
    (rules image : option str) (doc : EventData) :
  binary_record E event question prob1 prob2 end_date description rules image
  = Returned doc ->
  binary_record_of question (yes_field prob1) prob2 doc.
Proof.
  unfold binary_record, EventData_init.
  destruct prob1 as [[n|l]|]; try discriminate;
    destruct (parse_date E end_date); intros H; injection H as <-;
    repeat split.
Qed.

(** After the rules and the image, a record is sent to the store once. *)
Lemma save_record_run (E : env) (question : str) (yes : option Z) (no : Z)
    (built : result EventData) (s : state) :
  (forall doc, built = Returned doc -> binary_record_of question yes no doc) ->
  exists b s' evs,
    try_except
      (bind (lift built) (fun event_data =>
       bind (save_event E event_data) (fun save_response =>
       if dict_truthy save_response then ret true else ret false)))
      (fun _ => ret false) s = (Returned b, s')
    /\ db_log s' = db_log s ++ evs
    /\ app_log s' = app_log s
    /\ binary_events question yes no evs b.
Proof.
  intros Hb. unfold try_except. rewrite run_bind. unfold lift at 1.
  destruct built as [doc|e].
  - specialize (Hb doc eq_refl). cbv beta iota.
    rewrite run_bind, save_event_run.
    destruct (ans_coll (db_script E (db_calls s))) eqn:Hc.
    + exists false. eexists. exists [DbConnect CollRaises].
      split; [reflexivity|]. split; [reflexivity|]. split; [reflexivity|].
      constructor. discriminate.
    + exists false. eexists. exists [DbConnect CollNone].
      split; [reflexivity|]. split; [reflexivity|]. split; [reflexivity|].
      constructor. discriminate.
    + destruct (ans_insert (db_script E (db_calls s))) as [id|] eqn:Hi.
      * exists true. eexists. exists [DbConnect CollOk; DbInsert doc (Some id)].
        split; [reflexivity|]. split; [reflexivity|]. split; [reflexivity|].
        constructor. exact Hb.
      * exists false. eexists. exists [DbConnect CollOk; DbInsert doc None].
        split; [reflexivity|]. split; [reflexivity|]. split; [reflexivity|].
        constructor. exact Hb.
  - exists false, s, []. rewrite app_nil_r.
    split; [reflexivity|]. split; [reflexivity|]. split; [reflexivity|].
    constructor.
Qed.

Lemma save_binary_event_run (E : env) (event : regular_event)
    (question : str) (prob1 : option probability) (prob2 : Z)
    (end_date description : str) (s : state) :
  exists b s' evs,
    save_binary_event E event question prob1 prob2 end_date description s
    = (Returned b, s')
    /\ db_log s' = db_log s ++ evs
    /\ app_log s' = app_log s
    /\ binary_events question (yes_field prob1) prob2 evs b.
Proof.
  destruct (quiet_default_rules E s) as (rl & s1 & H1 & (_ & Hd1 & Ha1)).
  destruct (quiet_fetch_image E question s1)
    as (img & s2 & H2 & (_ & Hd2 & Ha2)).
  destruct (save_record_run E question (yes_field prob1) prob2
              (binary_record E event question prob1 prob2 end_date description
                 rl img) s2
              (binary_record_built E event question prob1 prob2 end_date
                 description rl img))
    as (b & s' & evs & Hrun & Hlog & Happ & Hev).
  exists b, s', evs.
  split; [|split; [congruence | split; [congruence | exact Hev]]].
  rewrite <- Hrun. unfold save_binary_event, try_except.
  rewrite run_bind, H1. cbv beta iota.
  rewrite run_bind, H2. cbv beta iota. reflexivity.
Qed.

Lemma binary_events_counts (question : str) (yes : option Z) (no : Z)
    (evs : list db_event) (b : bool) :
  binary_events question yes no evs b ->
  inserts evs <= 1 /\ updates evs = 0
  /\ (b = true <-> exists doc id, In (DbInsert doc (Some id)) evs).
Proof.
  intros H. destruct H as [|a Ha|doc Hdoc|doc id Hdoc]; cbn;
    (split; [lia|]); (split; [reflexivity|]); split;
    try discriminate; try (intros _; exists doc, id; right; left; reflexivity).
  - intros (doc & id & []).
  - intros (doc & id & [H|[]]). discriminate.
  - intros (doc0 & id & [H|[H|[]]]); discriminate.
  - reflexivity.
Qed.

(** Binary persistence.  [save_binary_event] never raises.  The store sees
    of it at most one connection followed by at most one insert, of the
    Yes/No record of the question with the two probabilities; it sees no
    update and no second record.  The call returns [True] exactly when
    that insert succeeded, and [False] in every other case. *)
Theorem save_binary_event_writes_one_record (E : env)
    (event : regular_event) (question : str) (prob1 : option probability)
    (prob2 : Z) (end_date description : str) (s : state) :
  exists b s' evs,
    save_binary_event E event question prob1 prob2 end_date description s
    = (Returned b, s')
    /\ db_log s' = db_log s ++ evs
    /\ binary_events question (yes_field prob1) prob2 evs b
    /\ inserts evs <= 1
    /\ updates evs = 0
    /\ (b = true <-> exists doc id, In (DbInsert doc (Some id)) evs).
Proof.
  destruct (save_binary_event_run E event question prob1 prob2 end_date
              description s) as (b & s' & evs & Hrun & Hlog & _ & Hev).
  exists b, s', evs. split; [exact Hrun|]. split; [exact Hlog|].
  split; [exact Hev|]. apply (binary_events_counts _ _ _ _ _ Hev).
Qed.

(* ================================================================== *)
(** * Sound writes *)
(* ================================================================== *)

Lemma percent_complement (p : Z) : percent p -> percent (100 - p).
Proof. unfold percent. lia. Qed.

Lemma child_record_sound (opt : option_entry) (doc : EventData) :
  percent (opt_prob opt) -> child_record_of opt doc -> sound_record doc.
Proof.
  intros Hp (Hy & Hn & _ & Hh & Ho). split; [exact Ho|]. rewrite Hh.
  exists (opt_prob opt), (100 - opt_prob opt)%Z.
  split; [exact Hy|]. split; [exact Hn|]. split; [lia|].
  split; [exact Hp | apply percent_complement, Hp].
Qed.

Lemma parent_record_sound (question : str) (doc : EventData) :
  parent_record_of question doc -> sound_record doc.
Proof.
  intros (_ & Hc & Hh & Ho). split; [exact Ho|]. rewrite Hh. exact Hc.
Qed.

Lemma binary_record_sound (question : str) (yes no : Z) (doc : EventData) :
  (yes + no = 100)%Z -> percent yes -> percent no ->
  binary_record_of question (Some yes) no doc -> sound_record doc.
Proof.
  intros Hs Hy Hn (_ & _ & Hh & Ho & Hpy & Hpn). split; [exact Ho|].
  rewrite Hh. exists yes, no.
  split; [exact Hpy|]. split; [exact Hpn|]. split; [exact Hs|].
  split; assumption.
Qed.

Lemma child_events_sound (opt : option_entry) (evs : list db_event)
    (r : option OptionData) :
  percent (opt_prob opt) -> child_events opt evs r ->
  Forall sound_write evs
  /\ match r with Some od => sound_entry od | None => True end.
Proof.
  intros Hp H. destruct H as [|a Ha|doc Hdoc|doc id Hdoc].
  - split; [constructor | exact I].
  - split; [repeat constructor | exact I].
  - split; [|exact I].
    constructor; [exact I|]. constructor; [|constructor].
    apply (child_record_sound opt doc Hp Hdoc).
  - split.
    + constructor; [exact I|]. constructor; [|constructor].
      apply (child_record_sound opt doc Hp Hdoc).
    + split; [exact Hp | discriminate].
Qed.

Lemma children_events_sound (options : list option_entry)
    (evs : list db_event) (updated : list OptionData) :
  children_events options evs updated ->
  Forall (fun o => percent (opt_prob o)) options ->
  Forall sound_write evs /\ Forall sound_entry updated.
Proof.
  intros H. induction H as [|opt rest evs evs' r rs Hchild Hrest IH];
    intros Hp.
  - split; constructor.
  - inversion Hp as [|o os Ho Hos]; subst.
    destruct (child_events_sound opt evs r Ho Hchild) as (H1 & H2).
    destruct (IH Hos) as (H3 & H4).
    split; [apply Forall_app; split; assumption|].
    destruct r as [od|]; [constructor; assumption | exact H4].
Qed.

Lemma item_events_sound (question : str) (options : list option_entry)
    (evs : list db_event) :
  item_events question options evs ->
  Forall (fun o => percent (opt_prob o)) options ->
  Forall sound_write evs.
Proof.
  intros H Hp.
  destruct H as [|a Ha|doc Hdoc|doc pid cevs updated pevs Hdoc Hc Hpatch].
  - constructor.
  - repeat constructor.
  - constructor; [exact I|]. constructor; [|constructor].
    apply (parent_record_sound question doc Hdoc).
  - destruct (children_events_sound options cevs updated Hc Hp) as (H1 & H2).
    constructor; [exact I|].
    constructor; [apply (parent_record_sound question doc Hdoc)|].
    apply Forall_app. split; [exact H1|].
    destruct Hpatch as [|od ods a Ha|od ods res].
    + constructor.
    + repeat constructor.
    + constructor; [exact I|]. constructor; [|constructor].
      split; [discriminate | exact H2].
Qed.

Lemma binary_events_sound (question : str) (yes no : Z)
    (evs : list db_event) (b : bool) :
  (yes + no = 100)%Z -> percent yes -> percent no ->
  binary_events question (Some yes) no evs b -> Forall sound_write evs.
Proof.
  intros Hs Hy Hn H. destruct H as [|a Ha|doc Hdoc|doc id Hdoc].
  - constructor.
  - repeat constructor.
  - constructor; [exact I|]. constructor; [|constructor].
    apply (binary_record_sound question yes no doc Hs Hy Hn Hdoc).
  - constructor; [exact I|]. constructor; [|constructor].
    apply (binary_record_sound question yes no doc Hs Hy Hn Hdoc).
Qed.

(* ================================================================== *)
(** * Scraped items *)
(* ================================================================== *)

Lemma binary_item_writes_sound (evs : list db_event) (b : bool) :
  binary_item_writes evs b -> Forall sound_write evs.
Proof.
  intros [(-> & _)|(q & yes & no & H & Hs & Hy & Hn)].
  - constructor.
  - apply (binary_events_sound q yes no evs b Hs Hy Hn H).
Qed.

Lemma regular_item_writes_sound (evs : list db_event) (b : bool) :
  regular_item_writes evs b -> Forall sound_write evs.
Proof.
  intros [H|(q & options & H & Hv)].
  - apply (binary_item_writes_sound evs b H).
  - destruct Hv as (_ & _ & Hp). apply (item_events_sound q options evs H Hp).
Qed.

Lemma process_regular_event_run (E : env) (W : web) (event : collected_event)
    (s : state) :
  exists b s' evs,
    process_regular_event E W event s = (Returned b, s')
    /\ db_log s' = db_log s ++ evs
    /\ regular_item_writes evs b.
Proof.
  assert (Hnone : forall s0,
            db_log s0 = db_log s ->
            exists b s' evs,
              (Returned false, s0) = (Returned b, s')
              /\ db_log s' = db_log s ++ evs
              /\ regular_item_writes evs b).
  { intros s0 H0. exists false, s0, []. rewrite app_nil_r.
    split; [reflexivity|]. split; [exact H0|]. left. left.
    split; reflexivity. }
  unfold process_regular_event, try_except.
  destruct (document_loader W (link (ids_and_row event)) 1000)
    as [event_description|]; [|apply (Hnone s eq_refl)].
  rewrite run_bind.
  destruct (generate_question E event_description (category_name event)
              (topic_name event) (DEFAULT_RETRY_COUNT E)
              (DEFAULT_RETRY_DELAY E) s) as [[t|e] s1] eqn:Hgq;
    destruct (run_keeps_store _ s _ s1
                (quiet_generate_question E _ _ _ _ _) Hgq) as (Hd1 & _ & _);
    [|apply (Hnone s1 Hd1)].
  pose proof (generate_question_returned_valid E _ _ _ _ _ s t s1 Hgq) as Hv.
  destruct t as [[[generated_question prob1] prob2] end_date].
  cbv beta iota. rewrite run_bind.
  destruct (summary E event_description generated_question s1)
    as [[description|e] s2] eqn:Hsum;
    destruct (run_keeps_store _ s1 _ s2 (quiet_summary E _ _) Hsum)
      as (Hd2 & _ & _);
    assert (Hd : db_log s2 = db_log s) by congruence;
    [|apply (Hnone s2 Hd)].
  destruct generated_question as [question|]; [|apply (Hnone s2 Hd)].
  destruct end_date as [end_date|]; [|apply (Hnone s2 Hd)].
  destruct (truthy question && truthy end_date); [|apply (Hnone s2 Hd)].
  destruct prob2 as [prob2|].
  - destruct (save_binary_event_run E (ids_and_row event) question prob1
                prob2 end_date description s2)
      as (b & s' & evs & Hrun & Hlog & _ & Hev).
    rewrite Hrun. exists b, s', evs. split; [reflexivity|].
    split; [congruence|].
    destruct Hv as [Hv|[(q & yes & no & e & Hv & Hs & Hy & Hn)
                       |(q & l & e & Hv & _)]];
      try discriminate.
    injection Hv as -> -> -> ->. left. right.
    exists q, yes, no. split; [exact Hev|]. split; [exact Hs|].
    split; assumption.
  - destruct Hv as [Hv|[(q & yes & no & e & Hv & _)|(q & l & e & Hv & Hl)]];
      try discriminate.
    injection Hv as -> -> ->.
    destruct (save_multi_option_event_run E (ids_and_row event) q l e
                description s2) as (b & s' & evs & Hrun & Hlog & Hev & _).
    rewrite Hrun. exists b, s', evs. split; [reflexivity|].
    split; [congruence|]. right. exists q, l. split; assumption.
Qed.

(** Idempotent skip.  When the content of the link cannot be loaded (the
    loader gives nothing: a Reddit link, a failed load, fewer than 50
    words), [process_regular_event] returns [False] and leaves everything
    as it is: the model is not asked, no image is searched, the store is
    not touched. *)
Theorem process_regular_event_without_content (E : env) (W : web)
    (event : collected_event) (s : state) :
  document_loader W (link (ids_and_row event)) 1000 = None ->
  process_regular_event E W event s = (Returned false, s).
Proof.
  intros H. unfold process_regular_event, try_except. rewrite H. reflexivity.
Qed.

Lemma process_regular_event_without_content_witness :
  process_regular_event (env_of mid_june mute_model no_store) unreachable_web
    reddit_item initial_state
  = (Returned false, initial_state).
Proof.
  apply (process_regular_event_without_content
           (env_of mid_june mute_model no_store) unreachable_web reddit_item
           initial_state).
  vm_compute. reflexivity.
Defined.

(** Sound writes of a scraped item.  [process_regular_event] never raises,
    and the store sees of it nothing, or the writes of one Yes/No event
    whose two probabilities are percentages that sum to 100, or the writes
    of one multi-option item whose options are valid; in every case each
    record written that has no options carries a Yes and a No percentage
    that sum to 100, and each patch carries entries that point to a child
    and hold a percentage. *)
Theorem process_regular_event_sound_writes (E : env) (W : web)
    (event : collected_event) (s : state) :
  exists b s' evs,
    process_regular_event E W event s = (Returned b, s')
    /\ db_log s' = db_log s ++ evs
    /\ regular_item_writes evs b
    /\ Forall sound_write evs.
Proof.
  destruct (process_regular_event_run E W event s)
    as (b & s' & evs & Hrun & Hlog & Hev).
  exists b, s', evs. split; [exact Hrun|]. split; [exact Hlog|].
  split; [exact Hev|]. apply (regular_item_writes_sound evs b Hev).
Qed.

(* ================================================================== *)
(** * The sports phase *)
(* ================================================================== *)

Lemma team_record_built (E : env) (sk : option str) (cat : option ObjectId)
    (question : str) (ed : end_date_arg) (desc rl : option str)
    (yes : option Z) (no : Z) (img : option str) (doc : EventData) :
  EventData_init E false true sk cat None false (Some question) ed desc rl
    yes (Some no) img None = Returned doc ->
  binary_record_of question yes no doc.
Proof.
  unfold EventData_init. destruct desc as [d|]; [|discriminate].
  destruct ed as [|dt|str]; try destruct (coerce_datetime E str);
    intros H; try discriminate; injection H as <-; repeat split.
Qed.

Lemma process_team_event_run (E : env) (event : organized_event)
    (category_id : option ObjectId) (s : state) :
  exists b s' evs,
    process_team_event E event category_id s = (Returned b, s')
    /\ db_log s' = db_log s ++ evs
    /\ binary_item_writes evs b.
Proof.
  assert (Hnone : forall s0,
            db_log s0 = db_log s ->
            exists b s' evs,
              (Returned false, s0) = (Returned b, s')
              /\ db_log s' = db_log s ++ evs
              /\ binary_item_writes evs b).
  { intros s0 H0. exists false, s0, []. rewrite app_nil_r.
    split; [reflexivity|]. split; [exact H0|]. left. split; reflexivity. }
  unfold process_team_event. unfold try_except at 1. rewrite run_bind.
  destruct (generate_question_from_api E
              (ApiEventInfo (oe_event_description event)
                 (oe_formatted_date event))
              (DEFAULT_RETRY_COUNT E) (DEFAULT_RETRY_DELAY E) s)
    as [[t|e] s1] eqn:Hgq;
    destruct (run_keeps_store _ s _ s1
                (quiet_generate_question_from_api E _ _ _) Hgq)
      as (Hd1 & _ & _);
    [|apply (Hnone s1 Hd1)].
  pose proof (generate_question_from_api_returned_valid E _ _ _ s t s1 Hgq)
    as Hv.
  destruct t as [[[[generated_question prob1] prob2] end_date] description].
  cbv beta iota.
  destruct generated_question as [question|]; [|apply (Hnone s1 Hd1)].
  destruct end_date as [end_date|]; [|apply (Hnone s1 Hd1)].
  destruct (truthy question && truthy end_date); [|apply (Hnone s1 Hd1)].
  destruct prob2 as [prob2|]; [|apply (Hnone s1 Hd1)].
  destruct Hv as [Hv|[(q & yes & no & d & Hv & Hs & Hy & Hn)|(q & d & Hv & _)]];
    try discriminate.
  injection Hv as -> -> -> -> ->.
  destruct (quiet_default_rules E s1) as (rl & s2 & H2 & (_ & Hd2 & Ha2)).
  destruct (quiet_fetch_image E q s2) as (img & s3 & H3 & (_ & Hd3 & Ha3)).
  rewrite run_bind, H2. cbv beta iota. rewrite run_bind, H3. cbv beta iota.
  destruct (save_record_run E q (Some yes) no
              (EventData_init E false true (Some (oe_key event)) category_id
                 None false (Some q) (EndStr (info_end_date
                   (ApiEventInfo (oe_event_description event)
                      (oe_formatted_date event)))) d rl (Some yes) (Some no)
                 img None) s3)
    as (b & s' & evs & Hrun & Hlog & _ & Hev).
  { intros doc Hdoc. apply (team_record_built _ _ _ _ _ _ _ _ _ _ _ Hdoc). }
  unfold try_except in Hrun. cbn [info_end_date] in Hrun. rewrite Hrun.
  exists b, s', evs. split; [reflexivity|]. split; [congruence|].
  right. exists q, yes, no. split; [exact Hev|]. split; [exact Hs|].
  split; assumption.
Qed.

Lemma process_team_events_run (E : env) (events : list organized_event)
    (category_id : option ObjectId) :
  forall processed s,
    loop_outcome (length events) processed s
      (process_team_events E events category_id processed s).
Proof.
  induction events as [|event rest IH]; intros processed s;
    cbn [process_team_events].
  - exists processed, []. cbn. rewrite app_nil_r.
    repeat split; try lia. constructor.
  - destruct (process_team_event_run E event category_id s)
      as (b & s1 & evs1 & Hrun & Hlog & Hev).
    rewrite run_bind, Hrun.
    destruct (IH (if b then processed + 1 else processed)%Z s1)
      as (n & evs & Hr & Hn & Hl & Hs).
    exists n, (evs1 ++ evs). split; [exact Hr|].
    split; [destruct b; cbn [length]; lia|].
    split; [rewrite Hl, Hlog, app_assoc; reflexivity|].
    apply Forall_app. split; [|exact Hs].
    apply (binary_item_writes_sound evs1 b Hev).
Qed.

Lemma null_team_item_sound (E : env) (event : null_team_event)
    (category_id : option ObjectId) (s : state) :
  exists r s' evs,
    process_null_team_event E event category_id s = (r, s')
    /\ db_log s' = db_log s ++ evs
    /\ Forall sound_write evs.
Proof.
  destruct (process_null_team_event_run E event category_id s)
    as (gq & prob1 & prob2 & desc & s0 & r & s' & evs & Hgen & Hrun & Hlog
        & Hev & _).
  exists r, s', evs. split; [exact Hrun|]. split; [exact Hlog|].
  apply (item_events_sound _ _ _ Hev).
  destruct (generate_multiple_question_returned_valid E _ _ s _ s0 Hgen)
    as [Hv|(q & l & d & Hv & (_ & _ & Hp) & _)].
  - injection Hv as _ -> _ _. constructor.
  - injection Hv as _ -> _ _. exact Hp.
Qed.

Lemma process_null_team_events_run (E : env) (events : list null_team_entry)
    (category_id : option ObjectId) :
  forall processed s,
    loop_outcome (length events) processed s
      (process_null_team_events E events category_id processed s).
Proof.
  induction events as [|event rest IH]; intros processed s;
    cbn [process_null_team_events].
  - exists processed, []. cbn. rewrite app_nil_r.
    repeat split; try lia. constructor.
  - destruct (null_team_item_sound E (ne_event event) category_id s)
      as (r & s1 & evs1 & Hrun & Hlog & Hev).
    rewrite run_bind. unfold try_except at 1. rewrite Hrun.
    assert (Hstep : exists b,
              match r with
              | Returned a => (Returned a, s1)
              | Raised e => ret false s1
              end = (Returned b, s1)).
    { destruct r as [a|e]; eexists; reflexivity. }
    destruct Hstep as (b & ->).
    destruct (IH (if b then processed + 1 else processed)%Z s1)
      as (n & evs & Hr & Hn & Hl & Hs).
    exists n, (evs1 ++ evs). split; [exact Hr|].
    split; [destruct b; cbn [length]; lia|].
    split; [rewrite Hl, Hlog, app_assoc; reflexivity|].
    apply Forall_app. split; assumption.
Qed.

(** Failure isolation in the sports phase.  [process_sport_events] raises
    only when the fixtures cannot be fetched or organized, and then before
    anything else happened.  Once they are, no failure on a fixture (an
    unusable answer of the model, a record that cannot be built, a store
    that refuses) ends the phase: every fixture of both lists is gone
    through, the call returns, each of its two counts is at most the
    number of fixtures of its kind, and every write the store saw is
    sound. *)
Theorem process_sport_events_isolates_failures (E : env) (api : odds_api)
    (formatted : str -> option str) (category_name : str)
    (category_id : option ObjectId) (s : state) :
  match fetch_sports_data api with
  | None =>
      process_sport_events E api formatted category_name category_id s
      = (Raised ClientError, s)
  | Some results =>
      match organize_sports_events formatted results with
      | None =>
          process_sport_events E api formatted category_name category_id s
          = (Raised ValueError, s)
      | Some (organized_events, null_team_events) =>
          exists n m s' evs,
            process_sport_events E api formatted category_name category_id s
            = (Returned (n, m), s')
            /\ (0 <= n <= Z.of_nat (length organized_events))%Z
            /\ (0 <= m <= Z.of_nat (length null_team_events))%Z
            /\ db_log s' = db_log s ++ evs
            /\ Forall sound_write evs
      end
  end.
Proof.
  unfold process_sport_events.
  destruct (fetch_sports_data api) as [results|]; [|reflexivity].
  destruct (organize_sports_events formatted results)
    as [[organized_events null_team_events]|]; [|reflexivity].
  destruct (process_team_events_run E organized_events category_id 0%Z s)
    as (n & evs1 & Hr1 & Hn & Hl1 & Hs1).
  destruct (process_team_events E organized_events category_id 0 s)
    as [r1 s1] eqn:Hrun1. cbn [fst snd] in *. subst r1.
  destruct (process_null_team_events_run E null_team_events category_id 0%Z s1)
    as (m & evs2 & Hr2 & Hm & Hl2 & Hs2).
  destruct (process_null_team_events E null_team_events category_id 0 s1)
    as [r2 s2] eqn:Hrun2. cbn [fst snd] in *. subst r2.
  exists n, m, s2, (evs1 ++ evs2).
  split; [rewrite run_bind, Hrun1; cbv beta iota; rewrite run_bind, Hrun2;
          reflexivity|].
  split; [lia|]. split; [lia|].
  split; [rewrite Hl2, Hl1, app_assoc; reflexivity|].
  apply Forall_app. split; assumption.
Qed.

(* ================================================================== *)
(** * The loop over the collected items *)
(* ================================================================== *)

Lemma process_collected_events_run (E : env) (W : web)
    (events : list collected_event) :
  forall successful failed s,
  exists successful' failed' s' evs,
    process_collected_events E W events successful failed s
    = (Returned (successful', failed'), s')
    /\ (successful <= successful')%Z /\ (failed <= failed')%Z
    /\ ((successful' - successful) + (failed' - failed)
        = Z.of_nat (length events))%Z
    /\ db_log s' = db_log s ++ evs
    /\ Forall sound_write evs.
Proof.
  induction events as [|event rest IH]; intros successful failed s;
    cbn [process_collected_events].
  - exists successful, failed, s, []. rewrite app_nil_r. cbn.
    repeat split; try lia. constructor.
  - destruct (process_regular_event_run E W event s)
      as (b & s1 & evs1 & Hrun & Hlog & Hev).
    rewrite run_bind. unfold try_except at 1.
    rewrite run_bind, Hrun. cbv beta iota. rewrite run_bind, run_sleep.
    cbv beta iota. unfold ret at 1.
    destruct (IH (fst (if b then ((successful + 1)%Z, failed)
                       else (successful, (failed + 1)%Z)))
                 (snd (if b then ((successful + 1)%Z, failed)
                       else (successful, (failed + 1)%Z)))
                 (slept 2 s1))
      as (a' & f' & s' & evs & Hr & Ha & Hf & Hsum & Hl & Hs).
    exists a', f', s', (evs1 ++ evs). split; [exact Hr|].
    destruct b; cbn [fst snd length] in *;
      (split; [lia|]); (split; [lia|]); (split; [lia|]);
      (split; [rewrite Hl; cbn; rewrite Hlog, app_assoc; reflexivity|]);
      (apply Forall_app; split;
       [apply (regular_item_writes_sound evs1 _ Hev) | exact Hs]).
Qed.

(** Every collected item is counted once.  The loop of [main] over the
    collected items never raises; of the two counts it keeps, the
    successes and the failures, each only grows, and together they grow by
    exactly the number of items; and every write the store saw in the
    whole loop is sound. *)
Theorem process_collected_events_counts_every_item (E : env) (W : web)
    (events : list collected_event) (successful failed : Z) (s : state) :
  exists successful' failed' s' evs,
    process_collected_events E W events successful failed s
    = (Returned (successful', failed'), s')
    /\ (successful <= successful')%Z /\ (failed <= failed')%Z
    /\ ((successful' - successful) + (failed' - failed)
        = Z.of_nat (length events))%Z
    /\ db_log s' = db_log s ++ evs
    /\ Forall sound_write evs.
Proof. apply process_collected_events_run. Qed.

(* ================================================================== *)
(** * Words *)
(* ================================================================== *)

(** Splitting across a whitespace character splits both sides. *)
Lemma split_from_app_space (a b : str) (sp : ascii) :
  isspace sp = true ->
  forall cur, split_from cur (a ++ sp :: b) = split_from cur a ++ split b.
Proof.
  intros Hsp. induction a as [|c a IH]; intros cur; cbn [app split_from].
  - rewrite Hsp. destruct cur; reflexivity.
  - destruct (isspace c).
    + destruct cur; [apply IH | cbn [app]; f_equal; apply IH].
    + apply IH.
Qed.

Lemma isspace_space : isspace space = true.
Proof. reflexivity. Qed.

Lemma word_count_app_space (a b : str) :
  word_count (a ++ [space] ++ b) = (word_count a + word_count b)%Z.
Proof.
  unfold word_count, split. cbn [app].
  rewrite (split_from_app_space a b space isspace_space), length_app.
  unfold split. lia.
Qed.

Lemma word_count_nonneg (s : str) : (0 <= word_count s)%Z.
Proof. unfold word_count. lia. Qed.

(** The total of [len(part.split())] over the parts. *)
Lemma join_snoc (parts : list str) (x : str) :
  parts <> [] -> join [space] (parts ++ [x]) = join [space] parts ++ [space] ++ x.
Proof.
  induction parts as [|p ps IH]; intros Hne; [contradiction|].
  destruct ps as [|q qs].
  - reflexivity.
  - change (join [space] ((p :: q :: qs) ++ [x]))
      with (p ++ [space] ++ join [space] ((q :: qs) ++ [x])).
    rewrite IH by discriminate.
    change (join [space] (p :: q :: qs))
      with (p ++ [space] ++ join [space] (q :: qs)).
    rewrite <- !app_assoc. reflexivity.
Qed.

Lemma word_count_join_snoc (parts : list str) (x : str) :
  word_count (join [space] (parts ++ [x]))
  = (word_count (join [space] parts) + word_count x)%Z.
Proof.
  destruct parts as [|p ps].
  - reflexivity.
  - rewrite join_snoc by discriminate. apply word_count_app_space.
Qed.

(* ================================================================== *)
(** * The page loader *)
(* ================================================================== *)

Lemma final_text_bounds (word_limit : Z) (text_parts : list str) (count : Z)
    (text : str) :
  loader_invariant word_limit text_parts count ->
  final_text_of text_parts = Some text ->
  (50 <= word_count text <= word_limit)%Z.
Proof.
  intros (Hc & Hl). unfold final_text_of.
  destruct (word_count (join [space] text_parts) <? 50)%Z eqn:H50;
    [discriminate|].
  intros H. injection H as <-. apply Z.ltb_ge in H50.
  split; [exact H50|].
  destruct Hl as [->|Hl]; [cbn in H50; lia | lia].
Qed.

Lemma load_sentences_bounds (W : web) (word_limit : Z)
    (sentences : list str) :
  forall text_parts count,
    loader_invariant word_limit text_parts count ->
    match load_sentences W word_limit sentences text_parts count with
    | inl (Some text) => (50 <= word_count text <= word_limit)%Z
    | inl None => True
    | inr (text_parts', count') =>
        loader_invariant word_limit text_parts' count'
    end.
Proof.
  induction sentences as [|sentence rest IH]; intros text_parts count Hinv;
    cbn [load_sentences].
  - exact Hinv.
  - destruct (truthy (strip sentence)); [|apply IH, Hinv].
    destruct (count + word_count (clean_text W (strip sentence))
              <=? word_limit)%Z eqn:Hle.
    + apply IH. apply Z.leb_le in Hle. destruct Hinv as (Hc & _).
      split; [|right; exact Hle].
      rewrite word_count_join_snoc, <- Hc. reflexivity.
    + destruct (final_text_of text_parts) as [text|] eqn:Hf; [|exact I].
      apply (final_text_bounds word_limit text_parts count text Hinv Hf).
Qed.

Lemma load_documents_bounds (W : web) (word_limit : Z)
    (steps : list load_step) :
  forall text_parts count text,
    loader_invariant word_limit text_parts count ->
    load_documents W word_limit steps text_parts count = Some text ->
    (50 <= word_count text <= word_limit)%Z.
Proof.
  induction steps as [|[page_content|] rest IH];
    intros text_parts count text Hinv; cbn [load_documents].
  - apply (final_text_bounds word_limit text_parts count text Hinv).
  - pose proof (load_sentences_bounds W word_limit (splitlines page_content)
                  text_parts count Hinv) as Hs.
    destruct (load_sentences W word_limit (splitlines page_content)
                text_parts count) as [[t|]|[text_parts' count']].
    + intros H. injection H as <-. exact Hs.
    + discriminate.
    + apply (IH text_parts' count' text Hs).
  - discriminate.
Qed.

(** The text [document_loader] returns has at least 50 words and at most
    [word_limit] words, whatever the pages hold; and a link to Reddit never
    gets a text. *)
Theorem document_loader_word_bounds (W : web) (url : str) (word_limit : Z)
    (text : str) :
  document_loader W url word_limit = Some text ->
  (50 <= word_count text <= word_limit)%Z /\ is_reddit url = false.
Proof.
  unfold document_loader. destruct (is_reddit url); [discriminate|].
  intros H. split; [|reflexivity].
  apply (load_documents_bounds W word_limit (pages W url) [] 0%Z text);
    [|exact H].
  split; [reflexivity | left; reflexivity].
Qed.

Lemma document_loader_word_bounds_witness :
  exists text,
    document_loader one_page_web (lit "https://example.org/news") 100
    = Some text
    /\ (50 <= word_count text <= 100)%Z
    /\ is_reddit (lit "https://example.org/news") = false.
Proof.
  eexists. split; [vm_compute; reflexivity|].
  apply (document_loader_word_bounds one_page_web
           (lit "https://example.org/news") 100).
  vm_compute. reflexivity.
Defined.

(* ================================================================== *)
(** * [clean_text] *)
(* ================================================================== *)

Ltac each_ascii c :=
  destruct c as [b0 b1 b2 b3 b4 b5 b6 b7];
  destruct b0, b1, b2, b3, b4, b5, b6, b7.

Lemma lower_char_idempotent (c : ascii) :
  lower_char (lower_char c) = lower_char c.
Proof. each_ascii c; reflexivity. Qed.

Lemma lower_char_no_punctuation (c : ascii) :
  is_punctuation c = false -> is_punctuation (lower_char c) = false.
Proof. each_ascii c; intros H; first [reflexivity | discriminate H]. Qed.

(** ** [split] and [join] *)

Lemma split_from_word (w : str) :
  Forall (fun c => isspace c = false) w ->
  forall cur, cur <> [] \/ w <> [] -> split_from cur w = [rev cur ++ w].
Proof.
  induction w as [|c w IH]; intros Hw cur Hne; cbn [split_from].
  - destruct Hne as [Hne|Hne]; [|contradiction].
    destruct cur; [contradiction|]. rewrite app_nil_r. reflexivity.
  - inversion Hw as [|x l Hc Hw']; subst. rewrite Hc.
    rewrite (IH Hw' (c :: cur)) by (left; discriminate).
    cbn [rev]. rewrite <- app_assoc. reflexivity.
Qed.

Lemma split_word (w : str) : wordlike w -> split w = [w].
Proof.
  intros (Hne & Hw). unfold split.
  rewrite (split_from_word w Hw []) by (right; exact Hne). reflexivity.
Qed.

(** Round trip: the words joined by single spaces split back into the
    same words. *)
Lemma split_join (ws : list str) :
  Forall wordlike ws -> split (join [space] ws) = ws.
Proof.
  induction ws as [|w ws IH]; intros H; [reflexivity|].
  inversion H as [|x l Hw Hws]; subst.
  destruct ws as [|v vs].
  - apply (split_word w Hw).
  - change (join [space] (w :: v :: vs))
      with (w ++ space :: join [space] (v :: vs)).
    unfold split at 1.
    rewrite (split_from_app_space w _ space isspace_space).
    fold (split w). rewrite (split_word w Hw), (IH Hws). reflexivity.
Qed.

(** What [split] gives are words, made of characters of the text. *)
Lemma split_from_words (P : ascii -> Prop) (s : str) :
  Forall P s ->
  forall cur,
    Forall P cur -> Forall (fun c => isspace c = false) cur ->
    Forall (fun w => wordlike w /\ Forall P w) (split_from cur s).
Proof.
  assert (Hcur : forall cur,
            cur <> [] -> Forall P cur ->
            Forall (fun c => isspace c = false) cur ->
            wordlike (rev cur) /\ Forall P (rev cur)).
  { intros cur Hne HP Hsp. split; [split|].
    - intros Hr. apply Hne. rewrite <- (rev_involutive cur), Hr. reflexivity.
    - apply Forall_rev, Hsp.
    - apply Forall_rev, HP. }
  induction s as [|c s IH]; intros Hs cur HP Hsp; cbn [split_from].
  - destruct cur as [|x cur]; [constructor|].
    constructor; [|constructor]. apply Hcur; [discriminate | exact HP | exact Hsp].
  - inversion Hs as [|x l Hc Hs']; subst.
    destruct (isspace c) eqn:Hcs.
    + destruct cur as [|x cur].
      * apply (IH Hs' []); constructor.
      * constructor.
        -- apply Hcur; [discriminate | exact HP | exact Hsp].
        -- apply (IH Hs' []); constructor.
    + apply (IH Hs' (c :: cur)); constructor; assumption.
Qed.

Lemma split_words (P : ascii -> Prop) (s : str) :
  Forall P s -> Forall (fun w => wordlike w /\ Forall P w) (split s).
Proof.
  intros H. apply (split_from_words P s H []); constructor.
Qed.

(** ** Characters of the cleaned text *)

Lemma remove_punctuation_clean (s : str) :
  Forall (fun c => is_punctuation c = false) (remove_punctuation s).
Proof.
  unfold remove_punctuation. apply Forall_forall. intros c Hc.
  apply filter_In in Hc. destruct Hc as (_ & Hc).
  apply negb_true_iff in Hc. exact Hc.
Qed.

Lemma lower_clean (s : str) :
  Forall (fun c => is_punctuation c = false) s ->
  Forall clean_char (lower s).
Proof.
  intros H. unfold lower. apply Forall_forall. intros c Hc.
  apply in_map_iff in Hc. destruct Hc as (x & <- & Hx).
  rewrite Forall_forall in H. split.
  - apply lower_char_no_punctuation, H, Hx.
  - apply lower_char_idempotent.
Qed.

Lemma join_clean (ws : list str) :
  Forall (Forall clean_char) ws -> Forall clean_char (join [space] ws).
Proof.
  induction ws as [|w ws IH]; intros H; [constructor|].
  inversion H as [|x l Hw Hws]; subst.
  destruct ws as [|v vs]; [exact Hw|].
  change (join [space] (w :: v :: vs))
    with (w ++ [space] ++ join [space] (v :: vs)).
  apply Forall_app. split; [exact Hw|]. apply Forall_app. split.
  - constructor; [split; reflexivity | constructor].
  - apply IH, Hws.
Qed.

Lemma remove_punctuation_fixed (s : str) :
  Forall clean_char s -> remove_punctuation s = s.
Proof.
  unfold remove_punctuation.
  induction s as [|c s IH]; intros H; [reflexivity|].
  inversion H as [|x l (Hp & _) Hs]; subst. cbn [filter].
  rewrite Hp. cbn [negb]. rewrite (IH Hs). reflexivity.
Qed.

Lemma lower_fixed (s : str) : Forall clean_char s -> lower s = s.
Proof.
  unfold lower. induction s as [|c s IH]; intros H; [reflexivity|].
  inversion H as [|x l (_ & Hl) Hs]; subst. cbn [map].
  rewrite Hl, (IH Hs). reflexivity.
Qed.

Lemma filter_idempotent {A} (f : A -> bool) (l : list A) :
  filter f (filter f l) = filter f l.
Proof.
  induction l as [|x l IH]; [reflexivity|]. cbn [filter].
  destruct (f x) eqn:Hx; [|exact IH]. cbn [filter]. rewrite Hx, IH.
  reflexivity.
Qed.

Lemma Forall_filter {A} (P : A -> Prop) (f : A -> bool) (l : list A) :
  Forall P l -> Forall P (filter f l).
Proof.
  intros H. apply Forall_forall. intros x Hx. apply filter_In in Hx.
  rewrite Forall_forall in H. apply H, Hx.
Qed.

(** The words [clean_text] keeps: the words of the text without its
    punctuation and in lower case, the stop words left out. *)
Lemma clean_text_words (W : web) (text : str) :
  clean_text W text
  = join [space]
      (filter (fun word => negb (stop_words W word))
         (split (lower (remove_punctuation text))))
  /\ Forall (fun w => wordlike w /\ Forall clean_char w)
       (filter (fun word => negb (stop_words W word))
          (split (lower (remove_punctuation text)))).
Proof.
  pose proof (split_words clean_char _
                (lower_clean _ (remove_punctuation_clean text))) as Hw.
  split.
  - unfold clean_text. rewrite split_join; [reflexivity|].
    apply (Forall_impl _ (fun w H => proj1 H) Hw).
  - apply Forall_filter, Hw.
Qed.

(** [clean_text] gives a normal form.  The text it returns consists of the
    words of the input (taken without punctuation and in lower case) that
    are no stop words, joined by single spaces: splitting it gives exactly
    those words back, it holds no punctuation and no upper-case letter, no
    stop word is left in it, and cleaning it again changes nothing. *)
Theorem clean_text_normal_form (W : web) (text : str) :
  split (clean_text W text)
  = filter (fun word => negb (stop_words W word))
      (split (lower (remove_punctuation text)))
  /\ Forall (fun word => stop_words W word = false) (split (clean_text W text))
  /\ Forall clean_char (clean_text W text)
  /\ clean_text W (clean_text W text) = clean_text W text.
Proof.
  destruct (clean_text_words W text) as (Heq & Hw).
  set (ws := filter (fun word => negb (stop_words W word))
               (split (lower (remove_punctuation text)))) in *.
  assert (Hsplit : split (clean_text W text) = ws).
  { rewrite Heq. apply split_join.
    apply (Forall_impl _ (fun w H => proj1 H) Hw). }
  assert (Hclean : Forall clean_char (clean_text W text)).
  { rewrite Heq. apply join_clean.
    apply (Forall_impl _ (fun w H => proj2 H) Hw). }
  split; [exact Hsplit|]. split; [|split; [exact Hclean|]].
  - rewrite Hsplit. unfold ws. apply Forall_forall. intros w Hin.
    apply filter_In in Hin. destruct Hin as (_ & Hin).
    apply negb_true_iff in Hin. exact Hin.
  - destruct (clean_text_words W (clean_text W text)) as (Heq2 & _).
    rewrite Heq2, (remove_punctuation_fixed _ Hclean), (lower_fixed _ Hclean).
    rewrite Hsplit. unfold ws at 1. rewrite filter_idempotent.
    fold ws. symmetry. exact Heq.
Qed.

(* ================================================================== *)
(** * Keys of categories and topics *)
(* ================================================================== *)

Lemma eqb_char_eq (a b : ascii) : eqb_char a b = true -> a = b.
Proof. unfold eqb_char. apply Ascii.eqb_eq. Qed.

Lemma eqb_eq (a b : str) : Py.eqb a b = true -> a = b.
Proof.
  revert b. induction a as [|x a IH]; intros [|y b] H; cbn [Py.eqb] in H;
    try discriminate; [reflexivity|].
  apply andb_prop in H. destruct H as [Hx Ha].
  apply eqb_char_eq in Hx. rewrite Hx, (IH b Ha). reflexivity.
Qed.

(** ** Dictionaries *)

Lemma lookup_in {V} (k : str) (d : sdict V) (v : V) :
  lookup k d = Some v -> In (k, v) d.
Proof.
  induction d as [|[k' v'] d IH]; cbn [lookup]; [discriminate|].
  destruct (Py.eqb k k') eqn:Hk.
  - intros H. injection H as <-. apply eqb_eq in Hk. subst k'. left.
    reflexivity.
  - intros H. right. apply IH, H.
Qed.

Lemma in_set {V} (k : str) (v : V) (d : sdict V) (a : str) (b : V) :
  In (a, b) (set k v d) -> (a = k /\ b = v) \/ In (a, b) d.
Proof.
  induction d as [|[k' v'] d IH]; cbn [set].
  - intros [H|[]]. injection H as <- <-. left. split; reflexivity.
  - destruct (Py.eqb k k') eqn:Hk.
    + apply eqb_eq in Hk. subst k'. intros [H|H].
      * injection H as <- <-. left. split; reflexivity.
      * right. right. exact H.
    + intros [H|H].
      * right. left. exact H.
      * destruct (IH H) as [H'|H']; [left; exact H' | right; right; exact H'].
Qed.

(** ** The round trip of one key *)

Lemma split_last_none (sep : ascii) (s : str) :
  Forall (fun c => eqb_char c sep = false) s -> split_last sep s = None.
Proof.
  induction s as [|c s IH]; intros H; [reflexivity|].
  inversion H as [|x l Hc Hs]; subst. cbn [split_last].
  rewrite (IH Hs), Hc. reflexivity.
Qed.

Lemma split_last_app (sep : ascii) (a b : str) :
  Forall (fun c => eqb_char c sep = false) b ->
  split_last sep (a ++ sep :: b) = Some (a, b).
Proof.
  intros Hb. induction a as [|c a IH]; cbn [app split_last].
  - rewrite (split_last_none sep b Hb). unfold eqb_char.
    rewrite Ascii.eqb_refl. reflexivity.
  - rewrite IH. reflexivity.
Qed.

Lemma read_key_name_id (name id : str) :
  no_underscore id -> read_key (name_id name id) = Some (name, id).
Proof.
  intros H. unfold read_key, rsplit1, name_id. cbn [app].
  rewrite (split_last_app underscore name id H). reflexivity.
Qed.

(** ** What the two loops put into the dictionaries *)

Lemma read_categories_entries (cats : list category_doc)
    (cursor : list category_doc) :
  (forall c, In c cursor -> In c cats) ->
  forall acc categories,
    (forall id v, In (id, v) acc ->
       exists c name, In c cats /\ cd_id c = id /\ cd_name c = Some name
                      /\ v = name_id name id) ->
    read_categories cursor acc = Some categories ->
    forall id v, In (id, v) categories ->
      exists c name, In c cats /\ cd_id c = id /\ cd_name c = Some name
                     /\ v = name_id name id.
Proof.
  induction cursor as [|c rest IH]; intros Hsub acc categories Hacc;
    cbn [read_categories].
  - intros H. injection H as <-. exact Hacc.
  - destruct (cd_name c) as [name|] eqn:Hname; [|discriminate].
    apply IH.
    + intros c' Hc'. apply Hsub. right. exact Hc'.
    + intros id v Hin. apply in_set in Hin. destruct Hin as [(-> & ->)|Hin].
      * exists c, name. repeat split; try assumption. apply Hsub. left.
        reflexivity.
      * apply Hacc, Hin.
Qed.

Lemma empty_topics_map_entries (names : list str) :
  forall acc key ts,
    In (key, ts) (fold_left (fun m name => set name (@nil str) m) names acc) ->
    (In key names /\ ts = []) \/ In (key, ts) acc.
Proof.
  induction names as [|n names IH]; intros acc key ts; cbn [fold_left].
  - intros H. right. exact H.
  - intros H. destruct (IH _ _ _ H) as [(Hin & Hts)|Hin].
    + left. split; [right; exact Hin | exact Hts].
    + apply in_set in Hin. destruct Hin as [(-> & ->)|Hin].
      * left. split; [left; reflexivity | reflexivity].
      * right. exact Hin.
Qed.

Lemma read_topics_entries (categories : sdict str) (topics : list topic_doc)
    (cursor : list topic_doc) :
  (forall t, In t cursor -> In t topics) ->
  forall m result,
    (forall key ts, In (key, ts) m -> topics_entry categories topics key ts) ->
    read_topics cursor categories m = Some result ->
    forall key ts, In (key, ts) result ->
      topics_entry categories topics key ts.
Proof.
  induction cursor as [|t rest IH]; intros Hsub m result Hm;
    cbn [read_topics].
  - intros H. injection H as <-. exact Hm.
  - assert (Hrest : forall t', In t' rest -> In t' topics)
      by (intros t' Ht'; apply Hsub; right; exact Ht').
    destruct (lookup (td_category t) categories) as [category_name|] eqn:Hcat;
      [|apply (IH Hrest m result Hm)].
    destruct (lookup category_name m) as [old|] eqn:Hold; [|discriminate].
    apply (IH Hrest). intros key ts Hin. apply in_set in Hin.
    destruct Hin as [(-> & ->)|Hin]; [|apply Hm, Hin].
    destruct (Hm _ _ (lookup_in _ _ _ Hold)) as (Hkey & Hts).
    split; [exact Hkey|]. apply Forall_app. split; [exact Hts|].
    constructor; [|constructor]. exists t.
    split; [apply Hsub; left; reflexivity|]. split; [reflexivity|].
    apply (lookup_in _ _ _ Hcat).
Qed.

(** Round trip of the keys.  Every key of the dictionary
    [get_categories_with_topics] returns is read back by [main], with
    [rsplit("_", 1)], as the name and the identity of one of the categories,
    whatever underscores the name holds; and every topic listed under the
    key is read back as the name (or [Unknown]) and the identity of a topic
    whose category is the identity read from the key.  The identities are
    taken without underscore, as the text of an [ObjectId] is. *)
Theorem category_keys_read_back (cats : list category_doc)
    (topics : list topic_doc) (key : str) (ts : list str) :
  Forall (fun c => no_underscore (cd_id c)) cats ->
  Forall (fun t => no_underscore (td_id t)) topics ->
  In (key, ts) (get_categories_with_topics (Some cats) (Some topics)) ->
  exists c name,
    In c cats /\ cd_name c = Some name
    /\ read_key key = Some (name, cd_id c)
    /\ Forall (fun tk => exists t,
                 In t topics /\ td_category t = cd_id c
                 /\ read_key tk = Some (topic_label t, td_id t)) ts.
Proof.
  intros Hcats Htopics. unfold get_categories_with_topics.
  destruct (read_categories cats []) as [categories|] eqn:Hrc;
    [|intros []].
  assert (Hcat : forall id v, In (id, v) categories ->
            exists c name, In c cats /\ cd_id c = id /\ cd_name c = Some name
                           /\ v = name_id name id).
  { apply (read_categories_entries cats cats (fun c H => H) [] categories);
      [intros id v [] | exact Hrc]. }
  destruct (read_topics topics categories (empty_topics_map categories))
    as [result|] eqn:Hrt; [|intros []].
  intros Hin.
  destruct (read_topics_entries categories topics topics (fun t H => H)
              (empty_topics_map categories) result) with (key := key) (ts := ts)
    as ((id & Hid) & Hts); [|exact Hrt|exact Hin|].
  { intros k l Hkl. unfold empty_topics_map in Hkl.
    apply empty_topics_map_entries in Hkl.
    destruct Hkl as [(Hk & ->)|[]].
    split; [|constructor]. unfold values in Hk. apply in_map_iff in Hk.
    destruct Hk as ([id0 v0] & Hv & Hk). cbn [snd] in Hv. subst v0.
    exists id0. exact Hk. }
  destruct (Hcat id key Hid) as (c & name & Hc & Hcid & Hname & Hkey).
  subst id. rewrite Forall_forall in Hcats. pose proof (Hcats c Hc) as Hnu.
  exists c, name. split; [exact Hc|]. split; [exact Hname|].
  assert (Hread : read_key key = Some (name, cd_id c)).
  { rewrite Hkey. apply (read_key_name_id name (cd_id c) Hnu). }
  split; [exact Hread|].
  apply (Forall_impl _ (P := fun tk => exists t,
                           In t topics /\ tk = topic_key t
                           /\ In (td_category t, key) categories));
    [|exact Hts].
  intros tk (t & Ht & -> & Htc). exists t. split; [exact Ht|].
  rewrite Forall_forall in Htopics. split.
  - destruct (Hcat _ _ Htc) as (c' & name' & Hc' & Hcid' & Hname' & Hkey').
    assert (Hread' : read_key key = Some (name', td_category t)).
    { rewrite Hkey'. apply read_key_name_id. rewrite <- Hcid'.
      apply (Hcats c' Hc'). }
    rewrite Hread in Hread'. injection Hread' as _ Heq. symmetry. exact Heq.
  - unfold topic_key. apply read_key_name_id, Htopics, Ht.
Qed.
Lemma category_keys_read_back_witness :
  exists c name,
    In c [politics_category] /\ cd_name c = Some name
    /\ read_key (lit "US_Politics_0123456789abcdef01234567")
       = Some (name, cd_id c)
    /\ Forall (fun tk => exists t,
                 In t [iran_topic] /\ td_category t = cd_id c
                 /\ read_key tk = Some (topic_label t, td_id t))
         [lit "Iran_89abcdef0123456789abcdef"].
Proof.
  apply (category_keys_read_back [politics_category] [iran_topic]
           (lit "US_Politics_0123456789abcdef01234567")
           [lit "Iran_89abcdef0123456789abcdef"]).
  - repeat constructor.
  - repeat constructor.
  - vm_compute. left. reflexivity.
Defined.

(* ================================================================== *)
(** * Fixtures *)
(* ================================================================== *)

Lemma organized_so_far_snoc (formatted : str -> option str)
    (fixtures : list (sport * fixture))
    (organized : list organized_event) (nulls : list null_team_entry)
    (category : sport) (event : fixture) :
  organized_so_far formatted fixtures organized nulls ->
  match organize_event formatted category event with
  | Some (inl o) =>
      organized_so_far formatted (fixtures ++ [(category, event)])
        (organized ++ [o]) nulls
  | Some (inr n) =>
      organized_so_far formatted (fixtures ++ [(category, event)])
        organized (nulls ++ [n])
  | None => formatted (fx_commence_time event) = None
  end.
Proof.
  intros (Ho & Hn & Hd & Hm & Hf). unfold organize_event.
  destruct (formatted (fx_commence_time event)) as [fd|] eqn:Hfd;
    [|reflexivity].
  assert (Hf' : Forall (fun cf => formatted (fx_commence_time (snd cf)) <> None)
                  (fixtures ++ [(category, event)])).
  { apply Forall_app. split; [exact Hf|]. constructor; [|constructor].
    cbn [snd]. rewrite Hfd. discriminate. }
  destruct (fx_home_team event) as [home|] eqn:Hh;
    [destruct (fx_away_team event) as [away|] eqn:Ha|].
  - unfold organized_so_far. rewrite !filter_app, !map_app.
    cbn [filter snd]. unfold has_teams. rewrite Hh, Ha. cbn [negb map].
    rewrite Ho, Hn, !app_nil_r.
    split; [reflexivity|]. split; [reflexivity|].
    split; [|split; assumption].
    apply Forall_app. split; [exact Hd|]. constructor; [reflexivity|constructor].
  - unfold organized_so_far. rewrite !filter_app, !map_app.
    cbn [filter snd]. unfold has_teams. rewrite Hh, Ha. cbn [negb map].
    rewrite Ho, Hn, !app_nil_r.
    split; [reflexivity|]. split; [reflexivity|].
    split; [exact Hd|]. split; [|exact Hf'].
    apply Forall_app. split; [exact Hm|].
    constructor; [right; reflexivity | constructor].
  - unfold organized_so_far. rewrite !filter_app, !map_app.
    cbn [filter snd]. unfold has_teams. rewrite Hh. cbn [negb map].
    rewrite Ho, Hn, !app_nil_r.
    split; [reflexivity|]. split; [reflexivity|].
    split; [exact Hd|]. split; [|exact Hf'].
    apply Forall_app. split; [exact Hm|].
    constructor; [left; reflexivity | constructor].
Qed.

Lemma organize_events_outcome (formatted : str -> option str)
    (category : sport) (events : list fixture) :
  forall fixtures organized nulls,
    organized_so_far formatted fixtures organized nulls ->
    organized_outcome formatted (fixtures ++ map (pair category) events)
      (organize_events formatted category events organized nulls).
Proof.
  induction events as [|event rest IH]; intros fixtures organized nulls Hinv;
    cbn [organize_events map].
  - rewrite app_nil_r. exact Hinv.
  - pose proof (organized_so_far_snoc formatted fixtures organized nulls
                  category event Hinv) as Hstep.
    replace (fixtures ++ (category, event) :: map (pair category) rest)
      with ((fixtures ++ [(category, event)]) ++ map (pair category) rest)
      by (rewrite <- app_assoc; reflexivity).
    destruct (organize_event formatted category event) as [[o|n]|].
    + apply IH, Hstep.
    + apply IH, Hstep.
    + exists (category, event). split; [|exact Hstep].
      apply in_or_app. left. apply in_or_app. right. left. reflexivity.
Qed.

Lemma organized_outcome_more (formatted : str -> option str)
    (fixtures more : list (sport * fixture)) :
  organized_outcome formatted fixtures None ->
  organized_outcome formatted (fixtures ++ more) None.
Proof.
  intros (cf & Hin & Hf). exists cf. split; [|exact Hf].
  apply in_or_app. left. exact Hin.
Qed.

Lemma organize_categories_outcome (formatted : str -> option str)
    (details : sdict sport_details) (sports : list sport) :
  forall fixtures organized nulls,
    organized_so_far formatted fixtures organized nulls ->
    organized_outcome formatted
      (fixtures ++ available_fixtures (SportsResults sports details))
      (organize_categories formatted sports details organized nulls).
Proof.
  unfold available_fixtures. cbn [categories SportsData.details].
  induction sports as [|category rest IH];
    intros fixtures organized nulls Hinv;
    cbn [organize_categories flat_map].
  - rewrite app_nil_r. exact Hinv.
  - destruct (lookup (sp_key category) details) as [[events|]|];
      try (cbn [app]; apply IH, Hinv).
    pose proof (organize_events_outcome formatted category events fixtures
                  organized nulls Hinv) as Hev.
    rewrite app_assoc.
    destruct (organize_events formatted category events organized nulls)
      as [[organized' nulls']|].
    + apply IH, Hev.
    + apply organized_outcome_more, Hev.
Qed.

(** [organize_sports_events] is a stable partition.  It goes through the
    fixtures of the sports whose details are a list, sport by sport.  When
    it returns, the first list holds exactly the fixtures with both teams
    and the second exactly the others, each fixture once and in that
    order; the description of a fixture of the first list is its home team,
    [vs], its away team; and the date of every fixture could be formatted.
    It raises exactly when the date of one of those fixtures cannot be
    formatted. *)
Theorem organize_sports_events_partitions (formatted : str -> option str)
    (results : sports_results) :
  match organize_sports_events formatted results with
  | Some (organized, nulls) =>
      map (fun o => (oe_key o, oe_event_id o)) organized
      = map fixture_ref
          (filter (fun cf => has_teams (snd cf)) (available_fixtures results))
      /\ map (fun n => (key (ne_event n), ne_event_id n)) nulls
         = map fixture_ref
             (filter (fun cf => negb (has_teams (snd cf)))
                (available_fixtures results))
      /\ Forall (fun o => oe_event_description o
                          = oe_home_team o ++ lit " vs " ++ oe_away_team o)
           organized
      /\ Forall (fun n => ne_home_team n = None \/ ne_away_team n = None)
           nulls
      /\ Forall (fun cf => formatted (fx_commence_time (snd cf)) <> None)
           (available_fixtures results)
  | None =>
      exists cf,
        In cf (available_fixtures results)
        /\ formatted (fx_commence_time (snd cf)) = None
  end.
Proof.
  pose proof (organize_categories_outcome formatted (details results)
                (categories results) [] [] []) as H.
  cbn [app] in H. destruct results as [sports dets]. cbn [categories details] in *.
  unfold organize_sports_events. cbn [categories details].
  apply H. unfold organized_so_far. cbn. repeat split; constructor.
Qed.
Lemma fetch_details_keys (api : odds_api) (all : list sport)
    (sports : list sport) :
  (forall c, In c sports -> In c all) ->
  forall n details,
    (forall k v, In (k, v) details ->
       exists c, In c all /\ sp_active c = true /\ sp_key c = k) ->
    forall k v, In (k, v) (fetch_details api sports n details) ->
      exists c, In c all /\ sp_active c = true /\ sp_key c = k.
Proof.
  induction sports as [|category rest IH]; intros Hsub n details Hd;
    cbn [fetch_details]; [exact Hd|].
  assert (Hrest : forall c, In c rest -> In c all)
    by (intros c Hc; apply Hsub; right; exact Hc).
  destruct (sp_active category) eqn:Hact; cbn [negb].
  - apply (IH Hrest). intros k v Hin. apply in_set in Hin.
    destruct Hin as [(-> & _)|Hin]; [|apply (Hd _ _ Hin)].
    exists category. split; [apply Hsub; left; reflexivity|].
    split; [exact Hact | reflexivity].
  - apply (IH Hrest n details Hd).
Qed.

Lemma available_fixture_listed (results : sports_results)
    (cf : sport * fixture) :
  In cf (available_fixtures results) ->
  exists v, In (sp_key (fst cf), v) (details results).
Proof.
  unfold available_fixtures. intros H. apply in_flat_map in H.
  destruct H as (category & _ & H).
  destruct (lookup (sp_key category) (details results)) as [[events|]|] eqn:Hl;
    try contradiction.
  apply in_map_iff in H. destruct H as (f & <- & _). cbn [fst].
  exists (DetailsEvents events). apply (lookup_in _ _ _ Hl).
Qed.

(** Only active sports give events.  When the fixtures fetched from the
    odds service are organized, every entry of the two lists carries the
    key of a sport that the service lists as active: a sport that is not
    active is never asked for its fixtures, and a sport whose fixtures
    could not be fetched gives none. *)
Theorem organized_events_come_from_active_sports (api : odds_api)
    (formatted : str -> option str) :
  match fetch_sports_data api with
  | Some results =>
      sports_answer api = Some (categories results)
      /\ match organize_sports_events formatted results with
         | Some (organized, nulls) =>
             Forall (fun o => exists c,
                       In c (categories results) /\ sp_active c = true
                       /\ sp_key c = oe_key o) organized
             /\ Forall (fun n => exists c,
                          In c (categories results) /\ sp_active c = true
                          /\ sp_key c = key (ne_event n)) nulls
         | None => True
         end
  | None => sports_answer api = None
  end.
Proof.
  unfold fetch_sports_data.
  destruct (sports_answer api) as [sports|]; [|reflexivity].
  split; [reflexivity|].
  set (results := SportsResults sports (fetch_details api sports 0 [])).
  assert (Hactive : forall cf,
            In cf (available_fixtures results) ->
            exists c, In c sports /\ sp_active c = true
                      /\ sp_key c = fst (fixture_ref cf)).
  { intros cf Hcf. destruct (available_fixture_listed results cf Hcf)
      as (v & Hv).
    cbn [fst fixture_ref].
    eapply (fetch_details_keys api sports sports (fun c H => H) 0 []);
      [|exact Hv].
    intros k v0 []. }
  pose proof (organize_categories_outcome formatted
                (fetch_details api sports 0 []) sports [] [] []) as H.
  cbn [app] in H. fold results in H.
  unfold organize_sports_events. cbn [categories details results].
  destruct (organize_categories formatted sports
              (fetch_details api sports 0 []) [] [])
    as [[organized nulls]|]; [|exact I].
  destruct H as (Ho & Hn & _).
  { unfold organized_so_far. cbn. repeat split; constructor. }
  split; apply Forall_forall.
  - intros o Hin.
    assert (Hin' : In (oe_key o, oe_event_id o)
                     (map (fun o => (oe_key o, oe_event_id o)) organized))
      by (apply in_map_iff; exists o; split; [reflexivity | exact Hin]).
    rewrite Ho in Hin'. apply in_map_iff in Hin'.
    destruct Hin' as (cf & Hcf & Hfil). apply filter_In in Hfil.
    destruct (Hactive cf (proj1 Hfil)) as (c & Hc & Hact & Hkey).
    exists c. split; [exact Hc|]. split; [exact Hact|].
    rewrite Hkey, Hcf. reflexivity.
  - intros n Hin.
    assert (Hin' : In (key (ne_event n), ne_event_id n)
                     (map (fun n => (key (ne_event n), ne_event_id n)) nulls))
      by (apply in_map_iff; exists n; split; [reflexivity | exact Hin]).
    rewrite Hn in Hin'. apply in_map_iff in Hin'.
    destruct Hin' as (cf & Hcf & Hfil). apply filter_In in Hfil.
    destruct (Hactive cf (proj1 Hfil)) as (c & Hc & Hact & Hkey).
    exists c. split; [exact Hc|]. split; [exact Hact|].
    rewrite Hkey, Hcf. reflexivity.
Qed.

(* ================================================================== *)
(** * Search sentences *)
(* ================================================================== *)

Lemma startswith_app (x b : str) : startswith x (x ++ b) = true.
Proof.
  induction x as [|c x IH]; cbn [startswith app]; [reflexivity|].
  unfold eqb_char. rewrite Ascii.eqb_refl. exact IH.
Qed.

Lemma find_from_occurrence (x a b : str) :
  forall i, (i <= find_from x (a ++ x ++ b) i)%Z.
Proof.
  induction a as [|c a IH]; intros i; cbn [app].
  - destruct (x ++ b) as [|y l] eqn:Hxb.
    + cbn [find_from]. destruct x; [cbn; lia | discriminate].
    + cbn [find_from]. rewrite <- Hxb, startswith_app. lia.
  - cbn [find_from].
    destruct (startswith x (c :: a ++ x ++ b)); [lia|].
    specialize (IH (i + 1)%Z). lia.
Qed.

Lemma contains_occurrence (x a b : str) : contains x (a ++ x ++ b) = true.
Proof.
  unfold contains, find. apply Z.leb_le. apply find_from_occurrence.
Qed.

Lemma lower_app (a b : str) : lower (a ++ b) = lower a ++ lower b.
Proof. unfold lower. apply map_app. Qed.

Lemma run_invoke_model (E : env) (s : state) :
  invoke_model E s
  = (match llm_script E (llm_calls s) with
     | Content c => Returned c
     | _ => Raised ClientError
     end, asked s).
Proof.
  unfold invoke_model. rewrite run_bind, run_ask_model.
  destruct (llm_script E (llm_calls s)); reflexivity.
Qed.

(** [generate_search_sentence] names the category.  Whenever it returns,
    the query holds the name of the category, letter case apart: the
    answer of the model is kept when it holds it, and is replaced by the
    topic, the category and one more word when it does not.  It asks the
    model exactly once, and raises exactly when the model gives no
    text. *)
Theorem generate_search_sentence_names_category (E : env)
    (category topic : str) (s : state) :
  match fst (generate_search_sentence E category topic s) with
  | Returned query =>
      contains (lower category) (lower query) = true
      /\ exists text, llm_script E (llm_calls s) = Content (Some text)
  | Raised _ =>
      forall text, llm_script E (llm_calls s) <> Content (Some text)
  end
  /\ snd (generate_search_sentence E category topic s) = asked s.
Proof.
  unfold generate_search_sentence.
  rewrite run_bind, run_invoke_model.
  destruct (llm_script E (llm_calls s)) as [| |[text|]];
    try (split; [intros text; discriminate | reflexivity]).
  cbv beta iota. rewrite run_bind.
  change (content_strip (Some text) (asked s))
    with (Returned (strip text), asked s).
  cbv beta iota.
  set (query := strip (replace_with_empty [dquote] (strip text))).
  destruct (contains (lower category) (lower query)) eqn:Hc; cbn [negb].
  - split; [|reflexivity]. cbn [fst ret]. split; [exact Hc|].
    exists text. reflexivity.
  - split; [|reflexivity]. cbn [fst ret]. split; [|exists text; reflexivity].
    rewrite !lower_app.
    rewrite (app_assoc (lower topic) (lower [space])).
    apply contains_occurrence.
Qed.

(* ================================================================== *)
(** * The text of the rules *)
(* ================================================================== *)

(** ** The pattern of two stars *)

Lemma match_here_bold (bef aft : str) :
  match_here false bold_re bef aft
  = match aft with
    | c :: d :: rest =>
        if eqb_char star c && eqb_char star d
        then Some (MState (d :: c :: bef) rest [])
        else None
    | _ => None
    end.
Proof.
  unfold match_here, bold_re. cbn [rmatch repeat_n after].
  destruct aft as [|c [|d rest]]; cbn [cset_match lit_match step before caps after].
  - reflexivity.
  - change (eqb_char "*" c) with (eqb_char star c).
    destruct (eqb_char star c); reflexivity.
  - change (eqb_char "*" c) with (eqb_char star c).
    change (eqb_char "*" d) with (eqb_char star d).
    destruct (eqb_char star c); [|reflexivity].
    destruct (eqb_char star d); reflexivity.
Qed.

Lemma unbold_step (c : ascii) (s : str) :
  match_here false bold_re [] (c :: s) = None ->
  unbold (c :: s) = c :: unbold s.
Proof.
  rewrite match_here_bold. destruct s as [|d rest]; [reflexivity|].
  cbn [unbold]. destruct (eqb_char star c && eqb_char star d);
    [discriminate | reflexivity].
Qed.

Lemma match_here_bold_before (bef bef' aft : str) :
  match_here false bold_re bef aft = None ->
  match_here false bold_re bef' aft = None.
Proof.
  rewrite !match_here_bold. destruct aft as [|c [|d rest]]; try reflexivity.
  destruct (eqb_char star c && eqb_char star d); [discriminate | reflexivity].
Qed.

(** The leftmost pair of stars, when there is one. *)
Lemma scan_bold (aft : str) :
  forall skipped bef,
    match scan false bold_re skipped bef aft with
    | None => unbold aft = aft
    | Some m =>
        exists pre,
          m_skipped m = rev skipped ++ pre
          /\ m_text m <> []
          /\ unbold aft = pre ++ unbold (after (m_end m))
          /\ length (after (m_end m)) < length aft
    end.
Proof.
  induction aft as [|c aft IH]; intros skipped bef.
  - cbn [scan]. rewrite match_here_bold. reflexivity.
  - cbn [scan]. destruct (match_here false bold_re bef (c :: aft))
      as [st|] eqn:Hm.
    + rewrite match_here_bold in Hm. destruct aft as [|d rest]; [discriminate|].
      destruct (eqb_char star c && eqb_char star d) eqn:Hcd; [|discriminate].
      assert (Hst : st = MState (d :: c :: bef) rest []) by congruence.
      subst st. exists []. rewrite app_nil_r.
      split; [reflexivity|].
      split.
      { cbn [m_text]. unfold consumed. cbn [after].
        replace (length (c :: d :: rest) - length rest) with 2
          by (cbn [length]; lia).
        cbn [firstn]. discriminate. }
      cbn [unbold m_end after app length]. rewrite Hcd.
      split; [reflexivity | lia].
    + pose proof (unbold_step c aft (match_here_bold_before bef [] _ Hm))
        as Hstep.
      specialize (IH (c :: skipped) (c :: bef)).
      destruct (scan false bold_re (c :: skipped) (c :: bef) aft) as [m|].
      * destruct IH as (pre & Hsk & Htx & Hun & Hlen).
        exists (c :: pre). cbn [rev] in Hsk. rewrite <- app_assoc in Hsk.
        split; [exact Hsk|]. split; [exact Htx|].
        split; [rewrite Hstep, Hun; reflexivity | cbn [length]; lia].
      * rewrite Hstep, IH. reflexivity.
Qed.

(** [re.sub] of the pattern of two stars takes the pairs out from the
    left. *)
Lemma remove_bold (fuel : nat) :
  forall bef aft,
    length aft < fuel -> Re.remove_from false bold_re fuel bef aft = unbold aft.
Proof.
  induction fuel as [|n IH]; intros bef aft Hlen; [lia|].
  cbn [Re.remove_from]. pose proof (scan_bold aft [] bef) as Hs.
  destruct (scan false bold_re [] bef aft) as [m|]; [|symmetry; exact Hs].
  destruct Hs as (pre & Hsk & Htx & Hun & Hl). cbn [rev app] in Hsk.
  destruct (m_text m) as [|x xs]; [contradiction|].
  rewrite IH by lia. rewrite Hsk, Hun. reflexivity.
Qed.

Lemma sub_empty_bold (s : str) : sub_empty false bold_re s = unbold s.
Proof. unfold sub_empty. apply remove_bold. lia. Qed.

(** ** No pair of stars is left *)

Lemma unbold_keeps_other (x : ascii) (s : str) :
  eqb_char star x = false -> unbold (x :: s) = x :: unbold s.
Proof.
  intros Hx. destruct s as [|d rest]; [reflexivity|].
  cbn [unbold]. rewrite Hx. reflexivity.
Qed.

Lemma unbold_two (c d : ascii) (rest : str) :
  unbold (c :: d :: rest)
  = if eqb_char star c && eqb_char star d then unbold rest
    else c :: unbold (d :: rest).
Proof. reflexivity. Qed.

Lemma unbold_no_adjacent_stars (n : nat) :
  forall s, length s <= n -> adjacent_stars (unbold s) = false.
Proof.
  induction n as [|n IH]; intros s Hlen.
  - destruct s; [reflexivity | cbn in Hlen; lia].
  - destruct s as [|c [|d rest]]; try reflexivity.
    + cbn. rewrite andb_false_r. reflexivity.
    + rewrite unbold_two. cbn [length] in Hlen.
      destruct (eqb_char star c && eqb_char star d) eqn:Hcd.
      * apply IH. lia.
      * cbn [adjacent_stars].
        rewrite (IH (d :: rest)) by (cbn [length]; lia).
        rewrite orb_false_r.
        destruct (eqb_char star c) eqn:Hc; [|reflexivity].
        cbn [andb] in *.
        rewrite (unbold_keeps_other d rest Hcd). exact Hcd.
Qed.

Lemma adjacent_stars_tail (c : ascii) (s : str) :
  adjacent_stars (c :: s) = false -> adjacent_stars s = false.
Proof. cbn [adjacent_stars]. intros H. apply orb_false_elim in H. apply H. Qed.

Lemma adjacent_stars_prefix (p t : str) :
  adjacent_stars (p ++ t) = false -> adjacent_stars p = false.
Proof.
  induction p as [|c p IH]; intros H; [reflexivity|].
  cbn [app adjacent_stars] in *. apply orb_false_elim in H.
  destruct H as [Hc Hp]. rewrite (IH Hp), orb_false_r.
  destruct (eqb_char star c); [|reflexivity]. cbn [andb] in *.
  destruct p as [|d p]; [reflexivity | exact Hc].
Qed.

Lemma lstrip_suffix (s : str) : exists w, s = w ++ lstrip s.
Proof.
  induction s as [|c s (w & IH)]; [exists []; reflexivity|].
  cbn [lstrip]. destruct (isspace c).
  - exists (c :: w). cbn [app]. rewrite <- IH. reflexivity.
  - exists []. reflexivity.
Qed.

Lemma adjacent_stars_suffix (w s : str) :
  adjacent_stars (w ++ s) = false -> adjacent_stars s = false.
Proof.
  induction w as [|c w IH]; intros H; [exact H|].
  apply IH. apply (adjacent_stars_tail c). exact H.
Qed.

Lemma strip_no_adjacent_stars (s : str) :
  adjacent_stars s = false -> adjacent_stars (strip s) = false.
Proof.
  intros H. unfold strip, rstrip.
  destruct (lstrip_suffix s) as (w & Hw).
  assert (Hl : adjacent_stars (lstrip s) = false).
  { apply (adjacent_stars_suffix w). rewrite <- Hw. exact H. }
  destruct (lstrip_suffix (rev (lstrip s))) as (v & Hv).
  apply (adjacent_stars_prefix _ (rev v)).
  rewrite <- rev_app_distr, <- Hv, rev_involutive. exact Hl.
Qed.

Lemma contains_stars (s : str) :
  contains (lit "**") s = adjacent_stars s.
Proof.
  unfold contains, find.
  assert (H : forall i, (0 <= i)%Z ->
            (0 <=? find_from (lit "**") s i)%Z = adjacent_stars s).
  { induction s as [|c s IH]; intros i Hi.
    - reflexivity.
    - cbn [find_from adjacent_stars].
      change (startswith (lit "**") (c :: s))
        with (eqb_char star c
              && match s with
                 | d :: s' => eqb_char star d && true
                 | [] => false
                 end).
      destruct (eqb_char star c); cbn [andb orb];
        [|apply IH; lia].
      destruct s as [|d s']; [apply IH; lia|].
      rewrite andb_true_r. destruct (eqb_char star d); cbn [orb].
      + apply Z.leb_le. exact Hi.
      + apply IH. lia. }
  apply H. lia.
Qed.

Lemma clean_rules_clean (content : option str) :
  strip (clean_rules content) = clean_rules content
  /\ contains (lit "**") (clean_rules content) = false.
Proof.
  unfold clean_rules. split; [apply strip_idempotent|].
  rewrite contains_stars, sub_empty_bold.
  apply strip_no_adjacent_stars, strip_no_adjacent_stars.
  apply (unbold_no_adjacent_stars _ _ (Nat.le_refl _)).
Qed.

Lemma generate_rules_attempt_returned (E : env) (max_retries delay i : Z)
    (s : state) (v : option str) (s' : state) :
  generate_rules_attempt E max_retries delay i s = (Returned (Some v), s') ->
  match v with
  | Some text =>
      truthy text = true /\ strip text = text
      /\ contains (lit "**") text = false
  | None => True
  end.
Proof.
  unfold generate_rules_attempt. rewrite run_bind, run_ask_model.
  destruct (llm_script E (llm_calls s)) as [| |c];
    try (rewrite sleep_unless_last_then_none; discriminate).
  destruct (truthy (clean_rules c)) eqn:Ht; unfold ret; intros H;
    injection H as <- _; [|exact I].
  split; [exact Ht | apply clean_rules_clean].
Qed.

(** The text of the rules is clean.  [generate_rules] never raises, and
    what it returns is [None] or a text that is not empty, has no
    whitespace at either end, and holds no bold marker (two stars in a
    row). *)
Theorem generate_rules_result_clean (E : env) (max_retries delay : Z)
    (s : state) :
  exists r s',
    generate_rules E max_retries delay s = (Returned r, s')
    /\ match r with
       | Some text =>
           truthy text = true /\ strip text = text
           /\ contains (lit "**") text = false
       | None => True
       end.
Proof.
  destruct (returns_generate_rules E max_retries delay s) as (r & Hr).
  destruct (generate_rules E max_retries delay s) as [r0 s'] eqn:Hrun.
  cbn [fst] in Hr. subst r0. exists r, s'. split; [reflexivity|].
  unfold generate_rules in Hrun. rewrite run_bind in Hrun.
  destruct (for_range (generate_rules_attempt E max_retries delay)
              (range_len max_retries) 0%Z s) as [[[v|]|e] s1] eqn:Hloop;
    unfold ret in Hrun; [| |discriminate]; injection Hrun as <- <-;
    [|exact I].
  apply (for_range_returned (generate_rules_attempt E max_retries delay)
           (fun v => match v with
                     | Some text =>
                         truthy text = true /\ strip text = text
                         /\ contains (lit "**") text = false
                     | None => True
                     end)
           (generate_rules_attempt_returned E max_retries delay)
           _ _ _ _ _ Hloop).
Qed.

(* ================================================================== *)
(** * The search service *)
(* ================================================================== *)

Import GoogleSearch.

(** ** Image search *)

Lemma check_items_outcome (api : image_api) (items : list (option str)) :
  forall s,
    gets (snd (check_items api items s)) = gets s
    /\ pauses (snd (check_items api items s)) = pauses s
    /\ match fst (check_items api items s) with
       | Found link => checked_link api link (snd (check_items api items s))
       | _ => True
       end.
Proof.
  induction items as [|[link|] rest IH]; intros s; cbn [check_items].
  - repeat split.
  - destruct (negb (truthy link) || contains INSTAGRAM (lower link)) eqn:Hl;
      [apply IH|].
    apply orb_false_elim in Hl. destruct Hl as [Ht Hi].
    apply negb_false_iff in Ht.
    set (s' := Net (gets s) (heads s ++ [link]) (pauses s)).
    destruct (head_answers api (length (heads s))) as [status| |] eqn:Hh.
    + destruct (status =? 200)%Z eqn:Hs.
      * cbn [fst snd]. split; [reflexivity|]. split; [reflexivity|].
        apply Z.eqb_eq in Hs. subst status.
        split; [exact Ht|]. split; [exact Hi|].
        exists (heads s). split; [reflexivity | exact Hh].
      * apply (IH s').
    + apply (IH s').
    + cbn [fst snd]. repeat split.
  - apply IH.
Qed.

Lemma search_image_attempts_outcome (api : image_api)
    (max_retries retry_delay : Z) (n : nat) :
  forall attempt s,
    gets (snd (search_image_attempts api max_retries retry_delay n attempt s))
    <= gets s + n
    /\ match fst (search_image_attempts api max_retries retry_delay n
                    attempt s) with
       | Some link =>
           checked_link api link
             (snd (search_image_attempts api max_retries retry_delay n
                     attempt s))
       | None => True
       end.
Proof.
  induction n as [|n IH]; intros attempt s; cbn [search_image_attempts].
  - cbn. split; [lia | exact I].
  - set (s1 := Net (S (gets s)) (heads s) (pauses s)).
    destruct (get_answer api (gets s)) as [items|status|].
    + destruct (check_items_outcome api items s1) as (Hg & _ & Hf).
      destruct (check_items api items s1) as [[link| |] s2];
        cbn [fst snd] in *.
      * split; [rewrite Hg; unfold s1; cbn [gets]; lia | exact Hf].
      * match goal with
        | |- context [search_image_attempts _ _ _ n _ ?s3] =>
            destruct (IH (attempt + 1)%Z s3) as (H1 & H2);
            assert (Hs3 : gets s3 = gets s2)
              by (destruct (attempt <? max_retries)%Z; reflexivity)
        end.
        split; [unfold s1 in *; cbn [gets] in *; lia | exact H2].
      * match goal with
        | |- context [search_image_attempts _ _ _ n _ ?s3] =>
            destruct (IH (attempt + 1)%Z s3) as (H1 & H2);
            assert (Hs3 : gets s3 = gets s2)
              by (destruct (attempt <? max_retries)%Z; reflexivity)
        end.
        split; [unfold s1 in *; cbn [gets] in *; lia | exact H2].
    + match goal with
      | |- context [search_image_attempts _ _ _ n _ ?s3] =>
          destruct (IH (attempt + 1)%Z s3) as (H1 & H2);
          assert (Hs3 : gets s3 = gets s1)
            by (destruct (attempt <? max_retries)%Z; reflexivity)
      end.
      split; [unfold s1 in *; cbn [gets] in *; lia | exact H2].
    + match goal with
      | |- context [search_image_attempts _ _ _ n _ ?s3] =>
          destruct (IH (attempt + 1)%Z s3) as (H1 & H2);
          assert (Hs3 : gets s3 = gets s1)
            by (destruct (attempt <? max_retries)%Z; reflexivity)
      end.
      split; [unfold s1 in *; cbn [gets] in *; lia | exact H2].
Qed.

(** [search_image] only returns a link it has checked.  The link it
    returns is not empty, does not hold the word instagram in any letter
    case, and is the last one whose [HEAD] request was made, which answered
    200.  Whatever the service answers, at most [max_retries] search
    requests are made. *)
Theorem search_image_returns_checked_link (api : image_api) (query : str)
    (max_retries retry_delay : Z) (s : net) :
  (Z.of_nat (gets (snd (search_image api query max_retries retry_delay s)))
   <= Z.of_nat (gets s) + Z.max 0 max_retries)%Z
  /\ match fst (search_image api query max_retries retry_delay s) with
     | Some link =>
         checked_link api link
           (snd (search_image api query max_retries retry_delay s))
     | None => True
     end.
Proof.
  unfold search_image.
  destruct (search_image_attempts_outcome api max_retries retry_delay
              (Z.to_nat (max_retries + 1 - 1)) 1%Z s) as (H1 & H2).
  split; [lia | exact H2].
Qed.

(** ** Text search *)

Lemma take_items_bound (api : text_api) (desired : Z)
    (items : list search_item) :
  forall results s results' s',
    take_items api desired items results s = Some (results', s') ->
    (Z.of_nat (length results) <= Z.max 0 desired)%Z ->
    (Z.of_nat (length results') <= Z.max 0 desired)%Z
    /\ starts s' = starts s.
Proof.
  induction items as [|item rest IH]; intros results s results' s';
    cbn [take_items].
  - intros H Hb. injection H as <- <-. split; [exact Hb | reflexivity].
  - destruct (desired <=? Z.of_nat (length results))%Z eqn:Hd.
    + intros H Hb. injection H as <- <-. split; [exact Hb | reflexivity].
    + destruct (row_of api item s) as [[r s1]|] eqn:Hr; [|discriminate].
      intros H Hb. apply Z.leb_gt in Hd.
      destruct (IH _ _ _ _ H) as (H1 & H2).
      * rewrite length_app. cbn [length]. lia.
      * split; [exact H1|]. rewrite H2.
        unfold row_of in Hr.
        destruct (match it_metatags item with
                  | None => Some (Metatag None None)
                  | Some [] => None
                  | Some (m :: _) => Some m
                  end) as [m|]; [|discriminate].
        injection Hr as _ <-.
        match goal with
        | |- context [if ?b then _ else _] => destruct b
        end; reflexivity.
Qed.

Lemma search_batches_bound (api : text_api)
    (results_per_request num_batches desired delay : Z) (n : nat) :
  forall batch results s results' s',
    search_batches api results_per_request num_batches desired delay n batch
      results s = Some (results', s') ->
    (Z.of_nat (length results) <= Z.max 0 desired)%Z ->
    (Z.of_nat (length results') <= Z.max 0 desired)%Z
    /\ exists new,
         starts s' = starts s ++ new
         /\ length new <= n
         /\ forall k, k < length new ->
              nth k new 0%Z
              = ((batch + Z.of_nat k) * results_per_request + 1)%Z.
Proof.
  induction n as [|n IH]; intros batch results s results' s';
    cbn [search_batches].
  - intros H Hb. injection H as <- <-. split; [exact Hb|].
    exists []. rewrite app_nil_r. cbn. repeat split; intros; lia.
  - destruct (desired <=? Z.of_nat (length results))%Z eqn:Hd.
    { intros H Hb. injection H as <- <-. split; [exact Hb|].
      exists []. rewrite app_nil_r. cbn. repeat split; intros; lia. }
    set (s1 := TextNet (starts s ++ [(batch * results_per_request + 1)%Z])
                 (dated s) (waits s)).
    destruct (match fetch_answer api (length (starts s)) with
              | Some items => take_items api desired items results s1
              | None => Some (results, s1)
              end) as [[results1 s2]|] eqn:Hf; [|discriminate].
    intros H Hb.
    assert (Hstep : (Z.of_nat (length results1) <= Z.max 0 desired)%Z
                    /\ starts s2 = starts s1).
    { destruct (fetch_answer api (length (starts s))) as [items|].
      - apply (take_items_bound api desired items results s1 results1 s2 Hf Hb).
      - injection Hf as <- <-. split; [exact Hb | reflexivity]. }
    destruct Hstep as (Hb1 & Hs2).
    destruct (IH _ _ _ _ _ H Hb1) as (Hb' & new & Hnew & Hlen & Hnth).
    split; [exact Hb'|].
    exists ((batch * results_per_request + 1)%Z :: new).
    split.
    { rewrite Hnew.
      match goal with
      | |- starts (if ?b then _ else _) ++ _ = _ => destruct b
      end; cbn [starts]; rewrite Hs2; unfold s1; cbn [starts];
        rewrite <- app_assoc; reflexivity. }
    split; [cbn [length]; lia|].
    intros [|k] Hk; cbn [nth].
    + f_equal. f_equal. lia.
    + cbn [length] in Hk. rewrite (Hnth k) by lia. f_equal. f_equal. lia.
Qed.

(** [search] keeps to its limits.  When it returns, the data frame has at
    most [desired_recent_results] rows, at most [max_results //
    results_per_request] requests were made, and the [k]-th of them asked
    for the results from [k * results_per_request + 1] on.  It does not
    return when [results_per_request] is zero: the division raises. *)
Theorem search_keeps_to_its_limits (api : text_api) (category : str)
    (results_per_request max_results desired_recent_results delay : Z)
    (s : text_net) :
  match search api category results_per_request max_results
          desired_recent_results delay s with
  | Some (rows, s') =>
      results_per_request <> 0%Z
      /\ (Z.of_nat (length rows) <= Z.max 0 desired_recent_results)%Z
      /\ exists new,
           starts s' = starts s ++ new
           /\ (Z.of_nat (length new)
               <= Z.max 0 (max_results / results_per_request))%Z
           /\ forall k, k < length new ->
                nth k new 0%Z = (Z.of_nat k * results_per_request + 1)%Z
  | None => True
  end.
Proof.
  unfold search.
  destruct (results_per_request =? 0)%Z eqn:Hz; [exact I|].
  apply Z.eqb_neq in Hz.
  destruct (search_batches api results_per_request
              (max_results / results_per_request) desired_recent_results
              delay (Z.to_nat (max_results / results_per_request)) 0%Z [] s)
    as [[rows s']|] eqn:Hrun; [|exact I].
  destruct (search_batches_bound _ _ _ _ _ _ _ _ _ _ _ Hrun)
    as (Hb & new & Hnew & Hlen & Hnth); [cbn; lia|].
  split; [exact Hz|]. split; [exact Hb|].
  exists new. split; [exact Hnew|]. split; [lia|].
  intros k Hk. rewrite (Hnth k Hk). f_equal.
Qed.

(* ================================================================== *)
(** * The fan-out, step by step *)
(* ================================================================== *)

(** [save_event], by the next answer of the store. *)
Lemma save_event_exact (E : env) (doc : EventData) (s : state) :
  save_event E doc s
  = (match inserted_id (db_script E (db_calls s)) with
     | Some id => Returned (success_response id)
     | None => Raised RuntimeError
     end,
     stored (insert_events (db_script E (db_calls s)) doc) s).
Proof.
  rewrite save_event_run. unfold inserted_id, insert_events.
  destruct (ans_coll (db_script E (db_calls s))); try reflexivity.
  destruct (ans_insert (db_script E (db_calls s))); reflexivity.
Qed.

Lemma EventData_init_title (E : env) (ch sp : bool) (sk : option str)
    (cat top : option ObjectId) (ho : bool) (t : option str)
    (ed : end_date_arg) (desc rl : option str) (py pn : option Z)
    (img link : option str) (doc : EventData) :
  EventData_init E ch sp sk cat top ho t ed desc rl py pn img link
  = Returned doc ->
  t = Some (title doc).
Proof.
  unfold EventData_init. destruct t as [t|]; [|discriminate].
  destruct desc as [d|]; [|discriminate].
  destruct ed as [|dt|str]; try destruct (coerce_datetime E str);
    intros H; try discriminate; injection H as <-; reflexivity.
Qed.

(** The two builders of child records need a title and nothing else; the
    one of the sports path once the parent was built from the same
    description and date. *)
Lemma regular_child_by_title (E : env) (event : regular_event)
    (end_date description : str) :
  builds_by_title (regular_child E event end_date description).
Proof.
  split.
  - intros opt r i. reflexivity.
  - intros opt t r i.
    destruct (regular_child_builds_titled E event end_date description
                opt t r i) as (doc & Hdoc).
    exists doc. split; [exact Hdoc|]. split.
    + apply (regular_child_builds E event end_date description _ _ _ _ _ Hdoc).
    + unfold regular_child in Hdoc. apply EventData_init_title in Hdoc.
      congruence.
Qed.

Lemma null_team_child_by_title (E : env) (event : null_team_event)
    (category_id : option ObjectId) (gq desc rl img : option str)
    (parent : EventData) :
  EventData_init E false true (Some (key event)) category_id None true gq
    (match formatted_date event with
     | Some d => EndStr d | None => EndNone end)
    desc rl None None img None = Returned parent ->
  builds_by_title (null_team_child E event category_id desc).
Proof.
  intros Hparent. split.
  - intros opt r i. reflexivity.
  - intros opt t r i.
    assert (Hb : exists doc,
               null_team_child E event category_id desc opt (Some t) r i
               = Returned doc).
    { unfold null_team_child. unfold EventData_init in *.
      destruct gq as [q|]; [|discriminate].
      destruct desc as [d|]; [|discriminate].
      destruct (formatted_date event) as [fd|].
      - destruct (coerce_datetime E fd); [|discriminate].
        eexists. reflexivity.
      - eexists. reflexivity. }
    destruct Hb as (doc & Hdoc). exists doc. split; [exact Hdoc|]. split.
    + apply (null_team_child_builds E event category_id desc _ _ _ _ _ Hdoc).
    + unfold null_team_child in Hdoc. apply EventData_init_title in Hdoc.
      congruence.
Qed.

(** One option, exactly. *)
Lemma process_option_exact (E : env) (question : str)
    (build_child : option_entry -> option str -> option str -> option str ->
                   result EventData)
    (opt : option_entry) (s : state) :
  builds_by_title build_child ->
  exists title s0 r s1 evs,
    default_followup E question (opt_name opt) s = (Returned title, s0)
    /\ process_option E question build_child opt s = (Returned r, s1)
    /\ db_log s1 = db_log s ++ evs
    /\ option_outcome E opt s title evs r.
Proof.
  intros (Hnone & Hsome).
  destruct (quiet_default_followup E question (opt_name opt) s)
    as (t & s1 & H1 & (Hc1 & Hd1 & _)).
  destruct (quiet_fetch_image E (opt_name opt) s1)
    as (img & s2 & H2 & (Hc2 & Hd2 & _)).
  destruct (quiet_default_rules E s2) as (rl & s3 & H3 & (Hc3 & Hd3 & _)).
  assert (Hd : db_log s3 = db_log s) by congruence.
  assert (Hc : db_calls s3 = db_calls s) by congruence.
  exists t, s1.
  unfold process_option, try_except.
  rewrite run_bind, H1. cbv beta iota.
  rewrite run_bind, H2. cbv beta iota.
  rewrite run_bind, H3. cbv beta iota.
  rewrite run_bind. unfold lift at 1.
  destruct t as [t|].
  - destruct (Hsome opt t rl img) as (doc & Hdoc & Hrec & Htitle).
    rewrite Hdoc. cbv beta iota. rewrite run_bind, save_event_exact, Hc.
    pose proof (@option_titled E opt s t doc Hrec Htitle) as Ho.
    destruct (inserted_id (db_script E (db_calls s))) as [id|].
    + cbv beta iota. cbn [dict_truthy success_response].
      rewrite run_bind, inserted_id_of_success. cbv beta iota.
      rewrite run_bind, run_log. cbv beta iota.
      eexists. eexists. eexists. split; [reflexivity|].
      split; [reflexivity|]. split; [cbn; rewrite Hd; reflexivity|].
      exact Ho.
    + rewrite run_bind, run_log. cbv beta iota.
      eexists. eexists. eexists. split; [reflexivity|].
      split; [reflexivity|]. split; [cbn; rewrite Hd; reflexivity|].
      exact Ho.
  - pose proof (Hnone opt rl img) as Hr.
    destruct (build_child opt None rl img) as [doc|e]; [discriminate|].
    rewrite run_bind, run_log. cbv beta iota.
    exists None. eexists. exists []. split; [reflexivity|].
    split; [reflexivity|]. split; [cbn; rewrite app_nil_r; exact Hd|].
    constructor.
Qed.

(** The loop over the options, exactly. *)
Lemma save_children_exact (E : env) (question : str)
    (build_child : option_entry -> option str -> option str -> option str ->
                   result EventData)
    (options : list option_entry) :
  builds_by_title build_child ->
  forall updated processed s,
  exists new processed' s' evs,
    save_children E question build_child options updated processed s
    = (Returned (updated ++ new, processed'), s')
    /\ db_log s' = db_log s ++ evs
    /\ children_run E question build_child options s evs new s'.
Proof.
  intros Hb. induction options as [|opt rest IH]; intros updated processed s;
    cbn [save_children].
  - exists [], processed, s, []. rewrite !app_nil_r.
    split; [reflexivity|]. split; [reflexivity | constructor].
  - destruct (process_option_exact E question build_child opt s Hb)
      as (t & s0 & r & s1 & evs1 & Hf & Hrun & Hlog & Hout).
    rewrite run_bind, Hrun. destruct r as [od|].
    + destruct (IH (updated ++ [od]) (processed + 1)%Z s1)
        as (new & p' & s' & evs & Hrun' & Hlog' & Hch).
      exists (od :: new), p', s', (evs1 ++ evs). rewrite Hrun'.
      split; [rewrite <- app_assoc; reflexivity|].
      split; [rewrite Hlog', Hlog, app_assoc; reflexivity|].
      apply (@children_run_cons E question build_child opt rest s t s0 evs1 _ s1 evs _ s' Hf Hout Hrun Hch).
    + destruct (IH updated processed s1)
        as (new & p' & s' & evs & Hrun' & Hlog' & Hch).
      exists new, p', s', (evs1 ++ evs). rewrite Hrun'.
      split; [reflexivity|].
      split; [rewrite Hlog', Hlog, app_assoc; reflexivity|].
      apply (@children_run_cons E question build_child opt rest s t s0 evs1 _ s1 evs _ s' Hf Hout Hrun Hch).
Qed.

(** The final patch, exactly. *)
Lemma patch_parent_exact (E : env) (pid : ObjectId)
    (updated : list OptionData) (s : state) :
  exists r s',
    patch_parent E pid updated s = (Returned r, s')
    /\ db_log s' = db_log s ++ patch_log (db_script E (db_calls s)) pid updated.
Proof.
  unfold patch_parent, patch_log. destruct updated as [|od ods].
  - exists None, s. rewrite app_nil_r. split; reflexivity.
  - unfold try_except. rewrite run_bind, get_event_collection_run.
    destruct (ans_coll (db_script E (db_calls s))) eqn:Hc.
    + rewrite run_bind, run_log. cbv beta iota.
      eexists. eexists. split; reflexivity.
    + cbv beta iota. unfold raise at 1. rewrite run_bind, run_log.
      cbv beta iota. eexists. eexists. split; reflexivity.
    + cbv beta iota. rewrite run_bind. unfold update_one at 1.
      destruct (ans_update (db_script E (db_calls s))) as [n|] eqn:Hu.
      * destruct (0 <? n)%Z; rewrite run_bind, run_log; cbv beta iota;
          eexists; eexists;
          (split; [reflexivity | cbn; rewrite <- app_assoc; reflexivity]).
      * rewrite run_bind, run_log. cbv beta iota.
        eexists. eexists.
        split; [reflexivity | cbn; rewrite <- app_assoc; reflexivity].
Qed.

(** After a saved parent, exactly. *)
Lemma children_and_patch_exact (E : env) (question : str)
    (build_child : option_entry -> option str -> option str -> option str ->
                   result EventData)
    (pid : ObjectId) (options : list option_entry) (s : state) :
  builds_by_title build_child ->
  exists b s' fevs,
    children_and_patch E question build_child pid options s = (Returned b, s')
    /\ db_log s' = db_log s ++ fevs
    /\ fan_out_run E question build_child pid options s fevs.
Proof.
  intros Hb. unfold children_and_patch.
  destruct (save_children_exact E question build_child options Hb [] 0%Z s)
    as (new & p' & s1 & cevs & Hrun & Hlog & Hch).
  cbn [app] in Hrun. rewrite run_bind, Hrun. cbv beta iota.
  destruct (patch_parent_exact E pid new s1) as (r & s2 & Hrun' & Hlog').
  rewrite run_bind, Hrun'.
  assert (Hfan : fan_out_run E question build_child pid options s
                   (cevs ++ patch_log (db_script E (db_calls s1)) pid new)).
  { exists cevs, new, s1. split; [exact Hch | reflexivity]. }
  destruct r as [b|].
  - exists b, s2. eexists. split; [reflexivity|].
    split; [rewrite Hlog', Hlog, <- app_assoc; reflexivity | exact Hfan].
  - rewrite run_bind, run_log. cbv beta iota.
    eexists. eexists. eexists. split; [reflexivity|].
    split; [cbn; rewrite Hlog', Hlog, <- app_assoc; reflexivity | exact Hfan].
Qed.

(** A whole item of the scraped-content path, exactly. *)
Lemma save_multi_option_event_exact (E : env) (event : regular_event)
    (question : str) (options : list option_entry)
    (end_date description : str) (s : state) :
  exists rl s1 img s2 parent b s' evs,
    default_rules E s = (Returned rl, s1)
    /\ fetch_image E question s1 = (Returned img, s2)
    /\ db_log s2 = db_log s /\ db_calls s2 = db_calls s
    /\ parent_record_of question parent
    /\ save_multi_option_event E event question options end_date
         description s = (Returned b, s')
    /\ db_log s' = db_log s ++ evs
    /\ item_run E question (regular_child E event end_date description)
         options parent s2 evs.
Proof.
  destruct (quiet_default_rules E s) as (rl & s1 & H1 & (Hc1 & Hd1 & _)).
  destruct (quiet_fetch_image E question s1)
    as (img & s2 & H2 & (Hc2 & Hd2 & _)).
  destruct (parent_init_regular E event question end_date description rl img)
    as (doc & Hdoc & Hparent).
  assert (Hd : db_log s2 = db_log s) by congruence.
  assert (Hc : db_calls s2 = db_calls s) by congruence.
  exists rl, s1, img, s2, doc.
  unfold save_multi_option_event, try_except.
  rewrite run_bind, H1. cbv beta iota.
  rewrite run_bind, H2. cbv beta iota.
  rewrite run_bind, Hdoc. unfold lift at 1. cbv beta iota.
  rewrite run_bind, save_event_exact. unfold item_run.
  destruct (inserted_id (db_script E (db_calls s2))) as [pid|].
  - cbv beta iota. cbn [dict_truthy success_response negb].
    rewrite run_bind, inserted_id_of_success. cbv beta iota.
    destruct (children_and_patch_exact E question
                (regular_child E event end_date description) pid options
                (stored (insert_events (db_script E (db_calls s2)) doc) s2)
                (regular_child_by_title E event end_date description))
      as (b & s' & fevs & Hrun & Hlog & Hfan).
    rewrite Hrun. exists b, s'. eexists.
    split; [reflexivity|]. split; [reflexivity|].
    split; [exact Hd|]. split; [exact Hc|]. split; [exact Hparent|].
    split; [reflexivity|].
    split; [rewrite Hlog, stored_db_log, Hd, <- app_assoc; reflexivity|].
    exists fevs. split; [exact Hfan | reflexivity].
  - rewrite run_bind, run_log. cbv beta iota.
    eexists. eexists. eexists.
    split; [reflexivity|]. split; [reflexivity|].
    split; [exact Hd|]. split; [exact Hc|]. split; [exact Hparent|].
    split; [reflexivity|].
    split; [cbn; rewrite Hd; reflexivity | reflexivity].
Qed.

(** A whole item of the sports path, exactly. *)
Lemma process_null_team_event_exact (E : env) (event : null_team_event)
    (category_id : option ObjectId) (s : state) :
  exists gq prob1 prob2 desc s0 rl s1 img s2,
    generate_multiple_question E (DEFAULT_RETRY_COUNT E)
      (DEFAULT_RETRY_DELAY E) s = (Returned (gq, prob1, prob2, desc), s0)
    /\ default_rules E s0 = (Returned rl, s1)
    /\ fetch_image E (match gq with Some q => q | None => [] end) s1
       = (Returned img, s2)
    /\ db_log s2 = db_log s /\ db_calls s2 = db_calls s
    /\ if truthy_opt gq && truthy_opt (formatted_date event) then
         match EventData_init E false true (Some (key event)) category_id
                 None true gq
                 (match formatted_date event with
                  | Some d => EndStr d | None => EndNone end)
                 desc rl None None img None with
         | Raised e =>
             process_null_team_event E event category_id s = (Raised e, s2)
         | Returned parent =>
             exists options r s' evs,
               prob1 = Some options
               /\ parent_record_of
                    (match gq with Some q => q | None => [] end) parent
               /\ process_null_team_event E event category_id s = (r, s')
               /\ match inserted_id (db_script E (db_calls s2)) with
                  | Some _ => exists b, r = Returned b
                  | None => r = Raised RuntimeError
                  end
               /\ db_log s' = db_log s ++ evs
               /\ item_run E (match gq with Some q => q | None => [] end)
                    (null_team_child E event category_id desc) options
                    parent s2 evs
         end
       else
         exists s',
           process_null_team_event E event category_id s
           = (Returned false, s')
           /\ db_log s' = db_log s.
Proof.
  destruct (quiet_generate_multiple_question E (DEFAULT_RETRY_COUNT E)
              (DEFAULT_RETRY_DELAY E) s)
    as ([[[gq prob1] prob2] desc] & s0 & H0 & (Hc0 & Hd0 & _)).
  destruct (quiet_default_rules E s0) as (rl & s1 & H1 & (Hc1 & Hd1 & _)).
  destruct (quiet_fetch_image E (match gq with Some q => q | None => [] end) s1)
    as (img & s2 & H2 & (Hc2 & Hd2 & _)).
  assert (Hd : db_log s2 = db_log s) by congruence.
  assert (Hc : db_calls s2 = db_calls s) by congruence.
  exists gq, prob1, prob2, desc, s0, rl, s1, img, s2.
  split; [exact H0|]. split; [exact H1|]. split; [exact H2|].
  split; [exact Hd|]. split; [exact Hc|].
  unfold process_null_team_event. rewrite run_bind, H0. cbv beta iota.
  destruct (truthy_opt gq && truthy_opt (formatted_date event)) eqn:Hgo;
    cbn [negb].
  2:{ rewrite run_bind, run_log. cbv beta iota.
      eexists. split; [reflexivity|]. cbn. exact Hd0. }
  rewrite run_bind, H1. cbv beta iota.
  rewrite run_bind, H2. cbv beta iota.
  rewrite run_bind. unfold lift at 1.
  destruct (EventData_init E false true (Some (key event)) category_id None
              true gq
              (match formatted_date event with
               | Some d => EndStr d | None => EndNone end)
              desc rl None None img None) as [doc|e] eqn:Hdoc;
    [|reflexivity].
  pose proof (parent_init_null_team E _ _ _ _ _ _ _ doc Hdoc) as Hparent.
  assert (Hopts : exists options, prob1 = Some options).
  { destruct (generate_multiple_question_returned_valid E _ _ s _ s0 H0)
      as [Hnone|(q & l & d & Heq & _)].
    - injection Hnone as -> _ _ _. discriminate.
    - injection Heq as _ -> _ _. exists l. reflexivity. }
  destruct Hopts as (options & ->). exists options.
  cbv beta iota. rewrite run_bind, save_event_exact. unfold item_run.
  destruct (inserted_id (db_script E (db_calls s2))) as [pid|].
  - cbv beta iota. cbn [dict_truthy success_response negb].
    rewrite run_bind, inserted_id_of_success. cbv beta iota.
    destruct (children_and_patch_exact E
                (match gq with Some q => q | None => [] end)
                (null_team_child E event category_id desc) pid options
                (stored (insert_events (db_script E (db_calls s2)) doc) s2)
                (null_team_child_by_title E event category_id gq desc rl img
                   doc Hdoc))
      as (b & s' & fevs & Hrun & Hlog & Hfan).
    rewrite Hrun. eexists. exists s'. eexists.
    split; [reflexivity|]. split; [exact Hparent|]. split; [reflexivity|].
    split; [exists b; reflexivity|].
    split; [rewrite Hlog, stored_db_log, Hd, <- app_assoc; reflexivity|].
    exists fevs. split; [exact Hfan | reflexivity].
  - eexists. eexists. eexists.
    split; [reflexivity|]. split; [exact Hparent|]. split; [reflexivity|].
    split; [reflexivity|].
    split; [cbn; rewrite Hd; reflexivity | reflexivity].
Qed.

(** What the relation of the loop says in numbers: at most one child
    insert per option, no update, and exactly one entry, in order, for
    each insert the store accepted, carrying the identity it gave. *)
Lemma children_run_read (E : env) (question : str)
    (build_child : option_entry -> option str -> option str -> option str ->
                   result EventData)
    (options : list option_entry) (s : state) (cevs : list db_event)
    (updated : list OptionData) (s' : state) :
  children_run E question build_child options s cevs updated s' ->
  inserts cevs <= length options
  /\ updates cevs = 0
  /\ map od_market updated = map Some (saved_ids cevs).
Proof.
  induction 1 as [s|opt rest s t s0 evs r s1 evs' rs s2 Hf Hout Hrun Hch IH].
  - repeat split; cbn; lia.
  - destruct IH as (Hi & Hu & Hm).
    assert (Hone : inserts evs <= 1 /\ updates evs = 0
                   /\ map od_market (match r with
                                     | Some od => [od] | None => [] end)
                      = map Some (saved_ids evs)).
    { destruct Hout as [|t doc Hrec Ht]; [repeat split; cbn; lia|].
      unfold insert_events, inserted_id.
      destruct (ans_coll (db_script E (db_calls s)));
        try (repeat split; cbn; lia).
      destruct (ans_insert (db_script E (db_calls s)));
        repeat split; cbn; lia. }
    destruct Hone as (Hi1 & Hu1 & Hm1).
    assert (Hins : forall a b, inserts (a ++ b) = inserts a + inserts b).
    { intros a b. induction a as [|[c|d i|p o u] a IHa]; cbn; lia. }
    assert (Hupd : forall a b, updates (a ++ b) = updates a + updates b).
    { intros a b. induction a as [|[c|d i|p o u] a IHa]; cbn; lia. }
    assert (Hsav : forall a b, saved_ids (a ++ b) = saved_ids a ++ saved_ids b).
    { intros a b. induction a as [|[c|d [i|]|p o u] a IHa]; cbn;
        try rewrite IHa; reflexivity. }
    rewrite Hins, Hupd, Hsav, map_app, <- Hm, <- Hm1. cbn [length].
    split; [lia|]. split; [lia|]. destruct r; reflexivity.
Qed.

(** C2 (amended).  What the store sees of a multi-option item, in both
    persisters, step by step.  The parent record is sent first, to the next
    answer of the store; when the collection is not handed out or the
    insert fails, nothing else is written: no child, no patch.  When the
    insert succeeds the options are gone through in order, each from the
    state the one before it left, whatever its outcome was: without a
    follow-up question for the option the store sees nothing of it; with
    one it sees the connection and, when the collection is handed out,
    exactly one insert of the child record under that title.  After the
    last option, when at least one child insert succeeded, the store sees
    one more connection and, when the collection is handed out, exactly
    one update of the parent, which carries exactly the entries of the
    options whose insert succeeded, in order, each with the identity the
    store gave; when none succeeded, nothing more.  [save_multi_option_event]
    never raises.  [process_null_team_event] does the same with the
    question and the options of the model; it writes nothing when it has
    no question or no date, or when the parent record cannot be built,
    and it raises only then or when the parent insert did not succeed. *)
Theorem C2_hierarchy_persistence (E : env) :
  (forall event question options end_date description s,
      exists rl s1 img s2 parent b s' evs,
        default_rules E s = (Returned rl, s1)
        /\ fetch_image E question s1 = (Returned img, s2)
        /\ db_log s2 = db_log s /\ db_calls s2 = db_calls s
        /\ parent_record_of question parent
        /\ save_multi_option_event E event question options end_date
             description s = (Returned b, s')
        /\ db_log s' = db_log s ++ evs
        /\ item_run E question (regular_child E event end_date description)
             options parent s2 evs)
  /\ (forall event category_id s,
         exists gq prob1 prob2 desc s0 rl s1 img s2,
           generate_multiple_question E (DEFAULT_RETRY_COUNT E)
             (DEFAULT_RETRY_DELAY E) s
           = (Returned (gq, prob1, prob2, desc), s0)
           /\ default_rules E s0 = (Returned rl, s1)
           /\ fetch_image E (match gq with Some q => q | None => [] end) s1
              = (Returned img, s2)
           /\ db_log s2 = db_log s /\ db_calls s2 = db_calls s
           /\ if truthy_opt gq && truthy_opt (formatted_date event) then
                match EventData_init E false true (Some (key event))
                        category_id None true gq
                        (match formatted_date event with
                         | Some d => EndStr d | None => EndNone end)
                        desc rl None None img None with
                | Raised e =>
                    process_null_team_event E event category_id s
                    = (Raised e, s2)
                | Returned parent =>
                    exists options r s' evs,
                      prob1 = Some options
                      /\ parent_record_of
                           (match gq with Some q => q | None => [] end) parent
                      /\ process_null_team_event E event category_id s
                         = (r, s')
                      /\ match inserted_id (db_script E (db_calls s2)) with
                         | Some _ => exists b, r = Returned b
                         | None => r = Raised RuntimeError
                         end
                      /\ db_log s' = db_log s ++ evs
                      /\ item_run E
                           (match gq with Some q => q | None => [] end)
                           (null_team_child E event category_id desc)
                           options parent s2 evs
                end
              else
                exists s',
                  process_null_team_event E event category_id s
                  = (Returned false, s')
                  /\ db_log s' = db_log s)
  /\ (forall question build_child options s cevs updated s',
         children_run E question build_child options s cevs updated s' ->
         inserts cevs <= length options
         /\ updates cevs = 0
         /\ map od_market updated = map Some (saved_ids cevs)).
Proof.
  split; [|split].
  - intros event question options end_date description s.
    apply save_multi_option_event_exact.
  - intros event category_id s. apply process_null_team_event_exact.
  - intros question build_child options s cevs updated s' H.
    apply (children_run_read E question build_child options s cevs updated
             s' H).
Qed.
